(* ===== verification/_CoqProject ===== *)
-Q . S2P
Prelude.v
Balance.v
UserAccount.v
Ledger.v
LedgerCommit.v
FastUlid.v
OrderModels.v
BTree.v
OrderBook.v
Bytes.v
EngineOutput.v
MatchingEngine.v
EngineProofs.v
UbsParts.v
WalRecord.v
LedgerWal.v
LedgerWalProofs.v
UbsWal.v
UbsWalProofs.v
UbsCore.v
UbsCoreProofs.v
UbsComm.v
UbsCommProofs.v
UbsTypes.v
Transfer.v
TransferProofs.v
TransferRuns.v
SettlementDb.v
SettlementDbProofs.v
Settlement.v
SettlementProofs.v
SettlementFaults.v
SymbolManager.v
EngineServer.v
EngineServerProofs.v
EnginePipeline.v
TigerBeetle.v
TigerBeetleProofs.v
TransferAdapters.v
AdapterProofs.v
AeronChannel.v
AeronChannelProofs.v
UbsClient.v
UbsClientProofs.v
UbsService.v
Decimal.v
ClientOrder.v
ClientOrderProofs.v
SettlementReads.v
SettlementReadsProofs.v
Gateway.v
GatewayProofs.v
GatewayTransfers.v
Utilities.v
OrderWal.v
OrderWalProofs.v
OrderHistory.v
OrderHistoryProofs.v
Monitoring.v
MonitoringProofs.v
UbsKafka.v
UbsKafkaProofs.v
TransferService.v
TransferServiceProofs.v
SettlementEvents.v
Reconcile.v
ReconcileProofs.v
KafkaInput.v
KafkaInputProofs.v
AeronConnect.v
AeronConnectProofs.v
ServerStart.v
