(* ===== verification/Prelude.v ===== *)
(** * Verification library of the trading back end (crate [fetcher])

    The program is the back end of an exchange: users' balances, an order book
    with a matching engine, the ledgers and logs that make them durable, the
    services that carry orders in and results out, and the one that moves money
    between the funding and the trading accounts.  This library models its core
    from the source and proves what each part promises.  Names follow the
    source; a comment names the Rust item where the name differs.

    ** How the program is put together, and where each part is

    A client's order reaches the balance authority ([src/src/ubs_core/]), which
    refuses duplicates, locks the funds, writes the order to its log and only
    then answers; it forwards the order to a queue.  The engine's process
    ([bin/matching_engine_server.rs]) takes it from there, matches it on the
    order book ([matching_engine_base.rs]) and publishes a bundle
    ([engine_output.rs]) of trades and balance deltas, chained by hashes.  The
    settlement service ([bin/settlement_service.rs]) checks the chain and writes
    the bundles and what is derived from them to its database
    ([db/settlement_db.rs]).  The ledger ([ledger.rs]) applies matches to
    accounts ([user_account.rs], [enforced_balance.rs]) and keeps them
    recoverable.  Transfers between the two account systems are a state machine
    of their own ([src/src/transfer/]).

    - [Prelude]: machine integers and build profiles, the error-and-state monad,
      outcomes of runs, assertions that computations preserve (the class
      [Preserves]), arithmetic tactics, hint databases, list lemmas.
    - [Balance], [UserAccount]: [enforced_balance.rs], [user_account.rs].  A
      [Balance] is a record, every method a monadic function over it; the
      abstract specification is a two-counter machine ([balance_method_refines]).
    - [Ledger], [LedgerCommit]: [ledger.rs], [null_ledger.rs].  Commands, the
      trait [Ledger] as a class with its three implementations, the shadow
      ledger, batch commit, recovery.  The log is the class [WalOps], of which
      nothing is assumed, the listener the class [LedgerListener].
    - [LedgerWal], [LedgerWalProofs]: the files of [ledger.rs] byte by byte:
      segments, rolling, the reader, file names, snapshots, and the opening of a
      ledger; the rolling log, the only one of the program, is an instance of
      [WalOps].
    - [FastUlid]: [fast_ulid.rs]; the clock is an argument, the random numbers a
      generator whose answers are arbitrary.
    - [OrderModels], [BTree], [OrderBook]: [order_models.rs] and the order book of
      [matching_engine_base.rs].  [BTree] is the sorted association list that
      stands for [BTreeMap].
    - [Bytes], [EngineOutput]: [engine_output.rs]; hashes and checksums are the
      class [Digests].
    - [MatchingEngine], [EngineProofs]: the engine of [matching_engine_base.rs],
      generic in the ledger; its order log is the class [OrderLog].
    - [UbsParts], [UbsCore], [UbsCoreProofs]: [ubs_core/error.rs], [order.rs],
      [risk.rs], [dedup.rs], [debt.rs], [fee.rs], [events.rs] and [core.rs].
    - [WalRecord], [UbsWal], [UbsWalProofs]: [common_utils.rs] and
      [ubs_core/wal/]; a file carries the bytes that survive a power loss and a
      script of the faults its system calls will meet.
    - [UbsComm], [UbsCommProofs], [UbsTypes]: [ubs_core/comm/], the wire messages
      and the handler, one by one and in batches; [UbsTypes] checks the model:
      nothing that arrives takes an amount, a [Z] here, out of its machine type.
    - [Transfer], [TransferProofs], [TransferRuns]: [src/src/transfer/].  The
      coordinator's asynchronous methods are programs over the operations they
      await; executions interleave any number of workers, lose answers and kill
      workers anywhere.
    - [SettlementDb], [SettlementDbProofs]: [db/settlement_db.rs].  Tables are
      finite maps under the keys of the schema; a statement may be lost with any
      part of its rows written.
    - [Settlement], [SettlementProofs], [SettlementFaults]:
      [bin/settlement_service.rs]: the check of the chain, the write of the log,
      the dispatch to the writers of the derived tables.
    - [SettlementReads], [SettlementReadsProofs], [SettlementEvents]: the queries
      of [db/settlement_db.rs], and the statements that only tools use.
    - [Reconcile], [ReconcileProofs]: [reconciliation.rs] and the two binaries
      that compare the backup file with the database.
    - [SymbolManager], [Utilities]: [symbol_manager.rs], [utils/request_id.rs],
      [symbol_utils.rs].
    - [EngineServer], [EngineServerProofs], [EnginePipeline], [ServerStart]:
      [bin/matching_engine_server.rs]: the engine it starts with, the poll loop,
      the guard against repetitions, the matcher, and the ring buffer with its
      three threads as a step relation.
    - [KafkaInput], [KafkaInputProofs]: how that process and the settlement
      service turn what a queue gives into batches.
    - [TigerBeetle], [TigerBeetleProofs]: [ubs_core/tigerbeetle.rs], the shadow
      ledger; the client is the class [TbClient], what its documentation
      promises [TbLaws].
    - [TransferAdapters], [AdapterProofs]: [transfer/adapters/], the services
      behind transfers, and the mock of the cluster.
    - [AeronChannel], [AeronChannelProofs]: requests and responses between any
      number of callers and a server, over a network that loses messages, on a
      channel that is alone on its streams or, as the services open them, among
      others;
      [AeronConnect], [AeronConnectProofs]: how the sides are connected.
    - [UbsClient], [UbsClientProofs]: the clients of the balance authority, and
      transfers into it end to end.
    - [UbsService]: [bin/ubscore_aeron_service.rs]; [UbsKafka],
      [UbsKafkaProofs]: the older process [bin/ubscore_service.rs].
    - [Monitoring], [MonitoringProofs]: [ubs_core/metrics.rs], [health.rs];
      updates of shared counters are steps of threads, with relaxed loads.
    - [Decimal], [ClientOrder], [ClientOrderProofs]: [models/balance_manager.rs],
      [models/client_order.rs], [client_order_convertor.rs].
    - [Gateway], [GatewayProofs], [GatewayTransfers]: the handlers of
      [gateway.rs].
    - [TransferService], [TransferServiceProofs]: the endless loop of the
      transfer worker, and [bin/internal_transfer_service.rs].
    - [OrderWal], [OrderWalProofs]: [order_wal.rs]; the generated code of the
      flatbuffers is the class [FrameCodec].
    - [OrderHistory], [OrderHistoryProofs]: [db/order_history_db.rs] and its two
      writers, one sequential, one that sends its requests in parallel.

    ** What the theorems show

    - From the queue of orders to settlement, over any interleaving of the
      engine's threads and any repeated delivery, each output of a sequential
      engine is settled once and in order: [orders_settled_once], put together
      from [matcher_serves_once], [pipeline_refines_sequential] and
      [settlement_exactly_once].  This is within one run of each process, for
      fewer than the 100,000 requests the engine's tracker remembers and while
      no send fails; what a restart or a failed send breaks is listed below.
    - Money is conserved: [balance_history_conserves],
      [apply_transaction_conserves], [bundle_conserves_assets],
      [settle_trade_conserves], [ledger_history_adds_up], and [transfer_safe]
      across two services that keep the contract of their trait (one adapter of
      the program does not: [retried_deposit_multiplies_funds]); the gateway
      keeps it exactly as long as its messages are accepted
      ([transfer_out_conserves_iff_accepted]), the history of orders adds up
      while its database answers ([fills_add_up]), orders that are forwarded are
      funded ([forwarded_orders_are_funded]).
    - The optimised code does what its simple reference does:
      [balance_method_refines], [commit_batch_atomic], [add_order_refines],
      [bundle_reports_matching], [batch_serves_each], [coordinator_refines_fsm],
      [parallel_update_agrees], [concurrent_records_linearise],
      [batches_are_the_stream].
    - What was acknowledged is found again: [first_session_recovered] from the
      requests to the ledger down to the bytes of its first segment and back,
      [accepted_orders_durable] whatever the system calls answer,
      [group_commit_durable], [torn_log_prefix],
      [wal_record_roundtrip], [transfer_row_roundtrip], [order_over_the_wire],
      [order_log_recovers], [order_roundtrip], [amount_roundtrip],
      [ledger_events_roundtrip].
    - Parts that talk to each other agree: [funding_adapter_contract],
      [response_is_the_callers], [internal_transfer_reported],
      [gateway_meets_service], [server_starts_clean].
    - Invariants of the states: [add_order_preserves_wf], [outputs_form_chain],
      [snow_run_increasing], [dedup_no_duplicates].
    - Loops end: [replay_terminates]; [process_transfer_terminates] and one turn
      of the transfer worker ([worker_cycle_catches_up]), for services that
      answer definitely; and the matching loop within [add_order_refines].
    - What the code does wrong is stated as exactly as what it does right:
      [refused_apply_poisons_log], [restart_hides_commands],
      [filled_taker_stays_active], [restored_symbols_unusable],
      [settle_trade_not_atomic], [refused_order_is_logged],
      [reopened_log_loses_entries], [mmap_reopen_overwrites],
      [large_balance_becomes_debt], [batch_cancel_overtakes],
      [deposit_applied_twice], [acknowledged_without_disk],
      [full_log_strands_funds], [trading_source_strands_funds],
      [orders_cannot_be_cancelled], [quiet_event_resends],
      [restart_settles_again], [restarted_engine_skipped],
      [lost_outputs_unnoticed], [failed_log_write_final],
      [engine_rows_overwritten], [order_released_once],
      [consecutive_requests_collide], [response_overtakes_registration],
      [retried_deposit_multiplies_funds], [trade_history_misses_trades],
      [foreign_response_delivered], [stranded_stays],
      [reconciliation_compares_nothing], [surviving_snapshot_stops_server].

    ** Conventions

    Unsigned integers are [Z] in their range.  [checked_*] operators answer an
    option; plain [+ - *] are [op_add], [op_sub], [op_mul], which panic or wrap
    according to the class [BuildProfile], as [Cargo.toml] allows both.  A method
    on [&mut self] is a function of the state in the monad [M]; its error leaves
    the mutations already made; a panic leaves nothing.  A part of a state is
    reached with [zoom].

    Fuel: the matching loop gets one more than the number of opposite levels,
    every turn removes a level or fills the taker ([match_fuel]); log readers get
    one more than the number of bytes, every turn consumes at least one; the scan
    of a segment likewise, and stops behind the last byte written; re-reading a
    balance is tried four more times, as in the source.  Theorems
    about these loops prove that the fuel is enough.  [process_transfer],
    [process_now] and [run_cycles] are endless loops in the source; their fuel is
    the number of turns, and [worker_cycle_catches_up] says how many are enough.
    The receiving loops ([receive_all], [poll_all]) get the number of events.

    ** What is not modelled

    Third-party code is a parameter: bincode, serde, flatbuffers, rust_decimal,
    crc32fast, xxh3, md5, lz4, fs2, the TigerBeetle client, Kafka, Aeron and the
    disruptor, whose promise to keep the three threads in order is the guards of
    [pipeline_step].  ScyllaDB is the finite maps of [SettlementDb],
    [OrderHistory] and the transfers' table, with statements that may be lost.
    Configuration, logging, the set-up of clients and the HTTP servers are left
    out.  The services for pushing, indexing and storage ([centrifugo_*],
    [zmq_publisher.rs], [s3_service.rs], [scylla_service.rs],
    [starrocks_client.rs], [simple_kv_storage.rs]), the demonstrations and the
    test clients under [src/src/bin/] and [src/examples/] connect such clients to
    each other; the manifest lists them. *)

From Stdlib Require Export ZArith Lia.
From stdpp Require Export base tactics list gmap strings fin_maps.

#[local] Open Scope Z_scope.

(** ** Unsigned machine integers

    A [u64] is a [Z] in [0, 2^64); the range is an invariant, the wrap-around
    is written out in the operations. *)

Definition u64_max : Z := 18446744073709551615.
Definition u64_mod : Z := 18446744073709551616.

Definition is_u64 (x : Z) : Prop := 0 <= x <= u64_max.

(** [u64::checked_add] and its siblings. *)
Definition checked_add (x y : Z) : option Z :=
  if x + y <=? u64_max then Some (x + y) else None.

Definition checked_sub (x y : Z) : option Z :=
  if y <=? x then Some (x - y) else None.

Definition checked_mul (x y : Z) : option Z :=
  if x * y <=? u64_max then Some (x * y) else None.

Definition wrapping_add (x y : Z) : Z := (x + y) mod u64_mod.

Definition saturating_add (x y : Z) : Z := Z.min (x + y) u64_max.

Definition saturating_sub (x y : Z) : Z := Z.max (x - y) 0.

(** [x as u64], and [x as i64] for a [u64]. *)
Definition as_u64 (x : Z) : Z := x mod u64_mod.

Definition as_i64 (x : Z) : Z :=
  let r := x mod u64_mod in
  if r <? 9223372036854775808 then r else r - u64_mod.

(** [x as i32], [x as u32] and [x as u8]. *)
Definition as_i32 (x : Z) : Z :=
  let r := x mod 4294967296 in
  if r <? 2147483648 then r else r - 4294967296.

Definition as_u32 (x : Z) : Z := x mod 4294967296.

Definition as_u8 (x : Z) : Z := x mod 256.

(** ** Build profile

    Rust's plain [+], [-], [*] on [u64] panic on overflow when overflow checks
    are on (the dev profile) and wrap when they are off (the release profile).
    [Cargo.toml] sets neither, so both are possible: the profile is a
    parameter of every definition that uses a plain operator. *)

Class BuildProfile := overflow_checks : bool.

Definition debug_profile : BuildProfile := true.
Definition release_profile : BuildProfile := false.

Section arith.
Context {bp : BuildProfile}.

(** [None] is the panic. *)
Definition in_range (lo hi m x : Z) : option Z :=
  if (lo <=? x) && (x <=? hi) then Some x
  else if overflow_checks then None
  else Some ((x - lo) mod m + lo).

Definition u64_op (x : Z) : option Z := in_range 0 u64_max u64_mod x.

Definition i64_op (x : Z) : option Z :=
  in_range (-9223372036854775808) 9223372036854775807 u64_mod x.

Definition op_add (x y : Z) : option Z := u64_op (x + y).
Definition op_sub (x y : Z) : option Z := u64_op (x - y).
Definition op_mul (x y : Z) : option Z := u64_op (x * y).
End arith.

(** ** Effects

    A method that takes [&mut self] and returns a [Result<A, E>] is a
    function of the state; the state it leaves behind is part of the answer on
    the error path too, since [?] returns in the middle of the mutations
    already made.  A panic leaves nothing. *)

Inductive res (S E A : Type) : Type :=
  | Ok (a : A) (s : S)
  | Err (e : E) (s : S)
  | Panic.
Arguments Ok {S E A} a s.
Arguments Err {S E A} e s.
Arguments Panic {S E A}.

Definition M (S E A : Type) : Type := S -> res S E A.

Section monad.
Context {S E : Type}.

Definition ret {A} (a : A) : M S E A := fun s => Ok a s.

Definition bind {A B} (c : M S E A) (k : A -> M S E B) : M S E B :=
  fun s =>
    match c s with
    | Ok a s' => k a s'
    | Err e s' => Err e s'
    | Panic => Panic
    end.

Definition throw {A} (e : E) : M S E A := fun s => Err e s.
Definition panic {A} : M S E A := fun _ => Panic.
Definition get : M S E S := fun s => Ok s s.
Definition put (s : S) : M S E unit := fun _ => Ok tt s.
Definition modify (f : S -> S) : M S E unit := fun s => Ok tt (f s).

(** [Option::ok_or(e)?] *)
Definition ok_or {A} (o : option A) (e : E) : M S E A :=
  match o with Some a => ret a | None => throw e end.

(** [unwrap]/[expect], and the plain arithmetic operators. *)
Definition unwrap {A} (o : option A) : M S E A :=
  match o with Some a => ret a | None => panic end.

Section iter.
Context {X : Type} (f : X -> M S E unit).

(** [for x in l { f(x)?; }] *)
Fixpoint iter (l : list X) : M S E unit :=
  match l with
  | [] => ret tt
  | x :: l' => bind (f x) (fun _ => iter l')
  end.
End iter.
End monad.

(** [Result::map_err] *)
Definition map_err {S E E' A} (f : E -> E') (c : M S E A) : M S E' A :=
  fun s =>
    match c s with
    | Ok a s' => Ok a s'
    | Err e s' => Err (f e) s'
    | Panic => Panic
    end.

(** [Result::expect]: an error is a panic. *)
Definition expect {S E E' A} (c : M S E A) : M S E' A :=
  fun s =>
    match c s with
    | Ok a s' => Ok a s'
    | Err _ _ => Panic
    | Panic => Panic
    end.

(** [let _ = c;]: the error is dropped, its mutations are kept. *)
Definition ignore {S E E' A} (c : M S E A) : M S E' unit :=
  fun s =>
    match c s with
    | Ok _ s' => Ok tt s'
    | Err _ s' => Ok tt s'
    | Panic => Panic
    end.

(** [match c { Ok(a) => .., Err(e) => .. }]: the result is looked at. *)
Definition attempt {S E E' A} (c : M S E A) : M S E' (E + A) :=
  fun s =>
    match c s with
    | Ok a s' => Ok (inr a) s'
    | Err e s' => Ok (inl e) s'
    | Panic => Panic
    end.

(** Running a method of a part on the whole, through a mutable borrow. *)
Definition zoom {S T E A} (g : S -> option T) (p : T -> S -> S) (c : M T E A) : M S E A :=
  fun s =>
    match g s with
    | None => Panic
    | Some t =>
        match c t with
        | Ok a t' => Ok a (p t' s)
        | Err e t' => Err e (p t' s)
        | Panic => Panic
        end
    end.

Definition state_of {S E A} (r : res S E A) : option S :=
  match r with Ok _ s | Err _ s => Some s | Panic => None end.

Definition is_ok {S E A} (r : res S E A) : bool :=
  match r with Ok _ _ => true | _ => false end.

Definition res_map {S S' E A} (f : S -> S') (r : res S E A) : res S' E A :=
  match r with
  | Ok a s => Ok a (f s)
  | Err e s => Err e (f s)
  | Panic => Panic
  end.

Declare Scope rust_scope.
Delimit Scope rust_scope with rust.

Notation "'let*' x ':=' c 'in' k" := (bind c (fun x => k))
  (at level 10, x binder, c at level 100, k at level 200,
   format "'[v' 'let*'  x  ':='  c  'in' '/' k ']'") : rust_scope.
Notation "c ';;;' k" := (bind c (fun _ => k))
  (at level 100, k at level 200, right associativity,
   format "'[v' c  ';;;' '/' k ']'") : rust_scope.

#[local] Open Scope rust_scope.

(** ** Laws of the effects *)

Section monad_laws.
Context {S E : Type}.

Lemma bind_ret {A B} (a : A) (k : A -> M S E B) s : bind (ret a) k s = k a s.
Proof. done. Qed.

Lemma bind_ok {A B} (c : M S E A) (k : A -> M S E B) s a s' :
  c s = Ok a s' -> bind c k s = k a s'.
Proof. by unfold bind; intros ->. Qed.

Lemma bind_err {A B} (c : M S E A) (k : A -> M S E B) s e s' :
  c s = Err e s' -> bind c k s = Err e s'.
Proof. by unfold bind; intros ->. Qed.

Lemma bind_inv_ok {A B} (c : M S E A) (k : A -> M S E B) s b s' :
  bind c k s = Ok b s' -> exists a s1, c s = Ok a s1 /\ k a s1 = Ok b s'.
Proof. unfold bind. destruct (c s); naive_solver. Qed.

Lemma bind_assoc {A B C} (c : M S E A) (k : A -> M S E B) (h : B -> M S E C) s :
  bind (bind c k) h s = bind c (fun a => bind (k a) h) s.
Proof. unfold bind. by destruct (c s). Qed.

Lemma expect_inv_ok {E' A} (c : M S E' A) (s : S) a s' :
  expect (E' := E) c s = Ok a s' -> c s = Ok a s'.
Proof. unfold expect. destruct (c s); naive_solver. Qed.

Lemma map_err_inv_ok {E' A} (f : E' -> E) (c : M S E' A) (s : S) a s' :
  map_err f c s = Ok a s' -> c s = Ok a s'.
Proof. unfold map_err. destruct (c s); naive_solver. Qed.

Lemma iter_app {X} (f : X -> M S E unit) l1 l2 s :
  iter f (l1 ++ l2) s = bind (iter f l1) (fun _ => iter f l2) s.
Proof.
  revert s. induction l1 as [|x l1 IH]; intros s; [done|].
  simpl. unfold bind in *. destruct (f x s) as [[] s'|e s'|]; auto.
Qed.

(** A property of states that every element's run preserves, errors
    included, is preserved by the loop. *)
Lemma iter_invariant {X} (P : S -> Prop) (f : X -> M S E unit) l s :
  (forall x s0, x ∈ l -> P s0 -> forall s1, state_of (f x s0) = Some s1 -> P s1) ->
  P s -> forall s1, state_of (iter f l s) = Some s1 -> P s1.
Proof.
  revert s. induction l as [|x l IH]; intros s Hf HP s1; simpl.
  - by intros [= <-].
  - unfold bind. pose proof (Hf x s (list_elem_of_here _ _) HP) as Hx.
    destruct (f x s) as [[] s'|e s'|]; simpl; [|naive_solver..].
    apply IH; [|by apply Hx].
    intros y s0 Hy. apply Hf. by right.
Qed.
End monad_laws.

(** ** Outcomes

    What holds of a run that returns and of one that fails; a panic has no
    outcome. *)

Definition outcome {S E A} (r : res S E A) (Q : A -> S -> Prop) (X : E -> S -> Prop) : Prop :=
  match r with
  | Ok a s => Q a s
  | Err e s => X e s
  | Panic => True
  end.

Section outcomes.
Context {S E : Type}.

Lemma outcome_bind {A B} (c : M S E A) (k : A -> M S E B) s Q X :
  outcome (c s) (fun a s1 => outcome (k a s1) Q X) X -> outcome (bind c k s) Q X.
Proof. unfold bind. by destruct (c s). Qed.

Lemma outcome_mono {A} (r : res S E A) (Q Q' : A -> S -> Prop) (X X' : E -> S -> Prop) :
  outcome r Q X -> (forall a s, Q a s -> Q' a s) -> (forall e s, X e s -> X' e s) -> outcome r Q' X'.
Proof. destruct r; simpl; eauto. Qed.

Lemma outcome_unwrap {A} (o : option A) s (Q : A -> S -> Prop) X :
  (forall a, o = Some a -> Q a s) -> outcome (unwrap (E := E) o s) Q X.
Proof. destruct o; simpl; [|done]. intros HQ. by apply HQ. Qed.
End outcomes.

(** ** Preservation

    An assertion on states that a computation keeps on every path that leaves a
    state, errors included.  The instances follow the structure of a
    computation, so that a goal for a handler is left with its primitive
    operations. *)

Class Preserves {S E A} (P : S -> Prop) (m : M S E A) : Prop :=
  preserves s s' : P s -> state_of (m s) = Some s' -> P s'.

Section preservation.
Context {S E : Type} (P : S -> Prop).

#[export] Instance preserves_ret {A} (a : A) : Preserves (E := E) P (ret a).
Proof. by intros s s' Hs [= <-]. Qed.

#[export] Instance preserves_throw {A} (e : E) : Preserves (A := A) P (throw e).
Proof. by intros s s' Hs [= <-]. Qed.

#[export] Instance preserves_panic {A} : Preserves (E := E) (A := A) P panic.
Proof. by intros s s' Hs. Qed.

#[export] Instance preserves_get : Preserves (E := E) P get.
Proof. by intros s s' Hs [= <-]. Qed.

#[export] Instance preserves_ok_or {A} (o : option A) (e : E) : Preserves P (ok_or o e).
Proof. destruct o; apply _. Qed.

#[export] Instance preserves_unwrap {A} (o : option A) : Preserves (E := E) P (unwrap o).
Proof. destruct o; apply _. Qed.

#[export] Instance preserves_bind {A B} (m : M S E A) (k : A -> M S E B) :
  Preserves P m -> (forall a, Preserves P (k a)) -> Preserves P (bind m k).
Proof.
  intros Hm Hk s s' Hs. unfold bind.
  destruct (m s) as [a s1|e s1|] eqn:Hr; simpl; [|intros [= <-]|done].
  - apply Hk. eapply Hm; [exact Hs|by rewrite Hr].
  - eapply Hm; [exact Hs|by rewrite Hr].
Qed.

(** What is read has the assertion. *)
Lemma preserves_bind_get {A} (k : S -> M S E A) :
  (forall s, P s -> Preserves P (k s)) -> Preserves P (bind get k).
Proof. intros Hk s s' Hs. unfold bind, get. by apply Hk. Qed.

Lemma preserves_bind_unwrap {A B} (o : option A) (k : A -> M S E B) :
  (forall a, o = Some a -> Preserves P (k a)) -> Preserves P (bind (unwrap o) k).
Proof.
  intros Hk s s' Hs. unfold bind. destruct o as [a|]; simpl; [|done]. by apply (Hk a).
Qed.

Lemma preserves_bind_ok_or {A B} (o : option A) (e : E) (k : A -> M S E B) :
  (forall a, o = Some a -> Preserves P (k a)) -> Preserves P (bind (ok_or o e) k).
Proof.
  intros Hk s s' Hs. unfold bind. destruct o as [a|]; simpl; [by apply (Hk a)|by intros [= <-]].
Qed.

Lemma preserves_put s : P s -> Preserves (E := E) P (put s).
Proof. by intros Hs s1 s' _ [= <-]. Qed.

Lemma preserves_modify (f : S -> S) : (forall s, P s -> P (f s)) -> Preserves (E := E) P (modify f).
Proof. intros Hf s s' Hs [= <-]. by apply Hf. Qed.

#[export] Instance preserves_map_err {E' A} (f : E' -> E) (m : M S E' A) :
  Preserves P m -> Preserves P (map_err f m).
Proof.
  intros Hm s s' Hs. unfold map_err. pose proof (Hm s) as Hp.
  destruct (m s); simpl in *; try done; by apply Hp.
Qed.

#[export] Instance preserves_ignore {E' A} (m : M S E' A) :
  Preserves P m -> Preserves (E := E) P (ignore m).
Proof.
  intros Hm s s' Hs. unfold ignore. pose proof (Hm s) as Hp.
  destruct (m s); simpl in *; try done; by apply Hp.
Qed.

Lemma preserves_zoom {T A} (Q : T -> Prop) (g : S -> option T) (p : T -> S -> S) (m : M T E A) :
  (forall s t, P s -> g s = Some t -> Q t) -> (forall s t t', P s -> g s = Some t -> Q t' -> P (p t' s)) ->
  Preserves Q m -> Preserves P (zoom g p m).
Proof.
  intros Hg Hp Hm s s' Hs. unfold zoom. destruct (g s) as [t|] eqn:Ht; [|done].
  pose proof (fun t' => Hm t t' (Hg s t Hs Ht)) as Hq.
  destruct (m t) as [a t'|e t'|]; simpl in *; [intros [= <-]..|done]; eapply Hp; eauto.
Qed.

(** What a computation returns from a state with the assertion. *)
Definition yields {A} (Q : A -> Prop) (m : M S E A) : Prop :=
  forall s a s', P s -> m s = Ok a s' -> Q a.

Lemma preserves_bind_yields {A B} (Q : A -> Prop) (m : M S E A) (k : A -> M S E B) :
  Preserves P m -> yields Q m -> (forall a, Q a -> Preserves P (k a)) -> Preserves P (bind m k).
Proof.
  intros Hm Hq Hk s s' Hs. unfold bind. pose proof (Hm s) as Hp. specialize (Hq s).
  destruct (m s) as [a s1|e s1|]; simpl in *; [|intros [= <-]; by apply Hp|done].
  apply Hk; [by eapply Hq|by apply Hp].
Qed.
End preservation.

Lemma yields_zoom {S T E A} (P : S -> Prop) (R : T -> Prop) (g : S -> option T) (p : T -> S -> S)
    (Q : A -> Prop) (m : M T E A) :
  (forall s t, P s -> g s = Some t -> R t) -> yields R Q m -> yields P Q (zoom g p m).
Proof.
  intros Hg Hm s a s' Hs. unfold zoom. destruct (g s) as [t|] eqn:Ht; [|done].
  destruct (m t) as [x t'|e t'|] eqn:Hr; [|done|done]. intros [= <- _]. by eapply Hm; [eapply Hg|].
Qed.

(** ** Arithmetic automation *)

(** Case analysis on the boolean comparisons of the goal and the context. *)
Ltac zcase :=
  match goal with
  | |- context [?x <=? ?y] => destruct (Z.leb_spec x y)
  | |- context [?x <? ?y] => destruct (Z.ltb_spec x y)
  | |- context [?x =? ?y] => destruct (Z.eqb_spec x y)
  | H : context [?x <=? ?y] |- _ => destruct (Z.leb_spec x y)
  | H : context [?x <? ?y] |- _ => destruct (Z.ltb_spec x y)
  | H : context [?x =? ?y] |- _ => destruct (Z.eqb_spec x y)
  end.

Ltac zcases := repeat (zcase; simpl in *; try (exfalso; lia); try lia).

(** Unfolds the machine-integer vocabulary and calls [lia]. *)
Ltac ulia :=
  unfold is_u64, saturating_add, saturating_sub, u64_max, u64_mod in *; lia.

Lemma checked_add_Some x y z : checked_add x y = Some z <-> z = x + y /\ x + y <= u64_max.
Proof. unfold checked_add. zcases; naive_solver lia. Qed.

Lemma checked_sub_Some x y z : checked_sub x y = Some z <-> z = x - y /\ y <= x.
Proof. unfold checked_sub. zcases; naive_solver lia. Qed.

Lemma checked_mul_Some x y z : checked_mul x y = Some z <-> z = x * y /\ x * y <= u64_max.
Proof. unfold checked_mul. zcases; naive_solver lia. Qed.

Lemma wrapping_add_u64 x y : is_u64 (wrapping_add x y).
Proof. unfold wrapping_add, is_u64. pose proof (Z.mod_pos_bound (x + y) u64_mod). ulia. Qed.

Lemma u64_op_exact {bp : BuildProfile} x : is_u64 x -> u64_op x = Some x.
Proof.
  intros Hx. unfold u64_op, in_range.
  destruct (Z.leb_spec 0 x), (Z.leb_spec x u64_max); simpl; ulia || done.
Qed.

Lemma u64_op_u64 {bp : BuildProfile} x y : u64_op x = Some y -> is_u64 y.
Proof.
  unfold u64_op, in_range.
  destruct (Z.leb_spec 0 x), (Z.leb_spec x u64_max); simpl;
    [by intros [= <-]|destruct overflow_checks; [done|]..];
    intros [= <-]; pose proof (Z.mod_pos_bound (x - 0) u64_mod); ulia.
Qed.

Lemma as_u64_id x : is_u64 x -> as_u64 x = x.
Proof. intros. unfold as_u64. apply Z.mod_small. ulia. Qed.

Lemma as_i64_id x : 0 <= x < 9223372036854775808 -> as_i64 x = x.
Proof.
  intros Hx. unfold as_i64. rewrite Z.mod_small by ulia.
  destruct (Z.ltb_spec x 9223372036854775808); [done|lia].
Qed.

Lemma as_u64_i64 x : is_u64 x -> as_u64 (as_i64 x) = x.
Proof.
  intros Hx. unfold as_u64, as_i64. rewrite (Z.mod_small x) by ulia.
  destruct (Z.ltb_spec x 9223372036854775808); [apply Z.mod_small; ulia|].
  symmetry. apply (Z.mod_unique _ _ (-1)); ulia.
Qed.

Lemma as_u32_i32 x : 0 <= x < 4294967296 -> as_u32 (as_i32 x) = x.
Proof.
  intros Hx. unfold as_u32, as_i32. rewrite (Z.mod_small x) by lia.
  destruct (Z.ltb_spec x 2147483648); [apply Z.mod_small; lia|].
  symmetry. apply (Z.mod_unique _ _ (-1)); lia.
Qed.

Lemma i64_op_exact {bp : BuildProfile} x :
  -9223372036854775808 <= x <= 9223372036854775807 -> i64_op x = Some x.
Proof.
  intros Hx. unfold i64_op, in_range.
  destruct (Z.leb_spec (-9223372036854775808) x), (Z.leb_spec x 9223372036854775807); simpl; lia || done.
Qed.

Create HintDb u64.
#[export] Hint Resolve wrapping_add_u64 u64_op_exact u64_op_u64 as_u64_id : u64.
#[export] Hint Extern 1 (is_u64 _) => ulia : u64.

(** ** Lists *)

(** [iter().position(p)] *)
Fixpoint position {A} (p : A -> bool) (l : list A) : option nat :=
  match l with
  | [] => None
  | x :: l' => if p x then Some 0%nat else S <$> position p l'
  end.

Lemma position_Some {A} (p : A -> bool) l i :
  position p l = Some i ->
  exists x, l !! i = Some x /\ p x = true /\ forall j y, (j < i)%nat -> l !! j = Some y -> p y = false.
Proof.
  revert i. induction l as [|x l IH]; intros i; simpl; [done|].
  destruct (p x) eqn:Hp.
  - intros [= <-]. exists x. repeat split; [done|]. intros; lia.
  - destruct (position p l) as [k|] eqn:Hk; [|done]. intros [= <-].
    destruct (IH k eq_refl) as (y & Hy & Hpy & Hlt). exists y.
    repeat split; [done..|]. intros [|j] z Hj; simpl; [congruence|].
    apply Hlt. lia.
Qed.

Lemma position_None {A} (p : A -> bool) l :
  position p l = None <-> Forall (fun x => p x = false) l.
Proof.
  induction l as [|x l IH]; simpl; [by split|].
  destruct (p x) eqn:Hp.
  - split; [done|]. inversion 1. congruence.
  - rewrite fmap_None, IH, Forall_cons. naive_solver.
Qed.

(** [iter().find(p)] *)
Definition find_by {A} (p : A -> bool) (l : list A) : option A :=
  match position p l with Some i => l !! i | None => None end.

Definition sum_list (l : list Z) : Z := foldr Z.add 0 l.

Lemma sum_list_app l1 l2 : sum_list (l1 ++ l2) = sum_list l1 + sum_list l2.
Proof. induction l1; simpl; lia. Qed.

Lemma sum_list_nonneg l : Forall (fun x => 0 <= x) l -> 0 <= sum_list l.
Proof. induction 1; simpl; lia. Qed.

Lemma sum_list_elem l x : Forall (fun x => 0 <= x) l -> x ∈ l -> x <= sum_list l.
Proof.
  induction 1 as [|y l Hy Hl IH]; [by intros ?%not_elem_of_nil|].
  pose proof (sum_list_nonneg l Hl). intros [->|Hx]%elem_of_cons; simpl; [lia|].
  specialize (IH Hx). lia.
Qed.

Create Rewrite HintDb sums.
#[export] Hint Rewrite sum_list_app : sums.
