(* ===== verification/Balance.v ===== *)
(** * The enforced balance type ([src/src/enforced_balance.rs])

    [Balance] is the record behind every balance of the system; its fields are
    private and change only through the methods below.  Each method is a
    computation of the monad [M Balance string]: the state it leaves on the
    error path is the one the Rust code leaves in [*self]. *)

From S2P Require Import Prelude.

#[local] Open Scope string_scope.
#[local] Open Scope list_scope.
#[local] Open Scope Z_scope.
#[local] Open Scope rust_scope.

Record Balance := mkBalance { avail : Z; frozen : Z; version : Z }.

#[export] Instance Balance_eq_dec : EqDecision Balance.
Proof. solve_decision. Defined.

Definition default_balance : Balance := {| avail := 0; frozen := 0; version := 0 |}.

Definition total (b : Balance) : Z := saturating_add (avail b) (frozen b).

Definition set_avail (x : Z) (b : Balance) : Balance :=
  {| avail := x; frozen := frozen b; version := version b |}.
Definition set_frozen (x : Z) (b : Balance) : Balance :=
  {| avail := avail b; frozen := x; version := version b |}.
Definition set_version (x : Z) (b : Balance) : Balance :=
  {| avail := avail b; frozen := frozen b; version := x |}.

(** [self.version = self.version.wrapping_add(1)] *)
Definition bump_version : M Balance string unit :=
  modify (fun b => set_version (wrapping_add (version b) 1) b).

Definition add_avail (amount : Z) (err : string) : M Balance string unit :=
  let* b := get in
  let* x := ok_or (checked_add (avail b) amount) err in
  put (set_avail x b).

Definition sub_avail (amount : Z) (err : string) : M Balance string unit :=
  let* b := get in
  let* x := ok_or (checked_sub (avail b) amount) err in
  put (set_avail x b).

Definition add_frozen (amount : Z) (err : string) : M Balance string unit :=
  let* b := get in
  let* x := ok_or (checked_add (frozen b) amount) err in
  put (set_frozen x b).

Definition sub_frozen (amount : Z) (err : string) : M Balance string unit :=
  let* b := get in
  let* x := ok_or (checked_sub (frozen b) amount) err in
  put (set_frozen x b).

(** [if cond { return Err(err) }] on the current state. *)
Definition guard (fails : Balance -> bool) (err : string) : M Balance string unit :=
  let* b := get in
  if fails b then throw err else ret tt.

Definition deposit (amount : Z) : M Balance string unit :=
  add_avail amount "Deposit overflow" ;;;
  bump_version.

Definition withdraw (amount : Z) : M Balance string unit :=
  guard (fun b => avail b <? amount) "Insufficient funds" ;;;
  sub_avail amount "Withdraw underflow" ;;;
  bump_version.

Definition lock (amount : Z) : M Balance string unit :=
  guard (fun b => avail b <? amount) "Insufficient funds to lock" ;;;
  sub_avail amount "Lock avail underflow" ;;;
  add_frozen amount "Lock frozen overflow" ;;;
  bump_version.

Definition unlock (amount : Z) : M Balance string unit :=
  guard (fun b => frozen b <? amount) "Insufficient frozen funds" ;;;
  sub_frozen amount "Unlock frozen underflow" ;;;
  add_avail amount "Unlock avail overflow" ;;;
  bump_version.

Definition spend_frozen (amount : Z) : M Balance string unit :=
  guard (fun b => frozen b <? amount) "Insufficient frozen funds" ;;;
  sub_frozen amount "Spend frozen underflow" ;;;
  bump_version.

Definition refund_frozen (spend refund : Z) : M Balance string unit :=
  guard (fun b => frozen b <? spend) "Insufficient frozen for refund" ;;;
  sub_frozen spend "Refund frozen underflow" ;;;
  add_avail refund "Refund avail overflow" ;;;
  bump_version.

(** ** Functional behaviour

    One equation per method, covering every branch; they are the only lemmas
    about the methods that the other files use. *)

Ltac balance_method := unfold guard, add_avail, sub_avail, add_frozen, sub_frozen, bump_version,
  set_avail, set_frozen, set_version, ok_or, checked_add, checked_sub, bind, get, put, modify,
  ret, throw; simpl; zcases; done.

Definition stamp (a f : Z) (b : Balance) : Balance :=
  {| avail := a; frozen := f; version := wrapping_add (version b) 1 |}.

Lemma deposit_eq x b :
  deposit x b =
  if avail b + x <=? u64_max then Ok tt (stamp (avail b + x) (frozen b) b)
  else Err "Deposit overflow" b.
Proof. unfold deposit. balance_method. Qed.

Lemma withdraw_eq x b :
  withdraw x b =
  if x <=? avail b then Ok tt (stamp (avail b - x) (frozen b) b)
  else Err "Insufficient funds" b.
Proof. unfold withdraw. balance_method. Qed.

Lemma lock_eq x b :
  lock x b =
  if x <=? avail b then
    if frozen b + x <=? u64_max then Ok tt (stamp (avail b - x) (frozen b + x) b)
    else Err "Lock frozen overflow" (set_avail (avail b - x) b)
  else Err "Insufficient funds to lock" b.
Proof. unfold lock. balance_method. Qed.

Lemma unlock_eq x b :
  unlock x b =
  if x <=? frozen b then
    if avail b + x <=? u64_max then Ok tt (stamp (avail b + x) (frozen b - x) b)
    else Err "Unlock avail overflow" (set_frozen (frozen b - x) b)
  else Err "Insufficient frozen funds" b.
Proof. unfold unlock. balance_method. Qed.

Lemma spend_frozen_eq x b :
  spend_frozen x b =
  if x <=? frozen b then Ok tt (stamp (avail b) (frozen b - x) b)
  else Err "Insufficient frozen funds" b.
Proof. unfold spend_frozen. balance_method. Qed.

Lemma refund_frozen_eq s r b :
  refund_frozen s r b =
  if s <=? frozen b then
    if avail b + r <=? u64_max then Ok tt (stamp (avail b + r) (frozen b - s) b)
    else Err "Refund avail overflow" (set_frozen (frozen b - s) b)
  else Err "Insufficient frozen for refund" b.
Proof. unfold refund_frozen. balance_method. Qed.

Create Rewrite HintDb balance.
#[export] Hint Rewrite deposit_eq withdraw_eq lock_eq unlock_eq spend_frozen_eq refund_frozen_eq
  : balance.

(** ** Well-formedness *)

Definition wf_balance (b : Balance) : Prop :=
  is_u64 (avail b) /\ is_u64 (frozen b) /\ is_u64 (version b).

(** What an account holds of an asset, locked or not. *)
Definition held (b : Balance) : Z := avail b + frozen b.

Lemma wf_default : wf_balance default_balance.
Proof. unfold wf_balance; simpl. auto with u64. Qed.

Lemma wf_stamp a f b : is_u64 a -> is_u64 f -> wf_balance (stamp a f b).
Proof. unfold wf_balance, stamp; simpl. auto with u64. Qed.

#[export] Hint Resolve wf_default wf_stamp : u64.

(** The method calls as data. *)
Inductive bal_op :=
  | OpDeposit (amount : Z)
  | OpWithdraw (amount : Z)
  | OpLock (amount : Z)
  | OpUnlock (amount : Z)
  | OpSpendFrozen (amount : Z)
  | OpRefundFrozen (spend refund : Z).

Definition run_op (op : bal_op) : M Balance string unit :=
  match op with
  | OpDeposit x => deposit x
  | OpWithdraw x => withdraw x
  | OpLock x => lock x
  | OpUnlock x => unlock x
  | OpSpendFrozen x => spend_frozen x
  | OpRefundFrozen s r => refund_frozen s r
  end.

Definition args_u64 (op : bal_op) : Prop :=
  match op with
  | OpRefundFrozen s r => is_u64 s /\ is_u64 r
  | OpDeposit x | OpWithdraw x | OpLock x | OpUnlock x | OpSpendFrozen x => is_u64 x
  end.

(** ** Abstract specification

    A pair of unbounded natural amounts; each call is a partial function on
    it that says when the call is allowed and where it leads. *)

Definition spec_op (op : bal_op) (af : Z * Z) : option (Z * Z) :=
  let '(a, f) := af in
  match op with
  | OpDeposit x => Some (a + x, f)
  | OpWithdraw x => if x <=? a then Some (a - x, f) else None
  | OpLock x => if x <=? a then Some (a - x, f + x) else None
  | OpUnlock x => if x <=? f then Some (a + x, f - x) else None
  | OpSpendFrozen x => if x <=? f then Some (a, f - x) else None
  | OpRefundFrozen s r => if s <=? f then Some (a + r, f - s) else None
  end.

(** The net amount a call brings into the balance. *)
Definition flow (op : bal_op) : Z :=
  match op with
  | OpDeposit x => x
  | OpWithdraw x | OpSpendFrozen x => - x
  | OpLock _ | OpUnlock _ => 0
  | OpRefundFrozen s r => r - s
  end.

Definition inflow (op : bal_op) : Z := Z.max 0 (flow op).

Ltac op_cases op :=
  destruct op; simpl in *; autorewrite with balance in *; zcases; simplify_eq/=.

Lemma run_op_wf op b s :
  args_u64 op -> wf_balance b -> state_of (run_op op b) = Some s -> wf_balance s.
Proof.
  intros Ha Hb Hs. unfold wf_balance in *.
  pose proof (wrapping_add_u64 (version b) 1).
  op_cases op; ulia.
Qed.

Lemma run_op_flow op b b' :
  run_op op b = Ok tt b' -> held b' = held b + flow op.
Proof. intros H. unfold held. op_cases op; lia. Qed.

(** Below the 64-bit ceiling a refused call changes nothing. *)
Lemma run_op_refused op b e b' :
  args_u64 op -> wf_balance b ->
  held b + inflow op <= u64_max -> run_op op b = Err e b' -> b' = b.
Proof.
  intros Ha Hb Hmax H. unfold held, inflow, wf_balance in *.
  op_cases op; done || ulia.
Qed.

(** ** Histories

    A caller issues calls one after the other and drops the errors. *)

Fixpoint run_ops (ops : list bal_op) (b : Balance) : Balance * list bal_op :=
  match ops with
  | [] => (b, [])
  | op :: ops' =>
      match run_op op b with
      | Ok _ b' => let '(b2, acc) := run_ops ops' b' in (b2, op :: acc)
      | Err _ b' => run_ops ops' b'
      | Panic => (b, [])
      end
  end.

Definition total_flow (ops : list bal_op) : Z := sum_list (map flow ops).
Definition total_inflow (ops : list bal_op) : Z := sum_list (map inflow ops).

Lemma total_inflow_nonneg ops : 0 <= total_inflow ops.
Proof. unfold total_inflow. induction ops; simpl; unfold inflow in *; lia. Qed.

Lemma run_op_no_panic op b : run_op op b <> Panic.
Proof. op_cases op; done. Qed.

(** C1: every balance method implements its abstract specification.  On a
    well-formed balance, a call the specification forbids is an error and
    leaves the balance as it was; a call it allows succeeds exactly when both
    resulting amounts fit a [u64], ends in the specified amounts and stamps
    the next version. *)
Theorem balance_method_refines op b :
  args_u64 op -> wf_balance b ->
  match spec_op op (avail b, frozen b) with
  | None => exists e, run_op op b = Err e b
  | Some (a, f) =>
      if (a <=? u64_max) && (f <=? u64_max)
      then run_op op b = Ok tt (stamp a f b)
      else exists e b', run_op op b = Err e b'
  end.
Proof.
  intros Ha Hb. unfold wf_balance in *.
  destruct op; simpl in *; autorewrite with balance;
    repeat (zcase; simpl in *; try (exfalso; ulia); try done); eauto.
Qed.

(** The books of one balance balance over any history of calls.  If the
    requested deposits and refunds cannot exceed the 64-bit range, then what
    the account holds at the end (available plus frozen) is what it held
    before plus the accepted inflows minus the accepted withdrawals and
    spendings, refused calls contribute nothing, the record stays well-formed,
    and the version counts the accepted calls. *)
Theorem balance_history_conserves ops b :
  Forall args_u64 ops -> wf_balance b -> held b + total_inflow ops <= u64_max ->
  let '(b', accepted) := run_ops ops b in
  wf_balance b' /\ held b' = held b + total_flow accepted /\
  version b' = (version b + Z.of_nat (length accepted)) mod u64_mod.
Proof.
  revert b. induction ops as [|op ops IH]; intros b Hargs Hb Hmax; simpl.
  - destruct Hb as (?&?&?). unfold total_flow; simpl. split_and!; try done; [lia|].
    rewrite Z.mod_small; ulia.
  - apply Forall_cons in Hargs as [Hop Hops].
    pose proof (total_inflow_nonneg ops) as Hnn.
    unfold total_inflow in Hmax; simpl in Hmax; fold (total_inflow ops) in Hmax.
    pose proof (run_op_wf op b) as Hwf. destruct (run_op op b) as [[] b1|e b1|] eqn:Hrun.
    + pose proof (run_op_flow op b b1 Hrun) as Hf.
      assert (version b1 = wrapping_add (version b) 1) as Hv by (op_cases op; done).
      specialize (IH b1 Hops (Hwf b1 Hop Hb eq_refl) ltac:(unfold inflow in *; lia)).
      destruct (run_ops ops b1) as [b2 acc]. destruct IH as (? & Hheld & Hver).
      split_and!; [done|unfold total_flow in *; simpl; lia|].
      rewrite Hver, Hv. unfold wrapping_add. rewrite Zplus_mod_idemp_l. f_equal. simpl length. lia.
    + assert (b1 = b) as -> by (eapply run_op_refused; eauto; unfold inflow in *; lia).
      apply IH; [done..|]. unfold inflow in *; lia.
    + by destruct (run_op_no_panic op b).
Qed.

Lemma balance_method_refines_witness :
  let b := {| avail := 70; frozen := 30; version := 4 |} in
  (exists e, run_op (OpLock 71) b = Err e b) /\
  run_op (OpUnlock 30) b = Ok tt {| avail := 100; frozen := 0; version := 5 |} /\
  exists e b', run_op (OpDeposit u64_max) b = Err e b'.
Proof.
  simpl. split_and!.
  - apply (balance_method_refines (OpLock 71) {| avail := 70; frozen := 30; version := 4 |});
      unfold wf_balance; simpl; ulia.
  - apply (balance_method_refines (OpUnlock 30) {| avail := 70; frozen := 30; version := 4 |});
      unfold wf_balance; simpl; ulia.
  - apply (balance_method_refines (OpDeposit u64_max) {| avail := 70; frozen := 30; version := 4 |});
      unfold wf_balance; simpl; ulia.
Defined.

Lemma balance_history_conserves_witness :
  let ops := [OpDeposit 100; OpLock 60; OpWithdraw 50; OpSpendFrozen 20; OpUnlock 40] in
  run_ops ops default_balance =
    ({| avail := 80; frozen := 0; version := 4 |},
     [OpDeposit 100; OpLock 60; OpSpendFrozen 20; OpUnlock 40]) /\
  let '(b', accepted) := run_ops ops default_balance in
  wf_balance b' /\ held b' = held default_balance + total_flow accepted /\
  version b' = (version default_balance + Z.of_nat (length accepted)) mod u64_mod.
Proof.
  split; [vm_compute; reflexivity|].
  apply (balance_history_conserves
    [OpDeposit 100; OpLock 60; OpWithdraw 50; OpSpendFrozen 20; OpUnlock 40] default_balance).
  - repeat (apply Forall_cons; split; [simpl; ulia|]). by apply Forall_nil.
  - apply wf_default.
  - vm_compute. discriminate.
Defined.

(** The combined refund is not atomic, against its documentation: when
    the credit overflows, the call reports an error and the frozen amount has
    already been taken away, so the refused call destroys [spend]. *)
Theorem refund_frozen_not_atomic spend refund b :
  spend <= frozen b -> u64_max < avail b + refund ->
  exists b', refund_frozen spend refund b = Err "Refund avail overflow" b' /\
             held b' = held b - spend.
Proof.
  intros Hs Hr. rewrite refund_frozen_eq. zcases.
  eexists; split; [done|]. unfold held; simpl; lia.
Qed.

Lemma refund_frozen_not_atomic_witness :
  exists b', refund_frozen 10 5 {| avail := u64_max; frozen := 10; version := 0 |} =
             Err "Refund avail overflow" b' /\ held b' = u64_max.
Proof.
  destruct (refund_frozen_not_atomic 10 5 {| avail := u64_max; frozen := 10; version := 0 |})
    as (b' & Hb & Hh); [simpl; lia|simpl; ulia|].
  exists b'. split; [exact Hb|]. rewrite Hh. reflexivity.
Defined.
