(* ===== verification/UserAccount.v ===== *)
(** * User accounts ([src/src/user_account.rs])

    An account is a user id and an association list from assets to balances;
    [get_balance_mut] finds the entry of an asset or pushes an empty one, and
    every operation goes through the entry it returns. *)

From S2P Require Import Prelude Balance.

#[local] Open Scope string_scope.
#[local] Open Scope list_scope.
#[local] Open Scope Z_scope.
#[local] Open Scope rust_scope.

Record UserAccount := mkAccount { user_id : Z; assets : list (Z * Balance) }.

#[export] Instance UserAccount_eq_dec : EqDecision UserAccount.
Proof. solve_decision. Defined.

Definition new_account (uid : Z) : UserAccount := {| user_id := uid; assets := [] |}.

Definition set_assets (l : list (Z * Balance)) (acc : UserAccount) : UserAccount :=
  {| user_id := user_id acc; assets := l |}.

Definition is_asset (a : Z) (e : Z * Balance) : bool := e.1 =? a.

(** The returned [&mut Balance] is the index of the entry it points to. *)
Definition get_balance_mut {E} (a : Z) : M UserAccount E nat :=
  let* acc := get in
  match position (is_asset a) (assets acc) with
  | Some i => ret i
  | None =>
      put (set_assets (assets acc ++ [(a, default_balance)]) acc) ;;;
      ret (length (assets acc))
  end.

(** A method call on [self.assets[i].1]. *)
Definition on_balance {E A} (i : nat) (m : M Balance E A) : M UserAccount E A :=
  zoom (fun acc => snd <$> assets acc !! i)
       (fun b acc => set_assets (alter (fun e => (e.1, b)) i (assets acc)) acc) m.

(** [self.get_balance_mut(a).method()] *)
Definition borrow {E A} (a : Z) (m : M Balance E A) : M UserAccount E A :=
  let* i := get_balance_mut a in on_balance i m.

Definition get_balance (a : Z) (acc : UserAccount) : option Balance :=
  snd <$> find_by (is_asset a) (assets acc).

Section settle.
Context {bp : BuildProfile}.

(** [&self] methods: they read the account and leave it alone. *)
Definition check_buyer_balance (quote_asset_id spend_quote refund_quote : Z)
  : M UserAccount string unit :=
  let* acc := get in
  let* quote_bal := ok_or (get_balance quote_asset_id acc) "Quote asset not found" in
  let* required := unwrap (op_add spend_quote refund_quote) in
  if frozen quote_bal <? required then throw "Insufficient frozen quote funds" else ret tt.

Definition check_seller_balance (base_asset_id spend_base refund_base : Z)
  : M UserAccount string unit :=
  let* acc := get in
  let* base_bal := ok_or (get_balance base_asset_id acc) "Base asset not found" in
  let* required := unwrap (op_add spend_base refund_base) in
  if frozen base_bal <? required then throw "Insufficient frozen base funds" else ret tt.
End settle.

Definition settle_as_buyer
    (quote_asset_id base_asset_id spend_quote gain_base refund_quote : Z)
  : M UserAccount string unit :=
  borrow quote_asset_id (spend_frozen spend_quote) ;;;
  borrow base_asset_id (deposit gain_base) ;;;
  if 0 <? refund_quote then borrow quote_asset_id (unlock refund_quote) else ret tt.

Definition settle_as_seller
    (base_asset_id quote_asset_id spend_base gain_quote refund_base : Z)
  : M UserAccount string unit :=
  borrow base_asset_id (spend_frozen spend_base) ;;;
  borrow quote_asset_id (deposit gain_quote) ;;;
  if 0 <? refund_base then borrow base_asset_id (unlock refund_base) else ret tt.

(** ** The account as a map from assets to balances *)

(** An asset without an entry has the balance [get_balance_mut] would create. *)
Definition bal (acc : UserAccount) (a : Z) : Balance :=
  default default_balance (get_balance a acc).

Fixpoint upd_assets (a : Z) (b : Balance) (l : list (Z * Balance)) : list (Z * Balance) :=
  match l with
  | [] => [(a, b)]
  | e :: l' => if is_asset a e then (e.1, b) :: l' else e :: upd_assets a b l'
  end.

Definition upd (a : Z) (b : Balance) (acc : UserAccount) : UserAccount :=
  set_assets (upd_assets a b (assets acc)) acc.

Lemma find_by_cons {A} (p : A -> bool) x l :
  find_by p (x :: l) = if p x then Some x else find_by p l.
Proof. unfold find_by. simpl. destruct (p x); [done|]. by destruct (position p l). Qed.

Lemma upd_assets_position a b l i :
  position (is_asset a) l = Some i ->
  upd_assets a b l = alter (fun e => (e.1, b)) i l.
Proof.
  revert i. induction l as [|e l IH]; intros i; simpl; [done|].
  destruct (is_asset a e); [by intros [= <-]|].
  destruct (position (is_asset a) l) as [j|]; [|done].
  intros [= <-]. by rewrite (IH j).
Qed.

Lemma upd_assets_fresh a b l :
  position (is_asset a) l = None -> upd_assets a b l = l ++ [(a, b)].
Proof.
  induction l as [|e l IH]; simpl; [done|].
  destruct (is_asset a e); [done|]. intros H%fmap_None. by rewrite IH.
Qed.

Lemma find_upd_assets a a' b l :
  find_by (is_asset a') (upd_assets a b l) =
  if a =? a' then Some (default (a, b) ((fun e => (e.1, b)) <$> find_by (is_asset a) l))
  else find_by (is_asset a') l.
Proof.
  induction l as [|e l IH]; simpl.
  - rewrite find_by_cons. unfold is_asset; simpl. by destruct (a =? a').
  - rewrite find_by_cons. unfold is_asset in *.
    destruct (Z.eqb_spec e.1 a) as [He|He]; rewrite !find_by_cons; simpl.
    + rewrite He. by destruct (a =? a').
    + rewrite IH. destruct (Z.eqb_spec a a') as [->|]; [|done].
      by destruct (Z.eqb_spec e.1 a').
Qed.

Lemma get_balance_upd a a' b acc :
  get_balance a' (upd a b acc) = if a =? a' then Some b else get_balance a' acc.
Proof.
  unfold get_balance, upd; simpl. rewrite find_upd_assets.
  destruct (a =? a'); [|done]. by destruct (find_by (is_asset a) (assets acc)).
Qed.

Lemma bal_upd a a' b acc : bal (upd a b acc) a' = if a =? a' then b else bal acc a'.
Proof. unfold bal. rewrite get_balance_upd. by destruct (a =? a'). Qed.

Lemma user_id_upd a b acc : user_id (upd a b acc) = user_id acc.
Proof. done. Qed.

Lemma upd_upd a b b' acc : upd a b' (upd a b acc) = upd a b' acc.
Proof.
  unfold upd, set_assets; simpl. f_equal. induction (assets acc) as [|e l IH]; simpl.
  - unfold is_asset; simpl. by rewrite Z.eqb_refl.
  - destruct (is_asset a e) eqn:He; simpl; unfold is_asset in *; simpl; rewrite He; [done|].
    by rewrite IH.
Qed.

(** A call through a mutable borrow is the call on the balance of the asset,
    written back, on every path. *)
Lemma borrow_eq {E A} a (m : M Balance E A) acc :
  borrow a m acc = res_map (fun b => upd a b acc) (m (bal acc a)).
Proof.
  unfold borrow, get_balance_mut, bind, get, on_balance, zoom, bal, get_balance, find_by, upd.
  destruct (position (is_asset a) (assets acc)) as [i|] eqn:Hp; simpl.
  - destruct (position_Some _ _ _ Hp) as (e & He & _ & _). rewrite He; simpl.
    destruct (m e.2); simpl; try done; by rewrite (upd_assets_position _ _ _ i).
  - rewrite lookup_app_r, Nat.sub_diag by lia; simpl.
    assert (forall b : Balance, alter (fun e => (e.1, b)) (length (assets acc))
              (assets acc ++ [(a, default_balance)]) = upd_assets a b (assets acc)) as Halter.
    { intros b. rewrite upd_assets_fresh by done.
      by rewrite alter_app_r_alt, Nat.sub_diag by lia. }
    destruct (m default_balance); simpl; try done; unfold set_assets; simpl; by rewrite Halter.
Qed.

Lemma borrow_ok {E A} a (m : M Balance E A) acc x acc' :
  borrow a m acc = Ok x acc' -> exists b, m (bal acc a) = Ok x b /\ acc' = upd a b acc.
Proof. rewrite borrow_eq. destruct (m (bal acc a)); naive_solver. Qed.

(** ** Well-formedness *)

Definition wf_account (acc : UserAccount) : Prop := forall a, wf_balance (bal acc a).

Lemma wf_new_account uid : wf_account (new_account uid).
Proof. intros a. apply wf_default. Qed.

Lemma wf_upd a b acc : wf_account acc -> wf_balance b -> wf_account (upd a b acc).
Proof. intros Hacc Hb a'. rewrite bal_upd. by destruct (a =? a'). Qed.

#[export] Hint Resolve wf_new_account wf_upd : u64.

Lemma wf_account_entries uid l :
  Forall (fun e => wf_balance e.2) l -> wf_account {| user_id := uid; assets := l |}.
Proof.
  intros Hl a. unfold bal, get_balance; simpl.
  induction Hl as [|e l He Hl IH]; [apply wf_default|].
  rewrite find_by_cons. by destruct (is_asset a e).
Qed.

(** What the user holds of an asset. *)
Definition holds (acc : UserAccount) (a : Z) : Z := held (bal acc a).

Lemma holds_upd a b acc a' :
  holds (upd a b acc) a' = if a =? a' then held b else holds acc a'.
Proof. unfold holds. rewrite bal_upd. by destruct (a =? a'). Qed.

(** [x] at asset [a], nothing elsewhere. *)
Definition at_asset (a x a' : Z) : Z := if a =? a' then x else 0.

(** ** Settlement *)

Ltac run_borrow := rewrite borrow_eq; autorewrite with balance; rewrite ?bal_upd.

(** What a successful settlement does to the holdings, whatever the assets;
    the refund only moves funds between the two halves of a balance. *)
Lemma settle_as_buyer_holds q b spend gain refund acc acc' :
  settle_as_buyer q b spend gain refund acc = Ok tt acc' ->
  user_id acc' = user_id acc /\
  forall a, holds acc' a = holds acc a - at_asset q spend a + at_asset b gain a.
Proof.
  unfold settle_as_buyer. intros ([] & acc1 & H1 & H2)%bind_inv_ok.
  apply bind_inv_ok in H2 as ([] & acc2 & H2 & H3).
  apply borrow_ok in H1 as (b1 & H1 & ->), H2 as (b2 & H2 & ->).
  pose proof (run_op_flow (OpSpendFrozen spend) _ _ H1) as F1.
  pose proof (run_op_flow (OpDeposit gain) _ _ H2) as F2. simpl in *.
  assert (user_id acc' = user_id acc /\
          forall a, holds acc' a = holds (upd b b2 (upd q b1 acc)) a) as [Hid Hacc'].
  { destruct (0 <? refund); [|by injection H3 as <-].
    apply borrow_ok in H3 as (b3 & H3 & ->). split; [done|]. intros a.
    rewrite (holds_upd q). destruct (Z.eqb_spec q a) as [->|]; [|done].
    pose proof (run_op_flow (OpUnlock refund) _ _ H3). simpl in *.
    unfold holds. lia. }
  split; [done|]. intros a. rewrite Hacc', !holds_upd. rewrite bal_upd in F2.
  unfold at_asset, holds.
  destruct (Z.eqb_spec q b), (Z.eqb_spec b a), (Z.eqb_spec q a); subst; simpl in *; lia.
Qed.

(** The seller's settlement is the buyer's with the two assets exchanged. *)
Lemma settle_seller_buyer b q spend gain refund acc :
  settle_as_seller b q spend gain refund acc = settle_as_buyer b q spend gain refund acc.
Proof. done. Qed.

Lemma settle_wf q b spend gain refund acc acc' :
  is_u64 spend -> is_u64 gain -> is_u64 refund -> wf_account acc ->
  state_of (settle_as_buyer q b spend gain refund acc) = Some acc' -> wf_account acc'.
Proof.
  intros Hs Hg Hr Hacc. unfold settle_as_buyer, bind.
  assert (Hstep : forall op a acc0 acc1, args_u64 op -> wf_account acc0 ->
            state_of (borrow (E := string) a (run_op op) acc0) = Some acc1 -> wf_account acc1).
  { intros op a acc0 acc1 Hop Hwf. rewrite borrow_eq.
    pose proof (run_op_wf op (bal acc0 a)) as Hb.
    destruct (run_op op (bal acc0 a)) as [? b1|? b1|]; simpl; intros [= <-];
      apply wf_upd; eauto. }
  pose proof (Hstep (OpSpendFrozen spend) q acc) as S1. simpl in S1.
  destruct (borrow q (spend_frozen spend) acc) as [[] acc1|? acc1|]; simpl; [|by eauto..].
  pose proof (Hstep (OpDeposit gain) b acc1) as S2. simpl in S2.
  destruct (borrow b (deposit gain) acc1) as [[] acc2|? acc2|]; simpl; [|by eauto..].
  destruct (0 <? refund); simpl; [|by eauto].
  apply (Hstep (OpUnlock refund) q acc2); eauto.
Qed.

Section checks.
Context {bp : BuildProfile}.

Lemma check_buyer_cases q spend refund acc :
  is_u64 (spend + refund) ->
  check_buyer_balance q spend refund acc = Ok tt acc \/
  exists e, check_buyer_balance q spend refund acc = Err e acc.
Proof.
  intros Hu. unfold check_buyer_balance, bind, get, ok_or, unwrap, op_add.
  destruct (get_balance q acc) as [b|]; simpl; [|by eauto].
  rewrite u64_op_exact by done. simpl.
  destruct (frozen b <? spend + refund); by eauto.
Qed.

Lemma check_buyer_frozen q spend refund acc :
  is_u64 (spend + refund) -> check_buyer_balance q spend refund acc = Ok tt acc ->
  spend + refund <= frozen (bal acc q).
Proof.
  intros Hu. unfold check_buyer_balance, bind, get, ok_or, unwrap, op_add, bal.
  destruct (get_balance q acc) as [b|]; simpl; [|done].
  rewrite u64_op_exact by done. simpl. zcases; done.
Qed.

Lemma check_seller_cases q spend refund acc :
  is_u64 (spend + refund) ->
  check_seller_balance q spend refund acc = Ok tt acc \/
  exists e, check_seller_balance q spend refund acc = Err e acc.
Proof.
  intros Hu. unfold check_seller_balance, bind, get, ok_or, unwrap, op_add.
  destruct (get_balance q acc) as [b|]; simpl; [|by eauto].
  rewrite u64_op_exact by done. simpl.
  destruct (frozen b <? spend + refund); by eauto.
Qed.

(** The two checks differ in their messages only. *)
Lemma check_seller_ok q spend refund acc :
  check_seller_balance q spend refund acc = Ok tt acc ->
  check_buyer_balance q spend refund acc = Ok tt acc.
Proof.
  unfold check_seller_balance, check_buyer_balance, bind, get, ok_or, unwrap.
  destruct (get_balance q acc) as [b|]; simpl; [|done].
  destruct (op_add spend refund) as [r|]; simpl; [|done].
  by destruct (frozen b <? r).
Qed.
End checks.

(** A settlement that the pre-flight check admits goes through.  For two
    different assets, if the check on the frozen side passes and neither
    credit overflows, the buyer's settlement succeeds, takes [spend + refund]
    out of the frozen quote balance, returns the refund to the available quote
    balance, credits the base balance, and touches no other asset. *)
Lemma settle_after_check {bp : BuildProfile} q b spend gain refund acc :
  q <> b -> wf_account acc -> is_u64 (spend + refund) -> 0 <= spend -> 0 <= gain -> 0 <= refund ->
  check_buyer_balance q spend refund acc = Ok tt acc ->
  avail (bal acc b) + gain <= u64_max -> avail (bal acc q) + refund <= u64_max ->
  exists acc', settle_as_buyer q b spend gain refund acc = Ok tt acc' /\
    avail (bal acc' q) = avail (bal acc q) + refund /\
    frozen (bal acc' q) = frozen (bal acc q) - spend - refund /\
    avail (bal acc' b) = avail (bal acc b) + gain /\
    frozen (bal acc' b) = frozen (bal acc b) /\
    forall a, a <> q -> a <> b -> bal acc' a = bal acc a.
Proof.
  intros Hqb Hacc Hu Hs Hg Hr Hcheck Hb Hq.
  pose proof (check_buyer_frozen q spend refund acc Hu Hcheck) as Hf.
  assert ((q =? b) = false /\ (b =? q) = false) as [Hqb' Hbq'] by (split; lia).
  pose proof (Z.eqb_refl q) as Hqq.
  unfold settle_as_buyer, bind. run_borrow. destruct (Z.leb_spec spend (frozen (bal acc q))); [|lia].
  simpl. run_borrow. rewrite Hqb'. destruct (Z.leb_spec (avail (bal acc b) + gain) u64_max); [|lia].
  simpl. destruct (Z.ltb_spec 0 refund).
  - run_borrow. rewrite Hbq', Hqq. simpl.
    destruct (Z.leb_spec refund (frozen (bal acc q) - spend)); [|lia].
    destruct (Z.leb_spec (avail (bal acc q) + refund) u64_max); [|lia]. simpl.
    eexists. split; [done|]. rewrite !bal_upd, Hqq, Hqb', !Z.eqb_refl; simpl.
    split_and!; try lia. intros a Haq Hab. rewrite !bal_upd.
    destruct (Z.eqb_spec q a), (Z.eqb_spec b a); congruence.
  - eexists. split; [done|]. rewrite !bal_upd, Hqq, Hbq', !Z.eqb_refl; simpl.
    split_and!; try lia. intros a Haq Hab. rewrite !bal_upd.
    destruct (Z.eqb_spec q a), (Z.eqb_spec b a); congruence.
Qed.

Lemma settle_after_check_witness :
  let acc := {| user_id := 7; assets := [(2, {| avail := 500; frozen := 300; version := 1 |})] |} in
  exists acc', settle_as_buyer 2 1 250 5 50 acc = Ok tt acc' /\
    avail (bal acc' 2) = 550 /\ frozen (bal acc' 2) = 0 /\ avail (bal acc' 1) = 5.
Proof.
  destruct (@settle_after_check debug_profile 2 1 250 5 50
    {| user_id := 7; assets := [(2, {| avail := 500; frozen := 300; version := 1 |})] |})
    as (acc' & H & Hq & Hf & Hb & _).
  - lia.
  - apply wf_account_entries. apply Forall_singleton. unfold wf_balance; simpl; ulia.
  - ulia.
  - lia.
  - lia.
  - lia.
  - vm_compute. reflexivity.
  - vm_compute. discriminate.
  - vm_compute. discriminate.
  - exists acc'. split; [exact H|]. rewrite Hq, Hf, Hb. vm_compute. auto.
Defined.
