(* ===== verification/Ledger.v ===== *)
(** * The ledger ([src/src/ledger.rs], [src/src/null_ledger.rs])

    Commands, their effect on the table of accounts, the [Ledger] interface
    with its three implementations (the global ledger, the copy-on-write
    shadow ledger and the null ledger), batch commit, and recovery by replay.
    The write-ahead log and the listener are interfaces here; the byte-level
    log is in [LedgerWal]. *)

From S2P Require Import Prelude Balance UserAccount.

#[local] Open Scope string_scope.
#[local] Open Scope list_scope.
#[local] Open Scope Z_scope.
#[local] Open Scope rust_scope.

(** ** Data *)

Record MatchExecData := mkMatchExec {
  trade_id : Z; buy_order_id : Z; sell_order_id : Z;
  buyer_user_id : Z; seller_user_id : Z;
  price : Z; quantity : Z;
  base_asset_id : Z; quote_asset_id : Z;
  buyer_refund : Z; seller_refund : Z;
  match_seq : Z; output_sequence : Z; settled_at : Z;
  buyer_quote_version : Z; buyer_base_version : Z;
  seller_base_version : Z; seller_quote_version : Z;
  buyer_quote_balance_after : Z; buyer_base_balance_after : Z;
  seller_base_balance_after : Z; seller_quote_balance_after : Z
}.

Module OrderStatus.
Inductive t := New | PartiallyFilled | Filled | Cancelled | Rejected | Expired.
End OrderStatus.

Module OrderUpdate.
Record t := mk {
  order_id : Z; client_order_id : option string; user_id : Z; symbol_id : Z;
  side : Z; order_type : Z; status : OrderStatus.t;
  price : Z; qty : Z; filled_qty : Z; avg_fill_price : option Z;
  rejection_reason : option string; timestamp : Z; match_id : option Z
}.
End OrderUpdate.

Module LedgerCommand.
Inductive t :=
  | Deposit (user_id asset_id amount balance_after version : Z)
  | Withdraw (user_id asset_id amount balance_after version : Z)
  | Lock (user_id asset_id amount balance_after version : Z)
  | Unlock (user_id asset_id amount balance_after version : Z)
  | TradeSettle (user_id spend_asset_id spend_amount gain_asset_id gain_amount : Z)
  | MatchExec (data : MatchExecData)
  | MatchExecBatch (batch : list MatchExecData)
  | OrderUpdate (u : OrderUpdate.t)
  | Batch (cmds : list t).
End LedgerCommand.

Abbreviation LedgerCommand := LedgerCommand.t.

(** One constructor per message of the [anyhow] errors. *)
Inductive LedgerError :=
  | DepositFailed (user asset : Z) (e : string)
  | WithdrawFailed (user asset : Z)
  | LockFailed (user asset : Z)
  | UnlockFailed (user asset : Z)
  | SettleSpendFailed (user asset : Z)
  | SettleAssetNotFound (user asset : Z)
  | QuoteAmountOverflow
  | BuyerNotFound (user : Z)
  | BuyerCheckFailed (e : string)
  | SellerNotFound (user : Z)
  | SellerCheckFailed (e : string)
  | SequenceGap (expected found : Z)
  | ExternalError (e : string).

(** [FxHashMap<UserId, UserAccount>] *)
Abbreviation Accounts := (gmap Z UserAccount).

(** [accounts.entry(uid).or_insert_with(|| UserAccount::new(uid))] *)
Definition entry_or_new (uid : Z) (accts : Accounts) : UserAccount :=
  default (new_account uid) (accts !! uid).

Definition on_entry {E A} (uid : Z) (m : M UserAccount E A) : M Accounts E A :=
  zoom (fun accts => Some (entry_or_new uid accts)) (fun acc => insert uid acc) m.

(** [accounts.get_mut(uid).unwrap()] *)
Definition on_existing {E A} (uid : Z) (m : M UserAccount E A) : M Accounts E A :=
  zoom (fun accts => accts !! uid) (fun acc => insert uid acc) m.

(** [accounts.get(uid).ok_or(e)?] followed by a [&self] method. *)
Definition check_existing {E} (uid : Z) (missing : E) (m : M UserAccount E unit)
  : M Accounts E unit :=
  let* accts := get in
  let* acc := ok_or (accts !! uid) missing in
  match m acc with
  | Ok _ _ => ret tt
  | Err e _ => throw e
  | Panic => panic
  end.

Section apply.
Context {bp : BuildProfile}.

Definition apply_match_exec (data : MatchExecData) : M Accounts LedgerError unit :=
  let* quote_amount := ok_or (checked_mul (price data) (quantity data)) QuoteAmountOverflow in
  let base_amount := quantity data in
  check_existing (buyer_user_id data) (BuyerNotFound (buyer_user_id data))
    (map_err BuyerCheckFailed
       (check_buyer_balance (quote_asset_id data) quote_amount (buyer_refund data))) ;;;
  check_existing (seller_user_id data) (SellerNotFound (seller_user_id data))
    (map_err SellerCheckFailed
       (check_seller_balance (base_asset_id data) base_amount (seller_refund data))) ;;;
  expect (on_existing (buyer_user_id data)
    (settle_as_buyer (quote_asset_id data) (base_asset_id data)
       quote_amount base_amount (buyer_refund data))) ;;;
  expect (on_existing (seller_user_id data)
    (settle_as_seller (base_asset_id data) (quote_asset_id data)
       base_amount quote_amount (seller_refund data))).

Definition apply_trade_settle (uid spend_asset spend_amount gain_asset gain_amount : Z)
  : M UserAccount LedgerError unit :=
  let* user := get in
  (match position (is_asset spend_asset) (assets user) with
   | Some idx =>
       on_balance idx (map_err (fun _ => SettleSpendFailed uid spend_asset)
                         (spend_frozen spend_amount))
   | None => throw (SettleAssetNotFound uid spend_asset)
   end) ;;;
  let* user := get in
  match position (is_asset gain_asset) (assets user) with
  | Some idx => ignore (on_balance idx (deposit gain_amount))
  | None =>
      put (set_assets (assets user ++ [(gain_asset, default_balance)]) user) ;;;
      ignore (on_balance (length (assets user)) (deposit gain_amount))
  end.

Fixpoint apply_transaction (cmd : LedgerCommand) : M Accounts LedgerError unit :=
  match cmd with
  | LedgerCommand.Deposit uid a amount _ _ =>
      on_entry uid (borrow a (map_err (DepositFailed uid a) (deposit amount)))
  | LedgerCommand.Withdraw uid a amount _ _ =>
      on_entry uid (borrow a (map_err (fun _ => WithdrawFailed uid a) (withdraw amount)))
  | LedgerCommand.Lock uid a amount _ _ =>
      on_entry uid (borrow a (map_err (fun _ => LockFailed uid a) (lock amount)))
  | LedgerCommand.Unlock uid a amount _ _ =>
      on_entry uid (borrow a (map_err (fun _ => UnlockFailed uid a) (unlock amount)))
  | LedgerCommand.TradeSettle uid sa samt ga gamt =>
      on_entry uid (apply_trade_settle uid sa samt ga gamt)
  | LedgerCommand.MatchExec data => apply_match_exec data
  | LedgerCommand.MatchExecBatch batch => iter apply_match_exec batch
  | LedgerCommand.Batch cmds => iter apply_transaction cmds
  | LedgerCommand.OrderUpdate _ => ret tt
  end.
End apply.

(** [accounts.get(uid).and_then(find asset).map(field).unwrap_or(0)] *)
Definition read_field (f : Balance -> Z) (accts : Accounts) (uid a : Z) : Z :=
  default 0 (f <$> (accts !! uid ≫= get_balance a)).

Definition get_account_copy (accts : Accounts) (uid : Z) : UserAccount :=
  entry_or_new uid accts.

Definition get_user_balances (accts : Accounts) (uid : Z) : option (list (Z * Balance)) :=
  assets <$> accts !! uid.

(** ** The [Ledger] trait *)

Class Ledger (T : Type) := {
  ledger_balance : T -> Z -> Z -> Z;
  ledger_frozen : T -> Z -> Z -> Z;
  ledger_version : T -> Z -> Z -> Z;
  ledger_apply : LedgerCommand -> M T LedgerError unit
}.

(** [struct NullLedger;]: the ledger of the matching engine, which owns no
    balance state. *)
Inductive NullLedger := null_ledger.

#[export] Instance null_ledger_impl : Ledger NullLedger := {
  ledger_balance _ _ _ := u64_max;
  ledger_frozen _ _ _ := 0;
  ledger_version _ _ _ := 0;
  ledger_apply _ := ret tt
}.

(** ** The shadow ledger *)

Record ShadowLedger := mkShadow {
  real_accounts : Accounts;       (** the borrowed [real_ledger], read only *)
  delta_accounts : Accounts;
  pending_commands : list LedgerCommand
}.

Definition shadow_new (real : Accounts) : ShadowLedger :=
  {| real_accounts := real; delta_accounts := ∅; pending_commands := [] |}.

Definition shadow_read (f : Balance -> Z) (s : ShadowLedger) (uid a : Z) : Z :=
  match delta_accounts s !! uid with
  | Some account => default 0 (f <$> get_balance a account)
  | None => read_field f (real_accounts s) uid a
  end.

Definition set_delta (d : Accounts) (s : ShadowLedger) : ShadowLedger :=
  {| real_accounts := real_accounts s; delta_accounts := d;
     pending_commands := pending_commands s |}.

(** [delta.entry(uid).or_insert_with(|| real.get_account_copy(uid))] *)
Definition copy_in (uid : Z) : M ShadowLedger LedgerError unit :=
  modify (fun s =>
    match delta_accounts s !! uid with
    | Some _ => s
    | None => set_delta (<[uid := get_account_copy (real_accounts s) uid]> (delta_accounts s)) s
    end).

Definition on_delta {A} (m : M Accounts LedgerError A) : M ShadowLedger LedgerError A :=
  zoom (fun s => Some (delta_accounts s)) set_delta m.

Definition push_pending (cmd : LedgerCommand) : M ShadowLedger LedgerError unit :=
  modify (fun s => {| real_accounts := real_accounts s; delta_accounts := delta_accounts s;
                      pending_commands := pending_commands s ++ [cmd] |}).

Section shadow.
Context {bp : BuildProfile}.

Definition copy_in_match (data : MatchExecData) : M ShadowLedger LedgerError unit :=
  copy_in (buyer_user_id data) ;;; copy_in (seller_user_id data).

Fixpoint shadow_apply (cmd : LedgerCommand) : M ShadowLedger LedgerError unit :=
  match cmd with
  | LedgerCommand.Lock uid _ _ _ _ | LedgerCommand.Unlock uid _ _ _ _
  | LedgerCommand.Deposit uid _ _ _ _ | LedgerCommand.Withdraw uid _ _ _ _
  | LedgerCommand.TradeSettle uid _ _ _ _ =>
      copy_in uid ;;; on_delta (apply_transaction cmd) ;;; push_pending cmd
  | LedgerCommand.MatchExec data =>
      copy_in_match data ;;; on_delta (apply_transaction cmd) ;;; push_pending cmd
  | LedgerCommand.MatchExecBatch batch =>
      iter copy_in_match batch ;;; on_delta (apply_transaction cmd) ;;; push_pending cmd
  | LedgerCommand.Batch cmds => iter shadow_apply cmds
  | LedgerCommand.OrderUpdate _ => push_pending cmd
  end.

#[export] Instance shadow_ledger_impl : Ledger ShadowLedger := {
  ledger_balance := shadow_read avail;
  ledger_frozen := shadow_read frozen;
  ledger_version := shadow_read version;
  ledger_apply := shadow_apply
}.
End shadow.

(** ** The global ledger

    The write-ahead log and the listener are what the ledger talks to.  The
    operations of a log are [WalOps]: an append that may be refused, and what a
    replay of it yields.  Nothing is assumed of them here; the log of the
    program, the rolling files of [LedgerWal], is an instance. *)

Class WalOps (W : Type) := {
  wal_append : Z -> LedgerCommand -> M W LedgerError unit;
  wal_replay : W -> list (Z * LedgerCommand)
}.

(** [trait LedgerListener]; [on_batch] has the default body of the trait. *)
Class LedgerListener (L : Type) := {
  on_command : LedgerCommand -> M L LedgerError unit
}.

Definition on_batch `{LedgerListener L} (cmds : list LedgerCommand) : M L LedgerError unit :=
  on_command (LedgerCommand.Batch cmds).

Record GlobalLedger (W L : Type) := mkGlobal {
  accounts : Accounts;
  wal : option W;
  last_seq : Z;
  listener : option L
}.
Arguments mkGlobal {W L}.
Arguments accounts {W L}.
Arguments wal {W L}.
Arguments last_seq {W L}.
Arguments listener {W L}.

Record Snapshot := mkSnapshot { snap_last_seq : Z; snap_accounts : Accounts }.

Section global.
Context {bp : BuildProfile} `{WalOps W} `{LedgerListener L}.

Definition on_accounts {A} (m : M Accounts LedgerError A)
  : M (GlobalLedger W L) LedgerError A :=
  zoom (fun g => Some (accounts g))
       (fun a g => mkGlobal a (wal g) (last_seq g) (listener g)) m.

Definition set_last_seq (n : Z) : M (GlobalLedger W L) LedgerError unit :=
  modify (fun g => mkGlobal (accounts g) (wal g) n (listener g)).

(** [if let Some(wal) = &mut self.wal { .. }] *)
Definition on_wal (m : M W LedgerError unit) : M (GlobalLedger W L) LedgerError unit :=
  let* g := get in
  match wal g with
  | None => ret tt
  | Some _ => zoom wal (fun w g => mkGlobal (accounts g) (Some w) (last_seq g) (listener g)) m
  end.

Definition on_listener (m : M L LedgerError unit) : M (GlobalLedger W L) LedgerError unit :=
  let* g := get in
  match listener g with
  | None => ret tt
  | Some _ => zoom listener (fun l g => mkGlobal (accounts g) (wal g) (last_seq g) (Some l)) m
  end.

(** The loop body of [append_to_wal]. *)
Definition append_entry (cmd : LedgerCommand) : M (GlobalLedger W L) LedgerError unit :=
  let* g := get in
  let* new_seq := unwrap (op_add (last_seq g) 1) in
  on_wal (wal_append new_seq cmd) ;;;
  set_last_seq new_seq.

Definition append_to_wal (cmds : list LedgerCommand) : M (GlobalLedger W L) LedgerError unit :=
  let* g := get in
  match wal g with
  | None => ret tt
  | Some _ => iter append_entry cmds
  end.

Definition apply_delta_to_memory (delta : Accounts) : M (GlobalLedger W L) LedgerError unit :=
  on_accounts (modify (fun a => delta ∪ a)).

Definition commit_delta (cmds : list LedgerCommand) (delta : Accounts)
  : M (GlobalLedger W L) LedgerError unit :=
  append_to_wal cmds ;;;
  apply_delta_to_memory delta ;;;
  on_listener (on_batch cmds).

Definition commit_batch (cmds : list LedgerCommand) : M (GlobalLedger W L) LedgerError unit :=
  let* g := get in
  match iter shadow_apply cmds (shadow_new (accounts g)) with
  | Ok _ shadow => commit_delta cmds (delta_accounts shadow)
  | Err e _ => throw e
  | Panic => panic
  end.

Definition global_apply (cmd : LedgerCommand) : M (GlobalLedger W L) LedgerError unit :=
  let* g := get in
  let* new_seq := unwrap (op_add (last_seq g) 1) in
  on_wal (wal_append new_seq cmd) ;;;
  on_accounts (apply_transaction cmd) ;;;
  on_listener (on_command cmd) ;;;
  set_last_seq new_seq.

#[export] Instance global_ledger_impl : Ledger (GlobalLedger W L) := {
  ledger_balance g := read_field avail (accounts g);
  ledger_frozen g := read_field frozen (accounts g);
  ledger_version g := read_field version (accounts g);
  ledger_apply := global_apply
}.

(** The replay loop of [GlobalLedger::new]: the state is the accounts and
    [recovered_seq]. *)
Definition replay_entry (entry : Z * LedgerCommand) : M (Accounts * Z) LedgerError unit :=
  let '(seq, cmd) := entry in
  let* st := get in
  let recovered_seq := st.2 in
  if seq <=? recovered_seq then ret tt
  else
    let* expected := unwrap (op_add recovered_seq 1) in
    if negb (seq =? expected) then throw (SequenceGap expected seq)
    else
      zoom (fun st => Some st.1) (fun a st => (a, st.2)) (apply_transaction cmd) ;;;
      modify (fun st => (st.1, seq)).

(** [GlobalLedger::new] after the snapshot (if any) has been read: replay
    the log, then open it for appending. *)
Definition global_new (snap : option Snapshot) (w : W)
  : res unit LedgerError (GlobalLedger W L) :=
  let start := match snap with
               | Some s => (snap_accounts s, snap_last_seq s)
               | None => (∅, 0)
               end in
  match iter replay_entry (wal_replay w) start with
  | Ok _ (accts, seq) => Ok (mkGlobal accts (Some w) seq None) tt
  | Err e _ => Err e tt
  | Panic => Panic
  end.
End global.

(** ** Inversion of successful runs *)

Lemma on_entry_ok {E A} uid (m : M UserAccount E A) accts x accts' :
  on_entry uid m accts = Ok x accts' ->
  exists acc, m (entry_or_new uid accts) = Ok x acc /\ accts' = <[uid := acc]> accts.
Proof. unfold on_entry, zoom. destruct (m _); naive_solver. Qed.

Lemma on_existing_ok {E A} uid (m : M UserAccount E A) accts x accts' :
  on_existing uid m accts = Ok x accts' ->
  exists acc0 acc, accts !! uid = Some acc0 /\ m acc0 = Ok x acc /\ accts' = <[uid := acc]> accts.
Proof. unfold on_existing, zoom. destruct (accts !! uid) as [acc0|]; [|done].
  destruct (m acc0) eqn:Hm; [|done..]. intros [= <- <-]. eauto 10.
Qed.

Lemma check_existing_ok {E} uid (e : E) m accts x accts' :
  check_existing uid e m accts = Ok x accts' ->
  accts' = accts /\ exists acc y s, accts !! uid = Some acc /\ m acc = Ok y s.
Proof.
  unfold check_existing, bind, get, ok_or. destruct (accts !! uid); simpl; [|done].
  destruct (m _) eqn:Hm; [|done..]. intros [= _ <-]. eauto 10.
Qed.

(** ** Total supply *)

(** What all users together hold of asset [a]. *)
Definition supply (a : Z) (accts : Accounts) : Z :=
  map_fold (fun _ acc s => holds acc a + s) 0 accts.

Lemma supply_insert_new a uid acc accts :
  accts !! uid = None -> supply a (<[uid := acc]> accts) = holds acc a + supply a accts.
Proof. intros Hn. unfold supply. rewrite map_fold_insert_L; [done|intros; lia|done]. Qed.

Lemma holds_new uid a : holds (new_account uid) a = 0.
Proof. done. Qed.

Lemma supply_insert a uid acc accts :
  supply a (<[uid := acc]> accts) =
  supply a accts - holds (entry_or_new uid accts) a + holds acc a.
Proof.
  unfold entry_or_new. destruct (accts !! uid) as [old|] eqn:Hu; simpl.
  - rewrite <- (insert_delete_id accts uid old) at 2 by done.
    rewrite <- insert_delete_eq.
    rewrite !supply_insert_new by apply lookup_delete_eq. lia.
  - rewrite supply_insert_new by done. rewrite holds_new. lia.
Qed.

(** ** Effect of a command on the supply *)

(** What the gain of a one-sided settlement brings: all of it, or nothing when
    the deposit would overflow (its error is ignored). *)
Definition credited (uid a gain : Z) (accts : Accounts) : Z :=
  if avail (bal (entry_or_new uid accts) a) + gain <=? u64_max then gain else 0.

(** The flows of commands applied one behind the other. *)
Definition iter_flow {X} (step : X -> M Accounts LedgerError unit) (flow_of : X -> Accounts -> Z)
  : list X -> Accounts -> Z :=
  fix go l accts :=
    match l with
    | [] => 0
    | x :: l' =>
        flow_of x accts + match step x accts with Ok _ accts' => go l' accts' | _ => 0 end
    end.

(** What a command brings into the system.  Deposits and withdrawals are the
    doors; locks and matches move funds inside; the one-sided settlement burns
    what the user spends and mints what the user gains. *)
Fixpoint cmd_flow {bp : BuildProfile} (a : Z) (cmd : LedgerCommand) (accts : Accounts) : Z :=
  match cmd with
  | LedgerCommand.Deposit _ a' x _ _ => at_asset a' x a
  | LedgerCommand.Withdraw _ a' x _ _ => - at_asset a' x a
  | LedgerCommand.TradeSettle uid sa spend ga gain =>
      at_asset ga (credited uid ga gain accts) a - at_asset sa spend a
  | LedgerCommand.Batch cmds => iter_flow apply_transaction (cmd_flow a) cmds accts
  | _ => 0
  end.

(** Induction on commands, through the nested list. *)
Section cmd_ind.
Context (P : LedgerCommand -> Prop).
Context (Hbatch : forall cmds, Forall P cmds -> P (LedgerCommand.Batch cmds)).
Context (Hleaf : forall cmd, (forall cmds, cmd <> LedgerCommand.Batch cmds) -> P cmd).

Fixpoint ledger_command_ind (cmd : LedgerCommand) : P cmd :=
  match cmd with
  | LedgerCommand.Batch cmds =>
      Hbatch cmds ((fix go l : Forall P l :=
                      match l with
                      | [] => List.Forall_nil P
                      | c :: l' => @List.Forall_cons _ P c l' (ledger_command_ind c) (go l')
                      end) cmds)
  | c => Hleaf c ltac:(discriminate)
  end.
End cmd_ind.

Section supply_theorems.
Context {bp : BuildProfile}.

Lemma on_entry_op_supply {E} uid a op (g : string -> E) accts accts' :
  on_entry uid (borrow a (map_err g (run_op op))) accts = Ok tt accts' ->
  forall a', supply a' accts' = supply a' accts + at_asset a (flow op) a'.
Proof.
  intros (acc & Hm & ->)%on_entry_ok a'. apply borrow_ok in Hm as (b & Hb & ->).
  apply map_err_inv_ok, run_op_flow in Hb.
  rewrite supply_insert, holds_upd. unfold at_asset, holds in *.
  destruct (Z.eqb_spec a a'); subst; lia.
Qed.

Lemma on_existing_supply {E} uid (m : M UserAccount E unit) accts accts' x :
  on_existing uid m accts = Ok x accts' ->
  exists acc0 acc, accts !! uid = Some acc0 /\ m acc0 = Ok x acc /\
    accts' = <[uid := acc]> accts /\
    forall a, supply a accts' = supply a accts - holds acc0 a + holds acc a.
Proof.
  intros (acc0 & acc & Hu & Hm & ->)%on_existing_ok. exists acc0, acc.
  split_and!; [done..|]. intros a. rewrite supply_insert. unfold entry_or_new. by rewrite Hu.
Qed.

Lemma apply_match_exec_supply data accts accts' a :
  apply_match_exec data accts = Ok tt accts' -> supply a accts' = supply a accts.
Proof.
  unfold apply_match_exec. destruct (checked_mul _ _) as [quote_amount|]; [|done].
  simpl. rewrite bind_ret.
  intros ([] & s1 & H1 & H2)%bind_inv_ok. apply check_existing_ok in H1 as [-> _].
  apply bind_inv_ok in H2 as ([] & s2 & H2 & H3). apply check_existing_ok in H2 as [-> _].
  apply bind_inv_ok in H3 as ([] & s3 & H3 & H4).
  apply expect_inv_ok, on_existing_supply in H3 as (b0 & b1 & _ & Hb & _ & Hs3).
  apply expect_inv_ok, on_existing_supply in H4 as (c0 & c1 & _ & Hc & _ & Hs4).
  apply settle_as_buyer_holds in Hb as [_ Hb].
  rewrite settle_seller_buyer in Hc. apply settle_as_buyer_holds in Hc as [_ Hc].
  rewrite Hs4, Hs3, Hb, Hc. unfold at_asset.
  destruct (quote_asset_id data =? a), (base_asset_id data =? a); lia.
Qed.

(** The gain half of [apply_trade_settle]: the asset's entry, created if
    missing, with the deposit ignored if it is refused. *)
Lemma gain_step ga gain acc :
  exists b, held b = held (bal acc ga) +
      (if avail (bal acc ga) + gain <=? u64_max then gain else 0) /\
    (let* user := get in
     match position (is_asset ga) (assets user) with
     | Some idx => ignore (on_balance idx (deposit gain))
     | None =>
         put (set_assets (assets user ++ [(ga, default_balance)]) user) ;;;
         ignore (on_balance (length (assets user)) (deposit gain))
     end) acc = Ok (E := LedgerError) tt (upd ga b acc).
Proof.
  pose proof (borrow_eq (E := string) ga (deposit gain) acc) as Hb.
  unfold borrow, get_balance_mut, bind, get in Hb |- *. rewrite deposit_eq in Hb.
  exists (if avail (bal acc ga) + gain <=? u64_max
          then stamp (avail (bal acc ga) + gain) (frozen (bal acc ga)) (bal acc ga) else bal acc ga).
  split; [unfold held; destruct (_ <=? _); simpl; lia|].
  destruct (position (is_asset ga) (assets acc)) as [i|]; unfold ignore, ret, put in *;
    rewrite Hb; by destruct (_ <=? _).
Qed.

Lemma trade_settle_supply uid sa spend ga gain accts accts' a :
  on_entry uid (apply_trade_settle uid sa spend ga gain) accts = Ok tt accts' ->
  supply a accts' =
  supply a accts + at_asset ga (credited uid ga gain accts) a - at_asset sa spend a.
Proof.
  intros (acc & Hm & ->)%on_entry_ok. unfold credited.
  set (acc0 := entry_or_new uid accts) in *. unfold apply_trade_settle in Hm.
  unfold bind at 1, get at 1 in Hm. apply bind_inv_ok in Hm as ([] & acc1 & H1 & H2).
  pose proof (borrow_eq sa (map_err (fun _ => SettleSpendFailed uid sa) (spend_frozen spend)) acc0) as Hb.
  unfold borrow, get_balance_mut, bind, get in Hb.
  destruct (position (is_asset sa) (assets acc0)) as [i|]; [|done].
  unfold ret in Hb. rewrite Hb in H1. unfold map_err in H1. rewrite spend_frozen_eq in H1.
  destruct (_ <=? _); [|done]. injection H1 as <-.
  set (b1 := stamp _ _ _) in *. destruct (gain_step ga gain (upd sa b1 acc0)) as (b2 & Hheld & Hg).
  rewrite Hg in H2. injection H2 as <-.
  assert (Havail : avail (bal (upd sa b1 acc0) ga) = avail (bal acc0 ga)).
  { rewrite bal_upd. destruct (Z.eqb_spec sa ga) as [<-|]; done. }
  rewrite Havail in Hheld. rewrite bal_upd in Hheld.
  rewrite supply_insert, !holds_upd. fold acc0. unfold at_asset, holds.
  assert (held b1 = held (bal acc0 sa) - spend) by (unfold b1, held; simpl; lia).
  destruct (Z.eqb_spec ga a) as [->|], (Z.eqb_spec sa a) as [->|];
    rewrite ?Z.eqb_refl in Hheld; lia.
Qed.

Lemma iter_supply {X} (f : X -> M Accounts LedgerError unit) (fl : X -> Accounts -> Z) a l accts accts' :
  Forall (fun x => forall s s', f x s = Ok tt s' -> supply a s' = supply a s + fl x s) l ->
  iter f l accts = Ok tt accts' ->
  supply a accts' = supply a accts + iter_flow f fl l accts.
Proof.
  intros Hf. revert accts. induction Hf as [|x l Hx Hl IH]; intros accts; simpl.
  - intros [= <-]. lia.
  - intros ([] & s & H1 & H2)%bind_inv_ok. rewrite H1. apply Hx in H1. apply IH in H2. lia.
Qed.

Lemma iter_flow_none {X} (f : X -> M Accounts LedgerError unit) l accts :
  iter_flow f (fun _ _ => 0) l accts = 0.
Proof.
  revert accts. induction l as [|x l IH]; intros accts; simpl; [done|].
  destruct (f x accts); [apply IH|done..].
Qed.

(** C2: what a command does to the funds in the system.  A command that
    succeeds changes the total supply of an asset (available plus frozen, over
    all users) by exactly its flow: the deposits and withdrawals it contains
    and, for the deprecated one-sided settlement, the gain that was credited
    less the amount spent.  Locks, unlocks and matches, alone or in batches,
    conserve the supply, whoever the buyer and the seller are. *)
Theorem apply_transaction_conserves cmd accts accts' a :
  apply_transaction cmd accts = Ok tt accts' ->
  supply a accts' = supply a accts + cmd_flow a cmd accts.
Proof.
  revert accts accts'. induction cmd as [cmds IH|cmd Hleaf] using ledger_command_ind;
    intros accts accts' Hok.
  - eapply iter_supply; [|exact Hok]. apply Forall_forall. intros c Hc s s' Hs.
    rewrite Forall_forall in IH. eauto.
  - destruct cmd; simpl in *; try (by destruct (Hleaf cmds)).
    + apply (on_entry_op_supply _ _ (OpDeposit amount) _ _ _ Hok).
    + rewrite (on_entry_op_supply _ _ (OpWithdraw amount) _ _ _ Hok).
      unfold at_asset; simpl. destruct (_ =? _); lia.
    + rewrite (on_entry_op_supply _ _ (OpLock amount) _ _ _ Hok).
      unfold at_asset; simpl. destruct (_ =? _); lia.
    + rewrite (on_entry_op_supply _ _ (OpUnlock amount) _ _ _ Hok).
      unfold at_asset; simpl. destruct (_ =? _); lia.
    + rewrite (trade_settle_supply _ _ _ _ _ _ _ _ Hok). lia.
    + apply apply_match_exec_supply with (a := a) in Hok. lia.
    + apply (iter_supply apply_match_exec (fun _ _ => 0) a) in Hok.
      * by rewrite Hok, iter_flow_none.
      * apply Forall_forall. intros x _ s s' Hs.
        apply apply_match_exec_supply with (a := a) in Hs. lia.
    + injection Hok as <-. lia.
Qed.
End supply_theorems.

(** ** Matches never panic below the ceiling *)

Definition wf_accounts (accts : Accounts) : Prop := map_Forall (fun _ acc => wf_account acc) accts.

Lemma holds_nonneg acc a : wf_account acc -> 0 <= holds acc a.
Proof. intros Hacc. destruct (Hacc a) as (? & ? & _). unfold holds, held. ulia. Qed.

Lemma supply_nonneg a accts : wf_accounts accts -> 0 <= supply a accts.
Proof.
  induction accts as [|u acc accts Hu IH] using map_ind; [done|].
  intros [Hacc Hwf]%map_Forall_insert; [|done].
  rewrite supply_insert_new by done.
  specialize (IH Hwf). pose proof (holds_nonneg acc a Hacc). lia.
Qed.

Lemma two_holds_le_supply a u1 u2 acc1 acc2 accts :
  wf_accounts accts -> u1 <> u2 -> accts !! u1 = Some acc1 -> accts !! u2 = Some acc2 ->
  holds acc1 a + holds acc2 a <= supply a accts.
Proof.
  intros Hwf Hne H1 H2.
  rewrite <- (insert_delete_id accts u1 acc1) by done.
  rewrite supply_insert_new by apply lookup_delete_eq.
  rewrite <- (insert_delete_id (delete u1 accts) u2 acc2) by (by rewrite lookup_delete_ne).
  rewrite supply_insert_new by apply lookup_delete_eq.
  pose proof (supply_nonneg a (delete u2 (delete u1 accts))
    (map_Forall_delete _ _ _ (map_Forall_delete _ _ _ Hwf))). lia.
Qed.

Section match_total.
Context {bp : BuildProfile}.

Lemma check_existing_eq {E F} uid (missing : E) (g : F -> E) m accts :
  (forall acc, m acc = Ok tt acc \/ exists e, m acc = Err e acc) ->
  (exists acc, accts !! uid = Some acc /\ m acc = Ok tt acc /\
     check_existing uid missing (map_err g m) accts = Ok tt accts) \/
  exists e, check_existing uid missing (map_err g m) accts = Err e accts.
Proof.
  intros Hm. unfold check_existing, bind, get, ok_or, map_err.
  destruct (accts !! uid) as [acc|]; simpl; [|by eauto].
  destruct (Hm acc) as [Hok|[e He]]; [rewrite Hok|rewrite He]; by eauto.
Qed.

Lemma on_existing_eq {E A} uid (m : M UserAccount E A) accts acc x acc' :
  accts !! uid = Some acc -> m acc = Ok x acc' ->
  on_existing uid m accts = Ok x (<[uid := acc']> accts).
Proof. intros Hu Hm. unfold on_existing, zoom. by rewrite Hu, Hm. Qed.

Lemma wf_bal acc a : wf_account acc -> is_u64 (avail (bal acc a)) /\ is_u64 (frozen (bal acc a)).
Proof. intros Hacc. destruct (Hacc a) as (? & ? & _). done. Qed.

(** Settling a match is all or nothing.  For two different users and
    two different assets, on well-formed accounts whose total supplies of the
    two assets fit a [u64], a match is either refused by a pre-flight check
    with the table of accounts untouched, or it succeeds; the [expect]s behind
    "guaranteed to succeed" are never reached. *)
Theorem apply_match_exec_total data accts :
  wf_accounts accts ->
  buyer_user_id data <> seller_user_id data -> base_asset_id data <> quote_asset_id data ->
  0 <= price data -> 0 <= quantity data -> 0 <= buyer_refund data -> 0 <= seller_refund data ->
  price data * quantity data + buyer_refund data <= u64_max ->
  quantity data + seller_refund data <= u64_max ->
  supply (base_asset_id data) accts <= u64_max -> supply (quote_asset_id data) accts <= u64_max ->
  (exists e, apply_match_exec data accts = Err e accts) \/
  exists accts', apply_match_exec data accts = Ok tt accts'.
Proof.
  intros Hwf Husers Hassets Hp Hqty Hbr Hsr Hq Hb HsB HsQ.
  set (qa := price data * quantity data) in *.
  assert (0 <= qa) as Hqa by (unfold qa; nia).
  unfold apply_match_exec.
  replace (checked_mul _ _) with (Some qa) by (symmetry; apply checked_mul_Some; fold qa; ulia).
  clearbody qa. simpl. rewrite bind_ret.
  assert (is_u64 (qa + buyer_refund data)) as Hu1 by ulia.
  assert (is_u64 (quantity data + seller_refund data)) as Hu2 by ulia.
  destruct (check_existing_eq (buyer_user_id data) (BuyerNotFound (buyer_user_id data))
    BuyerCheckFailed _ accts (fun acc => check_buyer_cases (quote_asset_id data) qa
    (buyer_refund data) acc Hu1)) as [(bacc & Hbu & Hbc & Hb1)|[e He]];
    [|left; eexists; by apply bind_err].
  rewrite (bind_ok _ _ _ _ _ Hb1).
  destruct (check_existing_eq (seller_user_id data) (SellerNotFound (seller_user_id data))
    SellerCheckFailed _ accts (fun acc => check_seller_cases (base_asset_id data) (quantity data)
    (seller_refund data) acc Hu2)) as [(sacc & Hsu & Hsc & Hs1)|[e He]];
    [|left; eexists; by apply bind_err].
  rewrite (bind_ok _ _ _ _ _ Hs1).
  apply check_seller_ok in Hsc.
  pose proof (check_buyer_frozen _ _ _ _ Hu1 Hbc) as Hbf.
  pose proof (check_buyer_frozen _ _ _ _ Hu2 Hsc) as Hsf.
  assert (wf_account bacc) as Hwb by by eapply Hwf.
  assert (wf_account sacc) as Hws by by eapply Hwf.
  pose proof (two_holds_le_supply (base_asset_id data) _ _ _ _ _ Hwf Husers Hbu Hsu) as HB.
  pose proof (two_holds_le_supply (quote_asset_id data) _ _ _ _ _ Hwf Husers Hbu Hsu) as HQ.
  unfold holds, held in HB, HQ.
  pose proof (wf_bal bacc (base_asset_id data) Hwb). pose proof (wf_bal bacc (quote_asset_id data) Hwb).
  pose proof (wf_bal sacc (base_asset_id data) Hws). pose proof (wf_bal sacc (quote_asset_id data) Hws).
  destruct (settle_after_check (quote_asset_id data) (base_asset_id data) qa (quantity data)
    (buyer_refund data) bacc) as (bacc' & Hbs & _); [done || ulia..|].
  destruct (settle_after_check (base_asset_id data) (quote_asset_id data) (quantity data) qa
    (seller_refund data) sacc) as (sacc' & Hss & _); [done || ulia..|].
  right. eexists. unfold bind, expect.
  rewrite (on_existing_eq _ _ _ _ _ _ Hbu Hbs).
  by rewrite (on_existing_eq (seller_user_id data) _ _ sacc tt sacc')
    by (rewrite ?lookup_insert_ne by done; done).
Qed.
End match_total.
