(* ===== verification/LedgerCommit.v ===== *)
(** * Batch commit and recovery of the ledger ([src/src/ledger.rs])

    The theorems about the operations of [Ledger] that span several commands:
    the copy-on-write shadow ledger agrees with applying the commands to the
    real accounts, a batch is committed all or nothing, and what any sequence
    of requests leaves in the log, in terms of the log's own operations. *)

From S2P Require Import Prelude Balance UserAccount Ledger.

#[local] Open Scope string_scope.
#[local] Open Scope list_scope.
#[local] Open Scope Z_scope.
#[local] Open Scope rust_scope.

#[local] Arguments decide : simpl never.

(** ** The shadow ledger agrees with the real one *)

(** The users a command reads or writes. *)
Definition match_users (data : MatchExecData) : list Z := [buyer_user_id data; seller_user_id data].

Fixpoint cmd_users (cmd : LedgerCommand) : list Z :=
  match cmd with
  | LedgerCommand.Deposit uid _ _ _ _ | LedgerCommand.Withdraw uid _ _ _ _
  | LedgerCommand.Lock uid _ _ _ _ | LedgerCommand.Unlock uid _ _ _ _
  | LedgerCommand.TradeSettle uid _ _ _ _ => [uid]
  | LedgerCommand.MatchExec data => match_users data
  | LedgerCommand.MatchExecBatch batch => concat (map match_users batch)
  | LedgerCommand.OrderUpdate _ => []
  | LedgerCommand.Batch cmds => concat (map cmd_users cmds)
  end.

(** [m] works on the users [us] only: on any table that has them, the rest of
    the table is a frame, and no user disappears. *)
Definition framed {E A} (us : list Z) (m : M Accounts E A) : Prop :=
  forall d b : Accounts, Forall (fun u => is_Some (d !! u)) us ->
    m (d ∪ b) = res_map (fun d' => d' ∪ b) (m d) /\
    (forall d', state_of (m d) = Some d' -> forall u, is_Some (d !! u) -> is_Some (d' !! u)).

Lemma framed_ret {E A} us (x : A) : framed us (ret (E := E) x).
Proof. intros d b _. split; [done|]. intros d' [= <-]. done. Qed.

Lemma framed_throw {E A} us (e : E) : framed us (throw (A := A) e).
Proof. intros d b _. split; [done|]. intros d' [= <-]. done. Qed.

Lemma framed_panic {E A} us : framed us (panic (E := E) (A := A)).
Proof. intros d b _. by split. Qed.

Lemma framed_bind {E A B} us (m : M Accounts E A) (k : A -> M Accounts E B) :
  framed us m -> (forall x, framed us (k x)) -> framed us (bind m k).
Proof.
  intros Hm Hk d b Hd. destruct (Hm d b Hd) as [Heq Hdom]. unfold bind. rewrite Heq.
  destruct (m d) as [x d1|e d1|]; simpl; [|by split..].
  specialize (Hdom d1 eq_refl).
  assert (Forall (fun u => is_Some (d1 !! u)) us) as Hd1 by (eapply Forall_impl; [exact Hd|]; eauto).
  destruct (Hk x d1 b Hd1) as [Heq1 Hdom1]. split; [done|]. eauto.
Qed.

Lemma framed_mono {E A} us us' (m : M Accounts E A) : framed us m -> us ⊆ us' -> framed us' m.
Proof.
  intros Hm Hsub d b Hd. apply Hm. rewrite Forall_forall in *. eauto.
Qed.

Lemma framed_expect {E E' A} us (m : M Accounts E A) :
  framed us m -> framed us (expect (E' := E') m).
Proof.
  intros Hm d b Hd. destruct (Hm d b Hd) as [Heq Hdom]. unfold expect. rewrite Heq.
  destruct (m d) as [x d1|e d1|]; simpl in *; [|by split..]. split; [done|]. eauto.
Qed.

Lemma framed_iter {E X} us (f : X -> M Accounts E unit) l :
  (forall x, x ∈ l -> framed us (f x)) -> framed us (iter f l).
Proof.
  induction l as [|x l IH]; intros Hf; simpl; [apply framed_ret|].
  apply framed_bind; [apply Hf; by left|]. intros _. apply IH. intros y Hy. apply Hf. by right.
Qed.

Lemma lookup_insert_dom (d : Accounts) uid acc u :
  is_Some (d !! u) -> is_Some (<[uid := acc]> d !! u).
Proof. intros H. rewrite lookup_insert. case_decide; eauto. Qed.

Lemma on_entry_framed {E A} uid (m : M UserAccount E A) : framed [uid] (on_entry uid m).
Proof.
  intros d b [[acc Hacc] _]%Forall_cons. unfold on_entry, zoom, entry_or_new.
  rewrite (lookup_union_Some_l _ _ _ _ Hacc), Hacc. simpl.
  destruct (m acc) as [x acc'|e acc'|]; simpl; rewrite ?insert_union_l;
    (split; [done|]); [intros d' [= <-]..|done]; eauto using lookup_insert_dom.
Qed.

Lemma on_existing_framed {E A} uid (m : M UserAccount E A) : framed [uid] (on_existing uid m).
Proof.
  intros d b [[acc Hacc] _]%Forall_cons. unfold on_existing, zoom.
  rewrite (lookup_union_Some_l _ _ _ _ Hacc), Hacc. simpl.
  destruct (m acc) as [x acc'|e acc'|]; simpl; rewrite ?insert_union_l;
    (split; [done|]); [intros d' [= <-]..|done]; eauto using lookup_insert_dom.
Qed.

Lemma check_existing_framed {E} uid (e : E) m : framed [uid] (check_existing uid e m).
Proof.
  intros d b [[acc Hacc] _]%Forall_cons. unfold check_existing, bind, get.
  rewrite (lookup_union_Some_l _ _ _ _ Hacc), Hacc. simpl.
  destruct (m acc); simpl; (split; [done|]); [intros d' [= <-]..|done]; done.
Qed.

Lemma concat_map_subseteq {A} (f : A -> list Z) x l : x ∈ l -> f x ⊆ concat (map f l).
Proof.
  intros Hx u Hu. apply list_elem_of_In, in_concat. exists (f x).
  rewrite <- !list_elem_of_In. split; [|done]. by apply list_elem_of_fmap_2.
Qed.

Section frames.
Context {bp : BuildProfile}.

Lemma apply_match_exec_framed data : framed (match_users data) (apply_match_exec data).
Proof.
  unfold apply_match_exec, match_users.
  destruct (checked_mul _ _) as [qa|]; [|by apply framed_throw].
  simpl. apply framed_bind; [apply framed_ret|intros qa'].
  repeat (apply framed_bind; [|intros _]); try apply framed_expect.
  - eapply framed_mono; [apply check_existing_framed|set_solver].
  - eapply framed_mono; [apply check_existing_framed|set_solver].
  - eapply framed_mono; [apply on_existing_framed|set_solver].
  - eapply framed_mono; [apply on_existing_framed|set_solver].
Qed.

Lemma apply_transaction_framed cmd : framed (cmd_users cmd) (apply_transaction cmd).
Proof.
  induction cmd as [cmds IH|cmd Hleaf] using ledger_command_ind.
  - simpl. apply framed_iter. intros c Hc. rewrite Forall_forall in IH.
    eapply framed_mono; [by apply IH|]. by apply concat_map_subseteq.
  - destruct cmd; simpl; try apply on_entry_framed; try (by destruct (Hleaf cmds)).
    + apply apply_match_exec_framed.
    + apply framed_iter. intros c Hc. eapply framed_mono; [apply apply_match_exec_framed|].
      by apply concat_map_subseteq.
    + apply framed_ret.
Qed.
End frames.

(** The real ledger as seen through the delta. *)
Definition full (s : ShadowLedger) : Accounts := delta_accounts s ∪ real_accounts s.

Definition add_user (uid : Z) (m : Accounts) : Accounts := <[uid := entry_or_new uid m]> m.

Definition add_users (us : list Z) (m : Accounts) : Accounts := foldl (fun m u => add_user u m) m us.

Lemma add_user_lookup uid m u :
  add_user uid m !! u = if decide (uid = u) then Some (entry_or_new u m) else m !! u.
Proof. unfold add_user. rewrite lookup_insert. by case_decide; subst. Qed.

Lemma add_users_lookup us m u :
  add_users us m !! u =
  match m !! u with Some acc => Some acc | None => if decide (u ∈ us) then Some (new_account u) else None end.
Proof.
  revert m. induction us as [|v us IH]; intros m; simpl.
  - by destruct (m !! u).
  - rewrite IH, add_user_lookup. unfold entry_or_new.
    destruct (decide (v = u)) as [->|Hne].
    + destruct (m !! u); simpl; [done|]. by rewrite decide_True by set_solver.
    + destruct (m !! u); [done|].
      destruct (decide (u ∈ us)); [rewrite decide_True by set_solver|rewrite decide_False by set_solver]; done.
Qed.

Lemma add_users_id us m : Forall (fun u => is_Some (m !! u)) us -> add_users us m = m.
Proof.
  intros Hus. apply map_eq. intros u. rewrite add_users_lookup.
  destruct (m !! u) as [acc|] eqn:Hu; [done|]. rewrite decide_False; [done|].
  intros Hin. rewrite Forall_forall in Hus. apply Hus in Hin as [acc Hacc]. congruence.
Qed.

Lemma copy_in_spec uid s :
  exists s', copy_in uid s = Ok tt s' /\ real_accounts s' = real_accounts s /\
    full s' = add_user uid (full s) /\ is_Some (delta_accounts s' !! uid) /\
    forall u, is_Some (delta_accounts s !! u) -> is_Some (delta_accounts s' !! u).
Proof.
  unfold copy_in, modify. eexists. split; [done|]. unfold full, add_user, entry_or_new.
  destruct (delta_accounts s !! uid) as [acc|] eqn:Hd; simpl.
  - rewrite (lookup_union_Some_l _ _ _ _ Hd). simpl.
    split_and!; [done| |by eauto|done]. by rewrite insert_id by by apply lookup_union_Some_l.
  - rewrite lookup_union_r by done. split_and!; [done|by rewrite insert_union_l| |].
    + rewrite lookup_insert_eq. eauto.
    + eauto using lookup_insert_dom.
Qed.

Lemma copies_spec us s :
  exists s', iter copy_in us s = Ok tt s' /\ real_accounts s' = real_accounts s /\
    full s' = add_users us (full s) /\ Forall (fun u => is_Some (delta_accounts s' !! u)) us /\
    forall u, is_Some (delta_accounts s !! u) -> is_Some (delta_accounts s' !! u).
Proof.
  revert s. induction us as [|u us IH]; intros s; simpl.
  - exists s. split_and!; by try constructor.
  - destruct (copy_in_spec u s) as (s1 & H1 & Hr1 & Hf1 & Hu1 & Hd1).
    destruct (IH s1) as (s2 & H2 & Hr2 & Hf2 & Hu2 & Hd2).
    exists s2. rewrite (bind_ok _ _ _ _ _ H1). split_and!; [done|congruence|congruence| |by eauto].
    constructor; eauto.
Qed.

Section agreement.
Context {bp : BuildProfile}.

(** ** What a successful match says about its users *)

Lemma apply_match_exec_users data m m' :
  apply_match_exec data m = Ok tt m' ->
  Forall (fun u => exists acc, m !! u = Some acc /\ assets acc <> []) (match_users data) /\
  forall u, u ∉ match_users data -> m' !! u = m !! u.
Proof.
  unfold apply_match_exec. destruct (checked_mul _ _) as [qa|]; [|done].
  simpl. rewrite bind_ret.
  intros ([] & s1 & H1 & H2)%bind_inv_ok.
  apply check_existing_ok in H1 as [-> (bacc & [] & sb & Hbu & Hbc)].
  apply bind_inv_ok in H2 as ([] & s2 & H2 & H3).
  apply check_existing_ok in H2 as [-> (sacc & [] & ss & Hsu & Hsc)].
  apply bind_inv_ok in H3 as ([] & s3 & H3 & H4).
  apply expect_inv_ok, on_existing_ok in H3 as (? & ? & _ & _ & ->).
  apply expect_inv_ok, on_existing_ok in H4 as (? & ? & _ & _ & ->).
  apply map_err_inv_ok in Hbc, Hsc.
  assert (Hne : forall acc a, get_balance a acc <> None -> assets acc <> []).
  { intros acc a Ha Hnil. apply Ha. unfold get_balance. by rewrite Hnil. }
  split.
  - unfold match_users. repeat (apply Forall_cons; split); [| |by apply Forall_nil].
    + exists bacc. split; [done|]. apply (Hne _ (quote_asset_id data)).
      unfold check_buyer_balance, bind, get, ok_or in Hbc. by destruct (get_balance _ bacc).
    + exists sacc. split; [done|]. apply (Hne _ (base_asset_id data)).
      unfold check_seller_balance, bind, get, ok_or in Hsc. by destruct (get_balance _ sacc).
  - unfold match_users. intros u Hu. rewrite !lookup_insert_ne by set_solver. done.
Qed.

Lemma match_iter_users batch m m' :
  iter apply_match_exec batch m = Ok tt m' ->
  Forall (fun u => exists acc, m !! u = Some acc /\ assets acc <> [])
         (concat (map match_users batch)).
Proof.
  revert m. induction batch as [|data batch IH]; intros m; [by intros; apply Forall_nil|].
  intros ([] & m1 & H1 & H2)%bind_inv_ok.
  change (concat (map match_users (data :: batch)))
    with (match_users data ++ concat (map match_users batch)).
  apply apply_match_exec_users in H1 as [Hus Hrest]. rewrite Forall_app. split; [exact Hus|].
  apply IH in H2. apply Forall_forall. intros u Hu.
  destruct (decide (u ∈ match_users data)) as [Hin|Hout].
  - rewrite Forall_forall in Hus. by apply Hus.
  - rewrite Forall_forall in H2. rewrite <- Hrest by done. by apply H2.
Qed.

(** Creating the missing accounts beforehand does not change the outcome of
    a successful match: a user without assets cannot pass the checks. *)
Lemma match_iter_add_users batch m m' :
  iter apply_match_exec batch (add_users (concat (map match_users batch)) m) = Ok tt m' <->
  iter apply_match_exec batch m = Ok tt m'.
Proof.
  assert (Hid : Forall (fun u => is_Some (m !! u)) (concat (map match_users batch)) ->
    add_users (concat (map match_users batch)) m = m) by apply add_users_id.
  split; intros H.
  - pose proof (match_iter_users _ _ _ H) as Hus. rewrite Hid in H; [done|].
    eapply Forall_impl; [exact Hus|]. intros u (acc & Hacc & Hne). simpl in *.
    rewrite add_users_lookup in Hacc. destruct (m !! u); [by eauto|].
    case_decide; [|done]. by injection Hacc as <-.
  - rewrite Hid; [done|]. eapply Forall_impl; [exact (match_iter_users _ _ _ H)|].
    intros u (acc & Hacc & _). simpl. by eauto.
Qed.

Lemma on_entry_add_user {E A} uid (m : M UserAccount E A) accts :
  on_entry uid m (add_user uid accts) = on_entry uid m accts.
Proof.
  unfold on_entry, zoom, add_user, entry_or_new at 1. rewrite lookup_insert_eq. simpl.
  destruct (m (entry_or_new uid accts)); by rewrite ?insert_insert_eq.
Qed.

(** ** Agreement of one command *)

Definition agree (real : Accounts) (r1 : res Accounts LedgerError unit)
    (r2 : res ShadowLedger LedgerError unit) : Prop :=
  match r1, r2 with
  | Ok _ m, Ok _ s => full s = m /\ real_accounts s = real
  | Ok _ _, _ | _, Ok _ _ => False
  | _, _ => True
  end.

(** The common shape of the non-batch commands: copy the users in, apply to
    the delta, record the command. *)
Lemma copy_apply_agrees us m cmd s :
  framed us m ->
  (forall m', m (add_users us (full s)) = Ok tt m' <-> m (full s) = Ok tt m') ->
  agree (real_accounts s) (m (full s))
    ((iter copy_in us ;;; on_delta m ;;; push_pending cmd) s).
Proof.
  intros Hframe Hadd.
  destruct (copies_spec us s) as (s1 & H1 & Hr1 & Hf1 & Hu1 & _).
  rewrite (bind_ok _ _ _ _ _ H1). rewrite <- Hf1 in Hadd.
  destruct (Hframe (delta_accounts s1) (real_accounts s1) Hu1) as [Heq _].
  fold (full s1) in Heq. unfold bind, on_delta, zoom.
  destruct (m (delta_accounts s1)) as [[] d|e d|] eqn:Hm; simpl in *.
  - apply Hadd in Heq. rewrite Heq. done.
  - destruct (m (full s)) as [[] m'|e' m'|] eqn:Hfull; [|done..].
    destruct (Hadd m') as [_ Hok]. rewrite Hok in Heq; done.
  - destruct (m (full s)) as [[] m'|e' m'|] eqn:Hfull; [|done..].
    destruct (Hadd m') as [_ Hok]. rewrite Hok in Heq; done.
Qed.

Lemma copy_in_match_eq data s : copy_in_match data s = iter copy_in (match_users data) s.
Proof.
  unfold copy_in_match. simpl. unfold bind.
  destruct (copy_in (buyer_user_id data) s) as [[] s1|? s1|]; [|done..].
  by destruct (copy_in (seller_user_id data) s1) as [[] s2|? s2|].
Qed.

Lemma iter_copy_in_match batch s :
  iter copy_in_match batch s = iter copy_in (concat (map match_users batch)) s.
Proof.
  revert s. induction batch as [|data batch IH]; intros s; [done|].
  change (concat (map match_users (data :: batch)))
    with (match_users data ++ concat (map match_users batch)).
  rewrite iter_app. simpl iter at 1. unfold bind at 1. rewrite copy_in_match_eq. unfold bind.
  by destruct (iter copy_in (match_users data) s) as [[] s2|? s2|].
Qed.

Lemma agree_iter cmds s :
  Forall (fun cmd => forall s, agree (real_accounts s) (apply_transaction cmd (full s))
                                     (shadow_apply cmd s)) cmds ->
  agree (real_accounts s) (iter apply_transaction cmds (full s)) (iter shadow_apply cmds s).
Proof.
  intros Hall. revert s. induction Hall as [|cmd cmds Hcmd _ IH]; intros s; simpl; [done|].
  specialize (Hcmd s). unfold bind.
  destruct (apply_transaction cmd (full s)) as [[] m|e m|], (shadow_apply cmd s) as [[] s1|e1 s1|];
    simpl in Hcmd; try done.
  destruct Hcmd as [<- Hr]. rewrite <- Hr. apply IH.
Qed.

Lemma shadow_apply_agrees cmd s :
  agree (real_accounts s) (apply_transaction cmd (full s)) (shadow_apply cmd s).
Proof.
  revert s. induction cmd as [cmds IH|cmd Hleaf] using ledger_command_ind; intros s.
  - by apply agree_iter.
  - assert (Hentry : forall uid (m : M UserAccount LedgerError unit) c,
      agree (real_accounts s) (on_entry uid m (full s))
        ((copy_in uid ;;; on_delta (on_entry uid m) ;;; push_pending c) s)).
    { intros uid m c.
      apply (copy_apply_agrees [uid] (on_entry uid m) c s (on_entry_framed uid m)).
      intros m'. simpl. by rewrite on_entry_add_user. }
    pose proof (apply_transaction_framed cmd) as Hframe.
    destruct cmd; try (by destruct (Hleaf cmds)); try apply Hentry; simpl in *.
    + pose proof (copy_apply_agrees _ _ (LedgerCommand.MatchExec data) s
        (apply_match_exec_framed data)) as H.
      unfold bind at 1. rewrite copy_in_match_eq. apply H. intros m'.
      pose proof (match_iter_add_users [data] (full s) m') as Hiff.
      change (concat (map match_users [data])) with (match_users data) in Hiff.
      cbn [iter] in Hiff. unfold bind, ret in Hiff.
      destruct (apply_match_exec data _) as [[] ?|?|], (apply_match_exec data (full s)) as [[] ?|?|];
        exact Hiff.
    + pose proof (copy_apply_agrees _ _ (LedgerCommand.MatchExecBatch batch) s Hframe
        (match_iter_add_users batch (full s))) as H.
      unfold bind at 1. rewrite iter_copy_in_match. exact H.
    + done.
Qed.
End agreement.

(** ** Batch commit and recovery *)

(** The entries a list of commands gets after sequence number [n]. *)
Fixpoint numbered (n : Z) (cmds : list LedgerCommand) : list (Z * LedgerCommand) :=
  match cmds with
  | [] => []
  | cmd :: cmds' => (n + 1, cmd) :: numbered (n + 1) cmds'
  end.

Lemma numbered_app n cmds1 cmds2 :
  numbered n (cmds1 ++ cmds2) = numbered n cmds1 ++ numbered (n + Z.of_nat (length cmds1)) cmds2.
Proof.
  revert n. induction cmds1 as [|cmd cmds1 IH]; intros n; cbn [app numbered length].
  - f_equal. lia.
  - rewrite IH. do 3 f_equal. lia.
Qed.

Section commit.
Context {bp : BuildProfile} `{WalOps W} `{LedgerListener L}.
Implicit Types g : GlobalLedger W L.

(** The appends of entries, one behind the other, on the log alone. *)
Definition append_all (entries : list (Z * LedgerCommand)) : M W LedgerError unit :=
  iter (fun e => wal_append e.1 e.2) entries.

Lemma append_all_app entries1 entries2 w w1 :
  append_all entries1 w = Ok tt w1 -> append_all (entries1 ++ entries2) w = append_all entries2 w1.
Proof. intros H1. unfold append_all in *. rewrite iter_app. unfold bind. by rewrite H1. Qed.

Lemma on_wal_eq (m : M W LedgerError unit) g w :
  wal g = Some w ->
  on_wal m g = res_map (fun w' => mkGlobal (accounts g) (Some w') (last_seq g) (listener g)) (m w).
Proof.
  intros Hw. unfold on_wal, bind, get, zoom. rewrite Hw. simpl. rewrite Hw. by destruct (m w).
Qed.

Lemma append_entry_eq cmd g w :
  wal g = Some w -> 0 <= last_seq g -> last_seq g + 1 <= u64_max ->
  append_entry cmd g =
  match wal_append (last_seq g + 1) cmd w with
  | Ok _ w' => Ok tt (mkGlobal (accounts g) (Some w') (last_seq g + 1) (listener g))
  | Err e w' => Err e (mkGlobal (accounts g) (Some w') (last_seq g) (listener g))
  | Panic => Panic
  end.
Proof.
  intros Hw Hs Hmax. unfold append_entry, bind, get, unwrap, op_add, set_last_seq, modify.
  rewrite u64_op_exact by (unfold is_u64; lia). cbn [ret]. rewrite (on_wal_eq _ _ _ Hw).
  by destruct (wal_append _ cmd w).
Qed.

(** The log refuses entry [k] of [cmds], after it has taken those before. *)
Definition refused_at (n : Z) (cmds : list LedgerCommand) (w : W) (k : nat) (e : LedgerError) (w' : W) : Prop :=
  exists cmd w1, cmds !! k = Some cmd /\ append_all (numbered n (take k cmds)) w = Ok tt w1 /\
    wal_append (n + Z.of_nat k + 1) cmd w1 = Err e w'.

(** Every way out of the append loop: the log has gone through the appends of
    the whole batch, or through those of a prefix and the refused one; the
    sequence number counts the entries taken. *)
Lemma append_loop_spec cmds g w :
  wal g = Some w -> 0 <= last_seq g -> last_seq g + Z.of_nat (length cmds) <= u64_max ->
  match iter append_entry cmds g with
  | Panic => append_all (numbered (last_seq g) cmds) w = Panic
  | Ok _ g' => exists w', append_all (numbered (last_seq g) cmds) w = Ok tt w' /\
      g' = mkGlobal (accounts g) (Some w') (last_seq g + Z.of_nat (length cmds)) (listener g)
  | Err e g' => exists k w', refused_at (last_seq g) cmds w k e w' /\
      g' = mkGlobal (accounts g) (Some w') (last_seq g + Z.of_nat k) (listener g)
  end.
Proof.
  revert g w. induction cmds as [|cmd cmds IH]; intros g w Hw Hs Hmax.
  - exists w. split; [done|]. cbn [length]. rewrite Z.add_0_r. destruct g; simpl in *; congruence.
  - cbn [iter]. unfold bind. cbn [length numbered] in *. rewrite (append_entry_eq _ _ _ Hw Hs ltac:(lia)).
    unfold append_all. cbn [iter fst snd]. unfold bind.
    destruct (wal_append _ cmd w) as [[] w1|e w1|] eqn:Ha; [| |done].
    + specialize (IH (mkGlobal (accounts g) (Some w1) (last_seq g + 1) (listener g)) w1 eq_refl).
      cbn [last_seq accounts listener] in IH. specialize (IH ltac:(lia) ltac:(lia)).
      destruct (iter append_entry cmds _) as [[] g2|e g2|]; [| |done].
      * destruct IH as (w2 & Hw2 & ->). exists w2. split; [done|]. f_equal. lia.
      * destruct IH as (k & w2 & (cmd' & w1' & Hk & Htake & Href) & ->). exists (S k), w2.
        split; [|f_equal; lia]. exists cmd', w1'. split; [done|]. split.
        -- unfold append_all in *. cbn [take numbered iter fst snd]. unfold bind. by rewrite Ha.
        -- rewrite <- Href. f_equal. lia.
    + exists 0%nat, w1. split; [|f_equal; lia]. exists cmd, w. split_and!; [done..|].
      rewrite <- Ha. f_equal. lia.
Qed.

(** ** Replay *)

Lemma replay_next cmd accts n :
  0 <= n -> n + 1 <= u64_max ->
  replay_entry (n + 1, cmd) (accts, n) =
  match apply_transaction cmd accts with
  | Ok _ a => Ok tt (a, n + 1)
  | Err e a => Err e (a, n)
  | Panic => Panic
  end.
Proof.
  intros Hn Hmax. unfold replay_entry, bind, get. simpl.
  destruct (Z.leb_spec (n + 1) n); [lia|].
  unfold op_add, unwrap. rewrite u64_op_exact by (unfold is_u64; lia). cbn [ret].
  rewrite Z.eqb_refl. simpl. unfold zoom, modify. simpl.
  by destruct (apply_transaction cmd accts).
Qed.

Lemma replay_numbered cmds accts n :
  0 <= n -> n + Z.of_nat (length cmds) <= u64_max ->
  iter replay_entry (numbered n cmds) (accts, n) =
  match iter apply_transaction cmds accts with
  | Ok _ a => Ok tt (a, n + Z.of_nat (length cmds))
  | _ => iter replay_entry (numbered n cmds) (accts, n)
  end.
Proof.
  revert accts n. induction cmds as [|cmd cmds IH]; intros accts n Hn Hmax.
  - cbn. by rewrite Z.add_0_r.
  - cbn [numbered iter length] in *. unfold bind. rewrite replay_next by lia.
    destruct (apply_transaction cmd accts) as [[] a|e a|]; [|done..].
    rewrite IH by lia. destruct (iter apply_transaction cmds a); [|done..]. f_equal. f_equal. lia.
Qed.

(** ** The committed state *)

Lemma commit_batch_shadow cmds g :
  agree (accounts g) (iter apply_transaction cmds (accounts g))
    (iter shadow_apply cmds (shadow_new (accounts g))).
Proof.
  pose proof (agree_iter cmds (shadow_new (accounts g))) as Ha.
  assert (full (shadow_new (accounts g)) = accounts g) as Hf by (apply map_empty_union).
  rewrite Hf in Ha. apply Ha. apply Forall_forall. intros cmd _ s. apply shadow_apply_agrees.
Qed.

Lemma on_listener_frame (m : M L LedgerError unit) g :
  match on_listener m g with
  | Ok _ g' | Err _ g' => accounts g' = accounts g /\ wal g' = wal g /\ last_seq g' = last_seq g
  | Panic => True
  end.
Proof.
  unfold on_listener, bind, get, zoom. destruct (listener g) as [l|] eqn:Hl; [|done].
  rewrite Hl. by destruct (m l).
Qed.

(** The ways a batch can end, for a ledger that has a log. *)
Lemma commit_batch_cases cmds g w :
  wal g = Some w -> 0 <= last_seq g -> last_seq g + Z.of_nat (length cmds) <= u64_max ->
  match commit_batch cmds g with
  | Ok _ g' =>
      iter apply_transaction cmds (accounts g) = Ok tt (accounts g') /\
      last_seq g' = last_seq g + Z.of_nat (length cmds) /\
      exists w', wal g' = Some w' /\ append_all (numbered (last_seq g) cmds) w = Ok tt w'
  | Err e g' =>
      (g' = g /\ is_ok (iter apply_transaction cmds (accounts g)) = false) \/
      (accounts g' = accounts g /\ is_ok (iter apply_transaction cmds (accounts g)) = true /\
       exists k w', refused_at (last_seq g) cmds w k e w' /\ wal g' = Some w' /\
         last_seq g' = last_seq g + Z.of_nat k) \/
      (iter apply_transaction cmds (accounts g) = Ok tt (accounts g') /\
       last_seq g' = last_seq g + Z.of_nat (length cmds) /\
       exists w', wal g' = Some w' /\ append_all (numbered (last_seq g) cmds) w = Ok tt w')
  | Panic => True
  end.
Proof.
  intros Hw Hs Hmax. unfold commit_batch, bind at 1, get.
  pose proof (commit_batch_shadow cmds g) as Ha. unfold agree in Ha.
  destruct (iter shadow_apply cmds _) as [[] shadow|e shadow|]; [| |done].
  - destruct (iter apply_transaction cmds (accounts g)) as [[] m|? ?|]; [|done..].
    destruct Ha as [Hfull Hreal].
    unfold commit_delta, bind, append_to_wal at 1, get. unfold bind. rewrite Hw.
    pose proof (append_loop_spec cmds g w Hw Hs Hmax) as Hloop.
    destruct (iter append_entry cmds g) as [[] g1|e g1|]; [| |done].
    + destruct Hloop as (w1 & Hw1 & ->).
      unfold apply_delta_to_memory, on_accounts, zoom, modify. cbn [accounts wal last_seq listener].
      assert (delta_accounts shadow ∪ accounts g = m) as -> by (by rewrite <- Hfull, <- Hreal).
      set (g2 := mkGlobal m (Some w1) _ _).
      pose proof (on_listener_frame (on_batch cmds) g2) as Hf.
      destruct (on_listener _ g2) as [[] g3|e g3|]; [| |done];
        destruct Hf as (Hacc & Hwal & Hseq); rewrite Hacc, Hseq; simpl in *.
      * split_and!; eauto.
      * right; right. split_and!; eauto.
    + destruct Hloop as (k & w1 & Href & ->). right; left. simpl. eauto 10.
  - left. split; [done|]. by destruct (iter apply_transaction cmds (accounts g)).
Qed.

(** C3: a batch is all or nothing, on any log.  When [commit_batch] succeeds,
    the accounts are those the commands reach one by one from the accounts
    before, and the log has gone through the appends of exactly these commands
    under consecutive numbers, each accepted, and nothing else.  When a command
    of the batch is not applicable, the whole ledger (log, accounts, sequence
    number) is as before.  Any other error is the log's or the listener's: the
    log refused an entry, after taking those before it, and the accounts are
    untouched; or the listener refused the batch, which is then in the log and
    in the accounts. *)
Theorem commit_batch_atomic cmds g w :
  wal g = Some w -> 0 <= last_seq g -> last_seq g + Z.of_nat (length cmds) <= u64_max ->
  match commit_batch cmds g with
  | Ok _ g' =>
      iter apply_transaction cmds (accounts g) = Ok tt (accounts g') /\
      last_seq g' = last_seq g + Z.of_nat (length cmds) /\
      exists w', wal g' = Some w' /\ append_all (numbered (last_seq g) cmds) w = Ok tt w'
  | Err e g' =>
      (g' = g /\ is_ok (iter apply_transaction cmds (accounts g)) = false) \/
      (accounts g' = accounts g /\ is_ok (iter apply_transaction cmds (accounts g)) = true /\
       exists k w', refused_at (last_seq g) cmds w k e w' /\ wal g' = Some w' /\
         last_seq g' = last_seq g + Z.of_nat k) \/
      (iter apply_transaction cmds (accounts g) = Ok tt (accounts g') /\
       last_seq g' = last_seq g + Z.of_nat (length cmds) /\
       exists w', wal g' = Some w' /\ append_all (numbered (last_seq g) cmds) w = Ok tt w')
  | Panic => True
  end.
Proof. apply commit_batch_cases. Qed.

(** ** Requests *)

(** An accepted command was logged under the next number, then applied. *)
Lemma global_apply_inv cmd g g' w :
  wal g = Some w -> 0 <= last_seq g -> last_seq g + 1 <= u64_max -> global_apply cmd g = Ok tt g' ->
  exists w', wal_append (last_seq g + 1) cmd w = Ok tt w' /\ wal g' = Some w' /\
    apply_transaction cmd (accounts g) = Ok tt (accounts g') /\ last_seq g' = last_seq g + 1.
Proof.
  intros Hw Hs Hmax. unfold global_apply, bind, get, unwrap, op_add.
  rewrite u64_op_exact by (unfold is_u64; lia). cbn [ret]. rewrite (on_wal_eq _ _ _ Hw).
  destruct (wal_append _ cmd w) as [[] w1|e w1|] eqn:Ha; cbn [res_map]; [|done..].
  unfold on_accounts, zoom. cbn [accounts wal last_seq listener].
  destruct (apply_transaction cmd (accounts g)) as [[] a|e a|] eqn:Happ; [|done..].
  set (g2 := mkGlobal a (Some w1) (last_seq g) (listener g)).
  pose proof (on_listener_frame (on_command cmd) g2) as Hf.
  destruct (on_listener _ g2) as [[] g3|e g3|]; [|done..].
  destruct Hf as (Hacc & Hwal & Hseq). unfold set_last_seq, modify. intros [= <-].
  exists w1. split; [done|]. split; [done|]. split; [|done]. simpl. by rewrite Hacc.
Qed.

(** A command the log takes and the accounts refuse stays in the log; its
    number is not used up. *)
Lemma global_apply_refused cmd g w w1 e a :
  wal g = Some w -> 0 <= last_seq g -> last_seq g + 1 <= u64_max ->
  wal_append (last_seq g + 1) cmd w = Ok tt w1 -> apply_transaction cmd (accounts g) = Err e a ->
  global_apply cmd g = Err e (mkGlobal a (Some w1) (last_seq g) (listener g)).
Proof.
  intros Hw Hs Hmax Ha Happ. unfold global_apply, bind, get, unwrap, op_add.
  rewrite u64_op_exact by (unfold is_u64; lia). cbn [ret]. rewrite (on_wal_eq _ _ _ Hw), Ha.
  cbn [res_map]. unfold on_accounts, zoom. cbn [accounts wal last_seq listener]. by rewrite Happ.
Qed.

(** What a client of the ledger asks for. *)
Inductive request := One (cmd : LedgerCommand) | Many (cmds : list LedgerCommand).

Definition submit (r : request) : M (GlobalLedger W L) LedgerError unit :=
  match r with One cmd => global_apply cmd | Many cmds => commit_batch cmds end.

Definition request_cmds (r : request) : list LedgerCommand :=
  match r with One cmd => [cmd] | Many cmds => cmds end.

Lemma submit_inv r g g' w :
  wal g = Some w -> 0 <= last_seq g -> last_seq g + Z.of_nat (length (request_cmds r)) <= u64_max ->
  submit r g = Ok tt g' ->
  exists w', append_all (numbered (last_seq g) (request_cmds r)) w = Ok tt w' /\ wal g' = Some w' /\
    iter apply_transaction (request_cmds r) (accounts g) = Ok tt (accounts g') /\
    last_seq g' = last_seq g + Z.of_nat (length (request_cmds r)).
Proof.
  intros Hw Hs Hmax Hok. destruct r as [cmd|cmds]; simpl in *.
  - destruct (global_apply_inv cmd g g' w Hw Hs Hmax Hok) as (w' & Ha & Hw' & Happ & Hseq).
    exists w'. unfold append_all. cbn [iter fst snd]. unfold bind. by rewrite Ha, Happ.
  - pose proof (commit_batch_cases cmds g w Hw Hs Hmax) as Hc. rewrite Hok in Hc.
    destruct Hc as (Happ & Hseq & w' & Hw' & Hall). by exists w'.
Qed.

(** A run of accepted requests, commands and batches mixed: the log has gone
    through the appends of all commands, in order and numbered on. *)
Lemma submits_inv rs : forall g g' w,
  wal g = Some w -> 0 <= last_seq g ->
  last_seq g + Z.of_nat (length (concat (map request_cmds rs))) <= u64_max ->
  iter submit rs g = Ok tt g' ->
  exists w', append_all (numbered (last_seq g) (concat (map request_cmds rs))) w = Ok tt w' /\
    wal g' = Some w' /\
    iter apply_transaction (concat (map request_cmds rs)) (accounts g) = Ok tt (accounts g') /\
    last_seq g' = last_seq g + Z.of_nat (length (concat (map request_cmds rs))).
Proof.
  induction rs as [|r rs IH]; intros g g' w Hw Hs Hmax; cbn [iter map concat] in *.
  { intros [= <-]. exists w. cbn [length]. rewrite Z.add_0_r. done. }
  rewrite length_app, Nat2Z.inj_add in *.
  intros ([] & g1 & H1 & H2)%bind_inv_ok.
  destruct (submit_inv r g g1 w Hw Hs ltac:(lia) H1) as (w1 & Ha1 & Hw1 & Happ1 & Hseq1).
  destruct (IH g1 g' w1 Hw1 ltac:(lia) ltac:(lia) H2) as (w2 & Ha2 & Hw2 & Happ2 & Hseq2).
  exists w2. rewrite numbered_app, (append_all_app _ _ _ _ Ha1), <- Hseq1. split; [done|].
  split; [done|]. split; [|lia]. rewrite iter_app. unfold bind. by rewrite Happ1.
Qed.

Lemma iter_submit_one cmds g : iter submit (map One cmds) g = iter global_apply cmds g.
Proof.
  revert g. induction cmds as [|cmd cmds IH]; intros g; [done|]. cbn [map iter]. unfold bind.
  change (submit (One cmd)) with (global_apply cmd). by destruct (global_apply cmd g).
Qed.

Lemma request_cmds_one cmds : concat (map request_cmds (map One cmds)) = cmds.
Proof. induction cmds as [|cmd cmds IH]; [done|]. cbn. by rewrite IH. Qed.
End commit.

(** ** Concrete runs

    A log kept in memory and a listener that accepts everything implement the
    two interfaces; the theorems are applied to them below. *)

#[export] Instance mem_log : WalOps (list (Z * LedgerCommand)) := {|
  wal_append seq cmd := modify (fun w => w ++ [(seq, cmd)]); wal_replay w := w
|}.

#[export] Instance quiet_listener : LedgerListener unit := { on_command _ := ret tt }.

Definition sample_accounts : Accounts :=
  {[ 7 := {| user_id := 7; assets := [(2, {| avail := 500; frozen := 300; version := 1 |})] |};
     8 := {| user_id := 8; assets := [(1, {| avail := 10; frozen := 6; version := 3 |})] |} ]}.

Definition sample_match : MatchExecData :=
  mkMatchExec 1 11 12 7 8 50 5 1 2 20 1 1 1 0 0 0 0 0 0 0 0 0.

Definition sample_ledger : GlobalLedger (list (Z * LedgerCommand)) unit :=
  mkGlobal ∅ (Some []) 0 (Some tt).

Lemma apply_transaction_conserves_witness :
  let cmd := LedgerCommand.Batch
    [LedgerCommand.Deposit 9 2 40 0 0; LedgerCommand.MatchExec sample_match;
     LedgerCommand.TradeSettle 7 2 10 1 3] in
  exists m', apply_transaction (bp := debug_profile) cmd sample_accounts = Ok tt m' /\
    supply 2 m' = 830 /\ supply 1 m' = 19.
Proof.
  intros cmd. destruct (apply_transaction (bp := debug_profile) cmd sample_accounts)
    as [[] m'|e m'|] eqn:Hr; [|vm_compute in Hr; discriminate..].
  exists m'. split; [reflexivity|].
  split; rewrite (apply_transaction_conserves (bp := debug_profile) cmd sample_accounts m' _ Hr);
    vm_compute; reflexivity.
Defined.

Lemma apply_match_exec_total_witness :
  exists m', apply_match_exec (bp := debug_profile) sample_match sample_accounts = Ok tt m'.
Proof.
  destruct (apply_match_exec_total (bp := debug_profile) sample_match sample_accounts)
    as [[e He]|H]; [|try (vm_compute; discriminate)..|vm_compute in He; discriminate|exact H].
  intros u acc Hu. unfold sample_accounts in Hu.
  apply lookup_insert_Some in Hu as [[_ <-]|[_ Hu]];
    [|apply lookup_singleton_Some in Hu as [_ <-]];
    apply wf_account_entries, Forall_singleton; unfold wf_balance; simpl; ulia.
Defined.

Lemma commit_batch_atomic_witness :
  let cmds := [LedgerCommand.Deposit 7 2 40 0 0; LedgerCommand.Lock 7 2 15 0 0] in
  exists g', commit_batch (bp := debug_profile) cmds sample_ledger = Ok tt g' /\
    wal g' = Some (numbered 0 cmds) /\ last_seq g' = 2.
Proof.
  intros cmds.
  pose proof (commit_batch_atomic (bp := debug_profile) cmds sample_ledger []
    eq_refl ltac:(vm_compute; discriminate) ltac:(vm_compute; discriminate)) as Hc.
  destruct (commit_batch (bp := debug_profile) cmds sample_ledger) as [[] g'|e g'|] eqn:Hr;
    [|vm_compute in Hr; discriminate..].
  exists g'. destruct Hc as (_ & Hseq & w' & Hw & Hall). split; [reflexivity|].
  split; [rewrite Hw; vm_compute in Hall; injection Hall as <-; reflexivity|rewrite Hseq; reflexivity].
Defined.
