(* ===== verification/FastUlid.v ===== *)
(** * Identifiers ([src/src/fast_ulid.rs])

    The half-ULID generator (48 bits of time, 16 of counter), the Snowflake
    generator (44 bits of time, 7 of machine, 13 of sequence) with its two
    sequence strategies, and the Crockford base-32 text forms.  The clock and
    the random generator are inputs. *)

From S2P Require Import Prelude.
From Stdlib Require Import Sorted.

#[local] Open Scope string_scope.
#[local] Open Scope list_scope.
#[local] Open Scope Z_scope.
#[local] Open Scope rust_scope.

(** ** Half ULID *)

Record FastUlidHalfGen := mkHalf { last_val : Z }.

Definition half_new : FastUlidHalfGen := {| last_val := 0 |}.

(** [generate], with the clock reading and the 16 random bits as inputs. *)
Definition half_generate (now rand : Z) (g : FastUlidHalfGen) : Z * FastUlidHalfGen :=
  let ts_part := as_u64 (Z.shiftl now 16) in
  let v := if last_val g <? ts_part then Z.lor ts_part rand
           else wrapping_add (last_val g) 1 in
  (v, {| last_val := v |}).

Definition generate_from_ts (timestamp_ms : Z) (g : FastUlidHalfGen) : Z * FastUlidHalfGen :=
  let ts_part := as_u64 (Z.shiftl timestamp_ms 16) in
  let v := if last_val g <? ts_part then ts_part else wrapping_add (last_val g) 1 in
  (v, {| last_val := v |}).

Definition half_timestamp_ms (val : Z) : Z := Z.shiftr val 16.
Definition half_random_part (val : Z) : Z := Z.land val 65535.
Definition half_from_parts (timestamp_ms random_part : Z) : Z :=
  Z.lor (as_u64 (Z.shiftl timestamp_ms 16)) random_part.

(** ** Snowflake *)

(** A strategy for the 13-bit sequence; [R] is the state of the random
    generator. *)
Class SequenceStrategy (R : Type) := {
  next_sequence : Z -> R -> option (Z * R);
  reset_sequence : R -> Z * R
}.

Definition next_masked {bp : BuildProfile} (current : Z) : option Z :=
  (fun x => Z.land x 8191) <$> in_range 0 65535 65536 (current + 1).

Definition ZeroSequence {bp : BuildProfile} {R} : SequenceStrategy R := {|
  next_sequence current r := (fun x => (x, r)) <$> next_masked current;
  reset_sequence r := (0, r)
|}.

Definition RandomSequence {bp : BuildProfile} {R} (random_u16 : R -> Z * R) : SequenceStrategy R := {|
  next_sequence current r := (fun x => (x, r)) <$> next_masked current;
  reset_sequence r := let '(x, r') := random_u16 r in (Z.land x 8191, r')
|}.

Record SnowflakeGen (R : Type) := mkSnow {
  machine_id : Z; last_ts : Z; sequence : Z; rng : R
}.
Arguments mkSnow {R}.
Arguments machine_id {R}.
Arguments last_ts {R}.
Arguments sequence {R}.
Arguments rng {R}.

Definition snowflake_new {R} (machine : Z) (r : R) : SnowflakeGen R :=
  mkSnow (Z.land machine 127) 0 0 r.

Definition snowflake_id (now machine seq : Z) : Z :=
  Z.lor (Z.lor (as_u64 (Z.shiftl now 20)) (Z.shiftl machine 13)) seq.

Section snowflake.
Context {bp : BuildProfile} `{SequenceStrategy R}.

Definition snowflake_generate (clock : Z) : M (SnowflakeGen R) Empty_set Z :=
  let* g := get in
  let now := if clock <? last_ts g then last_ts g else clock in
  let* '(now, seq, r) :=
    (if now =? last_ts g then
       let* '(seq, r) := unwrap (next_sequence (sequence g) (rng g)) in
       if seq =? 0 then
         let* ts := unwrap (op_add (last_ts g) 1) in
         let '(seq, r) := reset_sequence r in
         ret (ts, seq, r)
       else ret (now, seq, r)
     else
       let '(seq, r) := reset_sequence (rng g) in
       ret (now, seq, r)) in
  put (mkSnow (machine_id g) now seq r) ;;;
  ret (snowflake_id now (machine_id g) seq).
End snowflake.

Definition snow_timestamp_ms (val : Z) : Z := Z.shiftr val 20.
Definition snow_machine_id (val : Z) : Z := Z.land (Z.shiftr val 13) 127.
Definition snow_sequence (val : Z) : Z := Z.land val 8191.
Definition snow_from_parts (timestamp_ms machine seq : Z) : Z :=
  Z.lor (Z.lor (as_u64 (Z.shiftl timestamp_ms 20)) (Z.shiftl (Z.land machine 127) 13))
        (Z.land seq 8191).

(** ** Base 32

    A string is the list of its bytes. *)

Definition bytes_of (s : string) : list Z :=
  map (fun c => Z.of_N (Ascii.N_of_ascii c)) (String.list_ascii_of_string s).

(** [str::parse] of an unsigned integer up to [max]: a plus sign may come
    first. *)
Fixpoint parse_digits (max : Z) (l : list Z) (acc : Z) : option Z :=
  match l with
  | [] => Some acc
  | c :: l =>
      if (48 <=? c) && (c <=? 57) then
        let x := acc * 10 + (c - 48) in
        if x <=? max then parse_digits max l x else None
      else None
  end.

Definition parse_uint (max : Z) (s : string) : option Z :=
  match bytes_of s with
  | [] => None
  | 43 :: l => match l with [] => None | _ => parse_digits max l 0 end
  | l => parse_digits max l 0
  end.

Definition ALPHABET : list Z := bytes_of "0123456789ABCDEFGHJKMNPQRSTVWXYZ".

(** [chars[i] = ALPHABET[t % 32]; t /= 32] from the last position down. *)
Fixpoint put_digits (n : nat) (t : Z) (acc : list Z) : list Z :=
  match n with
  | O => acc
  | S n' => put_digits n' (t / 32) (nth (Z.to_nat (t mod 32)) ALPHABET 0 :: acc)
  end.

Definition half_to_str_base32 (val : Z) : list Z :=
  put_digits 10 (Z.shiftr val 16) [] ++ put_digits 4 (Z.land val 65535) [].

Definition to_str_base32 (val : Z) : list Z :=
  put_digits 9 (Z.shiftr val 20) [] ++ put_digits 4 (Z.land val 1048575) [].

(** [map[ALPHABET[i] as usize] = i], for [i] from 0 to 31. *)
Definition decode_pass (m : list Z) : list Z :=
  foldl (fun m i => <[Z.to_nat (nth i ALPHABET 0) := Z.of_nat i]> m) m (seq 0 32).

(** The compile-time table; the pass that is meant for the lower-case letters
    is the first one again. *)
Definition DECODE : list Z := Eval vm_compute in decode_pass (decode_pass (replicate 256 (-1))).

Inductive DecodeError := InvalidLength (len : nat) | InvalidCharacter (index : nat).

(** One decoding loop; [i] is the index of the first of the [bytes]. *)
Fixpoint decode_loop (i : nat) (bytes : list Z) (acc : Z) : DecodeError + Z :=
  match bytes with
  | [] => inr acc
  | b :: bytes' =>
      let val := nth (Z.to_nat b) DECODE (-1) in
      if val =? -1 then inl (InvalidCharacter i)
      else decode_loop (S i) bytes' (Z.lor (as_u64 (Z.shiftl acc 5)) val)
  end.

Definition from_str_base32 (s : list Z) : DecodeError + Z :=
  if negb (Nat.eqb (length s) 13) then inl (InvalidLength (length s))
  else
    match decode_loop 0 (firstn 9 s) 0 with
    | inl e => inl e
    | inr ts =>
        match decode_loop 9 (skipn 9 s) 0 with
        | inl e => inl e
        | inr low => inr (Z.lor (as_u64 (Z.shiftl ts 20)) low)
        end
    end.

(** ** Bits *)

Lemma lor_shiftl_add a b k : 0 <= k -> 0 <= b < 2 ^ k -> Z.lor (Z.shiftl a k) b = a * 2 ^ k + b.
Proof.
  intros Hk Hb. rewrite <- Z.shiftl_mul_pow2 by lia.
  assert (Z.land (Z.shiftl a k) b = 0) as Hz.
  { apply Z.bits_inj'. intros n Hn. rewrite Z.land_spec, Z.bits_0.
    destruct (Z.ltb_spec n k).
    - by rewrite Z.shiftl_spec_low.
    - rewrite <- (Z.mod_small b (2 ^ k)) by lia.
      rewrite Z.mod_pow2_bits_high by lia. apply andb_false_r. }
  rewrite Z.add_nocarry_lxor by done. by rewrite Z.lxor_lor.
Qed.

Lemma land_ones_mod a k n : 0 <= k -> n = Z.ones k -> Z.land a n = a mod 2 ^ k.
Proof. intros Hk ->. by apply Z.land_ones. Qed.

Lemma as_u64_shiftl a k : 0 <= k -> 0 <= a < 2 ^ (64 - k) -> k <= 64 ->
  as_u64 (Z.shiftl a k) = Z.shiftl a k.
Proof.
  intros Hk Ha Hle. apply as_u64_id. rewrite Z.shiftl_mul_pow2 by lia.
  assert (2 ^ (64 - k) * 2 ^ k = u64_mod) as Hm
    by (rewrite <- Z.pow_add_r by lia; replace (64 - k + k) with 64 by lia; reflexivity).
  unfold is_u64. pose proof (Z.pow_pos_nonneg 2 k). unfold u64_max, u64_mod in *. nia.
Qed.

(** The value packed by [snowflake_id]. *)
Lemma snowflake_id_eq now machine seq :
  0 <= now < 2 ^ 44 -> 0 <= machine < 128 -> 0 <= seq < 8192 ->
  snowflake_id now machine seq = now * 2 ^ 20 + machine * 2 ^ 13 + seq.
Proof.
  intros Hn Hm Hs. unfold snowflake_id. rewrite as_u64_shiftl by lia.
  replace (Z.shiftl now 20) with (Z.shiftl (Z.shiftl now 7) 13) by (rewrite Z.shiftl_shiftl by lia; done).
  rewrite <- Z.shiftl_lor, (lor_shiftl_add now machine 7) by lia.
  rewrite lor_shiftl_add by lia. lia.
Qed.

(** ** Half ULID: monotonicity *)

Lemma sorted_one (x : Z) : StronglySorted Z.lt [x].
Proof. apply SSorted_cons; [apply SSorted_nil|by apply Forall_nil]. Qed.


(** Successive calls of [generate_from_ts]. *)
Fixpoint half_run (ts : list Z) (g : FastUlidHalfGen) : list Z * FastUlidHalfGen :=
  match ts with
  | [] => ([], g)
  | t :: ts' =>
      let '(v, g1) := generate_from_ts t g in
      let '(vs, g2) := half_run ts' g1 in (v :: vs, g2)
  end.

Lemma generate_from_ts_spec t g :
  0 <= last_val g < u64_max -> 0 <= t < 2 ^ 48 ->
  exists v, generate_from_ts t g = (v, {| last_val := v |}) /\
    last_val g < v <= Z.max (t * 65536) (last_val g + 1) /\ t <= half_timestamp_ms v.
Proof.
  intros Hl Ht. unfold generate_from_ts. rewrite as_u64_shiftl, Z.shiftl_mul_pow2 by lia.
  assert (last_val g + 1 = wrapping_add (last_val g) 1) as <-
    by (unfold wrapping_add; rewrite Z.mod_small; ulia).
  eexists. split; [done|]. unfold half_timestamp_ms. rewrite Z.shiftr_div_pow2 by lia.
  change (2 ^ 16) with 65536. destruct (Z.ltb_spec (last_val g) (t * 65536)).
  - rewrite Z.div_mul by lia. lia.
  - split; [lia|]. apply Z.div_le_lower_bound; lia.
Qed.

(** Trade identifiers are unique and increasing.  However the timestamps
    of successive calls move (forward, repeated, backward), the identifiers of
    the deterministic generator are strictly increasing and above everything
    issued before, as long as the 64-bit space lasts. *)
Theorem half_run_increasing ts g :
  0 <= last_val g -> last_val g + Z.of_nat (length ts) <= u64_max ->
  Forall (fun t => 0 <= t /\ t * 65536 + Z.of_nat (length ts) <= u64_max) ts ->
  StronglySorted Z.lt (last_val g :: (half_run ts g).1).
Proof.
  revert g. induction ts as [|t ts IH]; intros g H0 Hmax Hts; cbn [half_run].
  - apply sorted_one.
  - apply Forall_cons in Hts as [Ht Hts]. cbn [length] in *.
    destruct (generate_from_ts_spec t g) as (v & -> & Hv & _); [ulia..|].
    specialize (IH {| last_val := v |}). simpl in IH.
    destruct (half_run ts {| last_val := v |}) as [vs g2]. simpl in *.
    assert (StronglySorted Z.lt (v :: vs)) as Hs.
    { apply IH; [lia|ulia|]. eapply Forall_impl; [exact Hts|]. simpl. intros x Hx. ulia. }
    constructor; [done|]. apply StronglySorted_inv in Hs as [_ Hvs].
    constructor; [lia|]. eapply Forall_impl; [exact Hvs|]. simpl. lia.
Qed.

Lemma half_run_increasing_witness :
  (half_run [5; 5; 4; 9] half_new).1 = [327680; 327681; 327682; 589824] /\
  StronglySorted Z.lt [0; 327680; 327681; 327682; 589824].
Proof.
  split; [reflexivity|].
  apply (half_run_increasing [5; 5; 4; 9] half_new); [vm_compute; discriminate..|].
  repeat (apply Forall_cons; split; [vm_compute; split; discriminate|]). by apply Forall_nil.
Defined.

(** ** Snowflake: what a strategy promises *)

Class LawfulSequence `(S : SequenceStrategy R) := {
  next_sequence_spec : forall c r, 0 <= c < 8192 ->
    exists r', next_sequence c r = Some ((c + 1) mod 8192, r');
  reset_sequence_range : forall r, 0 <= (reset_sequence r).1 < 8192
}.

Lemma next_masked_spec {bp : BuildProfile} c :
  0 <= c < 8192 -> next_masked c = Some ((c + 1) mod 8192).
Proof.
  intros Hc. unfold next_masked, in_range.
  destruct (Z.leb_spec 0 (c + 1)), (Z.leb_spec (c + 1) 65535); try lia. simpl.
  f_equal. by apply (land_ones_mod _ 13).
Qed.

#[export] Instance zero_sequence_lawful {bp : BuildProfile} {R} : LawfulSequence (R := R) ZeroSequence.
Proof.
  split; [|done]. intros c r Hc. exists r. simpl. by rewrite next_masked_spec.
Qed.

#[export] Instance random_sequence_lawful {bp : BuildProfile} {R} (random_u16 : R -> Z * R) :
  LawfulSequence (RandomSequence random_u16).
Proof.
  split.
  - intros c r Hc. exists r. simpl. by rewrite next_masked_spec.
  - intros r. simpl. destruct (random_u16 r) as [x r']. simpl.
    rewrite (land_ones_mod _ 13) by done. apply Z.mod_pos_bound. lia.
Qed.

Section snowflake_theorems.
Context {bp : BuildProfile} `{Hseq : LawfulSequence R}.
Implicit Types g : SnowflakeGen R.

Definition wf_snow g : Prop :=
  0 <= last_ts g /\ 0 <= sequence g < 8192 /\ 0 <= machine_id g < 128.

(** Position of a generator in its own virtual time. *)
Definition tick g : Z := last_ts g * 8192 + sequence g.

Lemma snowflake_generate_spec clock g :
  wf_snow g -> 0 <= clock -> last_ts g + 1 < 2 ^ 44 -> clock < 2 ^ 44 ->
  exists g', snowflake_generate clock g
      = Ok (snowflake_id (last_ts g') (machine_id g') (sequence g')) g' /\
    wf_snow g' /\ machine_id g' = machine_id g /\ tick g < tick g' /\
    clock <= last_ts g' <= Z.max clock (last_ts g + 1).
Proof.
  intros (Hl & Hs & Hm) Hc Hl1 Hc1.
  destruct (next_sequence_spec (sequence g) (rng g) Hs) as [r1 Hr1].
  pose proof (reset_sequence_range r1) as Hreset1.
  pose proof (reset_sequence_range (rng g)) as Hreset.
  pose proof (Z.mod_pos_bound (sequence g + 1) 8192 ltac:(lia)) as Hmod.
  unfold snowflake_generate, bind, get. rewrite Hr1.
  assert (op_add (last_ts g) 1 = Some (last_ts g + 1)) as Hadd
    by (apply u64_op_exact; ulia).
  set (now := if clock <? last_ts g then last_ts g else clock).
  assert (now = Z.max clock (last_ts g)) as Hnow by (unfold now; destruct (Z.ltb_spec clock (last_ts g)); lia).
  clearbody now. destruct (Z.eqb_spec now (last_ts g)) as [Heq|Hne]; simpl.
  - destruct (Z.eqb_spec ((sequence g + 1) mod 8192) 0) as [H0|H0].
    + rewrite Hadd. simpl. destruct (reset_sequence r1) as [s r2]. simpl in *.
      exists (mkSnow (machine_id g) (last_ts g + 1) s r2). split; [reflexivity|].
      unfold wf_snow, tick; simpl. lia.
    + assert ((sequence g + 1) mod 8192 = sequence g + 1) as Hnw.
      { apply Z.mod_small. destruct (Z.eq_dec (sequence g) 8191) as [He|]; [|lia].
        rewrite He in H0. by destruct H0. }
      rewrite Hnw in *. exists (mkSnow (machine_id g) now (sequence g + 1) r1).
      split; [reflexivity|]. unfold wf_snow, tick; simpl. lia.
  - destruct (reset_sequence (rng g)) as [s r2]. simpl in *.
    exists (mkSnow (machine_id g) now s r2). split; [reflexivity|]. unfold wf_snow, tick; simpl. lia.
Qed.

(** Successive calls at the given clock readings. *)
Fixpoint snow_run (clocks : list Z) : M (SnowflakeGen R) Empty_set (list Z) :=
  match clocks with
  | [] => ret []
  | c :: clocks' =>
      let* v := snowflake_generate c in
      let* vs := snow_run clocks' in ret (v :: vs)
  end.

(** What the machine bits and the virtual time make of a state. *)
Definition snow_value g : Z := snowflake_id (last_ts g) (machine_id g) (sequence g).

Lemma snow_value_lt g g' :
  wf_snow g -> wf_snow g' -> machine_id g = machine_id g' ->
  last_ts g < 2 ^ 44 -> last_ts g' < 2 ^ 44 -> tick g < tick g' -> snow_value g < snow_value g'.
Proof.
  intros (? & ? & ?) (? & ? & ?) Hm Hb1 Hb2 Hlt. unfold snow_value, tick in *.
  rewrite !snowflake_id_eq by lia. lia.
Qed.

(** C5: Snowflake identifiers are unique and increasing on a machine, with
    either sequence strategy, whatever the clock does: a clock that stands
    still or steps back makes the sequence advance, a sequence that runs out
    borrows the next millisecond.  The call never panics while 44 bits of
    milliseconds last. *)
Theorem snow_run_increasing clocks g :
  wf_snow g -> last_ts g + Z.of_nat (length clocks) < 2 ^ 44 ->
  Forall (fun c => 0 <= c /\ c + Z.of_nat (length clocks) < 2 ^ 44) clocks ->
  exists ids g', snow_run clocks g = Ok ids g' /\ length ids = length clocks /\
    StronglySorted Z.lt (snow_value g :: ids).
Proof.
  revert g. induction clocks as [|c clocks IH]; intros g Hg Hmax Hcs; cbn [snow_run length] in *.
  - exists [], g. split_and!; [done..|apply sorted_one].
  - apply Forall_cons in Hcs as [Hc Hcs].
    destruct (snowflake_generate_spec c g Hg) as (g1 & H1 & Hg1 & Hm & Htick & Hts); [lia..|].
    destruct (IH g1 Hg1) as (ids & g2 & H2 & Hlen & Hsorted); [lia| |].
    { eapply Forall_impl; [exact Hcs|]. simpl. lia. }
    exists (snow_value g1 :: ids), g2. rewrite (bind_ok _ _ _ _ _ H1), (bind_ok _ _ _ _ _ H2).
    split_and!; [done|simpl; congruence|].
    assert (snow_value g < snow_value g1) as Hlt by (apply snow_value_lt; done || lia).
    constructor; [done|]. apply StronglySorted_inv in Hsorted as [_ Hids].
    constructor; [done|]. eapply Forall_impl; [exact Hids|]. simpl. lia.
Qed.
End snowflake_theorems.

Lemma snow_run_increasing_witness :
  exists ids g', snow_run (bp := debug_profile) (S0 := ZeroSequence (bp := debug_profile)) [9; 9; 3; 10]
      (snowflake_new 3 tt) = Ok ids g' /\ length ids = 4%nat /\
    StronglySorted Z.lt (snow_value (snowflake_new 3 tt) :: ids).
Proof.
  apply (@snow_run_increasing debug_profile unit (ZeroSequence (bp := debug_profile)) _ [9; 9; 3; 10] (snowflake_new 3 tt)).
  - split; [vm_compute; discriminate|]. vm_compute. repeat split; discriminate.
  - reflexivity.
  - repeat (apply Forall_cons; split; [vm_compute; split; [discriminate|reflexivity]|]).
    by apply Forall_nil.
Defined.

(** The three fields of a Snowflake identifier are read back from it. *)
Theorem snowflake_fields now machine seq :
  0 <= now < 2 ^ 44 -> 0 <= machine < 128 -> 0 <= seq < 8192 ->
  snow_timestamp_ms (snow_from_parts now machine seq) = now /\
  snow_machine_id (snow_from_parts now machine seq) = machine /\
  snow_sequence (snow_from_parts now machine seq) = seq.
Proof.
  intros Hn Hm Hs.
  assert (snow_from_parts now machine seq = now * 2 ^ 20 + machine * 2 ^ 13 + seq) as ->.
  { unfold snow_from_parts.
    rewrite (land_ones_mod machine 7), (land_ones_mod seq 13) by done.
    rewrite !Z.mod_small by lia. by apply snowflake_id_eq. }
  unfold snow_timestamp_ms, snow_machine_id, snow_sequence.
  rewrite (land_ones_mod _ 7), (land_ones_mod _ 13), !Z.shiftr_div_pow2 by done.
  change (2 ^ 20) with 1048576. change (2 ^ 13) with 8192. change (2 ^ 7) with 128.
  split_and!.
  - symmetry. apply (Z.div_unique _ _ _ (machine * 8192 + seq)); lia.
  - rewrite <- (Z.div_unique (now * 1048576 + machine * 8192 + seq) 8192 (now * 128 + machine) seq) by lia.
    symmetry. apply (Z.mod_unique _ _ now); lia.
  - symmetry. apply (Z.mod_unique _ _ (now * 128 + machine)); lia.
Qed.

Lemma snowflake_fields_witness :
  snow_timestamp_ms (snow_from_parts 1700000000000 5 77) = 1700000000000 /\
  snow_machine_id (snow_from_parts 1700000000000 5 77) = 5 /\
  snow_sequence (snow_from_parts 1700000000000 5 77) = 77.
Proof. apply (snowflake_fields 1700000000000 5 77); lia. Defined.

(** ** Base 32 round trip *)

(** The base-32 digits of [t], most significant first. *)
Fixpoint digits (n : nat) (t : Z) : list Z :=
  match n with
  | O => []
  | S n' => digits n' (t / 32) ++ [t mod 32]
  end.

Definition letter (d : Z) : Z := nth (Z.to_nat d) ALPHABET 0.

Lemma put_digits_eq n t acc : put_digits n t acc = map letter (digits n t) ++ acc.
Proof.
  revert t acc. induction n as [|n IH]; intros t acc; [done|].
  simpl. by rewrite IH, map_app, <- app_assoc.
Qed.

Lemma digits_length n t : length (digits n t) = n.
Proof. revert t. induction n as [|n IH]; intros t; [done|]. simpl. rewrite length_app, IH. simpl. lia. Qed.

Lemma digits_range n t : Forall (fun d => 0 <= d < 32) (digits n t).
Proof.
  revert t. induction n as [|n IH]; intros t; simpl; [by apply Forall_nil|].
  apply Forall_app. split; [apply IH|]. apply Forall_singleton. by apply Z.mod_pos_bound.
Qed.

Lemma decode_letter d : 0 <= d < 32 -> nth (Z.to_nat (letter d)) DECODE (-1) = d.
Proof.
  intros Hd.
  assert (forall k, (k < 32)%nat ->
    nth (Z.to_nat (letter (Z.of_nat k))) DECODE (-1) = Z.of_nat k) as Hk.
  { intros k Hk. do 32 (destruct k as [|k]; [reflexivity|]). lia. }
  specialize (Hk (Z.to_nat d)). rewrite Z2Nat.id in Hk by lia. apply Hk. lia.
Qed.

Definition value (ds : list Z) (acc : Z) : Z := foldl (fun a d => a * 32 + d) acc ds.

Lemma value_app ds1 ds2 acc : value (ds1 ++ ds2) acc = value ds2 (value ds1 acc).
Proof. apply foldl_app. Qed.

Lemma value_digits n t : 0 <= t -> value (digits n t) 0 = t mod 32 ^ Z.of_nat n.
Proof.
  revert t. induction n as [|n IH]; intros t Ht.
  - cbn. by rewrite Z.mod_1_r.
  - cbn [digits]. rewrite value_app, IH by (apply Z.div_pos; lia). simpl.
    rewrite Nat2Z.inj_succ, Z.pow_succ_r by lia.
    rewrite (Z.rem_mul_r t 32) by (try apply Z.pow_pos_nonneg; lia). lia.
Qed.

Lemma decode_loop_letters ds i acc :
  Forall (fun d => 0 <= d < 32) ds -> 0 <= acc ->
  (acc + 1) * 32 ^ Z.of_nat (length ds) <= u64_mod ->
  decode_loop i (map letter ds) acc = inr (value ds acc).
Proof.
  intros Hds. revert i acc. induction Hds as [|d ds Hd Hds IH]; intros i acc Hacc Hmax; [done|].
  cbn [map decode_loop length] in *. rewrite decode_letter by done.
  rewrite Nat2Z.inj_succ, Z.pow_succ_r in Hmax by lia.
  pose proof (Z.pow_pos_nonneg 32 (Z.of_nat (length ds)) ltac:(lia) ltac:(lia)).
  destruct (Z.eqb_spec d (-1)); [lia|].
  rewrite as_u64_id.
  - rewrite (lor_shiftl_add acc d 5) by lia. change (2 ^ 5) with 32.
    apply IH; [lia|]. nia.
  - rewrite Z.shiftl_mul_pow2 by lia. change (2 ^ 5) with 32. unfold u64_mod in Hmax. unfold is_u64, u64_max. nia.
Qed.

(** [from_str_base32] inverts [to_str_base32] on every [u64]. *)
Theorem base32_roundtrip val :
  is_u64 val -> from_str_base32 (to_str_base32 val) = inr val.
Proof.
  intros Hv. unfold to_str_base32. rewrite !put_digits_eq, !app_nil_r.
  set (ts := Z.shiftr val 20). set (low := Z.land val 1048575).
  assert (ts = val / 2 ^ 20) as Hts by (apply Z.shiftr_div_pow2; lia).
  assert (low = val mod 2 ^ 20) as Hlow by (by apply (land_ones_mod _ 20)).
  pose proof (Z.div_mod val (2 ^ 20) ltac:(lia)) as Hdm.
  pose proof (Z.mod_pos_bound val (2 ^ 20) ltac:(lia)) as Hmod.
  assert (0 <= ts < 2 ^ 44) as Htsr by (rewrite Hts; split; [apply Z.div_pos|apply Z.div_lt_upper_bound]; ulia).
  unfold from_str_base32. rewrite length_app, !length_map, !digits_length. simpl negb. cbv iota.
  rewrite firstn_app, skipn_app, !length_map, !digits_length.
  rewrite firstn_all2, skipn_all2 by (rewrite length_map, digits_length; lia).
  replace (9 - 9)%nat with O by lia. rewrite take_0, drop_0, app_nil_r, app_nil_l.
  rewrite (decode_loop_letters (digits 9 ts)) by (apply digits_range || (rewrite ?digits_length; vm_compute; discriminate)).
  rewrite (decode_loop_letters (digits 4 low)) by (apply digits_range || (rewrite ?digits_length; vm_compute; discriminate)).
  rewrite !value_digits by lia. rewrite !Z.mod_small by (cbn; lia).
  rewrite as_u64_shiftl, lor_shiftl_add by lia. f_equal. lia.
Qed.

Lemma base32_roundtrip_witness :
  from_str_base32 (to_str_base32 1234567890123456789) = inr 1234567890123456789.
Proof. apply base32_roundtrip. vm_compute. split; discriminate. Defined.

(** No lower-case letter decodes: the second pass over the table repeats the
    upper-case letters. *)
Lemma lowercase_rejected b : 97 <= b <= 122 -> nth (Z.to_nat b) DECODE (-1) = -1.
Proof.
  intros Hb. assert (forall k, (k < 26)%nat -> nth (97 + k) DECODE (-1) = -1) as Hk.
  { intros k Hk. do 26 (destruct k as [|k]; [reflexivity|]). lia. }
  replace (Z.to_nat b) with (97 + Z.to_nat (b - 97))%nat by lia. apply Hk. lia.
Qed.
