(* ===== verification/OrderModels.v ===== *)
(** * Orders and trades ([src/src/models/order_utils.rs])

    The vocabulary of the order book: sides, order types and statuses with
    their wire codes, orders, trades and errors. *)

From S2P Require Import Prelude.

#[local] Open Scope string_scope.
#[local] Open Scope list_scope.
#[local] Open Scope Z_scope.

Inductive Side := Buy | Sell.

#[export] Instance Side_eq_dec : EqDecision Side.
Proof. solve_decision. Defined.

Definition side_as_u8 (s : Side) : Z := match s with Buy => 1 | Sell => 2 end.
Definition side_from_u8 (v : Z) : option Side :=
  if v =? 1 then Some Buy else if v =? 2 then Some Sell else None.
Definition side_fmt (s : Side) : string := match s with Buy => "Buy" | Sell => "Sell" end.
Definition side_from_str (s : string) : string + Side :=
  if String.eqb s "Buy" then inr Buy
  else if String.eqb s "Sell" then inr Sell
  else inl ("Unknown side: " +:+ s).

Inductive OrderType := Limit | Market.

#[export] Instance OrderType_eq_dec : EqDecision OrderType.
Proof. solve_decision. Defined.

Definition order_type_as_u8 (t : OrderType) : Z := match t with Limit => 1 | Market => 2 end.
Definition order_type_from_u8 (v : Z) : option OrderType :=
  if v =? 1 then Some Limit else if v =? 2 then Some Market else None.
Definition order_type_fmt (t : OrderType) : string :=
  match t with Limit => "Limit" | Market => "Market" end.
Definition order_type_from_str (s : string) : string + OrderType :=
  if String.eqb s "Limit" then inr Limit
  else if String.eqb s "Market" then inr Market
  else inl ("Unknown order type: " +:+ s).

(** [OrderStatus] of the models; the ledger has one of its own. *)
Module ModelStatus.
Inductive t := New | Accepted | PartiallyFilled | Filled | Cancelled | Rejected (reason : string).

Definition code (s : t) : Z :=
  match s with
  | New => 1 | Accepted => 2 | PartiallyFilled => 3 | Filled => 4 | Cancelled => 5 | Rejected _ => 6
  end.

Definition from_code (c : Z) (rejection_reason : option string) : t :=
  if c =? 1 then New
  else if c =? 2 then Accepted
  else if c =? 3 then PartiallyFilled
  else if c =? 4 then Filled
  else if c =? 5 then Cancelled
  else if c =? 6 then Rejected (default "" rejection_reason)
  else New.

Definition reason (s : t) : option string := match s with Rejected r => Some r | _ => None end.
End ModelStatus.

Record Order := mkOrder {
  order_id : Z; user_id : Z; symbol_id : Z; side : Side; order_type : OrderType;
  price : Z; quantity : Z; timestamp : Z
}.

Record Trade := mkTrade {
  trade_id : Z; buy_order_id : Z; sell_order_id : Z; buy_user_id : Z; sell_user_id : Z;
  trade_price : Z; trade_quantity : Z; match_seq : Z
}.

#[export] Instance Order_eq_dec : EqDecision Order.
Proof. solve_decision. Defined.

Inductive OrderError :=
  | InsufficientFunds (user asset required avail : Z)
  | InvalidSymbol (symbol : Z)
  | SymbolMismatch (expected actual : Z)
  | DuplicateOrderId (id : Z)
  | OrderNotFound (id : Z)
  | AssetMapNotFound (symbol : Z)
  | LedgerFailure (msg : string)
  | Other (msg : string).

Definition with_quantity (q : Z) (o : Order) : Order :=
  mkOrder (order_id o) (user_id o) (symbol_id o) (side o) (order_type o) (price o) q (timestamp o).

(** ** The codes read back *)

Lemma side_roundtrip s : side_from_u8 (side_as_u8 s) = Some s /\ side_from_str (side_fmt s) = inr s.
Proof. by destruct s. Qed.

Lemma order_type_roundtrip t :
  order_type_from_u8 (order_type_as_u8 t) = Some t /\ order_type_from_str (order_type_fmt t) = inr t.
Proof. by destruct t. Qed.

(** What a wire code or a text stands for is what was written, for
    sides, order types and statuses (a status travels with its reason). *)
Theorem model_codes_roundtrip s t st :
  side_from_u8 (side_as_u8 s) = Some s /\ side_from_str (side_fmt s) = inr s /\
  order_type_from_u8 (order_type_as_u8 t) = Some t /\
  order_type_from_str (order_type_fmt t) = inr t /\
  ModelStatus.from_code (ModelStatus.code st) (ModelStatus.reason st) = st.
Proof. destruct (side_roundtrip s), (order_type_roundtrip t). by destruct st. Qed.
