(* ===== verification/BTree.v ===== *)
(** * Ordered maps

    Rust's [BTreeMap<u64, V>] as the list of its entries in ascending key
    order: the first and the last entry, lookup, update in place, removal and
    [entry(k).or_insert_with(..)]. *)

From S2P Require Import Prelude.
From Stdlib Require Export Sorted.

#[local] Open Scope list_scope.
#[local] Open Scope Z_scope.

Section btree.
Context {V : Type}.
Implicit Types m : list (Z * V).

Definition bt_get (k : Z) m : option V := snd <$> find (fun e => e.1 =? k) m.

(** Writing through [get_mut]. *)
Definition bt_update (k : Z) (v : V) m : list (Z * V) :=
  map (fun e => if e.1 =? k then (k, v) else e) m.

Definition bt_remove (k : Z) m : list (Z * V) := filter (fun e => e.1 <> k) m.

(** [*m.entry(k).or_insert_with(|| d)] rewritten by [f]. *)
Fixpoint bt_upsert (k : Z) (d : V) (f : V -> V) m : list (Z * V) :=
  match m with
  | [] => [(k, f d)]
  | (k', v) :: m' =>
      if k <? k' then (k, f d) :: m
      else if k =? k' then (k', f v) :: m'
      else (k', v) :: bt_upsert k d f m'
  end.

Definition ascending m : Prop := StronglySorted Z.lt m.*1.

Lemma ascending_cons k v m :
  ascending ((k, v) :: m) <-> Forall (fun e => k < e.1) m /\ ascending m.
Proof.
  unfold ascending. rewrite fmap_cons. split.
  - intros [Hs Hf]%StronglySorted_inv. split; [|done]. by rewrite Forall_fmap in Hf.
  - intros [Hf Hs]. constructor; [done|]. by rewrite Forall_fmap.
Qed.

Lemma ascending_not_in k v m : ascending ((k, v) :: m) -> Forall (fun e => e.1 <> k) m.
Proof.
  intros [Hf _]%ascending_cons. eapply Forall_impl; [exact Hf|]. simpl. lia.
Qed.

Lemma ascending_snoc m k v :
  ascending (m ++ [(k, v)]) -> Forall (fun e => e.1 < k) m /\ ascending m.
Proof.
  induction m as [|[k' v'] m IH]; simpl; [by split; [apply Forall_nil|constructor]|].
  intros [Hf Hs]%ascending_cons. destruct (IH Hs) as [Hlt Hm].
  apply Forall_app in Hf as [Hf Hk]. apply Forall_cons in Hk as [Hk _]. simpl in Hk.
  split; [by apply Forall_cons|]. by apply ascending_cons.
Qed.

Lemma ascending_app_l m1 m2 : ascending (m1 ++ m2) -> ascending m1.
Proof.
  induction m1 as [|[k v] m1 IH]; simpl; [by constructor|].
  rewrite !ascending_cons, Forall_app. intros [[? ?] ?]. eauto.
Qed.

Lemma bt_update_other k v m : Forall (fun e => e.1 <> k) m -> bt_update k v m = m.
Proof.
  induction 1 as [|[k' v'] m Hk _ IH]; [done|]. simpl in *. rewrite IH.
  by destruct (Z.eqb_spec k' k).
Qed.

Lemma bt_remove_other k m : Forall (fun e => e.1 <> k) m -> bt_remove k m = m.
Proof.
  induction 1 as [|[k' v'] m Hk _ IH]; [done|]. unfold bt_remove in *.
  rewrite filter_cons, decide_True by done. by rewrite IH.
Qed.

Lemma bt_keys_update k v m : (bt_update k v m).*1 = m.*1.
Proof.
  unfold bt_update. rewrite <- list_fmap_compose. apply list_fmap_ext. intros _ [k' v'] _. simpl.
  by destruct (Z.eqb_spec k' k) as [->|].
Qed.

Lemma ascending_update k v m : ascending m -> ascending (bt_update k v m).
Proof. unfold ascending. by rewrite bt_keys_update. Qed.

Lemma ascending_remove k m : ascending m -> ascending (bt_remove k m).
Proof.
  induction m as [|[k' v'] m IH]; [done|]. intros [Hf Hs]%ascending_cons.
  unfold bt_remove in *. rewrite filter_cons. case_decide; [|by apply IH].
  apply ascending_cons. split; [|by apply IH].
  apply Forall_forall. intros e [_ He]%list_elem_of_filter. rewrite Forall_forall in Hf. by apply Hf.
Qed.

Lemma bt_upsert_keys k d f m (P : Z -> Prop) :
  P k -> Forall (fun e => P e.1) m -> Forall (fun e => P e.1) (bt_upsert k d f m).
Proof.
  intros Hk. induction 1 as [|[k' v] m Hk' Hm IH]; simpl; [by apply Forall_singleton|].
  destruct (k <? k'); [by repeat (apply Forall_cons; split)|].
  destruct (Z.eqb_spec k k'); apply Forall_cons; by split.
Qed.

Lemma ascending_upsert k d f m : ascending m -> ascending (bt_upsert k d f m).
Proof.
  induction m as [|[k' v] m IH]; [intros _; by repeat constructor|].
  intros Hm. pose proof Hm as [Hf Hs]%ascending_cons. cbn [bt_upsert].
  destruct (Z.ltb_spec k k').
  - apply ascending_cons. split; [|done].
    apply Forall_cons. split; [done|]. eapply Forall_impl; [exact Hf|]. simpl. lia.
  - destruct (Z.eqb_spec k k') as [->|]; apply ascending_cons; [done|].
    split; [|by apply IH]. apply (bt_upsert_keys _ _ _ _ (fun x => k' < x)); [lia|done].
Qed.

Lemma bt_get_middle k v m1 m2 :
  Forall (fun e => e.1 <> k) m1 -> bt_get k (m1 ++ (k, v) :: m2) = Some v.
Proof.
  intros Hm1. unfold bt_get. induction Hm1 as [|[k' v'] m1 Hk _ IH]; simpl in *.
  - by rewrite Z.eqb_refl.
  - destruct (Z.eqb_spec k' k); [done|]. exact IH.
Qed.

Lemma bt_get_split k v m :
  bt_get k m = Some v ->
  exists m1 m2, m = m1 ++ (k, v) :: m2 /\ Forall (fun e => e.1 <> k) m1.
Proof.
  unfold bt_get. induction m as [|[k' v'] m IH]; simpl; [done|].
  destruct (Z.eqb_spec k' k) as [->|Hne]; simpl.
  - intros [= ->]. exists [], m. by split; [|apply Forall_nil].
  - intros (m1 & m2 & -> & Hm1)%IH. exists ((k', v') :: m1), m2. split; [done|].
    by apply Forall_cons.
Qed.

(** On an ascending map an entry splits the map in two. *)
Lemma ascending_middle k v m1 m2 :
  ascending (m1 ++ (k, v) :: m2) ->
  Forall (fun e => e.1 <> k) m1 /\ Forall (fun e => e.1 <> k) m2.
Proof.
  induction m1 as [|[k' v'] m1 IH]; simpl.
  - intros H. split; [by apply Forall_nil|]. by eapply ascending_not_in.
  - intros [Hf Hs]%ascending_cons. destruct (IH Hs). split; [|done].
    apply Forall_cons. split; [|done]. simpl.
    apply Forall_app in Hf as [_ Hf]. apply Forall_cons in Hf as [Hf _]. simpl in Hf. lia.
Qed.

Lemma bt_update_middle k v v' m1 m2 :
  ascending (m1 ++ (k, v) :: m2) ->
  bt_update k v' (m1 ++ (k, v) :: m2) = m1 ++ (k, v') :: m2.
Proof.
  intros [H1 H2]%ascending_middle. unfold bt_update. rewrite map_app. cbn [map fst].
  rewrite Z.eqb_refl. f_equal; [by apply bt_update_other|]. f_equal. by apply bt_update_other.
Qed.

Lemma bt_remove_middle k v m1 m2 :
  ascending (m1 ++ (k, v) :: m2) -> bt_remove k (m1 ++ (k, v) :: m2) = m1 ++ m2.
Proof.
  intros [H1 H2]%ascending_middle. unfold bt_remove.
  rewrite filter_app, filter_cons, decide_False by naive_solver.
  f_equal; by apply bt_remove_other.
Qed.
End btree.
