(* ===== verification/OrderBook.v ===== *)
(** * The order book ([src/src/matching_engine_base.rs], [struct OrderBook])

    The book, its matching loop and the removal of an order, as they are
    written; a reference matcher over one queue in price-time priority; the
    well-formedness invariant; and the refinement of the reference by the
    code. *)

From stdpp Require Import pretty.
From S2P Require Import Prelude BTree OrderModels FastUlid.

#[local] Open Scope string_scope.
#[local] Open Scope list_scope.
#[local] Open Scope Z_scope.
#[local] Open Scope rust_scope.

#[local] Arguments decide : simpl never.

(** ** State *)

(** A price level: the price and the orders in arrival order. *)
Abbreviation Levels := (list (Z * list Order)).

Record OrderBook := mkBook {
  book_symbol_id : Z;
  bids : Levels;
  asks : Levels;
  active_order_ids : gset Z;
  order_index : gmap Z (Side * Z);
  book_match_seq : Z
}.

Definition book_new (sym : Z) : OrderBook := mkBook sym [] [] ∅ ∅ 0.

(** The side of the book an order of side [s] rests on. *)
Definition side_levels (s : Side) (b : OrderBook) : Levels :=
  match s with Buy => bids b | Sell => asks b end.

Definition set_levels (s : Side) (l : Levels) (b : OrderBook) : OrderBook :=
  match s with
  | Buy => mkBook (book_symbol_id b) l (asks b) (active_order_ids b) (order_index b) (book_match_seq b)
  | Sell => mkBook (book_symbol_id b) (bids b) l (active_order_ids b) (order_index b) (book_match_seq b)
  end.

Definition set_ids (ids : gset Z) (idx : gmap Z (Side * Z)) (b : OrderBook) : OrderBook :=
  mkBook (book_symbol_id b) (bids b) (asks b) ids idx (book_match_seq b).

Definition set_match_seq (n : Z) (b : OrderBook) : OrderBook :=
  mkBook (book_symbol_id b) (bids b) (asks b) (active_order_ids b) (order_index b) n.

(** The side a taker matches against. *)
Definition opposite (s : Side) : Side := match s with Buy => Sell | Sell => Buy end.

(** [asks.iter().next()] for a buyer, [bids.iter().next_back()] for a seller. *)
Definition best_price (taker : Side) (b : OrderBook) : option Z :=
  fst <$> match taker with Buy => head (asks b) | Sell => last (bids b) end.

(** Whether a taker of side [s] and limit [limit] accepts a maker's price. *)
Definition crosses (s : Side) (limit maker_price : Z) : bool :=
  match s with Buy => maker_price <=? limit | Sell => limit <=? maker_price end.

(** The book and the generator of trade identifiers. *)
Abbreviation BookState := (OrderBook * FastUlidHalfGen)%type.

Definition on_book {A} (m : M OrderBook string A) : M BookState string A :=
  zoom (fun st => Some st.1) (fun b st => (b, st.2)) m.

Definition new_trade_id (ts : Z) : M BookState string Z :=
  fun st => let '(v, g) := generate_from_ts ts st.2 in Ok v (st.1, g).

Definition forget_order (id : Z) : M OrderBook string unit :=
  modify (fun b => set_ids (active_order_ids b ∖ {[id]}) (delete id (order_index b)) b).

(** ** Operations *)

Section book.
Context {bp : BuildProfile}.

(** [self.match_seq += 1] *)
Definition next_match_seq : M OrderBook string Z :=
  let* b := get in
  let* n := unwrap (op_add (book_match_seq b) 1) in
  put (set_match_seq n b) ;;;
  ret n.

Definition mk_trade (taker maker : Order) (qty seq id : Z) : Trade :=
  let '(buy, sell) := match side taker with Buy => (taker, maker) | Sell => (maker, taker) end in
  mkTrade id (order_id buy) (order_id sell) (user_id buy) (user_id sell) (price maker) qty seq.

(** [while let Some(mut best) = orders_at_price.pop_front()]: the taker and
    the level left, with the trades made.  The quantity traded is the minimum,
    so the two subtractions are exact. *)
Fixpoint match_level (ts : Z) (taker : Order) (orders_at_price : list Order)
  : M BookState string (Order * list Order * list Trade) :=
  match orders_at_price with
  | [] => ret (taker, [], [])
  | best :: rest =>
      let trade_quantity := Z.min (quantity taker) (quantity best) in
      let* seq := on_book next_match_seq in
      let* id := new_trade_id ts in
      let trade := mk_trade taker best trade_quantity seq id in
      let taker := with_quantity (quantity taker - trade_quantity) taker in
      let best := with_quantity (quantity best - trade_quantity) best in
      if 0 <? quantity best then ret (taker, best :: rest, [trade])
      else
        on_book (forget_order (order_id best)) ;;;
        if quantity taker =? 0 then ret (taker, rest, [trade])
        else
          let* '(taker, remaining, trades) := match_level ts taker rest in
          ret (taker, remaining, trade :: trades)
  end.

(** [while order.quantity > 0]; running out of fuel is [Panic]. *)
Fixpoint match_loop (fuel : nat) (ts : Z) (taker : Order) : M BookState string (Order * list Trade) :=
  match fuel with
  | O => panic
  | S fuel' =>
      if 0 <? quantity taker then
        let* st := get in
        match best_price (side taker) st.1 with
        | Some p =>
            if crosses (side taker) (price taker) p then
              match bt_get p (side_levels (opposite (side taker)) st.1) with
              | Some orders =>
                  let* '(taker', remaining, trades) := match_level ts taker orders in
                  on_book (modify (fun b =>
                    let levels := side_levels (opposite (side taker)) b in
                    set_levels (opposite (side taker))
                      (if bool_decide (remaining = []) then bt_remove p levels
                       else bt_update p remaining levels) b)) ;;;
                  let* '(taker'', more) := match_loop fuel' ts taker' in
                  ret (taker'', trades ++ more)
              | None => ret (taker, [])
              end
            else ret (taker, [])
        | None => ret (taker, [])
        end
      else ret (taker, [])
  end.

(** One iteration per level (it is emptied, or the taker is) and the last test
    of the loop. *)
Definition match_fuel (taker : Side) (b : OrderBook) : nat :=
  S (length (side_levels (opposite taker) b)).

Definition rest_order (o : Order) : M OrderBook string unit :=
  modify (fun b =>
    set_levels (side o) (bt_upsert (price o) [] (fun l => l ++ [o]) (side_levels (side o) b)) b).

Definition book_add_order (o : Order) (ts : Z) : M BookState string (list Trade) :=
  let* st := get in
  if bool_decide (order_id o ∈ active_order_ids st.1) then
    throw ("Duplicate order ID: " +:+ pretty (order_id o))
  else
    on_book (modify (fun b =>
      set_ids ({[order_id o]} ∪ active_order_ids b)
              (<[order_id o := (side o, price o)]> (order_index b)) b)) ;;;
    let* st := get in
    let* '(taker, trades) := match_loop (match_fuel (side o) st.1) ts o in
    (if 0 <? quantity taker then on_book (rest_order taker) else ret tt) ;;;
    ret trades.
End book.

Definition has_order (id : Z) (b : OrderBook) : bool := bool_decide (id ∈ active_order_ids b).

Definition remove_order (id : Z) : M OrderBook OrderError Order :=
  let* b := get in
  match order_index b !! id with
  | None => throw (OrderNotFound id)
  | Some (s, p) =>
      put (set_ids (active_order_ids b ∖ {[id]}) (delete id (order_index b)) b) ;;;
      match bt_get p (side_levels s b) with
      | None => throw (OrderNotFound id)
      | Some orders =>
          match position (fun o => order_id o =? id) orders with
          | None => throw (OrderNotFound id)
          | Some i =>
              let* o := unwrap (orders !! i) in
              let remaining := delete i orders in
              modify (fun b =>
                set_levels s
                  (if bool_decide (remaining = []) then bt_remove p (side_levels s b)
                   else bt_update p remaining (side_levels s b)) b) ;;;
              ret o
          end
      end
  end.

(** ** The reference: one queue in price-time priority *)

(** The levels of a side from the best price to the worst. *)
Definition view (s : Side) (l : Levels) : Levels :=
  match s with Sell => l | Buy => rev l end.

Definition flat (l : Levels) : list Order := concat (map snd l).

(** Everything that rests on a side, in the order it is to be served. *)
Definition queue (s : Side) (b : OrderBook) : list Order := flat (view s (side_levels s b)).

(** Serving [qty] from the queue: the fills (maker and quantity), what is left
    of the taker and what is left of the queue. *)
Fixpoint ref_match (accepts : Order -> bool) (qty : Z) (q : list Order)
  : list (Order * Z) * Z * list Order :=
  match q with
  | [] => ([], qty, [])
  | m :: rest =>
      if (0 <? qty) && accepts m then
        if qty <? quantity m then ([(m, qty)], 0, with_quantity (quantity m - qty) m :: rest)
        else
          let '(fills, qty', rest') := ref_match accepts (qty - quantity m) rest in
          ((m, quantity m) :: fills, qty', rest')
      else ([], qty, m :: rest)
  end.

(** Joining the queue behind everything that is at least as good. *)
Fixpoint enqueue (o : Order) (q : list Order) : list Order :=
  match q with
  | [] => [o]
  | x :: q' =>
      if crosses (opposite (side o)) (price o) (price x) then x :: enqueue o q' else o :: q
  end.

(** The bookkeeping of one fill: the match counter moves, a maker that is
    done leaves the two indexes. *)
Definition fill_book (m : Order) (q : Z) (b : OrderBook) : OrderBook :=
  let b := set_match_seq (book_match_seq b + 1) b in
  if q <? quantity m then b
  else set_ids (active_order_ids b ∖ {[order_id m]}) (delete (order_id m) (order_index b)) b.

(** The trades and the state that go with a list of fills. *)
Fixpoint play (ts : Z) (taker : Order) (fills : list (Order * Z)) (st : BookState)
  : list Trade * BookState :=
  match fills with
  | [] => ([], st)
  | (m, q) :: fills' =>
      let '(id, g) := generate_from_ts ts st.2 in
      let '(trades, st') := play ts taker fills' (fill_book m q st.1, g) in
      (mk_trade taker m q (book_match_seq st.1 + 1) id :: trades, st')
  end.

(** ** Laws of the reference *)

Definition accepts (taker : Order) (m : Order) : bool := crosses (side taker) (price taker) (price m).

Lemma ref_match_0 c q : ref_match c 0 q = ([], 0, q).
Proof. by destruct q. Qed.

Lemma ref_match_reject c qty q : Forall (fun m => c m = false) q -> ref_match c qty q = ([], qty, q).
Proof. destruct 1 as [|m q Hm _]; [done|]. simpl. by rewrite Hm, andb_false_r. Qed.

Lemma ref_match_app c qty q tail :
  Forall (fun m => c m = true) q -> 0 <= qty ->
  ref_match c qty (q ++ tail) =
  let '(fills, qty', rest) := ref_match c qty q in
  match rest with
  | [] => let '(fills2, qty2, rest2) := ref_match c qty' tail in (fills ++ fills2, qty2, rest2)
  | _ => (fills, qty', rest ++ tail)
  end.
Proof.
  intros Hq. revert qty. induction Hq as [|m q Hm _ IH]; intros qty Hqty; simpl.
  - by destruct (ref_match c qty tail) as [[? ?] ?].
  - rewrite Hm, andb_true_r. destruct (Z.ltb_spec 0 qty); [|done].
    destruct (Z.ltb_spec qty (quantity m)); [done|]. rewrite IH by lia.
    destruct (ref_match c (qty - quantity m) q) as [[fs q1] [|r rest]]; [|done].
    by destruct (ref_match c q1 tail) as [[? ?] ?].
Qed.

(** When everything is acceptable, what is left of the queue means the taker
    is done. *)
Lemma ref_match_done c qty q :
  Forall (fun m => c m = true) q -> 0 <= qty ->
  let '(_, qty', rest) := ref_match c qty q in 0 <= qty' /\ (rest <> [] -> qty' = 0).
Proof.
  intros Hq. revert qty. induction Hq as [|m q Hm _ IH]; intros qty Hqty; simpl; [done|].
  rewrite Hm, andb_true_r. destruct (Z.ltb_spec 0 qty); [|simpl; lia].
  destruct (Z.ltb_spec qty (quantity m)); [done|]. specialize (IH (qty - quantity m) ltac:(lia)).
  destruct (ref_match c (qty - quantity m) q) as [[fs q1] rest]. done.
Qed.

Lemma ref_match_qty_le c qty q :
  Forall (fun m => 0 < quantity m) q -> 0 <= qty ->
  let '(_, qty', _) := ref_match c qty q in 0 <= qty' <= qty.
Proof.
  intros Hq. revert qty. induction Hq as [|m q Hm _ IH]; intros qty Hqty; simpl; [lia|].
  destruct (Z.ltb_spec 0 qty); simpl; [|lia]. destruct (c m); [|lia].
  destruct (Z.ltb_spec qty (quantity m)); [lia|]. specialize (IH (qty - quantity m) ltac:(lia)).
  destruct (ref_match c (qty - quantity m) q) as [[fs q1] rest]. lia.
Qed.

Lemma ref_match_fills_length c qty q :
  let '(fills, _, _) := ref_match c qty q in (length fills <= length q)%nat.
Proof.
  revert qty. induction q as [|m q IH]; intros qty; simpl; [lia|].
  destruct (_ && _); [|simpl; lia]. destruct (Z.ltb_spec qty (quantity m)); [simpl; lia|].
  specialize (IH (qty - quantity m)).
  destruct (ref_match c (qty - quantity m) q) as [[fs q1] rest]. simpl. lia.
Qed.

(** ** Laws of the bookkeeping *)

Lemma mk_trade_qty taker z m q n id :
  mk_trade (with_quantity z taker) m q n id = mk_trade taker m q n id.
Proof. unfold mk_trade. by destruct taker as [? ? ? []]. Qed.

Lemma play_qty ts taker z fills st : play ts (with_quantity z taker) fills st = play ts taker fills st.
Proof.
  revert st. induction fills as [|[m q] fills IH]; intros st; simpl; [done|].
  destruct (generate_from_ts ts st.2) as [id g]. rewrite IH, mk_trade_qty. done.
Qed.

Lemma play_app ts taker fs1 fs2 st :
  play ts taker (fs1 ++ fs2) st =
  let '(tr1, st1) := play ts taker fs1 st in
  let '(tr2, st2) := play ts taker fs2 st1 in (tr1 ++ tr2, st2).
Proof.
  revert st. induction fs1 as [|[m q] fs1 IH]; intros st; simpl.
  - by destruct (play ts taker fs2 st).
  - destruct (generate_from_ts ts st.2) as [id g]. rewrite IH.
    destruct (play ts taker fs1 _) as [tr1 st1]. by destruct (play ts taker fs2 st1).
Qed.

Lemma fill_book_set_levels m q s l b :
  fill_book m q (set_levels s l b) = set_levels s l (fill_book m q b).
Proof. unfold fill_book. by destruct s, (q <? quantity m). Qed.

Lemma fill_book_frame m q b :
  bids (fill_book m q b) = bids b /\ asks (fill_book m q b) = asks b /\
  book_symbol_id (fill_book m q b) = book_symbol_id b /\
  book_match_seq (fill_book m q b) = book_match_seq b + 1.
Proof. unfold fill_book. by destruct (q <? quantity m). Qed.

Lemma set_levels_match_seq s l b : book_match_seq (set_levels s l b) = book_match_seq b.
Proof. by destruct s. Qed.

Lemma play_set_levels ts taker fills s l b g :
  play ts taker fills (set_levels s l b, g) =
  let '(trades, (b', g')) := play ts taker fills (b, g) in (trades, (set_levels s l b', g')).
Proof.
  revert b g. induction fills as [|[m q] fills IH]; intros b g; [done|].
  cbn [play fst snd]. rewrite set_levels_match_seq, fill_book_set_levels.
  destruct (generate_from_ts ts g) as [id g1]. rewrite IH.
  by destruct (play ts taker fills (fill_book m q b, g1)) as [tr [b' g']].
Qed.

Lemma play_frame ts taker fills st :
  let '(trades, (b', _)) := play ts taker fills st in
  length trades = length fills /\
  bids b' = bids st.1 /\ asks b' = asks st.1 /\ book_symbol_id b' = book_symbol_id st.1 /\
  book_match_seq b' = book_match_seq st.1 + Z.of_nat (length fills).
Proof.
  revert st. induction fills as [|[m q] fills IH]; intros [b g].
  - simpl. split_and!; done || lia.
  - cbn [play fst snd]. destruct (generate_from_ts ts g) as [id g1].
    specialize (IH (fill_book m q b, g1)).
    destruct (play ts taker fills (fill_book m q b, g1)) as [tr [b' g']].
    cbn [length fst] in *. destruct IH as (Hl & Hb & Ha & Hs & Hm).
    destruct (fill_book_frame m q b) as (Hfb & Hfa & Hfs & Hfm). rewrite Hl, Hb, Ha, Hs, Hm.
    split_and!; done || lia.
Qed.

(** ** The code implements the reference *)

Section refine.
Context {bp : BuildProfile}.

Lemma next_match_seq_eq b g :
  0 <= book_match_seq b -> book_match_seq b + 1 <= u64_max ->
  on_book next_match_seq (b, g) =
  Ok (book_match_seq b + 1) (set_match_seq (book_match_seq b + 1) b, g).
Proof.
  intros H0 Hmax. unfold on_book, next_match_seq, zoom, bind, get, unwrap, op_add. cbn [fst snd].
  by rewrite u64_op_exact by (unfold is_u64; lia).
Qed.

Lemma with_quantity_twice a b o : with_quantity a (with_quantity b o) = with_quantity a o.
Proof. done. Qed.

Lemma with_quantity_id o : with_quantity (quantity o) o = o.
Proof. by destruct o. Qed.

(** One level: the inner loop serves the taker like the reference. *)
Lemma match_level_spec ts taker q b g :
  Forall (fun m => accepts taker m = true) q -> 0 < quantity taker ->
  0 <= book_match_seq b -> book_match_seq b + Z.of_nat (length q) <= u64_max ->
  match_level ts taker q (b, g) =
  let '(fills, qty', rest) := ref_match (accepts taker) (quantity taker) q in
  let '(trades, st') := play ts taker fills (b, g) in
  Ok (with_quantity qty' taker, rest, trades) st'.
Proof.
  intros Hq. revert taker b g Hq. induction q as [|m q IH]; intros taker b g Hq Hpos H0 Hmax.
  - cbn. by rewrite with_quantity_id.
  - apply Forall_cons in Hq as [Hm Hq]. cbn [match_level length ref_match] in *.
    unfold bind at 1. rewrite next_match_seq_eq by lia.
    unfold bind at 1. unfold new_trade_id. cbn [fst snd].
    destruct (generate_from_ts ts g) as [id g1] eqn:Hid.
    rewrite Hm, andb_true_r. destruct (Z.ltb_spec 0 (quantity taker)); [|lia].
    cbn [quantity with_quantity].
    destruct (Z.ltb_spec (quantity taker) (quantity m)).
    + rewrite Z.min_l by lia. destruct (Z.ltb_spec 0 (quantity m - quantity taker)); [|lia].
      cbn [play]. cbn [fst snd]. rewrite Hid. unfold fill_book.
      destruct (Z.ltb_spec (quantity taker) (quantity m)); [|lia].
      rewrite Z.sub_diag. done.
    + rewrite Z.min_r by lia. rewrite Z.sub_diag. cbn [Z.ltb Z.compare].
      set (b1 := fill_book m (quantity m) b).
      assert (forall A (k : BookState -> res BookState string A),
        bind (on_book (forget_order (order_id m))) (fun _ => k)
          (set_match_seq (book_match_seq b + 1) b, g1) = k (b1, g1)) as Hforget.
      { intros A k. unfold b1, fill_book. by rewrite Z.ltb_irrefl. }
      rewrite Hforget. clear Hforget.
      destruct (fill_book_frame m (quantity m) b) as (_ & _ & _ & Hseq). fold b1 in Hseq.
      destruct (Z.eqb_spec (quantity taker - quantity m) 0) as [Heq|Hne].
      * rewrite Heq, ref_match_0. cbn [play fst snd]. rewrite Hid. done.
      * unfold bind. rewrite IH by (done || cbn [quantity with_quantity]; lia).
        change (accepts (with_quantity (quantity taker - quantity m) taker)) with (accepts taker).
        cbn [quantity with_quantity].
        destruct (ref_match (accepts taker) (quantity taker - quantity m) q) as [[fs q1] rest].
        rewrite play_qty. cbn [play fst snd]. rewrite Hid. fold b1.
        by destruct (play ts taker fs (b1, g1)) as [tr st'].
Qed.

(** ** Levels of a side *)

Definition level_ok (s : Side) (e : Z * list Order) : Prop :=
  e.2 <> [] /\ Forall (fun o => side o = s /\ price o = e.1 /\ 0 < quantity o) e.2.

Definition wf_levels (s : Side) (l : Levels) : Prop :=
  ascending l /\ Forall (level_ok s) l.

Lemma rev_cons_inv {A} (l : list A) x v : rev l = x :: v -> l = rev v ++ [x].
Proof. intros H. by rewrite <- (rev_involutive l), H. Qed.

(** The best level of a non-empty side, and the side with that level's queue
    replaced or removed. *)
Lemma view_cons s l p q v :
  ascending l -> view s l = (p, q) :: v ->
  fst <$> (match opposite s with Buy => head l | Sell => last l end) = Some p /\
  bt_get p l = Some q /\
  view s (bt_remove p l) = v /\
  forall q', view s (bt_update p q' l) = (p, q') :: v.
Proof.
  intros Hasc. destruct s; simpl; intros Hv.
  - apply rev_cons_inv in Hv. subst l.
    rewrite last_snoc. destruct (ascending_middle p q (rev v) []) as [Hne _]; [done|].
    split_and!; [done|by apply bt_get_middle| |].
    + rewrite bt_remove_middle by done. by rewrite app_nil_r, rev_involutive.
    + intros q'. rewrite bt_update_middle by done. by rewrite rev_app_distr, rev_involutive.
  - subst l. split_and!; [done|by apply (bt_get_middle p q []), Forall_nil| |].
    + by apply (bt_remove_middle p q [] v).
    + intros q'. by apply (bt_update_middle p q q' [] v).
Qed.

Lemma view_length s l : length (view s l) = length l.
Proof. destruct s; [apply length_rev|done]. Qed.

Lemma Forall_view s P l : Forall P (view s l) <-> Forall P l.
Proof.
  destruct s; [|done]. simpl. split; intros H%Forall_rev; [by rewrite rev_involutive in H|done].
Qed.

(** A level whose price is refused hides only orders that are refused. *)
Lemma crosses_worse s limit p1 p2 :
  match opposite s with Buy => p2 < p1 | Sell => p1 < p2 end ->
  crosses s limit p1 = false -> crosses s limit p2 = false.
Proof. destruct s; simpl; intros; zcases. Qed.

Lemma view_sorted s l p q v :
  ascending l -> view s l = (p, q) :: v ->
  Forall (fun e => match s with Buy => e.1 < p | Sell => p < e.1 end) v.
Proof.
  intros Hasc. destruct s; simpl; intros Hv.
  - apply rev_cons_inv in Hv. subst l.
    apply ascending_snoc in Hasc as [Hlt _]. rewrite <- (rev_involutive v). by apply Forall_rev.
  - subst l. by apply ascending_cons in Hasc as [Hf _].
Qed.

Lemma flat_cons p q v : flat ((p, q) :: v) = q ++ flat v.
Proof. done. Qed.

Lemma Forall_flat (P : Order -> Prop) v : Forall P (flat v) <-> Forall (fun e => Forall P e.2) v.
Proof.
  induction v as [|[p q] v IH]; [by rewrite !Forall_nil|].
  by rewrite flat_cons, Forall_app, Forall_cons, IH.
Qed.

Lemma wf_levels_refused s l p q v taker :
  wf_levels s l -> side taker = opposite s -> view s l = (p, q) :: v ->
  crosses (side taker) (price taker) p = false ->
  Forall (fun m => accepts taker m = false) (flat (view s l)).
Proof.
  intros [Hasc Hok] Hside Hv Hp. apply Forall_flat.
  pose proof (view_sorted _ _ _ _ _ Hasc Hv) as Hsorted.
  apply (Forall_view s) in Hok. rewrite Hv in *.
  assert (Hlevel : forall p' q', level_ok s (p', q') -> crosses (side taker) (price taker) p' = false ->
    Forall (fun m => accepts taker m = false) q').
  { intros p' q' [_ Hq'] Hp'. eapply Forall_impl; [exact Hq'|]. simpl. unfold accepts. by intros m (_ & -> & _). }
  apply Forall_cons in Hok as [Hq Hv']. apply Forall_cons. split; [by apply (Hlevel p)|].
  apply Forall_forall. intros [p' q'] Hin. rewrite Forall_forall in Hv', Hsorted.
  apply (Hlevel p'); [by apply Hv'|]. specialize (Hsorted _ Hin). simpl in Hsorted.
  eapply crosses_worse; [|exact Hp]. rewrite Hside. by destruct s.
Qed.
End refine.

Section refine_loop.
Context {bp : BuildProfile}.

Definition resting (s : Side) (p : Z) (o : Order) : Prop := side o = s /\ price o = p /\ 0 < quantity o.

(** What is left of the queue consists of the makers of the queue, the first
    possibly with a smaller quantity. *)
Lemma ref_match_rest (P : Order -> Prop) c qty q :
  (forall o x, P o -> 0 < x -> P (with_quantity x o)) ->
  Forall P q -> let '(_, _, rest) := ref_match c qty q in Forall P rest.
Proof.
  intros HP Hq. revert qty. induction Hq as [|m q Hm Hq IH]; intros qty; simpl; [done|].
  destruct (_ && _); [|by apply Forall_cons]. destruct (Z.ltb_spec qty (quantity m)).
  - apply Forall_cons. split; [|done]. apply HP; [done|lia].
  - specialize (IH (qty - quantity m)). by destruct (ref_match c (qty - quantity m) q) as [[? ?] ?].
Qed.

Lemma best_price_view t b :
  best_price t b = fst <$> head (view (opposite t) (side_levels (opposite t) b)).
Proof.
  unfold best_price. destruct t; simpl; [done|]. f_equal.
  destruct (bids b) as [|e l _] using rev_ind; [done|]. by rewrite last_snoc, rev_app_distr.
Qed.

Lemma set_levels_self s b : set_levels s (side_levels s b) b = b.
Proof. by destruct s, b. Qed.

Lemma side_set_levels s l b : side_levels s (set_levels s l b) = l.
Proof. by destruct s. Qed.

Lemma set_levels_twice s l1 l2 b : set_levels s l2 (set_levels s l1 b) = set_levels s l2 b.
Proof. by destruct s. Qed.

Lemma play_side_levels ts taker fills b g s :
  let '(_, (b', _)) := play ts taker fills (b, g) in side_levels s b' = side_levels s b.
Proof.
  pose proof (play_frame ts taker fills (b, g)) as H.
  destruct (play ts taker fills (b, g)) as [tr [b' g']]. destruct H as (_ & Hb & Ha & _).
  by destruct s.
Qed.

(** The side after its best level went from [q] to [rest]. *)
Definition replace_level (p : Z) (rest : list Order) (l : Levels) : Levels :=
  if bool_decide (rest = []) then bt_remove p l else bt_update p rest l.

Lemma replace_level_view s l p q v rest :
  ascending l -> view s l = (p, q) :: v -> flat (view s (replace_level p rest l)) = rest ++ flat v.
Proof.
  intros Hasc Hv. destruct (view_cons s l p q v Hasc Hv) as (_ & _ & Hrem & Hupd).
  unfold replace_level. case_bool_decide as Hr; [by rewrite Hrem, Hr|by rewrite Hupd].
Qed.

Lemma replace_level_wf s l p q v rest :
  wf_levels s l -> view s l = (p, q) :: v -> Forall (resting s p) rest ->
  wf_levels s (replace_level p rest l).
Proof.
  intros [Hasc Hok] Hv Hrest. destruct (view_cons s l p q v Hasc Hv) as (_ & _ & Hrem & Hupd).
  apply (Forall_view s) in Hok. rewrite Hv in Hok. apply Forall_cons in Hok as [Hq Hok].
  unfold replace_level. case_bool_decide as Hr; split.
  - by apply ascending_remove.
  - apply (Forall_view s). by rewrite Hrem.
  - by apply ascending_update.
  - apply (Forall_view s). rewrite Hupd. apply Forall_cons. split; [|done]. by split.
Qed.

Lemma match_loop_eq fuel ts taker b g s :
  s = opposite (side taker) ->
  match_loop (S fuel) ts taker (b, g) =
  (if 0 <? quantity taker then
     match fst <$> head (view s (side_levels s b)) with
     | Some p =>
         if crosses (side taker) (price taker) p then
           match bt_get p (side_levels s b) with
           | Some orders =>
               let* '(taker', remaining, trades) := match_level ts taker orders in
               on_book (modify (fun b =>
                 set_levels s (replace_level p remaining (side_levels s b)) b)) ;;;
               let* '(taker'', more) := match_loop fuel ts taker' in
               ret (taker'', trades ++ more)
           | None => ret (taker, [])
           end
         else ret (taker, [])
     | None => ret (taker, [])
     end
   else ret (taker, [])) (b, g).
Proof.
  intros ->. rewrite <- best_price_view. cbn [match_loop]. by destruct (0 <? quantity taker).
Qed.

Lemma match_loop_spec fuel ts taker b g s :
  s = opposite (side taker) -> wf_levels s (side_levels s b) -> 0 <= quantity taker ->
  (length (side_levels s b) < fuel)%nat ->
  0 <= book_match_seq b -> book_match_seq b + Z.of_nat (length (queue s b)) <= u64_max ->
  exists l', wf_levels s l' /\
    let '(fills, qty', rest) := ref_match (accepts taker) (quantity taker) (queue s b) in
    let '(trades, (b', g')) := play ts taker fills (b, g) in
    flat (view s l') = rest /\
    match_loop fuel ts taker (b, g) = Ok (with_quantity qty' taker, trades) (set_levels s l' b', g').
Proof.
  intros Hs. revert taker b g Hs. induction fuel as [|fuel IH]; intros taker b g Hs Hwf Hqty Hfuel H0 Hmax; [lia|].
  assert (Hstop : forall l, l = side_levels s b ->
    ref_match (accepts taker) (quantity taker) (queue s b) = ([], quantity taker, queue s b) ->
    match_loop (S fuel) ts taker (b, g) = Ok (taker, []) (b, g) ->
    exists l', wf_levels s l' /\
    let '(fills, qty', rest) := ref_match (accepts taker) (quantity taker) (queue s b) in
    let '(trades, (b', g')) := play ts taker fills (b, g) in
    flat (view s l') = rest /\
    match_loop (S fuel) ts taker (b, g) = Ok (with_quantity qty' taker, trades) (set_levels s l' b', g')).
  { intros l -> Href Hml. exists (side_levels s b). split; [done|]. rewrite Href. cbn [play].
    split; [done|]. by rewrite Hml, with_quantity_id, set_levels_self. }
  rewrite (match_loop_eq fuel ts taker b g s Hs) in *.
  destruct (Z.ltb_spec 0 (quantity taker)) as [Hpos|Hz].
  2:{ replace (quantity taker) with 0 in * by lia. eapply Hstop; [done|apply ref_match_0|done]. }
  destruct (view s (side_levels s b)) as [|[p q] v] eqn:Hv.
  { eapply Hstop; [done|unfold queue; by rewrite Hv|done]. }
  cbn [head fmap option_fmap option_map fst] in *.
  destruct (crosses (side taker) (price taker) p) eqn:Hcr.
  2:{ eapply Hstop; [done| |done]. apply ref_match_reject. unfold queue.
      eapply wf_levels_refused; [done| |done|done]. by rewrite Hs; destruct (side taker). }
  clear Hstop. destruct Hwf as [Hasc Hok].
  destruct (view_cons s _ p q v Hasc Hv) as (_ & Hget & _ & _). rewrite Hget.
  assert (Hqok : Forall (resting s p) q).
  { apply (Forall_view s) in Hok. rewrite Hv in Hok. by apply Forall_cons in Hok as [[_ Hq] _]. }
  assert (Hacc : Forall (fun m => accepts taker m = true) q).
  { eapply Forall_impl; [exact Hqok|]. unfold accepts. simpl. by intros m (_ & -> & _). }
  assert (queue s b = q ++ flat v) as Hqueue by (unfold queue; by rewrite Hv).
  rewrite Hqueue in *. rewrite length_app in Hmax.
  rewrite ref_match_app by done.
  pose proof (match_level_spec ts taker q b g Hacc Hpos H0 ltac:(lia)) as Hlevel.
  pose proof (ref_match_done _ (quantity taker) q Hacc Hqty) as Hdone.
  pose proof (ref_match_rest (resting s p) (accepts taker) (quantity taker) q) as Hrestok.
  pose proof (ref_match_fills_length (accepts taker) (quantity taker) q) as Hlen.
  destruct (ref_match (accepts taker) (quantity taker) q) as [[fs q1] rest] eqn:Href.
  pose proof (play_frame ts taker fs (b, g)) as Hframe.
  pose proof (play_side_levels ts taker fs b g s) as Hside.
  destruct (play ts taker fs (b, g)) as [tr1 [b1 g1]] eqn:Hplay.
  unfold bind. rewrite Hlevel. unfold on_book, zoom, modify. cbn [fst snd].
  rewrite Hside.
  set (l1 := replace_level p rest (side_levels s b)).
  assert (wf_levels s l1) as Hwf1.
  { eapply replace_level_wf; [by split|done|]. apply Hrestok; [|done].
    intros o x (? & ? & ?) ?. by split. }
  assert (flat (view s l1) = rest ++ flat v) as Hflat1 by (by eapply replace_level_view).
  destruct Hdone as [Hq1 Hdone]. destruct Hframe as (_ & _ & _ & _ & Hms). cbn [fst] in Hms.
  destruct rest as [|r rest].
  - destruct (IH (with_quantity q1 taker) (set_levels s l1 b1) g1) as (l' & Hwf' & IH'); try done.
    + by rewrite side_set_levels.
    + rewrite side_set_levels. rewrite <- (view_length s) in Hfuel |- *. rewrite Hv in Hfuel.
      unfold l1, replace_level. rewrite bool_decide_true by done.
      destruct (view_cons s _ p q v Hasc Hv) as (_ & _ & -> & _). simpl in Hfuel. lia.
    + rewrite set_levels_match_seq. lia.
    + rewrite set_levels_match_seq. unfold queue. rewrite side_set_levels, Hflat1. simpl. lia.
    + exists l'. split; [done|].
      change (accepts (with_quantity q1 taker)) with (accepts taker) in IH'.
      cbn [quantity with_quantity] in IH'. unfold queue in IH'. rewrite side_set_levels, Hflat1 in IH'.
      cbn [app] in IH'.
      destruct (ref_match (accepts taker) q1 (flat v)) as [[fs2 q2] rest2].
      rewrite play_qty, play_set_levels in IH'. rewrite play_app, Hplay.
      destruct (play ts taker fs2 (b1, g1)) as [tr2 [b2 g2]]. destruct IH' as [Hf Hml].
      split; [done|]. rewrite Hml. by rewrite set_levels_twice.
  - exists l1. split; [done|]. rewrite Hplay. split; [done|].
    rewrite (Hdone ltac:(done)). destruct fuel as [|fuel].
    { rewrite <- (view_length s), Hv in Hfuel. simpl in Hfuel. lia. }
    simpl. by rewrite app_nil_r.
Qed.
End refine_loop.

(** ** Joining the queue *)

Lemma enqueue_app_better o l1 l2 :
  Forall (fun x => crosses (opposite (side o)) (price o) (price x) = true) l1 ->
  enqueue o (l1 ++ l2) = l1 ++ enqueue o l2.
Proof. induction 1 as [|x l1 Hx _ IH]; [done|]. simpl. by rewrite Hx, IH. Qed.

Lemma enqueue_app_worse o l1 l2 :
  Forall (fun x => crosses (opposite (side o)) (price o) (price x) = false) l2 ->
  enqueue o (l1 ++ l2) = enqueue o l1 ++ l2.
Proof.
  intros Hl2. induction l1 as [|x l1 IH]; simpl.
  - destruct Hl2 as [|y l2 Hy _]; [done|]. simpl. by rewrite Hy.
  - rewrite IH. by destruct (crosses _ _ _).
Qed.

Lemma enqueue_perm o q : enqueue o q ≡ₚ o :: q.
Proof.
  induction q as [|x q IH]; [done|]. simpl. destruct (crosses _ _ _); [|done].
  rewrite IH. constructor.
Qed.

Lemma flat_app v1 v2 : flat (v1 ++ v2) = flat v1 ++ flat v2.
Proof. unfold flat. by rewrite map_app, concat_app. Qed.

Lemma level_prices s v (P : Z -> Prop) :
  Forall (level_ok s) v -> Forall (fun e => P e.1) v -> Forall (fun x => P (price x)) (flat v).
Proof.
  intros Hok HP. apply Forall_flat. apply Forall_forall. intros e He.
  rewrite Forall_forall in Hok, HP. destruct (Hok e He) as [_ Hq].
  eapply Forall_impl; [exact Hq|]. simpl. intros x (_ & -> & _). by apply HP.
Qed.

Lemma enqueue_last o l :
  Forall (fun x => crosses (opposite (side o)) (price o) (price x) = true) l ->
  enqueue o l = l ++ [o].
Proof. intros Hl. rewrite <- (app_nil_r l) at 1. by rewrite enqueue_app_better. Qed.

Lemma enqueue_first o l :
  Forall (fun x => crosses (opposite (side o)) (price o) (price x) = false) l ->
  enqueue o l = o :: l.
Proof. intros Hl. by apply (enqueue_app_worse o []). Qed.

Lemma flat_snoc v p q : flat (v ++ [(p, q)]) = flat v ++ q.
Proof. rewrite flat_app, flat_cons. cbn. by rewrite app_nil_r. Qed.

Lemma level_price s p q : level_ok s (p, q) -> Forall (fun x => price x = p) q.
Proof. intros [_ Hq]. eapply Forall_impl; [exact Hq|]. by intros x (_ & ? & _). Qed.

(** Deciding [crosses] for all the orders of a list from a bound on their
    prices. *)
Ltac cross_all H :=
  eapply Forall_impl; [exact H|]; cbn beta; intros ? ?;
  match goal with Hs : side ?o = _ |- _ => rewrite Hs end; simpl; zcases.

Lemma asks_enqueue o l :
  side o = Sell -> wf_levels Sell l ->
  flat (bt_upsert (price o) [] (fun q => q ++ [o]) l) = enqueue o (flat l).
Proof.
  intros Hs [Hasc Hok]. induction l as [|[p q] l IH]; [done|].
  pose proof Hasc as [Hlt Hasc']%ascending_cons. apply Forall_cons in Hok as [Hpq Hok].
  specialize (IH Hasc' Hok). apply level_price in Hpq as Hq.
  pose proof (level_prices Sell l (fun x => p < x) Hok Hlt) as Hrest.
  cbn [bt_upsert]. destruct (Z.ltb_spec (price o) p);
    [|destruct (Z.eqb_spec (price o) p)]; rewrite !flat_cons.
  - symmetry. apply enqueue_first, Forall_app. split; [cross_all Hq|cross_all Hrest].
  - rewrite <- app_assoc, enqueue_app_better by cross_all Hq.
    f_equal. symmetry. apply enqueue_first. cross_all Hrest.
  - rewrite IH. symmetry. apply enqueue_app_better. cross_all Hq.
Qed.

Lemma bids_enqueue o l :
  side o = Buy -> wf_levels Buy l ->
  flat (rev (bt_upsert (price o) [] (fun q => q ++ [o]) l)) = enqueue o (flat (rev l)).
Proof.
  intros Hs [Hasc Hok]. induction l as [|[p q] l IH]; [done|].
  pose proof Hasc as [Hlt Hasc']%ascending_cons. apply Forall_cons in Hok as [Hpq Hok].
  specialize (IH Hasc' Hok). apply level_price in Hpq as Hq.
  assert (Forall (fun x => p < price x) (flat (rev l))) as Hrest.
  { apply (level_prices Buy _ (fun x => p < x)); by apply Forall_rev. }
  cbn [bt_upsert]. destruct (Z.ltb_spec (price o) p);
    [|destruct (Z.eqb_spec (price o) p)]; cbn [rev]; rewrite ?flat_snoc.
  - symmetry. apply enqueue_last, Forall_app. split; [cross_all Hrest|cross_all Hq].
  - rewrite app_assoc. symmetry. apply enqueue_last, Forall_app.
    split; [cross_all Hrest|cross_all Hq].
  - rewrite IH. symmetry. apply enqueue_app_worse. cross_all Hq.
Qed.

(** Resting at a price level is joining the queue of the side. *)
Lemma upsert_enqueue o l :
  wf_levels (side o) l ->
  flat (view (side o) (bt_upsert (price o) [] (fun q => q ++ [o]) l)) =
  enqueue o (flat (view (side o) l)).
Proof. destruct (side o) eqn:Hs; intros Hl; [by apply bids_enqueue|by apply asks_enqueue]. Qed.

Lemma upsert_wf o l :
  0 < quantity o -> wf_levels (side o) l ->
  wf_levels (side o) (bt_upsert (price o) [] (fun q => q ++ [o]) l).
Proof.
  intros Hpos [Hasc Hok]. split; [by apply ascending_upsert|].
  assert (Hnew : level_ok (side o) (price o, [o])).
  { split; [done|]. by apply Forall_singleton. }
  induction Hok as [|[p q] l Hpq Hok IH]; [by apply Forall_singleton|].
  apply ascending_cons in Hasc as [_ Hasc]. cbn [bt_upsert].
  destruct (price o <? p); [by repeat (apply Forall_cons; split)|].
  destruct (Z.eqb_spec (price o) p) as [Heq|]; apply Forall_cons; (split; [|by auto]); [|done].
  destruct Hpq as [_ Hq]. split; [by destruct q|]. apply Forall_app. split; [done|].
  by apply Forall_singleton.
Qed.

(** ** Priority *)

(** [x] is served no later than [y] as far as prices go. *)
Definition at_least (s : Side) (x y : Z) : Prop :=
  match s with Buy => y <= x | Sell => x <= y end.

Lemma StronglySorted_app_2 {A} (R : A -> A -> Prop) l1 l2 :
  StronglySorted R l1 -> StronglySorted R l2 ->
  (forall x y, x ∈ l1 -> y ∈ l2 -> R x y) -> StronglySorted R (l1 ++ l2).
Proof.
  induction 1 as [|x l1 Hl1 IH Hx]; intros Hl2 HR; simpl; [done|].
  constructor; [apply IH; [done|]; intros; apply HR; [by right|done]|].
  apply Forall_app. split; [done|]. apply Forall_forall. intros y Hy. apply HR; [by left|done].
Qed.

Lemma queue_sorted s l :
  wf_levels s l -> StronglySorted (fun x y => at_least s (price x) (price y)) (flat (view s l)).
Proof.
  intros [Hasc Hok]. apply (Forall_view s) in Hok. remember (view s l) as v eqn:Hv.
  revert l Hasc Hv. induction v as [|[p q] v IH]; intros l Hasc Hv; [constructor|].
  symmetry in Hv. apply Forall_cons in Hok as [Hpq Hok]. rewrite flat_cons.
  apply level_price in Hpq as Hq.
  pose proof (view_sorted s l p q v Hasc Hv) as Hsorted.
  destruct (view_cons s l p q v Hasc Hv) as (_ & _ & Hrem & _).
  apply StronglySorted_app_2.
  - clear -Hq. induction Hq as [|x q Hx Hq IH]; constructor; [done|].
    eapply Forall_impl; [exact Hq|]. simpl. intros y ->. rewrite Hx. destruct s; simpl; lia.
  - apply (IH Hok (bt_remove p l)); [by apply ascending_remove|done].
  - intros x y Hx Hy. rewrite Forall_forall in Hq. rewrite (Hq x Hx).
    assert (Forall (fun y => at_least s p (price y)) (flat v)) as Hall.
    { apply (level_prices s v (fun y => at_least s p y)); [done|].
      eapply Forall_impl; [exact Hsorted|]. simpl. destruct s; simpl; lia. }
    rewrite Forall_forall in Hall. by apply Hall.
Qed.

(** When the taker is not done, nothing acceptable is left. *)
Lemma ref_match_exhausts c qty q :
  StronglySorted (fun x y => c y = true -> c x = true) q ->
  let '(_, qty', rest) := ref_match c qty q in
  0 < qty' -> Forall (fun m => c m = false) rest.
Proof.
  intros Hq. revert qty. induction Hq as [|m q Hq IH Hm]; intros qty; simpl; [by intros; apply Forall_nil|].
  destruct (Z.ltb_spec 0 qty); simpl; [|intros; lia].
  destruct (c m) eqn:Hc; simpl.
  - destruct (Z.ltb_spec qty (quantity m)); [intros; lia|]. specialize (IH (qty - quantity m)).
    by destruct (ref_match c (qty - quantity m) q) as [[? ?] ?].
  - intros _. apply Forall_cons. split; [done|]. eapply Forall_impl; [exact Hm|]. simpl.
    intros y Hy. destruct (c y); [|done]. by specialize (Hy eq_refl).
Qed.

Lemma accepts_antitone taker s l :
  s = opposite (side taker) -> wf_levels s l ->
  StronglySorted (fun x y => accepts taker y = true -> accepts taker x = true) (flat (view s l)).
Proof.
  intros Hs Hl%queue_sorted. subst s. induction Hl as [|x q Hq IH Hx]; constructor; [done|].
  eapply Forall_impl; [exact Hx|]. simpl. unfold accepts, at_least.
  destruct (side taker); simpl; intros y Hxy; zcases.
Qed.

(** ** Identities *)

Definition ids (q : list Order) : list Z := map order_id q.

(** The makers a list of fills completes. *)
Definition done_ids (fills : list (Order * Z)) : list Z :=
  flat_map (fun f => if f.2 <? quantity f.1 then [] else [order_id f.1]) fills.

Lemma ref_match_ids c qty q :
  let '(fills, _, rest) := ref_match c qty q in done_ids fills ++ ids rest = ids q.
Proof.
  revert qty. induction q as [|m q IH]; intros qty; simpl; [done|].
  destruct (_ && _); [|done]. destruct (Z.ltb_spec qty (quantity m)) as [Hlt|Hge].
  - simpl. destruct (Z.ltb_spec qty (quantity m)); [done|lia].
  - specialize (IH (qty - quantity m)).
    destruct (ref_match c (qty - quantity m) q) as [[fs q1] rest]. simpl.
    rewrite Z.ltb_irrefl. simpl. by rewrite IH.
Qed.

Lemma play_index ts taker fills st :
  let '(_, (b', _)) := play ts taker fills st in
  active_order_ids b' = active_order_ids st.1 ∖ list_to_set (done_ids fills) /\
  forall id, order_index b' !! id =
    if decide (id ∈ done_ids fills) then None else order_index st.1 !! id.
Proof.
  revert st. induction fills as [|[m q] fills IH]; intros [b g].
  - cbn [play done_ids flat_map fst]. split; [set_solver|]. intros id.
    case_decide as Hin; [by apply not_elem_of_nil in Hin|done].
  - cbn [play fst snd]. destruct (generate_from_ts ts g) as [id g1].
    specialize (IH (fill_book m q b, g1)).
    destruct (play ts taker fills (fill_book m q b, g1)) as [tr [b' g']].
    destruct IH as [Hact Hidx]. cbn [fst] in *. cbn [done_ids flat_map fst snd].
    fold (done_ids fills). unfold fill_book in *. destruct (q <? quantity m); simpl in *.
    + done.
    + split; [rewrite Hact; set_solver|]. intros i. rewrite Hidx.
      destruct (decide (i ∈ done_ids fills)); [by rewrite decide_True by set_solver|].
      rewrite lookup_delete. case_decide; subst.
      * by rewrite decide_True by set_solver.
      * by rewrite decide_False by set_solver.
Qed.

(** ** The invariant *)

(** Everything on the book: a side, then the other. *)
Definition all_orders (b : OrderBook) : list Order := queue Buy b ++ queue Sell b.

Record wf_book (b : OrderBook) : Prop := {
  wf_sides : forall s, wf_levels s (side_levels s b);
  wf_nodup : NoDup (ids (all_orders b));
  wf_indexed : forall o, o ∈ all_orders b -> order_index b !! order_id o = Some (side o, price o);
  wf_active : dom (order_index b) = active_order_ids b;
  wf_uncrossed : forall x y, x ∈ queue Buy b -> y ∈ queue Sell b -> price x < price y
}.

Lemma all_orders_side s b : all_orders b ≡ₚ queue s b ++ queue (opposite s) b.
Proof. destruct s; [done|]. apply Permutation_app_comm. Qed.

Lemma uncrossed_side s b :
  (forall x y, x ∈ queue Buy b -> y ∈ queue Sell b -> price x < price y) <->
  (forall x y, x ∈ queue s b -> y ∈ queue (opposite s) b -> crosses s (price x) (price y) = false).
Proof.
  destruct s; simpl; split; intros H x y Hx Hy.
  - specialize (H x y Hx Hy). zcases.
  - specialize (H x y Hx Hy). revert H. zcases.
  - specialize (H y x Hy Hx). zcases.
  - specialize (H y x Hy Hx). revert H. zcases.
Qed.

Lemma mk_trade_number taker m q n id :
  match_seq (mk_trade taker m q n id) = n /\ trade_id (mk_trade taker m q n id) = id /\
  trade_quantity (mk_trade taker m q n id) = q /\ trade_price (mk_trade taker m q n id) = price m.
Proof. unfold mk_trade. by destruct (side taker). Qed.

Lemma play_trades ts taker fills st :
  let '(trades, (_, g')) := play ts taker fills st in
  Forall2 (fun t f => exists n id, t = mk_trade taker f.1 f.2 n id) trades fills /\
  map match_seq trades =
    map (fun k => book_match_seq st.1 + 1 + Z.of_nat k) (seq 0 (length fills)) /\
  (map trade_id trades, g') = half_run (replicate (length fills) ts) st.2.
Proof.
  revert st. induction fills as [|[m q] fills IH]; intros [b g]; [by split_and!|].
  cbn [play fst snd length replicate half_run].
  destruct (generate_from_ts ts g) as [id g1] eqn:Hid.
  specialize (IH (fill_book m q b, g1)).
  destruct (play ts taker fills (fill_book m q b, g1)) as [tr [b' g']].
  destruct IH as (Htr & Hseq & Hids). cbn [fst snd] in *.
  destruct (mk_trade_number taker m q (book_match_seq b + 1) id) as (Hn & Hi & _).
  split_and!.
  - constructor; [by eauto|done].
  - cbn [map seq]. rewrite Hn, Z.add_0_r. f_equal. rewrite Hseq, <- seq_shift, map_map.
    destruct (fill_book_frame m q b) as (_ & _ & _ & ->).
    apply map_ext. intros k. lia.
  - rewrite <- Hids. cbn [map]. by rewrite Hi.
Qed.

Section add_order.
Context {bp : BuildProfile}.

(** The book after the two [insert]s for a new order. *)
Definition announce (o : Order) (b : OrderBook) : OrderBook :=
  set_ids ({[order_id o]} ∪ active_order_ids b) (<[order_id o := (side o, price o)]> (order_index b)) b.

Lemma announce_levels s o b : side_levels s (announce o b) = side_levels s b.
Proof. by destruct s. Qed.

Lemma queue_announce s o b : queue s (announce o b) = queue s b.
Proof. unfold queue. by rewrite announce_levels. Qed.

Lemma opposite_twice s : opposite (opposite s) = s.
Proof. by destruct s. Qed.

Lemma side_set_opposite s l b : side_levels s (set_levels (opposite s) l b) = side_levels s b.
Proof. by destruct s. Qed.

(** What remains of an order, put on the book. *)
Definition rested (o : Order) (b : OrderBook) : OrderBook :=
  if 0 <? quantity o then
    set_levels (side o) (bt_upsert (price o) [] (fun l => l ++ [o]) (side_levels (side o) b)) b
  else b.

(** The whole of [add_order], in terms of the reference. *)
Lemma book_add_order_eq o ts b g :
  wf_book b -> 0 <= quantity o -> order_id o ∉ active_order_ids b ->
  0 <= book_match_seq b ->
  book_match_seq b + Z.of_nat (length (queue (opposite (side o)) b)) <= u64_max ->
  exists l', wf_levels (opposite (side o)) l' /\
    let '(fills, qty', rest) :=
      ref_match (accepts o) (quantity o) (queue (opposite (side o)) b) in
    let '(trades, (b1, g1)) := play ts o fills (announce o b, g) in
    flat (view (opposite (side o)) l') = rest /\
    book_add_order o ts (b, g) =
      Ok trades (rested (with_quantity qty' o) (set_levels (opposite (side o)) l' b1), g1).
Proof.
  intros Hwf Hqty Hnew H0 Hmax. set (s := opposite (side o)) in *.
  destruct (match_loop_spec (match_fuel (side o) (announce o b)) ts o (announce o b) g s)
    as (l' & Hwf' & Hspec); try done.
  - rewrite announce_levels. apply Hwf.
  - unfold match_fuel. fold s. lia.
  - exists l'. split; [done|]. rewrite queue_announce in Hspec.
    destruct (ref_match (accepts o) (quantity o) (queue s b)) as [[fills qty'] rest].
    destruct (play ts o fills (announce o b, g)) as [trades [b1 g1]].
    destruct Hspec as [Hrest Hloop]. split; [done|].
    unfold book_add_order, bind, get. cbn [fst]. rewrite bool_decide_false by done.
    unfold on_book at 1, zoom, modify. cbn [fst snd]. fold (announce o b). rewrite Hloop.
    unfold rested. cbn [quantity with_quantity]. by destruct (0 <? qty').
Qed.

Lemma rested_queue s o b :
  wf_levels (side o) (side_levels (side o) b) ->
  queue s (rested o b) =
  if 0 <? quantity o then
    if decide (s = side o) then enqueue o (queue s b) else queue s b
  else queue s b.
Proof.
  intros Hwf. unfold rested. destruct (0 <? quantity o); [|done]. unfold queue. case_decide as Hs.
  - subst s. by rewrite side_set_levels, upsert_enqueue.
  - by destruct s, (side o).
Qed.

(** The trades and the queues [add_order] leaves, in terms of the reference. *)
Lemma add_order_queues o ts b g :
  wf_book b -> 0 <= quantity o -> order_id o ∉ active_order_ids b ->
  0 <= book_match_seq b ->
  book_match_seq b + Z.of_nat (length (queue (opposite (side o)) b)) <= u64_max ->
  let '(fills, qty', rest) :=
    ref_match (accepts o) (quantity o) (queue (opposite (side o)) b) in
  exists trades b' g', book_add_order o ts (b, g) = Ok trades (b', g') /\
    Forall2 (fun t f => exists n id, t = mk_trade o f.1 f.2 n id) trades fills /\
    map match_seq trades =
      map (fun k => book_match_seq b + 1 + Z.of_nat k) (seq 0 (length fills)) /\
    (map trade_id trades, g') = half_run (replicate (length fills) ts) g /\
    queue (opposite (side o)) b' = rest /\
    queue (side o) b' =
      (if 0 <? qty' then enqueue (with_quantity qty' o) (queue (side o) b) else queue (side o) b).
Proof.
  intros Hwf Hqty Hnew H0 Hmax.
  destruct (book_add_order_eq o ts b g Hwf Hqty Hnew H0 Hmax) as (l' & Hwf' & Heq).
  destruct (ref_match (accepts o) (quantity o) (queue (opposite (side o)) b)) as [[fills qty'] rest].
  pose proof (play_trades ts o fills (announce o b, g)) as Htr.
  pose proof (play_side_levels ts o fills (announce o b) g (side o)) as Hside.
  destruct (play ts o fills (announce o b, g)) as [trades [b1 g1]].
  destruct Heq as [Hrest Heq]. destruct Htr as (Htr & Hseq & Hids).
  exists trades. do 2 eexists. split; [exact Heq|]. split_and!; [done..| |].
  - rewrite rested_queue by (cbn [side with_quantity]; rewrite side_set_opposite, Hside, announce_levels; apply Hwf).
    cbn [side with_quantity quantity]. rewrite decide_False by (by destruct (side o)).
    unfold queue. rewrite side_set_levels, Hrest. by destruct (0 <? qty').
  - rewrite rested_queue by (cbn [side with_quantity]; rewrite side_set_opposite, Hside, announce_levels; apply Hwf).
    cbn [side with_quantity quantity]. rewrite decide_True by done.
    unfold queue. by rewrite side_set_opposite, Hside, announce_levels.
Qed.

(** C6: the matching engine serves price-time priority.  On a well-formed
    book, [add_order] of a fresh order terminates and does exactly what the
    reference matcher does on the opposite side seen as one queue (best price
    first, then arrival): the trades are the reference's fills at the makers'
    prices, numbered consecutively and identified by the generator; the
    opposite queue is what the reference leaves; a remainder joins its own
    queue behind every order that is at least as good. *)
Theorem add_order_refines o ts b g :
  wf_book b -> 0 <= quantity o -> order_id o ∉ active_order_ids b ->
  0 <= book_match_seq b ->
  book_match_seq b + Z.of_nat (length (queue (opposite (side o)) b)) <= u64_max ->
  let '(fills, qty', rest) :=
    ref_match (accepts o) (quantity o) (queue (opposite (side o)) b) in
  exists trades b' g', book_add_order o ts (b, g) = Ok trades (b', g') /\
    Forall2 (fun t f => exists n id, t = mk_trade o f.1 f.2 n id) trades fills /\
    map match_seq trades =
      map (fun k => book_match_seq b + 1 + Z.of_nat k) (seq 0 (length fills)) /\
    (map trade_id trades, g') = half_run (replicate (length fills) ts) g /\
    queue (opposite (side o)) b' = rest /\
    queue (side o) b' =
      (if 0 <? qty' then enqueue (with_quantity qty' o) (queue (side o) b) else queue (side o) b).
Proof. exact (add_order_queues o ts b g). Qed.
End add_order.

Section add_order_wf.
Context {bp : BuildProfile}.

Lemma rested_index o b :
  active_order_ids (rested o b) = active_order_ids b /\ order_index (rested o b) = order_index b /\
  book_match_seq (rested o b) = book_match_seq b.
Proof. unfold rested. by destruct (0 <? quantity o), (side o). Qed.

Lemma set_levels_index s l b :
  active_order_ids (set_levels s l b) = active_order_ids b /\
  order_index (set_levels s l b) = order_index b.
Proof. by destruct s. Qed.

Lemma rested_sides o b :
  wf_levels (side o) (side_levels (side o) b) ->
  wf_levels (opposite (side o)) (side_levels (opposite (side o)) b) ->
  forall s, wf_levels s (side_levels s (rested o b)).
Proof.
  intros Hown Hopp s. unfold rested. destruct (Z.ltb_spec 0 (quantity o)).
  - destruct (decide (s = side o)) as [->|Hs].
    + rewrite side_set_levels. by apply upsert_wf.
    + assert (s = opposite (side o)) as -> by (by destruct s, (side o)).
      by destruct (side o).
  - destruct s, (side o); done.
Qed.

(** Everything [add_order] leaves behind. *)
Lemma add_order_state o ts b g :
  wf_book b -> 0 <= quantity o -> order_id o ∉ active_order_ids b ->
  0 <= book_match_seq b ->
  book_match_seq b + Z.of_nat (length (queue (opposite (side o)) b)) <= u64_max ->
  let '(fills, qty', rest) :=
    ref_match (accepts o) (quantity o) (queue (opposite (side o)) b) in
  exists trades b' g', book_add_order o ts (b, g) = Ok trades (b', g') /\
    (forall s, wf_levels s (side_levels s b')) /\
    queue (opposite (side o)) b' = rest /\
    queue (side o) b' =
      (if 0 <? qty' then enqueue (with_quantity qty' o) (queue (side o) b) else queue (side o) b) /\
    active_order_ids b' =
      ({[order_id o]} ∪ active_order_ids b) ∖ list_to_set (done_ids fills) /\
    forall id, order_index b' !! id =
      if decide (id ∈ done_ids fills) then None
      else <[order_id o := (side o, price o)]> (order_index b) !! id.
Proof.
  intros Hwf Hqty Hnew H0 Hmax.
  pose proof (add_order_queues o ts b g Hwf Hqty Hnew H0 Hmax) as Href.
  destruct (book_add_order_eq o ts b g Hwf Hqty Hnew H0 Hmax) as (l' & Hwf' & Heq).
  destruct (ref_match (accepts o) (quantity o) (queue (opposite (side o)) b)) as [[fills qty'] rest].
  destruct Href as (trades & b' & g' & Hok & _ & _ & _ & Hopp & Hown).
  pose proof (play_index ts o fills (announce o b, g)) as Hidx.
  pose proof (play_side_levels ts o fills (announce o b) g (side o)) as Hside.
  destruct (play ts o fills (announce o b, g)) as [tr [b1 g1]].
  destruct Heq as [_ Heq]. rewrite Hok in Heq. injection Heq as -> Hb' ->.
  exists tr, b', g1. rewrite announce_levels in Hside.
  destruct (rested_index (with_quantity qty' o) (set_levels (opposite (side o)) l' b1)) as (Ha & Hi & _).
  destruct (set_levels_index (opposite (side o)) l' b1) as [Ha1 Hi1].
  destruct Hidx as [Hact Hidx]. split_and!; [done| |done|done| |].
  - rewrite Hb'. apply rested_sides; cbn [side with_quantity].
    + rewrite side_set_opposite, Hside. apply Hwf.
    + by rewrite side_set_levels.
  - by rewrite Hb', Ha, Ha1, Hact.
  - intros id. rewrite Hb', Hi, Hi1. apply Hidx.
Qed.

Lemma wf_book_fresh b o x :
  wf_book b -> order_id o ∉ active_order_ids b -> x ∈ all_orders b -> order_id x <> order_id o.
Proof.
  intros Hwf Hnew Hx Heq. apply Hnew. rewrite <- Heq, <- (wf_active b Hwf).
  apply elem_of_dom. rewrite (wf_indexed b Hwf x Hx). eauto.
Qed.

Lemma elem_ids x q : x ∈ q -> order_id x ∈ ids q.
Proof. intros Hx. unfold ids. by apply list_elem_of_fmap_2. Qed.

(** What [add_order_state] says about the book before and after, as one
    hypothesis for the parts of the invariant. *)
Section after.
Context (o : Order) (b b' : OrderBook) (fills : list (Order * Z)) (qty' : Z) (rest : list Order).
Context (Hwf : wf_book b) (Hnew : order_id o ∉ active_order_ids b).
Context (Href : ref_match (accepts o) (quantity o) (queue (opposite (side o)) b) = (fills, qty', rest)).
Context (Hopp : queue (opposite (side o)) b' = rest).
Context (Hown : queue (side o) b' =
  (if 0 <? qty' then enqueue (with_quantity qty' o) (queue (side o) b) else queue (side o) b)).
Context (Hidx : forall id, order_index b' !! id =
  if decide (id ∈ done_ids fills) then None
  else <[order_id o := (side o, price o)]> (order_index b) !! id).

Lemma after_ids : done_ids fills ++ ids rest = ids (queue (opposite (side o)) b).
Proof.
  pose proof (ref_match_ids (accepts o) (quantity o) (queue (opposite (side o)) b)) as H.
  by rewrite Href in H.
Qed.

Lemma after_from x : x ∈ rest -> exists y, y ∈ queue (opposite (side o)) b /\
  order_id x = order_id y /\ side x = side y /\ price x = price y.
Proof.
  pose proof (ref_match_rest (fun x => exists y, y ∈ queue (opposite (side o)) b /\
    order_id x = order_id y /\ side x = side y /\ price x = price y)
    (accepts o) (quantity o) (queue (opposite (side o)) b)) as H.
  rewrite Href, !Forall_forall in H. apply H; [|by eauto].
  intros ? ? (y & ? & ? & ? & ?) ?. by exists y.
Qed.

Lemma after_fresh x :
  x ∈ queue (side o) b \/ x ∈ queue (opposite (side o)) b -> order_id x <> order_id o.
Proof.
  intros Hx. eapply wf_book_fresh; [done..|]. rewrite (all_orders_side (side o)). by apply elem_of_app.
Qed.

Lemma after_own x :
  x ∈ queue (side o) b' -> x ∈ queue (side o) b \/ (0 < qty' /\ x = with_quantity qty' o).
Proof.
  rewrite Hown. destruct (Z.ltb_spec 0 qty'); [|by left].
  rewrite enqueue_perm. intros [->|Hx]%elem_of_cons; eauto.
Qed.

Lemma after_distinct :
  NoDup (ids (queue (side o) b)) /\ NoDup (ids rest) /\
  (forall x, x ∈ queue (side o) b -> order_id x ∉ done_ids fills /\ order_id x ∉ ids rest) /\
  (forall x, x ∈ rest -> order_id x ∉ done_ids fills) /\
  order_id o ∉ done_ids fills /\ order_id o ∉ ids (queue (side o) b) /\ order_id o ∉ ids rest.
Proof.
  pose proof (wf_nodup b Hwf) as Hnd. unfold ids in Hnd.
  rewrite (all_orders_side (side o)), map_app in Hnd.
  fold (ids (queue (opposite (side o)) b)) (ids (queue (side o) b)) in Hnd.
  rewrite <- after_ids in Hnd. apply NoDup_app in Hnd as (H1 & Hdisj & H2).
  apply NoDup_app in H2 as (_ & Hdisj2 & H3).
  assert (forall i, i ∈ done_ids fills \/ i ∈ ids rest -> i <> order_id o) as Hne.
  { intros i Hi. apply elem_of_app in Hi. rewrite after_ids in Hi.
    apply list_elem_of_fmap in Hi as (y & -> & Hy). apply after_fresh. by right. }
  split_and!; [done|done| | |naive_solver| |naive_solver].
  - intros x Hx. apply elem_ids, Hdisj in Hx. set_solver.
  - intros x Hx Hd. apply (Hdisj2 _ Hd). by apply elem_ids.
  - intros (y & Heq & Hy)%list_elem_of_fmap. by apply (after_fresh y); [left|].
Qed.

Lemma after_nodup : NoDup (ids (all_orders b')).
Proof.
  destruct after_distinct as (H1 & H3 & Hdisj & _ & _ & Ho1 & Ho2).
  unfold ids. rewrite (all_orders_side (side o)), map_app, Hopp.
  apply NoDup_app. split_and!; [| |done].
  - rewrite Hown. destruct (0 <? qty'); [|done]. rewrite enqueue_perm. by apply NoDup_cons.
  - intros i (x & -> & Hx)%list_elem_of_fmap. apply after_own in Hx as [Hx|[_ ->]]; [|done].
    by apply Hdisj.
Qed.

Lemma after_indexed x : x ∈ all_orders b' -> order_index b' !! order_id x = Some (side x, price x).
Proof.
  destruct after_distinct as (_ & _ & Hdisj & Hdone & Hod & _).
  rewrite (all_orders_side (side o)), Hopp, Hidx. intros [Hx|Hx]%elem_of_app.
  - apply after_own in Hx as [Hx|[_ ->]].
    + rewrite decide_False by by apply Hdisj.
      rewrite lookup_insert_ne by (intros ?; by apply (after_fresh x); [left|]).
      apply (wf_indexed b Hwf). rewrite (all_orders_side (side o)). apply elem_of_app. by left.
    + rewrite decide_False by done. by rewrite lookup_insert_eq.
  - rewrite decide_False by by apply Hdone. destruct (after_from x Hx) as (y & Hy & -> & -> & ->).
    rewrite lookup_insert_ne by (intros ?; by apply (after_fresh y); [right|]).
    apply (wf_indexed b Hwf). rewrite (all_orders_side (side o)). apply elem_of_app. by right.
Qed.

Lemma after_active :
  active_order_ids b' = ({[order_id o]} ∪ active_order_ids b) ∖ list_to_set (done_ids fills) ->
  dom (order_index b') = active_order_ids b'.
Proof.
  intros ->. apply set_eq. intros i. rewrite elem_of_dom, Hidx, elem_of_difference.
  rewrite elem_of_list_to_set, elem_of_union, elem_of_singleton, <- (wf_active b Hwf), elem_of_dom.
  case_decide; [split; [intros [? ?]; done|intros [_ Hn]; by destruct Hn]|].
  rewrite lookup_insert. case_decide; subst; naive_solver.
Qed.

Lemma after_uncrossed x y :
  0 <= quantity o -> x ∈ queue Buy b' -> y ∈ queue Sell b' -> price x < price y.
Proof.
  intros Hqty. revert x y. apply (uncrossed_side (side o)). rewrite Hopp. intros x y Hx Hy.
  apply after_own in Hx as [Hx|[Hpos ->]].
  - destruct (after_from y Hy) as (z & Hz & _ & _ & ->).
    by apply (uncrossed_side (side o) b); [apply Hwf|..].
  - pose proof (ref_match_exhausts (accepts o) (quantity o) (queue (opposite (side o)) b)
      (accepts_antitone o _ _ eq_refl (wf_sides b Hwf _))) as Hexh.
    rewrite Href in Hexh. specialize (Hexh Hpos). rewrite Forall_forall in Hexh. by apply Hexh.
Qed.
End after.

Lemma add_order_fresh o ts b g r : book_add_order o ts (b, g) = r -> is_ok r = true ->
  order_id o ∉ active_order_ids b.
Proof.
  intros <- Hok Hin. unfold book_add_order, bind, get in Hok. cbn [fst] in Hok.
  by rewrite bool_decide_true in Hok.
Qed.

(** C7: the invariant of the order book.  On every path that accepts an
    order, [add_order] preserves well-formedness: levels in price order and
    non-empty, positive quantities, orders filed under their own side and
    price, no identifier twice, the two indexes in step with each other and
    with the book, and a book that is never crossed. *)
Theorem add_order_preserves_wf o ts b g trades b' g' :
  wf_book b -> 0 <= quantity o -> 0 <= book_match_seq b ->
  book_match_seq b + Z.of_nat (length (queue (opposite (side o)) b)) <= u64_max ->
  book_add_order o ts (b, g) = Ok trades (b', g') -> wf_book b'.
Proof.
  intros Hwf Hqty H0 Hmax Hok.
  pose proof (add_order_fresh _ _ _ _ _ Hok eq_refl) as Hnew.
  pose proof (add_order_state o ts b g Hwf Hqty Hnew H0 Hmax) as Hst.
  destruct (ref_match _ _ _) as [[fills qty'] rest] eqn:Href.
  destruct Hst as (? & ? & ? & Hok' & Hsides & Hopp & Hown & Hact & Hidx).
  rewrite Hok in Hok'. injection Hok' as <- <- <-.
  split; [done|..].
  - by eapply after_nodup.
  - intros x. by eapply after_indexed.
  - by eapply after_active.
  - intros x y. by eapply after_uncrossed.
Qed.
End add_order_wf.

(** ** Quantities *)

Definition total_quantity (q : list Order) : Z := sum_list (map quantity q).
Definition filled_quantity (fills : list (Order * Z)) : Z := sum_list (map snd fills).
Definition traded (trades : list Trade) : Z := sum_list (map trade_quantity trades).

Lemma ref_match_conserves c qty q :
  Forall (fun m => 0 < quantity m) q -> 0 <= qty ->
  let '(fills, qty', rest) := ref_match c qty q in
  filled_quantity fills + qty' = qty /\
  total_quantity rest + filled_quantity fills = total_quantity q /\
  Forall (fun f => 0 < f.2 <= quantity f.1 /\ c f.1 = true) fills.
Proof.
  unfold filled_quantity, total_quantity. intros Hq. revert qty.
  induction Hq as [|m q Hm Hq IH]; intros qty Hqty; simpl; [by rewrite Forall_nil|].
  destruct (Z.ltb_spec 0 qty); simpl; [|rewrite Forall_nil; lia].
  destruct (c m) eqn:Hc; simpl; [|rewrite Forall_nil; lia].
  destruct (Z.ltb_spec qty (quantity m)); simpl.
  - split_and!; [lia..|]. apply Forall_singleton. simpl. split; [lia|done].
  - specialize (IH (qty - quantity m) ltac:(lia)).
    destruct (ref_match c (qty - quantity m) q) as [[fs q1] rest]. simpl.
    destruct IH as (? & ? & ?). split_and!; [lia..|]. apply Forall_cons. simpl. split; [|done].
    split; [lia|done].
Qed.

Lemma total_quantity_perm q1 q2 : q1 ≡ₚ q2 -> total_quantity q1 = total_quantity q2.
Proof. unfold total_quantity, sum_list. induction 1; simpl in *; lia. Qed.

Lemma total_quantity_app q1 q2 : total_quantity (q1 ++ q2) = total_quantity q1 + total_quantity q2.
Proof. unfold total_quantity. by rewrite map_app, sum_list_app. Qed.

Lemma queue_positive s b : wf_book b -> Forall (fun m => 0 < quantity m) (queue s b).
Proof.
  intros Hwf. destruct (wf_sides b Hwf s) as [_ Hok]. apply Forall_flat, Forall_view.
  eapply Forall_impl; [exact Hok|]. intros e [_ Hq]. eapply Forall_impl; [exact Hq|]. by intros x (_ & _ & ?).
Qed.

Section quantities.
Context {bp : BuildProfile}.

(** The trades of [add_order] and the quantities they move. *)
Lemma add_order_trades o ts b g trades b' g' :
  wf_book b -> 0 <= quantity o -> 0 <= book_match_seq b ->
  book_match_seq b + Z.of_nat (length (queue (opposite (side o)) b)) <= u64_max ->
  book_add_order o ts (b, g) = Ok trades (b', g') ->
  Forall (fun t => 0 < trade_quantity t /\ crosses (side o) (price o) (trade_price t) = true /\
    match side o with Buy => buy_order_id t | Sell => sell_order_id t end = order_id o) trades /\
  0 <= traded trades <= quantity o /\
  total_quantity (all_orders b') = total_quantity (all_orders b) + quantity o - 2 * traded trades.
Proof.
  intros Hwf Hqty H0 Hmax Hok.
  pose proof (add_order_fresh _ _ _ _ _ Hok eq_refl) as Hnew.
  pose proof (add_order_queues o ts b g Hwf Hqty Hnew H0 Hmax) as Hst.
  pose proof (ref_match_conserves (accepts o) (quantity o) _ (queue_positive (opposite (side o)) b Hwf) Hqty) as Hc.
  pose proof (ref_match_qty_le (accepts o) (quantity o) _ (queue_positive (opposite (side o)) b Hwf) Hqty) as Hle.
  destruct (ref_match _ _ _) as [[fills qty'] rest].
  destruct Hst as (? & ? & ? & Hok' & Htr & _ & _ & Hopp & Hown).
  rewrite Hok in Hok'. injection Hok' as <- <- <-. destruct Hc as (Hsum & Htot & Hfills).
  assert (traded trades = filled_quantity fills) as Htraded.
  { unfold traded, filled_quantity. clear -Htr. induction Htr as [|t f trades fills (n & id & ->) _ IH]; [done|].
    simpl. rewrite IH. by destruct (mk_trade_number o f.1 f.2 n id) as (_ & _ & -> & _). }
  split_and!; [| lia..|].
  - clear -Htr Hfills. induction Htr as [|t f trades fills (n & id & ->) _ IH]; [by apply Forall_nil|].
    apply Forall_cons in Hfills as [[Hpos Hacc] Hfills]. apply Forall_cons. split; [|by apply IH].
    destruct (mk_trade_number o f.1 f.2 n id) as (_ & _ & -> & ->).
    split_and!; [lia|exact Hacc|]. unfold mk_trade. by destruct (side o).
  - rewrite !(total_quantity_perm _ _ (all_orders_side (side o) _)), !total_quantity_app, Hopp, Hown.
    destruct (Z.ltb_spec 0 qty'); [|lia].
    rewrite (total_quantity_perm _ _ (enqueue_perm _ _)). unfold total_quantity in *. simpl. lia.
Qed.

(** C8: trades are fair and conserve quantity.  Every trade of [add_order]
    has a positive quantity, a price the taker's limit accepts and the taker
    on its own side; what is traded leaves the taker and the book alike: the
    resting quantity of the whole book grows by the order and shrinks by twice
    the traded amount, and no more than the order's quantity is traded. *)
Theorem add_order_fair o ts b g trades b' g' :
  wf_book b -> 0 <= quantity o -> 0 <= book_match_seq b ->
  book_match_seq b + Z.of_nat (length (queue (opposite (side o)) b)) <= u64_max ->
  book_add_order o ts (b, g) = Ok trades (b', g') ->
  Forall (fun t => 0 < trade_quantity t /\ crosses (side o) (price o) (trade_price t) = true /\
    match side o with Buy => buy_order_id t | Sell => sell_order_id t end = order_id o) trades /\
  0 <= traded trades <= quantity o /\
  total_quantity (all_orders b') = total_quantity (all_orders b) + quantity o - 2 * traded trades.
Proof. exact (add_order_trades o ts b g trades b' g'). Qed.

(** A used identifier is refused.  An order whose identifier is active
    is answered with the duplicate error, and neither the book nor the trade
    identifiers move. *)
Theorem add_order_duplicate o ts b g :
  order_id o ∈ active_order_ids b ->
  book_add_order o ts (b, g) = Err ("Duplicate order ID: " +:+ pretty (order_id o)) (b, g).
Proof.
  intros Hin. unfold book_add_order, bind, get, throw. cbn [fst]. by rewrite bool_decide_true.
Qed.
End quantities.

(** ** Orders that are done stay in the indexes *)

Section stale.
Context {bp : BuildProfile}.

(** A completely filled taker is never forgotten.  [add_order] enters
    the new identifier in [active_order_ids] and [order_index] before matching
    and takes it out for makers only: an order that trades its whole quantity
    on arrival is not on the book, yet [has_order] answers yes for it. *)
Theorem filled_taker_stays_active o ts b g trades b' g' :
  wf_book b -> 0 <= quantity o -> 0 <= book_match_seq b ->
  book_match_seq b + Z.of_nat (length (queue (opposite (side o)) b)) <= u64_max ->
  book_add_order o ts (b, g) = Ok trades (b', g') -> traded trades = quantity o ->
  has_order (order_id o) b' = true /\ order_id o ∉ ids (all_orders b').
Proof.
  intros Hwf Hqty H0 Hmax Hok Hfull.
  pose proof (add_order_fresh _ _ _ _ _ Hok eq_refl) as Hnew.
  pose proof (add_order_trades o ts b g trades b' g' Hwf Hqty H0 Hmax Hok) as (_ & _ & Htot).
  pose proof (add_order_state o ts b g Hwf Hqty Hnew H0 Hmax) as Hst.
  pose proof (ref_match_conserves (accepts o) (quantity o) _ (queue_positive (opposite (side o)) b Hwf) Hqty) as Hc.
  destruct (ref_match _ _ _) as [[fills qty'] rest] eqn:Href.
  destruct Hst as (? & ? & ? & Hok' & Hsides & Hopp & Hown & Hact & Hidx).
  rewrite Hok in Hok'. injection Hok' as <- <- <-. destruct Hc as (Hsum & Hrest & _).
  destruct (after_distinct o b b' fills qty' rest Hwf Hnew Href Hopp Hown Hidx)
    as (_ & _ & _ & _ & Hod & Ho1 & Ho2).
  split.
  - unfold has_order. apply bool_decide_true. rewrite Hact. set_solver.
  - assert (qty' = 0) as Hz.
    { rewrite !(total_quantity_perm _ _ (all_orders_side (side o) _)), !total_quantity_app, Hopp, Hown in Htot.
      pose proof (ref_match_qty_le (accepts o) (quantity o) _ (queue_positive (opposite (side o)) b Hwf) Hqty) as Hle.
      rewrite Href in Hle. destruct (Z.ltb_spec 0 qty'); [|lia].
      rewrite (total_quantity_perm _ _ (enqueue_perm _ _)) in Htot. unfold total_quantity in *. simpl in *. lia. }
    subst qty'. unfold ids. rewrite (all_orders_side (side o)), map_app, Hopp, Hown. simpl.
    rewrite not_elem_of_app. by split.
Qed.
End stale.

(** ** Removal *)

Lemma filter_id {A} (P : A -> Prop) `{forall x, Decision (P x)} l : Forall P l -> filter P l = l.
Proof. induction 1 as [|x l Hx _ IH]; [done|]. by rewrite filter_cons, decide_True, IH. Qed.

(** The queue without the order [id]. *)
Definition without (id : Z) (q : list Order) : list Order := filter (fun o => order_id o <> id) q.

Lemma without_absent id q : id ∉ ids q -> without id q = q.
Proof.
  intros Hid. apply filter_id, Forall_forall. intros x Hx Heq. apply Hid. subst id. by apply elem_ids.
Qed.

Lemma delete_without q i x :
  NoDup (ids q) -> q !! i = Some x -> delete i q = without (order_id x) q.
Proof.
  revert i. induction q as [|y q IH]; intros i Hnd Hi; [done|].
  apply NoDup_cons in Hnd as [Hy Hnd]. unfold without. rewrite filter_cons. destruct i as [|i]; simpl in *.
  - injection Hi as ->. rewrite decide_False by naive_solver. symmetry. by apply without_absent.
  - rewrite decide_True; [by rewrite (IH i)|]. intros Heq. apply Hy. rewrite Heq.
    apply elem_ids. by eapply list_elem_of_lookup_2.
Qed.

Lemma position_of q x :
  NoDup (ids q) -> x ∈ q ->
  exists i, position (fun o => order_id o =? order_id x) q = Some i /\ q !! i = Some x.
Proof.
  intros Hnd Hx. destruct (position _ q) as [i|] eqn:Hpos.
  - exists i. split; [done|]. destruct (position_Some _ _ _ Hpos) as (y & Hy & Heq & _).
    apply list_elem_of_lookup_1 in Hx as [j Hj].
    assert (i = j) as ->; [|done]. apply (NoDup_lookup (ids q) _ _ (order_id x)); [done| |].
    + unfold ids. rewrite list_lookup_fmap, Hy. simpl. f_equal. by apply Z.eqb_eq.
    + unfold ids. by rewrite list_lookup_fmap, Hj.
  - apply position_None in Hpos. rewrite Forall_forall in Hpos. specialize (Hpos x Hx).
    by rewrite Z.eqb_refl in Hpos.
Qed.

Lemma flat_elem x v : x ∈ flat v <-> exists e, e ∈ v /\ x ∈ e.2.
Proof.
  unfold flat. rewrite list_elem_of_In, in_concat. split.
  - intros (q & Hq & Hx). apply in_map_iff in Hq as (e & <- & He). exists e.
    by rewrite !list_elem_of_In.
  - intros (e & He & Hx). exists e.2. rewrite <- !list_elem_of_In. split; [|done].
    by apply list_elem_of_fmap_2.
Qed.

Lemma view_app s l1 l2 : view s (l1 ++ l2) = match s with Sell => l1 ++ l2 | Buy => rev l2 ++ rev l1 end.
Proof. destruct s; [apply rev_app_distr|done]. Qed.

Lemma replace_level_without s l p q x :
  wf_levels s l -> NoDup (ids (flat (view s l))) -> (p, q) ∈ l -> x ∈ q ->
  bt_get p l = Some q /\
  flat (view s (replace_level p (without (order_id x) q) l)) = without (order_id x) (flat (view s l)).
Proof.
  intros [Hasc Hok] Hnd Hpq Hx. apply list_elem_of_split in Hpq as (l1 & l2 & ->).
  pose proof (ascending_middle _ _ _ _ Hasc) as [Hne1 _]. split; [by apply bt_get_middle|].
  assert (forall q', flat (view s (l1 ++ (p, q') :: l2)) =
    flat (view s (match s with Sell => l1 | Buy => l2 end)) ++ q' ++
    flat (view s (match s with Sell => l2 | Buy => l1 end))) as Hflat.
  { intros q'. rewrite view_app. destruct s; simpl; [|by rewrite flat_app, flat_cons].
    rewrite flat_app, flat_snoc. by rewrite <- app_assoc. }
  assert (flat (view s (replace_level p (without (order_id x) q) (l1 ++ (p, q) :: l2))) =
    flat (view s (l1 ++ (p, without (order_id x) q) :: l2))) as ->.
  { unfold replace_level. case_bool_decide as Hnil; [|by rewrite bt_update_middle].
    rewrite bt_remove_middle, Hflat, Hnil by done. rewrite view_app. by destruct s; rewrite flat_app. }
  rewrite !Hflat in *. unfold ids in Hnd. rewrite !map_app in Hnd.
  apply NoDup_app in Hnd as (_ & Hd1 & Hnd). apply NoDup_app in Hnd as (_ & Hd2 & _).
  unfold without at 2. rewrite !filter_app. fold (without (order_id x) q). f_equal; [|f_equal]; symmetry.
  - apply without_absent. intros Hin. apply Hd1 in Hin. apply Hin, elem_of_app. left. by apply elem_ids.
  - apply without_absent, Hd2. by apply elem_ids.
Qed.

Lemma replace_level_wf_any s p q l :
  wf_levels s l -> Forall (resting s p) q -> wf_levels s (replace_level p q l).
Proof.
  intros [Hasc Hok] Hq. unfold replace_level. case_bool_decide; split.
  - by apply ascending_remove.
  - rewrite Forall_forall in *. intros e [_ He]%list_elem_of_filter. by apply Hok.
  - by apply ascending_update.
  - unfold bt_update. rewrite Forall_forall in *. intros e' (e & -> & He)%list_elem_of_fmap.
    destruct (e.1 =? p); [|by apply Hok]. split; [done|]. exact Hq.
Qed.

Lemma without_perm id q1 q2 : q1 ≡ₚ q2 -> without id q1 ≡ₚ without id q2.
Proof. intros H. unfold without. by rewrite H. Qed.

Lemma without_elem id q x : x ∈ without id q <-> x ∈ q /\ order_id x <> id.
Proof. unfold without. rewrite list_elem_of_filter. naive_solver. Qed.

Lemma without_nodup id q : NoDup (ids q) -> NoDup (ids (without id q)).
Proof.
  induction q as [|x q IH]; [done|]. intros [Hx Hnd]%NoDup_cons.
  unfold without. rewrite filter_cons. case_decide; [|by apply IH].
  apply NoDup_cons. split; [|by apply IH]. intros (y & Heq & Hy)%list_elem_of_fmap.
  apply without_elem in Hy as [Hy _]. apply Hx. rewrite Heq. by apply elem_ids.
Qed.

(** The two indexes without [id]. *)
Definition unindexed (id : Z) (b : OrderBook) : OrderBook :=
  set_ids (active_order_ids b ∖ {[id]}) (delete id (order_index b)) b.

(** Taking an identifier out of the indexes and its order, if any, out of the
    queues keeps the invariant. *)
Lemma unindexed_wf id b b' :
  wf_book b -> (forall s, wf_levels s (side_levels s b')) ->
  (forall s, queue s b' = without id (queue s b)) ->
  active_order_ids b' = active_order_ids b ∖ {[id]} -> order_index b' = delete id (order_index b) ->
  wf_book b'.
Proof.
  intros Hwf Hsides Hq Hact Hidx.
  assert (all_orders b' = without id (all_orders b)) as Hall
    by (unfold all_orders, without; by rewrite filter_app, !Hq).
  split; [done|..].
  - rewrite Hall. apply without_nodup, Hwf.
  - intros x Hx. rewrite Hall in Hx. apply without_elem in Hx as [Hx Hne].
    rewrite Hidx, lookup_delete_ne by done. by apply wf_indexed.
  - by rewrite Hidx, Hact, dom_delete_L, (wf_active b Hwf).
  - intros x y. rewrite !Hq, !without_elem. intros [Hx _] [Hy _]. by apply Hwf.
Qed.

Lemma elem_view s (e : Z * list Order) l : e ∈ view s l <-> e ∈ l.
Proof. destruct s; [|done]. simpl. rewrite !list_elem_of_In. symmetry. apply in_rev. Qed.

Lemma resting_where b x :
  wf_book b -> x ∈ all_orders b ->
  x ∈ queue (side x) b /\
  exists q, (price x, q) ∈ side_levels (side x) b /\ x ∈ q /\ Forall (resting (side x) (price x)) q.
Proof.
  intros Hwf Hx.
  assert (exists s, x ∈ queue s b) as [s Hs] by (apply elem_of_app in Hx as []; eauto).
  pose proof Hs as ([p q] & He & Hxq)%flat_elem. simpl in Hxq.
  destruct (wf_sides b Hwf s) as [_ Hok]. apply (Forall_view s) in Hok.
  rewrite Forall_forall in Hok. destruct (Hok _ He) as [_ Hq].
  pose proof Hq as Hq'. rewrite Forall_forall in Hq'. destruct (Hq' x Hxq) as (Hside & Hp & _).
  simpl in Hp. subst s p. split; [done|]. exists q. split_and!; [|done|done].
  by apply (elem_view (side x)).
Qed.

Lemma queue_nodup s b : wf_book b -> NoDup (ids (queue s b)).
Proof.
  intros Hwf. pose proof (wf_nodup b Hwf) as Hnd. unfold ids in Hnd.
  rewrite (all_orders_side s), map_app in Hnd. by apply NoDup_app in Hnd as [? _].
Qed.

(** The success path of [remove_order]. *)
Lemma remove_order_found b x :
  wf_book b -> x ∈ all_orders b ->
  exists l', wf_levels (side x) l' /\
    flat (view (side x) l') = without (order_id x) (queue (side x) b) /\
    remove_order (order_id x) b = Ok x (set_levels (side x) l' (unindexed (order_id x) b)).
Proof.
  intros Hwf Hx. destruct (resting_where b x Hwf Hx) as (Hxs & q & Hpq & Hxq & Hq).
  pose proof (queue_nodup (side x) b Hwf) as Hnd.
  destruct (replace_level_without (side x) _ _ q x (wf_sides b Hwf _) Hnd Hpq Hxq) as [Hget Hflat].
  assert (NoDup (ids q)) as Hndq.
  { apply list_elem_of_split in Hpq as (l1 & l2 & Hl). unfold queue, ids in Hnd. rewrite Hl, view_app in Hnd.
    destruct (side x); simpl in Hnd; rewrite ?flat_app, ?flat_snoc, ?flat_cons, ?map_app in Hnd;
      rewrite ?NoDup_app in Hnd; tauto. }
  destruct (position_of q x Hndq Hxq) as (i & Hpos & Hi).
  exists (replace_level (price x) (without (order_id x) q) (side_levels (side x) b)). split_and!.
  - apply replace_level_wf_any; [apply Hwf|]. rewrite Forall_forall in *.
    intros y [Hy _]%without_elem. by apply Hq.
  - exact Hflat.
  - unfold remove_order, bind, get, put. rewrite (wf_indexed b Hwf x Hx), Hget, Hpos.
    unfold unwrap. rewrite Hi. unfold modify, ret. rewrite (delete_without q i x Hndq Hi).
    unfold replace_level. by destruct (side x).
Qed.

(** The failure path of [remove_order]: nothing rests under [id]. *)
Lemma remove_order_missing id b :
  wf_book b -> id ∉ ids (all_orders b) ->
  exists b', remove_order id b = Err (OrderNotFound id) b' /\
    (forall s, queue s b' = queue s b) /\ has_order id b' = false /\ wf_book b'.
Proof.
  intros Hwf Hout.
  assert (Hgone : wf_book (unindexed id b) /\ has_order id (unindexed id b) = false).
  { split; [|unfold has_order; apply bool_decide_false; simpl; set_solver].
    apply (unindexed_wf id b); [done|by intros []; apply Hwf| |done|done].
    intros s. rewrite without_absent; [by destruct s|]. intros Hin. apply Hout.
    unfold ids. rewrite (all_orders_side s), map_app. apply elem_of_app. by left. }
  unfold remove_order, bind, get, put, throw.
  destruct (order_index b !! id) as [[s p]|] eqn:Hidx.
  2:{ eexists. split_and!; [done..| |done]. unfold has_order. apply bool_decide_false.
      rewrite <- (wf_active b Hwf), elem_of_dom, Hidx. by intros []. }
  assert (forall s', queue s' (unindexed id b) = queue s' b) as Hsame by (by intros []).
  fold (unindexed id b). destruct (bt_get p (side_levels s b)) as [q|] eqn:Hget; [|naive_solver].
  destruct (position _ q) as [i|] eqn:Hpos; [|naive_solver]. exfalso. apply Hout.
  destruct (position_Some _ _ _ Hpos) as (y & Hy & Heq & _). apply Z.eqb_eq in Heq. subst id.
  apply elem_ids. rewrite (all_orders_side s). apply elem_of_app. left.
  destruct (bt_get_split _ _ _ Hget) as (l1 & l2 & Hl & _).
  unfold queue. rewrite Hl, view_app. apply list_elem_of_lookup_2 in Hy.
  destruct s; rewrite ?flat_app; simpl; rewrite ?flat_snoc, ?flat_cons; set_solver.
Qed.

(** Both paths of [remove_order]. *)
Lemma remove_order_outcome id b :
  wf_book b ->
  match remove_order id b with
  | Ok o b' => o ∈ all_orders b /\ order_id o = id /\
      (forall s, queue s b' = without id (queue s b)) /\ has_order id b' = false /\ wf_book b'
  | Err e b' => e = OrderNotFound id /\ id ∉ ids (all_orders b) /\
      (forall s, queue s b' = queue s b) /\ has_order id b' = false /\ wf_book b'
  | Panic => False
  end.
Proof.
  intros Hwf. destruct (decide (id ∈ ids (all_orders b))) as [Hin|Hout].
  - apply list_elem_of_fmap in Hin as (x & -> & Hx).
    destruct (remove_order_found b x Hwf Hx) as (l' & Hl' & Hflat & ->).
    assert (Hq : forall s, queue s (set_levels (side x) l' (unindexed (order_id x) b)) =
      without (order_id x) (queue s b)).
    { intros s. unfold queue at 1. destruct (decide (s = side x)) as [->|Hne].
      - by rewrite side_set_levels.
      - assert (s = opposite (side x)) as -> by (by destruct s, (side x)).
        rewrite without_absent; [by destruct (side x)|].
        pose proof (wf_nodup b Hwf) as Hnd. unfold ids in Hnd.
        rewrite (all_orders_side (side x)), map_app in Hnd. apply NoDup_app in Hnd as (_ & Hd & _).
        apply Hd. apply elem_ids. by apply resting_where. }
    assert (active_order_ids (set_levels (side x) l' (unindexed (order_id x) b)) =
      active_order_ids b ∖ {[order_id x]}) as Hact by (by destruct (side x)).
    split_and!; [done..| |].
    + unfold has_order. apply bool_decide_false. rewrite Hact. set_solver.
    + apply (unindexed_wf (order_id x) b); [done| |done|done|by destruct (side x)].
      intros s. destruct (decide (s = side x)) as [->|Hne]; [by rewrite side_set_levels|].
      assert (s = opposite (side x)) as -> by (by destruct s, (side x)).
      pose proof (wf_sides b Hwf (opposite (side x))). by destruct (side x).
  - destruct (remove_order_missing id b Hwf Hout) as (b' & -> & ? & ? & ?). by split_and!.
Qed.

(** Removal takes out exactly the order asked for.  On a well-formed
    book [remove_order] never panics.  It succeeds when, and only when, an
    order with that identifier rests; the order is returned, leaves its queue
    without disturbing the priority of the others, and the other side is
    untouched.  Otherwise the answer is [OrderNotFound] and the queues are as
    before.  Either way the identifier is free again and the book stays
    well-formed. *)
Theorem remove_order_spec id b :
  wf_book b ->
  match remove_order id b with
  | Ok o b' => o ∈ all_orders b /\ order_id o = id /\
      (forall s, queue s b' = without id (queue s b)) /\ has_order id b' = false /\ wf_book b'
  | Err e b' => e = OrderNotFound id /\ id ∉ ids (all_orders b) /\
      (forall s, queue s b' = queue s b) /\ has_order id b' = false /\ wf_book b'
  | Panic => False
  end.
Proof. exact (remove_order_outcome id b). Qed.

(** ** Concrete books *)

Definition sample_order (id user : Z) (s : Side) (p q : Z) : Order := mkOrder id user 1 s Limit p q 1000.

(** Two asks at 101, one at 103, one bid at 99. *)
Definition sample_book : OrderBook :=
  mkBook 1 [(99, [sample_order 4 40 Buy 99 7])]
    [(101, [sample_order 1 10 Sell 101 5; sample_order 2 20 Sell 101 6]); (103, [sample_order 3 30 Sell 103 8])]
    {[1; 2; 3; 4]}
    {[1 := (Sell, 101); 2 := (Sell, 101); 3 := (Sell, 103); 4 := (Buy, 99)]} 10.

Definition taker_order : Order := sample_order 9 90 Buy 102 20.

Lemma sample_book_wf : wf_book sample_book.
Proof.
  split.
  - intros []; split; unfold ascending, level_ok; simpl;
      repeat (constructor || split || lia || done).
  - apply (bool_decide_unpack _). vm_compute. exact I.
  - apply Forall_forall. change (all_orders sample_book) with [sample_order 4 40 Buy 99 7;
      sample_order 1 10 Sell 101 5; sample_order 2 20 Sell 101 6; sample_order 3 30 Sell 103 8].
    repeat (apply Forall_cons; split; [reflexivity|]). by apply Forall_nil.
  - apply (bool_decide_unpack _). vm_compute. exact I.
  - intros x y Hx. revert y. apply Forall_forall. revert x Hx. apply Forall_forall.
    change (queue Buy sample_book) with [sample_order 4 40 Buy 99 7].
    change (queue Sell sample_book) with
      [sample_order 1 10 Sell 101 5; sample_order 2 20 Sell 101 6; sample_order 3 30 Sell 103 8].
    apply Forall_singleton. repeat (apply Forall_cons; split; [reflexivity|]). by apply Forall_nil.
Qed.

Lemma add_order_refines_witness :
  exists trades b' g', book_add_order (bp := debug_profile) taker_order 7 (sample_book, half_new)
      = Ok trades (b', g') /\
    map match_seq trades = [11; 12] /\ map trade_id trades = [458752; 458753] /\
    queue Sell b' = [sample_order 3 30 Sell 103 8] /\
    queue Buy b' = [with_quantity 9 taker_order; sample_order 4 40 Buy 99 7].
Proof.
  destruct (add_order_refines (bp := debug_profile) taker_order 7 sample_book half_new)
    as (trades & b' & g' & Hok & _ & Hseq & Hids & Hopp & Hown).
  - exact sample_book_wf.
  - vm_compute. discriminate.
  - apply (bool_decide_unpack _). vm_compute. exact I.
  - vm_compute. discriminate.
  - vm_compute. discriminate.
  - exists trades, b', g'. split; [exact Hok|]. split; [exact Hseq|].
    split; [|split; [exact Hopp|exact Hown]].
    apply (f_equal fst) in Hids. exact Hids.
Defined.

Lemma add_order_preserves_wf_witness :
  exists trades st, book_add_order (bp := debug_profile) taker_order 7 (sample_book, half_new) = Ok trades st /\
    wf_book st.1.
Proof.
  destruct (book_add_order (bp := debug_profile) taker_order 7 (sample_book, half_new))
    as [trades [b' g']|e st|] eqn:Hr; [|vm_compute in Hr; discriminate..].
  exists trades, (b', g'). split; [reflexivity|].
  apply (add_order_preserves_wf (bp := debug_profile) taker_order 7 sample_book half_new trades b' g');
    [exact sample_book_wf|vm_compute; discriminate..|exact Hr].
Defined.

Lemma add_order_fair_witness :
  exists trades st, book_add_order (bp := debug_profile) taker_order 7 (sample_book, half_new) = Ok trades st /\
    traded trades = 11 /\ total_quantity (all_orders st.1) = 24.
Proof.
  destruct (book_add_order (bp := debug_profile) taker_order 7 (sample_book, half_new))
    as [trades [b' g']|e st|] eqn:Hr; [|vm_compute in Hr; discriminate..].
  destruct (add_order_fair (bp := debug_profile) taker_order 7 sample_book half_new trades b' g')
    as (_ & _ & Htot); [exact sample_book_wf|vm_compute; discriminate..|exact Hr|].
  exists trades, (b', g'). split; [reflexivity|].
  assert (traded trades = 11) as Ht by (vm_compute in Hr; injection Hr as <- <- <-; reflexivity).
  split; [exact Ht|]. cbn [fst]. rewrite Htot, Ht. reflexivity.
Defined.

Lemma add_order_duplicate_witness :
  book_add_order (bp := debug_profile) (sample_order 3 90 Buy 102 20) 7 (sample_book, half_new)
    = Err "Duplicate order ID: 3" (sample_book, half_new).
Proof.
  apply (add_order_duplicate (bp := debug_profile) (sample_order 3 90 Buy 102 20)).
  apply (bool_decide_unpack _). vm_compute. exact I.
Defined.

Lemma filled_taker_stays_active_witness :
  exists trades st, book_add_order (bp := debug_profile) (sample_order 9 90 Buy 102 6) 7 (sample_book, half_new)
      = Ok trades st /\ has_order 9 st.1 = true /\ 9 ∉ ids (all_orders st.1).
Proof.
  destruct (book_add_order (bp := debug_profile) (sample_order 9 90 Buy 102 6) 7 (sample_book, half_new))
    as [trades [b' g']|e st|] eqn:Hr; [|vm_compute in Hr; discriminate..].
  exists trades, (b', g'). split; [reflexivity|].
  apply (filled_taker_stays_active (bp := debug_profile) (sample_order 9 90 Buy 102 6) 7 sample_book half_new trades b' g');
    [exact sample_book_wf|vm_compute; discriminate..|exact Hr|].
  vm_compute in Hr. injection Hr as <- <- <-. reflexivity.
Defined.

Lemma remove_order_spec_witness :
  exists b', remove_order 1 sample_book = Ok (sample_order 1 10 Sell 101 5) b' /\
    queue Sell b' = [sample_order 2 20 Sell 101 6; sample_order 3 30 Sell 103 8] /\ wf_book b'.
Proof.
  pose proof (remove_order_spec 1 sample_book sample_book_wf) as H.
  destruct (remove_order 1 sample_book) as [o b'|e b'|] eqn:Hr; [|vm_compute in Hr; discriminate..].
  destruct H as (_ & _ & Hq & _ & Hwf). exists b'.
  split; [vm_compute in Hr; injection Hr as <- <-; reflexivity|]. split; [exact (Hq Sell)|exact Hwf].
Defined.
