(* ===== verification/Bytes.v ===== *)
(** * Bytes

    Machine integers as byte strings ([to_le_bytes], [from_le_bytes]) and the
    readers over a byte string that the log formats are made of.  A byte is a
    [Z] in [0, 256). *)

From S2P Require Import Prelude.

#[local] Open Scope list_scope.
#[local] Open Scope Z_scope.

Definition is_byte (b : Z) : Prop := 0 <= b < 256.

(** [x.to_le_bytes()] of an [n]-byte integer. *)
Fixpoint le_bytes (n : nat) (x : Z) : list Z :=
  match n with
  | O => []
  | S n' => x mod 256 :: le_bytes n' (x / 256)
  end.

(** [from_le_bytes]. *)
Fixpoint le_value (l : list Z) : Z :=
  match l with
  | [] => 0
  | b :: l' => b + 256 * le_value l'
  end.

(** [to_le_bytes] of a signed 64-bit integer. *)
Definition i64_le_bytes (x : Z) : list Z := le_bytes 8 (x mod u64_mod).

(** [s.as_bytes()] *)
Definition string_bytes (s : string) : list Z :=
  map (fun c => Z.of_N (Ascii.N_of_ascii c)) (String.list_ascii_of_string s).

Lemma le_bytes_length n x : length (le_bytes n x) = n.
Proof. revert x. induction n; intros x; simpl; auto. Qed.

Lemma le_bytes_range n x : Forall is_byte (le_bytes n x).
Proof.
  revert x. induction n as [|n IH]; intros x; simpl; [by apply Forall_nil|].
  apply Forall_cons. split; [by apply Z.mod_pos_bound|apply IH].
Qed.

Lemma le_value_bytes n x : 0 <= x < 256 ^ Z.of_nat n -> le_value (le_bytes n x) = x.
Proof.
  revert x. induction n as [|n IH]; intros x Hx; simpl.
  - simpl in Hx. lia.
  - rewrite Nat2Z.inj_succ, Z.pow_succ_r in Hx by lia. rewrite IH.
    + pose proof (Z.div_mod x 256 ltac:(lia)). lia.
    + split; [apply Z.div_pos; lia|]. apply Z.div_lt_upper_bound; lia.
Qed.

Lemma le_value_bound l : Forall is_byte l -> 0 <= le_value l < 256 ^ Z.of_nat (length l).
Proof.
  induction 1 as [|b l Hb _ IH]; [simpl; lia|]. cbn [le_value length].
  rewrite Nat2Z.inj_succ, Z.pow_succ_r by lia. unfold is_byte in Hb. lia.
Qed.

Lemma le_bytes_inj n x y :
  0 <= x < 256 ^ Z.of_nat n -> 0 <= y < 256 ^ Z.of_nat n -> le_bytes n x = le_bytes n y -> x = y.
Proof. intros Hx Hy H. rewrite <- (le_value_bytes n x), <- (le_value_bytes n y) by done. by rewrite H. Qed.

Lemma le_bytes_u64 x : is_u64 x -> le_value (le_bytes 8 x) = x.
Proof. intros Hx. apply le_value_bytes. change (256 ^ Z.of_nat 8) with u64_mod. ulia. Qed.

(** ** Readers *)

(** [read_exact] of [n] bytes from what is left of the input. *)
Definition read_exact (n : nat) (l : list Z) : option (list Z * list Z) :=
  if Nat.leb n (length l) then Some (firstn n l, skipn n l) else None.

Lemma read_exact_app n l1 l2 : length l1 = n -> read_exact n (l1 ++ l2) = Some (l1, l2).
Proof.
  intros <-. unfold read_exact. rewrite length_app.
  destruct (Nat.leb_spec (length l1) (length l1 + length l2)); [|lia].
  by rewrite take_app_length, drop_app_length.
Qed.

Lemma read_exact_short n l : (length l < n)%nat -> read_exact n l = None.
Proof. intros Hl. unfold read_exact. by destruct (Nat.leb_spec n (length l)); [lia|]. Qed.

(** ** Big-endian integers, lengths, runs of zeros *)

Definition be_bytes (n : nat) (x : Z) : list Z := rev (le_bytes n x).
Definition be_value (l : list Z) : Z := le_value (rev l).

Lemma be_value_bytes n x : 0 <= x < 256 ^ Z.of_nat n -> be_value (be_bytes n x) = x.
Proof. intros Hx. unfold be_value, be_bytes. rewrite rev_involutive. by apply le_value_bytes. Qed.

Lemma be_bytes_length n x : length (be_bytes n x) = n.
Proof. unfold be_bytes. by rewrite length_rev, le_bytes_length. Qed.

(** [l.len()] *)
Definition zlen {A} (l : list A) : Z := Z.of_nat (length l).

Lemma zlen_nonneg {A} (l : list A) : 0 <= zlen l.
Proof. unfold zlen. lia. Qed.

Lemma zlen_app {A} (l1 l2 : list A) : zlen (l1 ++ l2) = zlen l1 + zlen l2.
Proof. unfold zlen. rewrite length_app. lia. Qed.

Lemma zlen_nil {A} (l : list A) : zlen l = 0 <-> l = [].
Proof. unfold zlen. destruct l; simpl; split; (done || lia). Qed.

Lemma zlen_eq {A} (l : list A) : zlen l = Z.of_nat (length l).
Proof. done. Qed.

Lemma zlen_to_nat {A} (l : list A) : Z.to_nat (zlen l) = length l.
Proof. unfold zlen. lia. Qed.

Definition zeros (n : nat) : list Z := replicate n 0.

Definition all_zero (l : list Z) : bool := forallb (fun b => b =? 0) l.

Lemma all_zero_zeros n : all_zero (zeros n) = true.
Proof. unfold zeros. by induction n. Qed.

Lemma all_zero_inv l : all_zero l = true -> l = zeros (length l).
Proof.
  unfold zeros. induction l as [|b l IH]; simpl; [done|].
  intros [->%Z.eqb_eq Hl]%andb_true_iff. by rewrite <- IH.
Qed.

(** [pwrite] of [data] at [off]: the file grows when it must, and a gap
    before [off] reads as zeros. *)
Definition overwrite (off : nat) (data l : list Z) : list Z :=
  take off (l ++ zeros (off - length l)) ++ data ++ drop (off + length data) l.

Lemma overwrite_at p data rest :
  overwrite (length p) data (p ++ rest) = p ++ data ++ drop (length data) rest.
Proof.
  unfold overwrite. rewrite length_app, <- app_assoc, take_app_length. do 2 f_equal.
  rewrite drop_app_ge by lia. f_equal. lia.
Qed.

(** [set_len] to at least [n]. *)
Definition extend (n : nat) (l : list Z) : list Z := l ++ zeros (n - length l).
