(* ===== verification/EngineOutput.v ===== *)
(** * Engine output ([src/src/engine_output.rs])

    The bundle one input produces, its hash over the concatenated
    little-endian fields, the chain check between consecutive bundles, the
    input bundle with its checksum, and the builder. *)

From S2P Require Import Prelude Bytes.

#[local] Open Scope string_scope.
#[local] Open Scope list_scope.
#[local] Open Scope Z_scope.

Record PlaceOrderInput := mkPlaceOrder {
  po_order_id : Z; po_user_id : Z; po_symbol_id : Z; po_side : Z; po_order_type : Z;
  po_price : Z; po_quantity : Z; po_cid : string; po_created_at : Z
}.

Record CancelOrderInput := mkCancelOrder { co_order_id : Z; co_user_id : Z; co_created_at : Z }.

Record DepositInput := mkDepositInput { dp_user_id : Z; dp_asset_id : Z; dp_amount : Z; dp_created_at : Z }.

Record WithdrawInput := mkWithdrawInput { wd_user_id : Z; wd_asset_id : Z; wd_amount : Z; wd_created_at : Z }.

Inductive InputData :=
  | InPlaceOrder (i : PlaceOrderInput)
  | InCancelOrder (i : CancelOrderInput)
  | InDeposit (i : DepositInput)
  | InWithdraw (i : WithdrawInput).

Record InputBundle := mkInput { input_seq : Z; crc : Z; data : InputData }.

Record TradeOutput := mkTradeOutput {
  to_trade_id : Z; to_match_seq : Z; to_symbol_id : Z; to_buy_order_id : Z; to_sell_order_id : Z;
  to_buyer_user_id : Z; to_seller_user_id : Z; to_price : Z; to_quantity : Z;
  to_base_asset_id : Z; to_quote_asset_id : Z; to_buyer_refund : Z; to_seller_refund : Z;
  to_settled_at : Z
}.

Record BalanceEvent := mkBalanceEvent {
  be_user_id : Z; be_asset_id : Z; be_seq : Z; be_delta_avail : Z; be_delta_frozen : Z;
  be_avail : option Z; be_frozen : option Z; be_event_type : string; be_ref_id : Z
}.

Record OutOrderUpdate := mkOutUpdate {
  ou_order_id : Z; ou_user_id : Z; ou_status : Z; ou_filled_qty : Z; ou_remaining_qty : Z;
  ou_avg_price : Z; ou_updated_at : Z
}.

Record OrderPlacement := mkPlacement {
  pl_order_id : Z; pl_user_id : Z; pl_symbol_id : Z; pl_side : Z; pl_order_type : Z;
  pl_price : Z; pl_quantity : Z; pl_created_at : Z
}.

Inductive CompletionReason := CompletedFilled | CompletedCancelled.

Record OrderCompletion := mkCompletion {
  cp_order_id : Z; cp_reason : CompletionReason; cp_completed_at : Z
}.

Record EngineOutput := mkOutput {
  out_seq : Z; prev_hash : Z; out_symbol_id : Z; input : InputBundle;
  order_update : option OutOrderUpdate; trades : list TradeOutput;
  balance_events : list BalanceEvent; order_placements : list OrderPlacement;
  order_completions : list OrderCompletion; hash : Z
}.

Definition set_hash (h : Z) (o : EngineOutput) : EngineOutput :=
  mkOutput (out_seq o) (prev_hash o) (out_symbol_id o) (input o) (order_update o) (trades o)
    (balance_events o) (order_placements o) (order_completions o) h.

Definition GENESIS_HASH : Z := 0.

(** ** The bytes that are hashed *)

Definition hash_input_data (d : InputData) : list Z :=
  match d with
  | InPlaceOrder o =>
      [1] ++ le_bytes 8 (po_order_id o) ++ le_bytes 8 (po_user_id o) ++ le_bytes 4 (po_symbol_id o) ++
      [po_side o] ++ [po_order_type o] ++ le_bytes 8 (po_price o) ++ le_bytes 8 (po_quantity o) ++
      string_bytes (po_cid o) ++ le_bytes 8 (po_created_at o)
  | InCancelOrder c =>
      [2] ++ le_bytes 8 (co_order_id c) ++ le_bytes 8 (co_user_id c) ++ le_bytes 8 (co_created_at c)
  | InDeposit d =>
      [3] ++ le_bytes 8 (dp_user_id d) ++ le_bytes 4 (dp_asset_id d) ++ le_bytes 8 (dp_amount d) ++
      le_bytes 8 (dp_created_at d)
  | InWithdraw w =>
      [4] ++ le_bytes 8 (wd_user_id w) ++ le_bytes 4 (wd_asset_id w) ++ le_bytes 8 (wd_amount w) ++
      le_bytes 8 (wd_created_at w)
  end.

Definition hash_order_update (ou : option OutOrderUpdate) : list Z :=
  match ou with
  | Some ou =>
      [1] ++ le_bytes 8 (ou_order_id ou) ++ le_bytes 8 (ou_user_id ou) ++ [ou_status ou] ++
      le_bytes 8 (ou_filled_qty ou) ++ le_bytes 8 (ou_remaining_qty ou) ++
      le_bytes 8 (ou_avg_price ou) ++ le_bytes 8 (ou_updated_at ou)
  | None => [0]
  end.

Definition hash_trade (t : TradeOutput) : list Z :=
  le_bytes 8 (to_trade_id t) ++ le_bytes 8 (to_match_seq t) ++ le_bytes 8 (to_buy_order_id t) ++
  le_bytes 8 (to_sell_order_id t) ++ le_bytes 8 (to_buyer_user_id t) ++
  le_bytes 8 (to_seller_user_id t) ++ le_bytes 8 (to_price t) ++ le_bytes 8 (to_quantity t) ++
  le_bytes 4 (to_base_asset_id t) ++ le_bytes 4 (to_quote_asset_id t) ++
  le_bytes 8 (to_buyer_refund t) ++ le_bytes 8 (to_seller_refund t) ++ le_bytes 8 (to_settled_at t).

Definition hash_balance_event (e : BalanceEvent) : list Z :=
  le_bytes 8 (be_user_id e) ++ le_bytes 4 (be_asset_id e) ++ le_bytes 8 (be_seq e) ++
  i64_le_bytes (be_delta_avail e) ++ i64_le_bytes (be_delta_frozen e) ++
  le_bytes 8 (default 0 (be_avail e)) ++ le_bytes 8 (default 0 (be_frozen e)) ++
  string_bytes (be_event_type e) ++ le_bytes 8 (be_ref_id e).

Definition hash_bytes (o : EngineOutput) : list Z :=
  le_bytes 8 (out_seq o) ++ le_bytes 8 (prev_hash o) ++ le_bytes 4 (out_symbol_id o) ++
  le_bytes 8 (input_seq (input o)) ++ le_bytes 4 (crc (input o)) ++ hash_input_data (data (input o)) ++
  hash_order_update (order_update o) ++
  le_bytes 4 (Z.of_nat (length (trades o))) ++ concat (map hash_trade (trades o)) ++
  le_bytes 4 (Z.of_nat (length (balance_events o))) ++
  concat (map hash_balance_event (balance_events o)).

(** What the crate takes from its dependencies: the hash, the checksum and
    the JSON form of an input. *)
Class Digests := {
  xxh3_64 : list Z -> Z;
  crc32 : list Z -> Z;
  json_of_input : InputData -> list Z
}.

Section output.
Context `{Digests}.

Definition compute_hash (o : EngineOutput) : Z := xxh3_64 (hash_bytes o).

Definition verify (o : EngineOutput) : bool := hash o =? compute_hash o.

(** [prev.output_seq + 1] is a plain addition. *)
Definition verify_chain {bp : BuildProfile} (o prev : EngineOutput) : option bool :=
  (fun next => (out_seq o =? next) && (prev_hash o =? hash prev)) <$> op_add (out_seq prev) 1.

Definition verify_prev_hash (o : EngineOutput) (expected_prev_hash : Z) : bool :=
  prev_hash o =? expected_prev_hash.

Definition first_symbol (ts : list TradeOutput) : Z := default 0 (to_symbol_id <$> head ts).

Definition output_new (seq prev : Z) (i : InputBundle) (ou : option OutOrderUpdate)
    (ts : list TradeOutput) (es : list BalanceEvent) : EngineOutput :=
  let output := mkOutput seq prev (first_symbol ts) i ou ts es [] [] 0 in
  set_hash (compute_hash output) output.

Definition input_new (seq : Z) (d : InputData) : InputBundle :=
  mkInput seq (crc32 (json_of_input d)) d.

Definition verify_crc (i : InputBundle) : bool := crc i =? crc32 (json_of_input (data i)).

(** ** The builder *)

Record EngineOutputBuilder := mkBuilder {
  b_seq : Z; b_prev_hash : Z; b_input : option InputBundle; b_update : option OutOrderUpdate;
  b_trades : list TradeOutput; b_events : list BalanceEvent;
  b_placements : list OrderPlacement; b_completions : list OrderCompletion
}.

Definition builder_new (seq prev : Z) : EngineOutputBuilder := mkBuilder seq prev None None [] [] [] [].

Definition set_input (i : InputBundle) (b : EngineOutputBuilder) : EngineOutputBuilder :=
  mkBuilder (b_seq b) (b_prev_hash b) (Some i) (b_update b) (b_trades b) (b_events b)
    (b_placements b) (b_completions b).

Definition set_order_update (u : OutOrderUpdate) (b : EngineOutputBuilder) : EngineOutputBuilder :=
  mkBuilder (b_seq b) (b_prev_hash b) (b_input b) (Some u) (b_trades b) (b_events b)
    (b_placements b) (b_completions b).

Definition add_trade (t : TradeOutput) (b : EngineOutputBuilder) : EngineOutputBuilder :=
  mkBuilder (b_seq b) (b_prev_hash b) (b_input b) (b_update b) (b_trades b ++ [t]) (b_events b)
    (b_placements b) (b_completions b).

Definition add_balance_event (e : BalanceEvent) (b : EngineOutputBuilder) : EngineOutputBuilder :=
  mkBuilder (b_seq b) (b_prev_hash b) (b_input b) (b_update b) (b_trades b) (b_events b ++ [e])
    (b_placements b) (b_completions b).

Definition add_order_placement (p : OrderPlacement) (b : EngineOutputBuilder) : EngineOutputBuilder :=
  mkBuilder (b_seq b) (b_prev_hash b) (b_input b) (b_update b) (b_trades b) (b_events b)
    (b_placements b ++ [p]) (b_completions b).

Definition add_order_completion (c : OrderCompletion) (b : EngineOutputBuilder) : EngineOutputBuilder :=
  mkBuilder (b_seq b) (b_prev_hash b) (b_input b) (b_update b) (b_trades b) (b_events b)
    (b_placements b) (b_completions b ++ [c]).

Definition build (b : EngineOutputBuilder) : option EngineOutput :=
  match b_input b with
  | None => None
  | Some i =>
      let output := mkOutput (b_seq b) (b_prev_hash b) (first_symbol (b_trades b)) i (b_update b)
        (b_trades b) (b_events b) (b_placements b) (b_completions b) 0 in
      Some (set_hash (compute_hash output) output)
  end.

(** ** What verification means *)

Lemma build_verifies b o :
  build b = Some o ->
  verify o = true /\ out_seq o = b_seq b /\ prev_hash o = b_prev_hash b /\
  trades o = b_trades b /\ balance_events o = b_events b /\ order_update o = b_update b.
Proof.
  unfold build. destruct (b_input b); [|done]. intros [= <-]. split_and!; [|done..].
  unfold verify, compute_hash. simpl. apply Z.eqb_refl.
Qed.

Lemma input_verifies seq d : verify_crc (input_new seq d) = true.
Proof. apply Z.eqb_refl. Qed.

Definition set_lifecycle (ps : list OrderPlacement) (cs : list OrderCompletion) (o : EngineOutput)
  : EngineOutput :=
  mkOutput (out_seq o) (prev_hash o) (out_symbol_id o) (input o) (order_update o) (trades o)
    (balance_events o) ps cs (hash o).

(** The hash does not cover the order lifecycle.  Whatever placements and
    completions a bundle carries, replacing them leaves the bundle valid and
    its links to both neighbours intact. *)
Theorem lifecycle_not_hashed {bp : BuildProfile} ps cs o prev next :
  verify (set_lifecycle ps cs o) = verify o /\
  verify_chain (set_lifecycle ps cs o) prev = verify_chain o prev /\
  verify_chain next (set_lifecycle ps cs o) = verify_chain next o.
Proof. done. Qed.
End output.
