(* ===== verification/MatchingEngine.v ===== *)
(** * The matching engine ([src/src/matching_engine_base.rs], [struct MatchingEngine])

    Order processing with and without the output bundle, batches,
    cancellation, symbol registration and the snapshot.  The two processing
    functions are generic in the ledger, as in the code; the engine runs them
    with the null ledger. *)

From stdpp Require Import pretty.
From S2P Require Import Prelude Bytes Ledger EngineOutput FastUlid BTree OrderModels OrderBook.

#[local] Open Scope string_scope.
#[local] Open Scope list_scope.
#[local] Open Scope Z_scope.
#[local] Open Scope rust_scope.

(** [e.to_string()] of the ledger's errors. *)
Definition ua (user asset : Z) : string := "User " +:+ pretty user +:+ " Asset " +:+ pretty asset.

Definition show_ledger_error (e : LedgerError) : string :=
  match e with
  | DepositFailed u a m => "Deposit failed for " +:+ ua u a +:+ ": " +:+ m
  | WithdrawFailed u a => "Insufficient funds for withdraw: " +:+ ua u a
  | LockFailed u a => "Insufficient funds for lock: " +:+ ua u a
  | UnlockFailed u a => "Insufficient frozen funds for unlock: " +:+ ua u a
  | SettleSpendFailed u a => "Insufficient frozen funds for settle: " +:+ ua u a
  | SettleAssetNotFound u a => "Asset not found for spend: " +:+ ua u a
  | QuoteAmountOverflow => "Quote amount overflow"
  | BuyerNotFound u => "Buyer account " +:+ pretty u +:+ " not found"
  | BuyerCheckFailed m => "Buyer check failed: " +:+ m
  | SellerNotFound u => "Seller account " +:+ pretty u +:+ " not found"
  | SellerCheckFailed m => "Seller check failed: " +:+ m
  | SequenceGap expected found => "Gap! Expected " +:+ pretty expected +:+ ", Found " +:+ pretty found
  | ExternalError m => m
  end.

(** An order as the engine receives it. *)
Record OrderRequest := mkRequest {
  rq_symbol_id : Z; rq_order_id : Z; rq_side : Side; rq_order_type : OrderType;
  rq_price : Z; rq_quantity : Z; rq_user_id : Z; rq_timestamp : Z
}.

Definition request_order (r : OrderRequest) : Order :=
  mkOrder (rq_order_id r) (rq_user_id r) (rq_symbol_id r) (rq_side r) (rq_order_type r)
    (rq_price r) (rq_quantity r) (rq_timestamp r).

(** The [OrderUpdate] the ledger is told about. *)
Definition ledger_update (r : OrderRequest) (cid : option string) (status : OrderStatus.t)
    (reason : option string) : LedgerCommand :=
  LedgerCommand.OrderUpdate (OrderUpdate.mk (rq_order_id r) cid (rq_user_id r) (rq_symbol_id r)
    (side_as_u8 (rq_side r)) (order_type_as_u8 (rq_order_type r)) status
    (rq_price r) (rq_quantity r) 0 None reason (rq_timestamp r) None).

(** The part of the engine the two processing functions borrow mutably. *)
Record Core := mkCore {
  order_books : list (option OrderBook);
  trade_id_gen : FastUlidHalfGen;
  output_seq : Z;
  last_output_hash : Z
}.

Definition set_output_seq (n : Z) (c : Core) : Core :=
  mkCore (order_books c) (trade_id_gen c) n (last_output_hash c).
Definition set_last_hash (h : Z) (c : Core) : Core :=
  mkCore (order_books c) (trade_id_gen c) (output_seq c) h.

Section process.
Context {bp : BuildProfile} `{Ledger.Ledger T}.

Abbreviation Proc A := (M (T * Core) OrderError A).

Definition add (x y : Z) : Proc Z := unwrap (op_add x y).
Definition sub (x y : Z) : Proc Z := unwrap (op_sub x y).
Definition mul (x y : Z) : Proc Z := unwrap (op_mul x y).

Definition tell (cmd : LedgerCommand) : Proc unit :=
  zoom (fun st => Some st.1) (fun l st => (l, st.2))
    (map_err (fun e => LedgerFailure (show_ledger_error e)) (ledger_apply cmd)).

(** The answer to [ledger.apply(&cmd)] when the caller looks at it. *)
Definition try_apply (cmd : LedgerCommand) : Proc (option LedgerError) :=
  fun st =>
    match ledger_apply cmd st.1 with
    | Ok _ l => Ok None (l, st.2)
    | Err e l => Ok (Some e) (l, st.2)
    | Panic => Panic
    end.

Definition on_core {E A} (m : M Core E A) : M (T * Core) E A :=
  zoom (fun st => Some st.2) (fun c st => (st.1, c)) m.

Definition bump_output_seq : Proc Z :=
  let* st := get in
  let* n := add (output_seq st.2) 1 in
  on_core (modify (set_output_seq n)) ;;;
  ret n.

(** [book.add_order(..)] on the book of the symbol; the caller has checked
    that it is there. *)
Definition run_book (sym : Z) (m : M BookState string (list Trade)) : M Core string (list Trade) :=
  zoom (fun c => match order_books c !! Z.to_nat sym with
                 | Some (Some b) => Some (b, trade_id_gen c)
                 | _ => None
                 end)
       (fun bg c => mkCore (<[Z.to_nat sym := Some bg.1]> (order_books c)) bg.2
                           (output_seq c) (last_output_hash c))
       m.

Definition has_book (sym : Z) (c : Core) : bool :=
  match order_books c !! Z.to_nat sym with Some (Some _) => true | _ => false end.

(** Asset and amount an order locks. *)
Definition lock_of (base quote : Z) (r : OrderRequest) : Proc (Z * Z) :=
  match rq_side r with
  | Buy => let* amount := mul (rq_price r) (rq_quantity r) in ret (quote, amount)
  | Sell => ret (base, rq_quantity r)
  end.

Definition buyer_refund_of (r : OrderRequest) (t : Trade) : Proc Z :=
  if bool_decide (rq_side r = Buy) && (buy_user_id t =? rq_user_id r) then
    if trade_price t <? rq_price r then
      let* d := sub (rq_price r) (trade_price t) in mul d (trade_quantity t)
    else ret 0
  else ret 0.

(** [get_and_add_version]: the map is keyed by user and asset. *)
Definition get_and_add_version (l : T) (user asset inc : Z) (m : gmap (Z * Z) Z)
  : Proc (Z * gmap (Z * Z) Z) :=
  let v := default (ledger_version l user asset) (m !! (user, asset)) in
  let* v' := add v inc in
  ret (v, <[(user, asset) := v']> m).

(** [get_and_update_balance] with its [i64] delta. *)
Definition get_and_update_balance (l : T) (user asset delta : Z) (m : gmap (Z * Z) Z)
  : Proc (Z * gmap (Z * Z) Z) :=
  let e := default (ledger_balance l user asset) (m !! (user, asset)) in
  let* e' :=
    (if 0 <=? delta then add e delta
     else
       let* d := unwrap (i64_op (- delta)) in
       if d <=? e then sub e d else ret 0) in
  ret (e', <[(user, asset) := e']> m).

Definition temps : Type := gmap (Z * Z) Z * gmap (Z * Z) Z.

(** One round of the trade loop of [process_order_logic]. *)
Definition logic_trade (r : OrderRequest) (base quote : Z) (l : T) (t : Trade) (tmp : temps)
  : Proc (MatchExecData * temps) :=
  let '(versions, balances) := tmp in
  let* buyer_refund := buyer_refund_of r t in
  let buyer_quote_inc := if 0 <? buyer_refund then 2 else 1 in
  let* '(bqv, versions) := get_and_add_version l (buy_user_id t) quote buyer_quote_inc versions in
  let* '(bbv, versions) := get_and_add_version l (buy_user_id t) base 1 versions in
  let* '(sbv, versions) := get_and_add_version l (sell_user_id t) base 1 versions in
  let* '(sqv, versions) := get_and_add_version l (sell_user_id t) quote 1 versions in
  let* '(bqb, balances) := get_and_update_balance l (buy_user_id t) quote (as_i64 buyer_refund) balances in
  let* '(bbb, balances) := get_and_update_balance l (buy_user_id t) base (as_i64 (trade_quantity t)) balances in
  let* '(sbb, balances) := get_and_update_balance l (sell_user_id t) base 0 balances in
  let* cost := mul (trade_price t) (trade_quantity t) in
  let* '(sqb, balances) := get_and_update_balance l (sell_user_id t) quote (as_i64 cost) balances in
  let* seq := bump_output_seq in
  ret (mkMatchExec (trade_id t) (buy_order_id t) (sell_order_id t) (buy_user_id t) (sell_user_id t)
         (trade_price t) (trade_quantity t) base quote buyer_refund 0 (match_seq t) seq 0
         bqv bbv sbv sqv bqb bbb sbb sqb,
       (versions, balances)).

Fixpoint logic_trades (r : OrderRequest) (base quote : Z) (l : T) (ts : list Trade) (tmp : temps)
  : Proc (list MatchExecData) :=
  match ts with
  | [] => ret []
  | t :: ts' =>
      let* '(d, tmp) := logic_trade r base quote l t tmp in
      let* ds := logic_trades r base quote l ts' tmp in
      ret (d :: ds)
  end.

Definition balance_after_lock (current_bal lock_amount : Z) : Z :=
  if lock_amount <=? current_bal then current_bal - lock_amount else current_bal.

Definition apply_batch (batch : list MatchExecData) : Proc unit :=
  match batch with
  | [] => ret tt
  | _ => tell (LedgerCommand.MatchExecBatch batch)
  end.

Definition process_order_logic (asset_map : gmap Z (Z * Z)) (r : OrderRequest) : Proc Z :=
  match asset_map !! rq_symbol_id r with
  | None =>
      let* _ := try_apply (ledger_update r None OrderStatus.Rejected
                  (Some ("Asset map not found for symbol " +:+ pretty (rq_symbol_id r)))) in
      ret (rq_order_id r)
  | Some (base, quote) =>
      let* '(lock_asset, lock_amount) := lock_of base quote r in
      let* st := get in
      let current_bal := ledger_balance st.1 (rq_user_id r) lock_asset in
      let current_ver := ledger_version st.1 (rq_user_id r) lock_asset in
      let balance_after := balance_after_lock current_bal lock_amount in
      let* new_ver := add current_ver 1 in
      let* locked := try_apply (LedgerCommand.Lock (rq_user_id r) lock_asset lock_amount balance_after new_ver) in
      match locked with
      | Some e =>
          let* _ := try_apply (ledger_update r None OrderStatus.Rejected (Some (show_ledger_error e))) in
          ret (rq_order_id r)
      | None =>
          tell (ledger_update r None OrderStatus.New None) ;;;
          let* st := get in
          if negb (has_book (rq_symbol_id r) st.2) then
            let* _ := try_apply (ledger_update r None OrderStatus.Rejected
                        (Some ("Invalid Symbol ID: " +:+ pretty (rq_symbol_id r)))) in
            ret (rq_order_id r)
          else
            let* trades := map_err Other
              (on_core (run_book (rq_symbol_id r) (book_add_order (request_order r) (rq_timestamp r)))) in
            let* st := get in
            let* batch := logic_trades r base quote st.1 trades (∅, ∅) in
            apply_batch batch ;;;
            ret (rq_order_id r)
      end
  end.

(** ** With the output bundle *)

Context `{Digests}.

Definition neg_i64 (x : Z) : Proc Z := unwrap (i64_op (- x)).
Definition add_i64 (x y : Z) : Proc Z := unwrap (i64_op (x + y)).

(** [EOOrderUpdate] of a rejected order. *)
Definition rejected_update (r : OrderRequest) : OutOrderUpdate :=
  mkOutUpdate (rq_order_id r) (rq_user_id r) 5 0 (rq_quantity r) 0 (rq_timestamp r).

(** [builder.build_unchecked()], then [*last_output_hash = output.hash]. *)
Definition finish_output (b : EngineOutputBuilder) : Proc EngineOutput :=
  let* output := unwrap (build b) in
  on_core (modify (set_last_hash (hash output))) ;;;
  ret output.

(** One round of the trade loop: the trade, its balance events, and the
    data of the match batch. *)
Definition output_trade (r : OrderRequest) (base quote out : Z) (l : T) (t : Trade)
    (versions : gmap (Z * Z) Z) (b : EngineOutputBuilder)
  : Proc (MatchExecData * gmap (Z * Z) Z * EngineOutputBuilder) :=
  let* buyer_refund := buyer_refund_of r t in
  let buyer_quote_inc := if 0 <? buyer_refund then 2 else 1 in
  let* '(bqv, versions) := get_and_add_version l (buy_user_id t) quote buyer_quote_inc versions in
  let* '(bbv, versions) := get_and_add_version l (buy_user_id t) base 1 versions in
  let* '(sbv, versions) := get_and_add_version l (sell_user_id t) base 1 versions in
  let* '(sqv, versions) := get_and_add_version l (sell_user_id t) quote 1 versions in
  let* trade_cost := mul (trade_price t) (trade_quantity t) in
  let b := add_trade (mkTradeOutput (trade_id t) (match_seq t) (rq_symbol_id r)
             (buy_order_id t) (sell_order_id t) (buy_user_id t) (sell_user_id t)
             (trade_price t) (trade_quantity t) base quote buyer_refund 0 0) b in
  let* seq1 := add bqv 1 in
  let* ev1 :=
    (if 0 <? buyer_refund then
       let* s := add_i64 (as_i64 trade_cost) (as_i64 buyer_refund) in
       let* df := neg_i64 s in
       ret (mkBalanceEvent (buy_user_id t) quote seq1 (as_i64 buyer_refund) df None None
              "trade_refund" (trade_id t))
     else
       let* df := neg_i64 (as_i64 trade_cost) in
       ret (mkBalanceEvent (buy_user_id t) quote seq1 0 df None None "trade_debit" (trade_id t))) in
  let b := add_balance_event ev1 b in
  let* seq2 := add bbv 1 in
  let b := add_balance_event (mkBalanceEvent (buy_user_id t) base seq2 (as_i64 (trade_quantity t)) 0
             None None "trade_credit" (trade_id t)) b in
  let* seq3 := add sbv 1 in
  let* df3 := neg_i64 (as_i64 (trade_quantity t)) in
  let b := add_balance_event (mkBalanceEvent (sell_user_id t) base seq3 0 df3
             None None "trade_debit" (trade_id t)) b in
  let* seq4 := add sqv 1 in
  let b := add_balance_event (mkBalanceEvent (sell_user_id t) quote seq4 (as_i64 trade_cost) 0
             None None "trade_credit" (trade_id t)) b in
  ret (mkMatchExec (trade_id t) (buy_order_id t) (sell_order_id t) (buy_user_id t) (sell_user_id t)
         (trade_price t) (trade_quantity t) base quote buyer_refund 0 (match_seq t) out 0
         bqv bbv sbv sqv 0 0 0 0,
       versions, b).

(** The loop, with the running [total_filled] and [total_cost]. *)
Fixpoint output_trades (r : OrderRequest) (base quote out : Z) (l : T) (ts : list Trade)
    (versions : gmap (Z * Z) Z) (total_filled total_cost : Z) (b : EngineOutputBuilder)
  : Proc (list MatchExecData * Z * Z * EngineOutputBuilder) :=
  match ts with
  | [] => ret ([], total_filled, total_cost, b)
  | t :: ts' =>
      let* total_filled := add total_filled (trade_quantity t) in
      let* c := mul (trade_price t) (trade_quantity t) in
      let* total_cost := add total_cost c in
      let* '(d, versions, b) := output_trade r base quote out l t versions b in
      let* '(ds, total_filled, total_cost, b) :=
        output_trades r base quote out l ts' versions total_filled total_cost b in
      ret (d :: ds, total_filled, total_cost, b)
  end.

Definition reject_output (r : OrderRequest) (cid : string) (reason : string) (b : EngineOutputBuilder)
  : Proc (Z * EngineOutput) :=
  let* _ := try_apply (ledger_update r (Some cid) OrderStatus.Rejected (Some reason)) in
  let* output := finish_output (set_order_update (rejected_update r) b) in
  ret (rq_order_id r, output).

Definition order_input (r : OrderRequest) (cid : string) : InputData :=
  InPlaceOrder (mkPlaceOrder (rq_order_id r) (rq_user_id r) (rq_symbol_id r)
    (side_as_u8 (rq_side r)) (order_type_as_u8 (rq_order_type r)) (rq_price r) (rq_quantity r)
    cid (rq_timestamp r)).

Definition process_order_with_output (asset_map : gmap Z (Z * Z)) (in_seq : Z) (r : OrderRequest)
    (client_order_id : string) : Proc (Z * EngineOutput) :=
  let* out := bump_output_seq in
  let* st := get in
  let b := set_input (input_new in_seq (order_input r client_order_id))
             (builder_new out (last_output_hash st.2)) in
  match asset_map !! rq_symbol_id r with
  | None =>
      reject_output r client_order_id
        ("Asset map not found for symbol " +:+ pretty (rq_symbol_id r)) b
  | Some (base, quote) =>
      let* '(lock_asset, lock_amount) := lock_of base quote r in
      let* st := get in
      let current_bal := ledger_balance st.1 (rq_user_id r) lock_asset in
      let current_frozen := ledger_frozen st.1 (rq_user_id r) lock_asset in
      let current_ver := ledger_version st.1 (rq_user_id r) lock_asset in
      let balance_after := balance_after_lock current_bal lock_amount in
      let* new_ver := add current_ver 1 in
      let* locked := try_apply (LedgerCommand.Lock (rq_user_id r) lock_asset lock_amount balance_after new_ver) in
      match locked with
      | Some e => reject_output r client_order_id (show_ledger_error e) b
      | None =>
          let* da := neg_i64 (as_i64 lock_amount) in
          let* frozen_after := add current_frozen lock_amount in
          let b := add_balance_event (mkBalanceEvent (rq_user_id r) lock_asset new_ver da
                     (as_i64 lock_amount) (Some balance_after) (Some frozen_after) "lock"
                     (rq_order_id r)) b in
          tell (ledger_update r (Some client_order_id) OrderStatus.New None) ;;;
          let* st := get in
          if negb (has_book (rq_symbol_id r) st.2) then
            reject_output r client_order_id ("Invalid Symbol ID: " +:+ pretty (rq_symbol_id r)) b
          else
            let* trades := map_err Other
              (on_core (run_book (rq_symbol_id r) (book_add_order (request_order r) (rq_timestamp r)))) in
            let b := add_order_placement (mkPlacement (rq_order_id r) (rq_user_id r) (rq_symbol_id r)
                       (side_as_u8 (rq_side r)) (order_type_as_u8 (rq_order_type r))
                       (rq_price r) (rq_quantity r) (rq_timestamp r)) b in
            let* st := get in
            let* '(batch, total_filled, total_cost, b) :=
              output_trades r base quote out st.1 trades ∅ 0 0 b in
            apply_batch batch ;;;
            let* remaining_qty := sub (rq_quantity r) total_filled in
            let avg_price := if 0 <? total_filled then total_cost / total_filled else 0 in
            let status := if total_filled =? 0 then 1 else if remaining_qty =? 0 then 3 else 2 in
            let b := set_order_update (mkOutUpdate (rq_order_id r) (rq_user_id r) status total_filled
                       remaining_qty avg_price (rq_timestamp r)) b in
            let b := if status =? 3 then
                       add_order_completion (mkCompletion (rq_order_id r) CompletedFilled (rq_timestamp r)) b
                     else b in
            let* output := finish_output b in
            ret (rq_order_id r, output)
      end
  end.
End process.

(** ** The engine *)

(** The input log ([src/src/order_wal.rs]): flatbuffer frames whose schema is
    generated at build time, so the log is an interface. *)
Class OrderLog (W : Type) := {
  log_place_order_no_flush : Z -> Z -> Z -> Side -> Z -> Z -> M W string unit;
  log_cancel_order : Z -> M W string unit;
  log_flush : M W string unit;
  log_current_seq : W -> Z
}.

Record MatchingEngine (W : Type) := mkEngine {
  core : Core;
  asset_map : gmap Z (Z * Z);
  order_wal : option W;
  state_hash : Z
}.
Arguments mkEngine {W}.
Arguments core {W}.
Arguments asset_map {W}.
Arguments order_wal {W}.
Arguments state_hash {W}.

Record EngineSnapshot := mkEngineSnapshot {
  snap_order_books : list (option OrderBook);
  snap_order_wal_seq : Z;
  snap_output_seq : Z;
  snap_last_output_hash : Z
}.

Section engine.
Context {bp : BuildProfile} `{OrderLog W} `{Digests}.
Context (xxh3_64_with_seed : list Z -> Z -> Z).

Abbreviation Eng A := (M (MatchingEngine W) OrderError A).

Definition engine_of_core {A} (m : M (NullLedger * Core) OrderError A) : Eng A :=
  zoom (fun e => Some (null_ledger, core e))
       (fun st e => mkEngine st.2 (asset_map e) (order_wal e) (state_hash e)) m.

Definition update_hash (data : list Z) : Eng unit :=
  modify (fun e => mkEngine (core e) (asset_map e) (order_wal e) (xxh3_64_with_seed data (state_hash e))).

(** [if let Some(wal) = &mut self.order_wal { .. .map_err(Other)? }] *)
Definition with_wal (m : M W string unit) : Eng unit :=
  let* e := get in
  match order_wal e with
  | None => ret tt
  | Some _ =>
      zoom order_wal (fun w e => mkEngine (core e) (asset_map e) (Some w) (state_hash e)) (map_err Other m)
  end.

Definition engine_books (e : MatchingEngine W) : list (option OrderBook) := order_books (core e).

Definition set_books (books : list (option OrderBook)) (e : MatchingEngine W) : MatchingEngine W :=
  mkEngine (mkCore books (trade_id_gen (core e)) (output_seq (core e)) (last_output_hash (core e)))
    (asset_map e) (order_wal e) (state_hash e).

(** [resize_with(symbol_id + 1, || None)] *)
Definition resize_books (n : nat) (books : list (option OrderBook)) : list (option OrderBook) :=
  books ++ replicate (n - length books) None.

Definition register_symbol (symbol_id base_asset_id quote_asset_id : Z) : M (MatchingEngine W) string unit :=
  let* e := get in
  let i := Z.to_nat symbol_id in
  let* books :=
    (if Nat.leb (length (engine_books e)) i then ret (resize_books (S i) (engine_books e))
     else
       match engine_books e !! i with
       | Some (Some _) => throw ("Symbol ID " +:+ pretty symbol_id +:+ " is already in use")
       | _ => ret (engine_books e)
       end) in
  modify (fun e =>
    let e := set_books (<[i := Some (book_new symbol_id)]> books) e in
    mkEngine (core e) (<[symbol_id := (base_asset_id, quote_asset_id)]> (asset_map e))
      (order_wal e) (state_hash e)).

Definition add_order_hash_data (r : OrderRequest) : list Z :=
  le_bytes 8 (rq_order_id r) ++ le_bytes 4 (rq_symbol_id r) ++ [side_as_u8 (rq_side r)] ++
  le_bytes 8 (rq_price r) ++ le_bytes 8 (rq_quantity r) ++ le_bytes 8 (rq_user_id r).

Definition wal_place (r : OrderRequest) : Eng unit :=
  with_wal (log_place_order_no_flush (rq_order_id r) (rq_user_id r) (rq_symbol_id r) (rq_side r)
              (rq_price r) (rq_quantity r)).

Definition engine_add_order (r : OrderRequest) : Eng Z :=
  let* e := get in
  let* '(base, quote) := ok_or (asset_map e !! rq_symbol_id r) (InvalidSymbol (rq_symbol_id r)) in
  (match engine_books e !! Z.to_nat (rq_symbol_id r) with
   | Some (Some b) =>
       if has_order (rq_order_id r) b then throw (DuplicateOrderId (rq_order_id r)) else ret tt
   | _ => ret tt
   end) ;;;
  let* _ := engine_of_core (lock_of base quote r) in
  wal_place r ;;;
  let* oid := engine_of_core (process_order_logic (asset_map e) r) in
  update_hash (add_order_hash_data r) ;;;
  with_wal log_flush ;;;
  ret oid.

Definition add_order_and_build_output (in_seq : Z) (r : OrderRequest) (client_order_id : string)
  : Eng (Z * EngineOutput) :=
  let* e := get in
  if bool_decide (is_Some (asset_map e !! rq_symbol_id r)) then
    wal_place r ;;;
    let* result := engine_of_core (process_order_with_output (asset_map e) in_seq r client_order_id) in
    with_wal log_flush ;;;
    ret result
  else throw (InvalidSymbol (rq_symbol_id r)).

Definition process_order_atomic (r : OrderRequest) : Eng Z :=
  let* e := get in
  let* _ := engine_of_core (process_order_logic (asset_map e) r) in
  ret (rq_order_id r).

(** The batch keeps going after an error and reports one result per order. *)
Fixpoint add_order_batch (rs : list OrderRequest) : M (MatchingEngine W) Empty_set (list (OrderError + Z)) :=
  match rs with
  | [] => ret []
  | r :: rs' =>
      fun e =>
        match process_order_atomic r e with
        | Ok oid e' => bind (add_order_batch rs') (fun results => ret (inr oid :: results)) e'
        | Err err e' => bind (add_order_batch rs') (fun results => ret (inl err :: results)) e'
        | Panic => Panic
        end
  end.

(** The search over all the books, by index. *)
Definition find_order_symbol (order_id : Z) (e : MatchingEngine W) : option Z :=
  Z.of_nat <$> position (fun ob => match ob with Some b => has_order order_id b | None => false end)
                 (engine_books e).

Definition cancelled_update (sym : Z) (o : Order) : LedgerCommand :=
  LedgerCommand.OrderUpdate (OrderUpdate.mk (order_id o) None (user_id o) sym
    (side_as_u8 (side o)) (order_type_as_u8 (order_type o)) OrderStatus.Cancelled
    (price o) (quantity o) 0 None None (timestamp o) None).

(** Asset and amount a cancelled order gives back. *)
Definition unlock_of (base quote : Z) (o : Order) : Eng (Z * Z) :=
  match side o with
  | Buy => let* amount := unwrap (op_mul (price o) (quantity o)) in ret (quote, amount)
  | Sell => ret (base, quantity o)
  end.

Definition process_cancel (symbol_id order_id : Z) : Eng (list LedgerCommand) :=
  let* e := get in
  match engine_books e !! Z.to_nat symbol_id with
  | Some (Some _) =>
      let* o := zoom (fun e => match engine_books e !! Z.to_nat symbol_id with Some ob => ob | None => None end)
                     (fun b e => set_books (<[Z.to_nat symbol_id := Some b]> (engine_books e)) e)
                     (remove_order order_id) in
      let* '(base, quote) := ok_or (asset_map e !! symbol_id) (AssetMapNotFound symbol_id) in
      let* '(unlock_asset, unlock_amount) := unlock_of base quote o in
      let* balance_after := unwrap (op_add (ledger_balance null_ledger (user_id o) unlock_asset) unlock_amount) in
      let* version := unwrap (op_add (ledger_version null_ledger (user_id o) unlock_asset) 1) in
      ret [LedgerCommand.Unlock (user_id o) unlock_asset unlock_amount balance_after version;
           cancelled_update symbol_id o]
  | _ => throw (InvalidSymbol symbol_id)
  end.

Definition cancel_order (symbol_id order_id : Z) : Eng (list LedgerCommand) :=
  let* e := get in
  let* actual :=
    (if symbol_id =? 0 then ok_or (find_order_symbol order_id e) (OrderNotFound order_id)
     else ret symbol_id) in
  with_wal (log_cancel_order order_id) ;;;
  let* commands := process_cancel actual order_id in
  update_hash (le_bytes 4 actual ++ le_bytes 8 order_id ++ [255]) ;;;
  ret commands.

(** [trigger_cow_snapshot]: what the child process writes. *)
Definition engine_snapshot (e : MatchingEngine W) : EngineSnapshot :=
  mkEngineSnapshot (engine_books e)
    (match order_wal e with Some w => log_current_seq w | None => 0 end)
    (output_seq (core e)) (last_output_hash (core e)).

(** [MatchingEngine::new] once the snapshot, if any, and the log are open;
    [replay_wal] does nothing. *)
Definition engine_new (snap : option EngineSnapshot) (w : option W) : MatchingEngine W :=
  match snap with
  | Some s =>
      mkEngine (mkCore (snap_order_books s) half_new (snap_output_seq s) (snap_last_output_hash s)) ∅ w 0
  | None => mkEngine (mkCore [] half_new 0 0) ∅ w 0
  end.
End engine.
