(* ===== verification/EngineProofs.v ===== *)
(** * Theorems about the matching engine

    The output bundles form a verifiable chain; an accepted order is matched
    by the reference matcher and its bundle reports exactly that; the balance
    deltas of a bundle conserve every asset; cancellation; and what a restart
    from a snapshot loses. *)

From stdpp Require Import pretty.
From S2P Require Import Prelude Bytes Ledger EngineOutput FastUlid BTree OrderModels OrderBook MatchingEngine.

#[local] Open Scope string_scope.
#[local] Open Scope list_scope.
#[local] Open Scope Z_scope.
#[local] Open Scope rust_scope.

#[local] Arguments decide : simpl never.

(** ** Frames: what the pieces do not touch *)

Section frames.
Context {bp : BuildProfile} `{Ledger.Ledger T} `{Digests}.

Abbreviation Proc A := (M (T * Core) OrderError A).

(** [m] leaves the chain header (sequence number and last hash) alone. *)
Definition header (c : Core) : Z * Z := (output_seq c, last_output_hash c).

Definition keeps_header {A} (m : Proc A) : Prop :=
  forall st st', state_of (m st) = Some st' -> header st'.2 = header st.2.

Lemma keeps_bind {A B} (m : Proc A) (k : A -> Proc B) :
  keeps_header m -> (forall x, keeps_header (k x)) -> keeps_header (bind m k).
Proof.
  intros Hm Hk st st'. unfold bind. specialize (Hm st). destruct (m st) as [x s|e s|]; simpl in *; [|naive_solver..].
  intros Hs. rewrite <- (Hm s eq_refl). by apply (Hk x).
Qed.

Lemma keeps_ret {A} (x : A) : keeps_header (ret x).
Proof. by intros st st' [= <-]. Qed.

Lemma keeps_unwrap {A} (o : option A) : keeps_header (unwrap o).
Proof. destruct o; [apply keeps_ret|done]. Qed.

Lemma keeps_get : keeps_header get.
Proof. by intros st st' [= <-]. Qed.

Lemma keeps_try_apply cmd : keeps_header (try_apply cmd).
Proof. intros [l c] st'. unfold try_apply. simpl. destruct (ledger_apply cmd l); naive_solver. Qed.

Lemma keeps_tell cmd : keeps_header (tell cmd).
Proof.
  intros [l c] st'. unfold tell, zoom, map_err. simpl. destruct (ledger_apply cmd l); simpl; naive_solver.
Qed.

Lemma keeps_run_book sym m : keeps_header (map_err Other (on_core (run_book sym m))).
Proof.
  intros [l c] st'. unfold on_core, run_book, zoom, map_err. simpl.
  destruct (order_books c !! Z.to_nat sym) as [[b|]|]; [|done..].
  destruct (m (b, trade_id_gen c)) as [x [b' g]|e [b' g]|]; simpl; [intros [= <-]..|]; done.
Qed.

Lemma keeps_apply_batch batch : keeps_header (apply_batch batch).
Proof. destruct batch; [apply keeps_ret|apply keeps_tell]. Qed.
End frames.

Create HintDb header.
#[export] Hint Resolve keeps_ret keeps_unwrap keeps_get keeps_try_apply keeps_tell keeps_run_book
  keeps_apply_batch : header.

(** Decomposes a [keeps_header] goal along the monad. *)
Ltac header :=
  repeat (cbv beta iota zeta;
    first
      [ solve [eauto with header]
      | match goal with
        | |- keeps_header (bind _ _) => apply keeps_bind; [|intros ?]
        | |- keeps_header (match ?x with _ => _ end) => destruct x
        | |- keeps_header (add _ _) => apply keeps_unwrap
        | |- keeps_header (sub _ _) => apply keeps_unwrap
        | |- keeps_header (mul _ _) => apply keeps_unwrap
        | |- keeps_header (neg_i64 _) => apply keeps_unwrap
        | |- keeps_header (add_i64 _ _) => apply keeps_unwrap
        end ]).

Section chain.
Context {bp : BuildProfile} `{Ledger.Ledger T} `{Digests}.

Lemma keeps_lock_of base quote r : keeps_header (T := T) (lock_of base quote r).
Proof. unfold lock_of. header. Qed.

Lemma keeps_refund r t : keeps_header (T := T) (buyer_refund_of r t).
Proof. unfold buyer_refund_of. header. Qed.

Lemma keeps_version l u a i m : keeps_header (T := T) (get_and_add_version l u a i m).
Proof. unfold get_and_add_version. header. Qed.

Lemma keeps_output_trade r base quote out l t v b :
  keeps_header (T := T) (output_trade r base quote out l t v b).
Proof.
  pose proof keeps_version. pose proof keeps_refund. unfold output_trade. header.
Qed.

Lemma keeps_output_trades r base quote out l ts v f c b :
  keeps_header (T := T) (output_trades r base quote out l ts v f c b).
Proof.
  revert v f c b. induction ts as [|t ts IH]; intros v f c b; cbn [output_trades]; [header|].
  pose proof (keeps_output_trade r base quote out l t). header.
Qed.
End chain.

Section chain_output.
Context {bp : BuildProfile} `{Ledger.Ledger T} `{Digests}.

Lemma keeps_outcome {A} (m : M (T * Core) OrderError A) st (Q : A -> T * Core -> Prop)
    (X : OrderError -> T * Core -> Prop) :
  keeps_header m -> (forall a s, header s.2 = header st.2 -> Q a s) ->
  (forall e s, header s.2 = header st.2 -> X e s) -> outcome (m st) Q X.
Proof.
  intros Hm HQ HX. specialize (Hm st). destruct (m st) as [a s|e s|]; simpl in *; [| |done]; auto.
Qed.

(** Two builders of the same bundle. *)
Definition same_bundle (b b' : EngineOutputBuilder) : Prop :=
  b_seq b' = b_seq b /\ b_prev_hash b' = b_prev_hash b.

Lemma output_trade_bundle r base quote out l t v b st :
  outcome (output_trade r base quote out l t v b st)
    (fun (x : MatchExecData * gmap (Z * Z) Z * EngineOutputBuilder) _ => same_bundle b x.2) (fun _ _ => True).
Proof.
  unfold output_trade. repeat (cbv beta iota zeta;
    match goal with
    | |- outcome (bind _ _ _) _ _ => apply outcome_bind
    | |- outcome (get_and_add_version ?l ?u ?a ?i ?m ?s) _ _ =>
        destruct (get_and_add_version l u a i m s) as [[? ?]|? ?|]; simpl; [|done..]
    | |- outcome (buyer_refund_of ?r ?t ?s) _ _ =>
        destruct (buyer_refund_of r t s) as [?|? ?|]; simpl; [|done..]
    | |- outcome (mul _ _ _) _ _ => apply outcome_unwrap; intros ? _
    | |- outcome (add _ _ _) _ _ => apply outcome_unwrap; intros ? _
    | |- outcome (neg_i64 _ _) _ _ => apply outcome_unwrap; intros ? _
    | |- outcome (add_i64 _ _ _) _ _ => apply outcome_unwrap; intros ? _
    | |- outcome ((if ?x then _ else _) _) _ _ => destruct x
    | |- outcome (ret _ _) _ _ => simpl
    end); done.
Qed.

Lemma output_trades_bundle r base quote out l ts v f c b st :
  outcome (output_trades r base quote out l ts v f c b st)
    (fun (x : list MatchExecData * Z * Z * EngineOutputBuilder) _ => same_bundle b x.2) (fun _ _ => True).
Proof.
  revert v f c b st. induction ts as [|t ts IH]; intros v f c b st; cbn [output_trades]; [done|].
  do 3 (apply outcome_bind, outcome_unwrap; intros ? _).
  apply outcome_bind. eapply outcome_mono; [apply output_trade_bundle| |done].
  intros [[d v'] b'] s' Hb. apply outcome_bind.
  eapply outcome_mono; [apply IH| |done]. intros [[[ds f'] c'] b''] s'' Hb'. simpl in *.
  unfold same_bundle in *. destruct Hb, Hb'. split; congruence.
Qed.

Lemma finish_output_outcome b st :
  outcome (finish_output b st)
    (fun o (s : T * Core) => verify o = true /\ out_seq o = b_seq b /\ prev_hash o = b_prev_hash b /\
                header s.2 = (output_seq st.2, hash o))
    (fun _ _ => False).
Proof.
  unfold finish_output. apply outcome_bind, outcome_unwrap. intros o Ho.
  apply build_verifies in Ho as (? & ? & ? & _). by split_and!.
Qed.

(** What every exit of [process_order_with_output] does to the chain header
    [(n, h)] of the engine: the sequence number advances; the hash becomes that
    of the bundle when there is one, and stays when there is none. *)
Definition linked (n h : Z) (r : res (T * Core) OrderError (Z * EngineOutput)) : Prop :=
  outcome r
    (fun x (s : T * Core) => verify x.2 = true /\ out_seq x.2 = n /\ prev_hash x.2 = h /\
                header s.2 = (n, hash x.2))
    (fun _ (s : T * Core) => header s.2 = (n, h)).

Lemma reject_output_linked r cid reason b st :
  header st.2 = (b_seq b, b_prev_hash b) ->
  linked (b_seq b) (b_prev_hash b) (reject_output r cid reason b st).
Proof.
  intros Hst. unfold reject_output, linked. apply outcome_bind.
  apply keeps_outcome; [apply keeps_try_apply| |by intros e s ->].
  intros a s Hs. rewrite Hst in Hs. apply outcome_bind.
  eapply outcome_mono; [apply finish_output_outcome| |done].
  intros o s' (Hv & Hn & Hp & Hh). simpl in *. injection Hs as Hs1 Hs2. rewrite Hs1 in Hh. by split_and!.
Qed.

Lemma bump_output_seq_eq st n :
  op_add (output_seq st.2) 1 = Some n ->
  bump_output_seq (T := T) st = Ok n (st.1, set_output_seq n st.2).
Proof. intros Hn. unfold bump_output_seq, bind, get, add. by rewrite Hn. Qed.

(** Runs the next step of a goal [outcome (bind m k st) Q X] that keeps the
    header. *)
Ltac keep_step lem :=
  apply outcome_bind; apply keeps_outcome;
    [solve [apply lem; auto with header | eauto with header]|intros ? ? ?|by intros ? ? ->].

(** The part of [process_order_with_output] after the bundle is opened. *)
Lemma process_order_with_output_linked am in_seq r cid st n :
  op_add (output_seq st.2) 1 = Some n ->
  linked n (last_output_hash st.2) (process_order_with_output am in_seq r cid st).
Proof.
  intros Hn. unfold process_order_with_output, linked. apply outcome_bind.
  rewrite (bump_output_seq_eq st n Hn). cbn [outcome]. apply outcome_bind. unfold get at 1.
  cbn [outcome snd fst]. set (st1 := (st.1, set_output_seq n st.2)).
  assert (header st1.2 = (n, last_output_hash st.2)) as Hst1 by done.
  change (last_output_hash (set_output_seq n st.2)) with (last_output_hash st.2).
  set (b := set_input _ _). assert (b_seq b = n /\ b_prev_hash b = last_output_hash st.2) as [Hbn Hbh] by done.
  rewrite <- Hbn, <- Hbh in *. clearbody b st1.
  destruct (am !! rq_symbol_id r) as [[base quote]|]; [|by apply reject_output_linked].
  apply outcome_bind, keeps_outcome; [apply keeps_lock_of| |by intros ? ? ->].
  intros [la lm] s1 H1. rewrite Hst1 in H1.
  apply outcome_bind. unfold get at 1. cbn [outcome].
  apply outcome_bind, outcome_unwrap. intros new_ver _.
  apply outcome_bind, keeps_outcome; [apply keeps_try_apply| |by intros ? ? ->].
  intros [e|] s2 H2; rewrite H1 in H2; [by apply reject_output_linked|].
  apply outcome_bind, outcome_unwrap. intros da _.
  apply outcome_bind, outcome_unwrap. intros fa _. cbv zeta.
  set (b1 := add_balance_event _ b). assert (same_bundle b b1) as Hb1 by done.
  apply outcome_bind, keeps_outcome; [apply keeps_tell| |by intros ? ? ->].
  intros _ s3 H3. rewrite H2 in H3. apply outcome_bind. unfold get at 1. cbn [outcome].
  destruct (negb _); [by apply (reject_output_linked r cid _ b1)|].
  apply outcome_bind, keeps_outcome; [apply keeps_run_book| |by intros ? ? ->].
  intros trades s4 H4. rewrite H3 in H4. cbv zeta.
  set (b2 := add_order_placement _ b1). assert (same_bundle b b2) as Hb2 by done.
  apply outcome_bind. unfold get at 1. cbn [outcome].
  apply outcome_bind.
  pose proof (keeps_output_trades (T := T) r base quote (b_seq b) s4.1 trades ∅ 0 0 b2 s4) as Hkeep.
  pose proof (output_trades_bundle r base quote (b_seq b) s4.1 trades ∅ 0 0 b2 s4) as Hbundle.
  destruct (output_trades _ _ _ _ _ _ _ _ _ _ s4) as [[[[batch tf] tc] b3] s5|e s5|]; simpl;
    [|by rewrite (Hkeep s5 eq_refl)|done].
  specialize (Hkeep s5 eq_refl). rewrite H4 in Hkeep. simpl in Hbundle.
  apply outcome_bind, keeps_outcome; [apply keeps_apply_batch| |by intros ? ? ->].
  intros _ s6 H6. rewrite Hkeep in H6.
  apply outcome_bind, outcome_unwrap. intros rem _. cbv zeta.
  set (b4 := if _ =? 3 then _ else _).
  assert (same_bundle b b4) as Hb4.
  { unfold b4, same_bundle in *. destruct Hb2 as [<- <-], Hbundle as [<- <-]. by destruct (_ =? 3). }
  clearbody b4. apply outcome_bind. eapply outcome_mono; [apply finish_output_outcome| |done].
  intros o s7 (Hv & Ho & Hp & Hh). destruct Hb4 as [Hb4 Hb4'].
  injection H6 as H6 H6'. simpl. rewrite H6 in Hh. split_and!; congruence.
Qed.
End chain_output.

(** ** The chain of bundles *)

Section engine_chain.
Context {bp : BuildProfile} `{OrderLog W} `{Digests}.
Implicit Types e : MatchingEngine W.

Lemma with_wal_core (m : M W string unit) e :
  outcome (with_wal m e)
    (fun _ e' => core e' = core e /\ asset_map e' = asset_map e)
    (fun _ e' => core e' = core e /\ asset_map e' = asset_map e).
Proof.
  unfold with_wal, bind, get, zoom, map_err. destruct (order_wal e) as [w|] eqn:Hw; [|done].
  rewrite Hw. by destruct (m w).
Qed.

(** The exits of the engine's entry point, on the chain header. *)
Lemma add_order_and_build_output_linked in_seq r cid e n :
  op_add (output_seq (core e)) 1 = Some n ->
  outcome (add_order_and_build_output in_seq r cid e)
    (fun x e' => verify x.2 = true /\ out_seq x.2 = n /\ prev_hash x.2 = last_output_hash (core e) /\
                 header (core e') = (n, hash x.2) /\ asset_map e' = asset_map e)
    (fun _ e' => (header (core e') = header (core e) \/ header (core e') = (n, last_output_hash (core e)) \/
                  exists h, header (core e') = (n, h)) /\ asset_map e' = asset_map e).
Proof.
  intros Hn. unfold add_order_and_build_output. apply outcome_bind. unfold get at 1. cbn [outcome].
  case_bool_decide; [|by split; [left|]].
  apply outcome_bind. eapply outcome_mono; [apply with_wal_core| |].
  2:{ intros _ e1 [Hc1 Ha1]. simpl. rewrite Hc1, Ha1. by split; [left|]. }
  intros _ e1 [Hc Ham]. apply outcome_bind. unfold engine_of_core, zoom.
  pose proof (process_order_with_output_linked (T := NullLedger) (asset_map e) in_seq r cid
    (null_ledger, core e1) n) as Hl. cbn [snd] in Hl. rewrite Hc in Hl. specialize (Hl Hn).
  rewrite Hc. unfold linked in Hl.
  destruct (process_order_with_output _ _ _ _ _) as [x s|err s|]; simpl in *; [| |done].
  - destruct Hl as (Hv & Hs & Hp & Hh). apply outcome_bind.
    eapply outcome_mono; [apply with_wal_core| |].
    + intros _ e2 [Hc2 Ha2]. simpl in *. rewrite Hc2, Ha2. by split_and!.
    + intros _ e2 [Hc2 Ha2]. simpl in *. rewrite Hc2, Ha2. split; [|done]. right; right. eauto.
  - split; [|done]. right; left. done.
Qed.

(** Feeding inputs to the engine and keeping the bundles. *)
Fixpoint collect (inputs : list (Z * OrderRequest * string))
  : M (MatchingEngine W) OrderError (list EngineOutput) :=
  match inputs with
  | [] => ret []
  | (seq, r, cid) :: inputs' =>
      let* x := add_order_and_build_output seq r cid in
      let* outs := collect inputs' in
      ret (x.2 :: outs)
  end.

(** Bundles that follow a bundle with sequence number [n] and hash [h]. *)
Fixpoint chained (n h : Z) (outs : list EngineOutput) : Prop :=
  match outs with
  | [] => True
  | o :: outs' =>
      verify o = true /\ out_seq o = n + 1 /\ prev_hash o = h /\ chained (out_seq o) (hash o) outs'
  end.

(** The same with numbers left out. *)
Fixpoint linked_from (n h : Z) (outs : list EngineOutput) : Prop :=
  match outs with
  | [] => True
  | o :: outs' =>
      verify o = true /\ n < out_seq o /\ prev_hash o = h /\ linked_from (out_seq o) (hash o) outs'
  end.

Lemma chained_linked n h outs : chained n h outs -> linked_from n h outs.
Proof.
  revert n h. induction outs as [|o outs IH]; intros n h; [done|].
  intros (Hv & Hs & Hp & Hch). split_and!; [done|lia|done|by apply IH].
Qed.

Lemma linked_from_weaken n n' h outs : n <= n' -> linked_from n' h outs -> linked_from n h outs.
Proof. intros Hn. destruct outs as [|o outs]; [done|]. intros (? & ? & ? & ?). split_and!; (done || lia). Qed.

Lemma collect_chained inputs e :
  0 <= output_seq (core e) -> output_seq (core e) + Z.of_nat (length inputs) <= u64_max ->
  outcome (collect inputs e)
    (fun outs _ => length outs = length inputs /\
       chained (output_seq (core e)) (last_output_hash (core e)) outs)
    (fun _ _ => True).
Proof.
  revert e. induction inputs as [|[[seq r] cid] inputs IH]; intros e Hz Hmax; [done|].
  cbn [collect length] in *.
  assert (op_add (output_seq (core e)) 1 = Some (output_seq (core e) + 1)) as Hn
    by (apply u64_op_exact; ulia).
  apply outcome_bind.
  eapply outcome_mono; [apply (add_order_and_build_output_linked seq r cid e _ Hn)| |done].
  intros x e1 (Hv & Hs & Hp & Hh & _). apply outcome_bind. injection Hh as Hh1 Hh2.
  eapply outcome_mono; [apply IH; lia| |done]. intros outs e2 [Hlen Hch]. simpl.
  rewrite Hh1, Hh2, <- Hs in Hch. split_and!; [by rewrite Hlen|done..].
Qed.

Lemma chained_links n h outs i o1 o2 :
  0 <= n -> n + Z.of_nat (length outs) <= u64_max ->
  chained n h outs -> outs !! i = Some o1 -> outs !! S i = Some o2 ->
  verify_chain o2 o1 = Some true.
Proof.
  revert n h i. induction outs as [|o outs IH]; intros n h i Hz Hmax Hch H1 H2; [done|].
  destruct Hch as (_ & Hs & _ & Hch). cbn [length] in Hmax. destruct i as [|i].
  - injection H1 as ->. destruct outs as [|o' outs]; [done|]. injection H2 as ->.
    destruct Hch as (_ & Hs2 & Hp2 & _). cbn [length] in Hmax. unfold verify_chain, op_add. rewrite u64_op_exact by ulia.
    simpl. rewrite Hs2, Hp2. by rewrite !Z.eqb_refl.
  - apply (IH (out_seq o) (hash o) i); (done || lia).
Qed.

Lemma chained_verify n h outs : chained n h outs -> Forall (fun o => verify o = true) outs.
Proof.
  revert n h. induction outs as [|o outs IH]; intros n h; [intros; by apply Forall_nil|].
  intros (Hv & _ & _ & Hch). apply Forall_cons. split; [done|by eapply IH].
Qed.

(** C11: the bundles of the engine form a hash chain.  Whatever orders are
    fed to it, as long as each is answered with a bundle (rejections are), the
    first bundle links to the engine's last hash, every bundle passes its own
    integrity check and every two consecutive bundles pass [verify_chain]. *)
Theorem outputs_form_chain inputs e outs e' :
  0 <= output_seq (core e) -> output_seq (core e) + Z.of_nat (length inputs) <= u64_max ->
  collect inputs e = Ok outs e' ->
  Forall (fun o => verify o = true) outs /\
  (forall o, head outs = Some o -> verify_prev_hash o (last_output_hash (core e)) = true) /\
  (forall i o1 o2, outs !! i = Some o1 -> outs !! S i = Some o2 -> verify_chain o2 o1 = Some true).
Proof.
  intros Hz Hmax Hok. pose proof (collect_chained inputs e Hz Hmax) as Hc. rewrite Hok in Hc.
  destruct Hc as [Hlen Hch]. split_and!.
  - by eapply chained_verify.
  - intros o Ho. destruct outs as [|o' outs]; [done|]. injection Ho as ->.
    destruct Hch as (_ & _ & Hp & _). unfold verify_prev_hash. rewrite Hp. apply Z.eqb_refl.
  - intros i o1 o2. apply (chained_links (output_seq (core e)) (last_output_hash (core e)) outs); [done|lia|done].
Qed.
End engine_chain.

Section gap.
Context {bp : BuildProfile} `{OrderLog W} `{Digests}.
Implicit Types e : MatchingEngine W.

Lemma no_wal (m : M W string unit) e : order_wal e = None -> with_wal m e = Ok tt e.
Proof. intros Hw. unfold with_wal, bind, get. by rewrite Hw. Qed.

Lemma error_advances in_seq r cid e n err e1 :
  op_add (output_seq (core e)) 1 = Some n -> order_wal e = None ->
  is_Some (asset_map e !! rq_symbol_id r) ->
  add_order_and_build_output in_seq r cid e = Err err e1 ->
  header (core e1) = (n, last_output_hash (core e)) /\ order_wal e1 = None.
Proof.
  intros Hn Hw Ham. unfold add_order_and_build_output, wal_place. unfold bind at 1, get at 1.
  rewrite bool_decide_true by done. unfold bind at 1. rewrite (no_wal _ _ Hw).
  unfold bind at 1. unfold engine_of_core, zoom.
  pose proof (process_order_with_output_linked (T := NullLedger) (asset_map e) in_seq r cid
    (null_ledger, core e) n Hn) as Hl. unfold linked in Hl.
  destruct (process_order_with_output _ _ _ _ _) as [x s|er s|]; simpl in *; [|by intros [= <- <-]|done].
  unfold bind. by rewrite no_wal by done.
Qed.

(** An order refused after it was accepted for processing leaves a hole
    in the chain.  The sequence number of the bundle is taken before the book
    is asked; when the book refuses the order (a duplicate identifier) no
    bundle is produced, the next bundle skips a number, and [verify_chain]
    against the last published bundle fails. *)
Theorem refused_order_breaks_chain o1 e s1 r1 cid1 err e1 s2 r2 cid2 x e2 :
  0 <= out_seq o1 -> out_seq o1 + 2 <= u64_max ->
  output_seq (core e) = out_seq o1 -> last_output_hash (core e) = hash o1 -> order_wal e = None ->
  is_Some (asset_map e !! rq_symbol_id r1) ->
  add_order_and_build_output s1 r1 cid1 e = Err err e1 ->
  add_order_and_build_output s2 r2 cid2 e1 = Ok x e2 ->
  verify_chain x.2 o1 = Some false /\ prev_hash x.2 = hash o1.
Proof.
  intros Hz Hmax Hseq Hhash Hw Ham Herr Hok.
  assert (op_add (output_seq (core e)) 1 = Some (out_seq o1 + 1)) as Hn
    by (rewrite Hseq; apply u64_op_exact; ulia).
  destruct (error_advances _ _ _ _ _ _ _ Hn Hw Ham Herr) as [Hh _]. injection Hh as Hh1 Hh2.
  pose proof (add_order_and_build_output_linked s2 r2 cid2 e1 (out_seq o1 + 2)) as Hl.
  rewrite Hh1 in Hl. specialize (Hl ltac:(unfold op_add; rewrite u64_op_exact by ulia; f_equal; lia)).
  rewrite Hok in Hl. destruct Hl as (_ & Hs & Hp & _). rewrite Hh2, Hhash in Hp. split; [|done].
  unfold verify_chain, op_add. rewrite u64_op_exact by ulia. simpl. rewrite Hs.
  destruct (Z.eqb_spec (out_seq o1 + 2) (out_seq o1 + 1)); [lia|done].
Qed.
End gap.

(** ** An accepted order, with the null ledger *)

Section accepted.
Context {bp : BuildProfile} `{Digests}.

Abbreviation Proc A := (M (NullLedger * Core) OrderError A).

Definition i64_max : Z := 9223372036854775807.

Lemma add_ok x y (st : NullLedger * Core) : 0 <= x + y <= u64_max -> add x y st = Ok (x + y) st.
Proof. intros Hxy. unfold add, op_add. by rewrite u64_op_exact. Qed.

Lemma sub_ok x y (st : NullLedger * Core) : 0 <= x - y <= u64_max -> sub x y st = Ok (x - y) st.
Proof. intros Hxy. unfold sub, op_sub. by rewrite u64_op_exact. Qed.

Lemma mul_ok x y (st : NullLedger * Core) : 0 <= x * y <= u64_max -> mul x y st = Ok (x * y) st.
Proof. intros Hxy. unfold mul, op_mul. by rewrite u64_op_exact. Qed.

Lemma neg_ok x (st : NullLedger * Core) : 0 <= x <= i64_max -> neg_i64 x st = Ok (- x) st.
Proof. intros Hx. unfold neg_i64. rewrite i64_op_exact; [done|unfold i64_max in *; lia]. Qed.

Lemma add_i64_ok x y (st : NullLedger * Core) :
  0 <= x -> 0 <= y -> x + y <= i64_max -> add_i64 x y st = Ok (x + y) st.
Proof. intros. unfold add_i64. rewrite i64_op_exact; [done|unfold i64_max in *; lia]. Qed.

(** The refund of a buying taker that trades below its limit. *)
Definition refund (r : OrderRequest) (t : Trade) : Z :=
  if bool_decide (rq_side r = Buy) && (buy_user_id t =? rq_user_id r) && (trade_price t <? rq_price r)
  then (rq_price r - trade_price t) * trade_quantity t else 0.

(** A trade whose amounts fit the signed 64-bit deltas. *)
Definition trade_fits (r : OrderRequest) (t : Trade) : Prop :=
  0 <= trade_price t /\ 0 < trade_quantity t <= i64_max /\ 0 <= refund r t /\
  trade_price t * trade_quantity t + refund r t <= i64_max.

Lemma buyer_refund_ok r t st :
  trade_fits r t -> rq_price r <= u64_max -> buyer_refund_of (T := NullLedger) r t st = Ok (refund r t) st.
Proof.
  intros (Hp & Hq & Hr & Hfit) Hmax. unfold buyer_refund_of, refund in *.
  destruct (bool_decide (rq_side r = Buy)), (buy_user_id t =? rq_user_id r); simpl in *; try done.
  destruct (Z.ltb_spec (trade_price t) (rq_price r)); [|done].
  unfold bind. rewrite sub_ok by lia. rewrite mul_ok; [done|]. unfold i64_max in *. ulia.
Qed.

(** The temporary versions stay below a bound. *)
Definition versions_below (k : Z) (m : gmap (Z * Z) Z) : Prop :=
  map_Forall (fun _ v => 0 <= v <= k) m.

Lemma get_and_add_version_ok l u a i m st k :
  versions_below k m -> 0 <= k -> 0 <= i <= 2 -> k + 2 <= u64_max ->
  exists v m', get_and_add_version (T := NullLedger) l u a i m st = Ok (v, m') st /\
    0 <= v <= k /\ versions_below (k + 2) m'.
Proof.
  intros Hm Hk Hi Hmax. unfold get_and_add_version. simpl.
  set (v := default 0 (m !! (u, a))).
  assert (0 <= v <= k) as Hv.
  { unfold v. destruct (m !! (u, a)) as [x|] eqn:Hx; simpl; [by apply Hm in Hx|lia]. }
  exists v, (<[(u, a) := v + i]> m). unfold bind. rewrite add_ok by lia. split_and!; [done|lia..|].
  apply map_Forall_insert_2; [lia|]. intros j x Hx. apply Hm in Hx. lia.
Qed.

Definition trade_out (r : OrderRequest) (base quote : Z) (t : Trade) : TradeOutput :=
  mkTradeOutput (trade_id t) (match_seq t) (rq_symbol_id r) (buy_order_id t) (sell_order_id t)
    (buy_user_id t) (sell_user_id t) (trade_price t) (trade_quantity t) base quote (refund r t) 0 0.

(** A balance event without its version and labels: user, asset, change of
    the available and of the frozen amount. *)
Definition delta (e : BalanceEvent) : Z * Z * Z * Z :=
  (be_user_id e, be_asset_id e, be_delta_avail e, be_delta_frozen e).

Definition trade_deltas (r : OrderRequest) (base quote : Z) (t : Trade) : list (Z * Z * Z * Z) :=
  let cost := trade_price t * trade_quantity t in
  [(buy_user_id t, quote, refund r t, - (cost + refund r t));
   (buy_user_id t, base, trade_quantity t, 0);
   (sell_user_id t, base, 0, - trade_quantity t);
   (sell_user_id t, quote, cost, 0)].

(** Builders that agree on everything but trades and balance events. *)
Definition extends (b b' : EngineOutputBuilder) (ts : list TradeOutput) (ds : list (Z * Z * Z * Z)) : Prop :=
  b_trades b' = b_trades b ++ ts /\ map delta (b_events b') = map delta (b_events b) ++ ds /\
  b_input b' = b_input b /\ (exists es, b_events b' = b_events b ++ es) /\ same_bundle b b'.

Ltac version_step :=
  match goal with
  | Hm : versions_below ?k ?m |- context [get_and_add_version ?l ?u ?a ?i ?m ?st] =>
      let v := fresh "v" in let m' := fresh "m" in
      let Hv := fresh "Hv" in let Hm' := fresh "Hm" in let Heq := fresh "Heq" in
      destruct (get_and_add_version_ok l u a i m st k Hm) as (v & m' & Heq & Hv & Hm');
        [lia|first [lia|destruct (_ <? _); lia]|ulia|]; rewrite Heq; clear Heq
  end.

Lemma output_trade_ok r base quote out l t m b st k :
  trade_fits r t -> rq_price r <= u64_max -> versions_below k m -> 0 <= k -> k + 8 <= i64_max ->
  exists d m' b', output_trade (T := NullLedger) r base quote out l t m b st = Ok (d, m', b') st /\
    versions_below (k + 8) m' /\ extends b b' [trade_out r base quote t] (trade_deltas r base quote t).
Proof.
  intros Hfit Hp Hm Hk Hmax. pose proof Hfit as (Hpr & Hq & Hr & Hcost).
  unfold i64_max in *.
  assert (0 <= trade_price t * trade_quantity t) as Hc0 by nia.
  unfold output_trade. unfold bind at 1. rewrite buyer_refund_ok by done. cbv beta iota zeta.
  do 4 (unfold bind at 1; version_step; cbv beta iota zeta).
  assert (as_i64 (trade_price t * trade_quantity t) = trade_price t * trade_quantity t) as Hc
    by (apply as_i64_id; lia).
  assert (as_i64 (trade_quantity t) = trade_quantity t) as Hqq by (apply as_i64_id; lia).
  assert (as_i64 (refund r t) = refund r t) as Hrr by (apply as_i64_id; lia).
  unfold bind. rewrite mul_ok by ulia. rewrite add_ok by ulia. rewrite Hc, Hqq, Hrr.
  assert (versions_below (k + 8) m3) as Hm3'
    by (eapply map_Forall_impl; [exact Hm3|]; simpl; lia).
  destruct (Z.ltb_spec 0 (refund r t)) as [Hpos|Hz].
  - rewrite add_i64_ok by (unfold i64_max; lia). rewrite neg_ok by (unfold i64_max; lia).
    unfold ret. rewrite add_ok by ulia. rewrite add_ok by ulia.
    rewrite neg_ok by (unfold i64_max; lia). rewrite add_ok by ulia.
    do 3 eexists. split; [reflexivity|]. split; [done|]. unfold extends, same_bundle. simpl.
    rewrite <- !app_assoc, !map_app. split_and!; try done. by eexists.
  - rewrite neg_ok by (unfold i64_max; lia). unfold ret. rewrite add_ok by ulia.
    rewrite add_ok by ulia. rewrite neg_ok by (unfold i64_max; lia). rewrite add_ok by ulia.
    do 3 eexists. split; [reflexivity|]. split; [done|].
    assert (refund r t = 0) as Hr0 by lia. unfold extends, same_bundle, trade_deltas, trade_out.
    rewrite Hr0, Z.add_0_r. simpl. rewrite <- !app_assoc, !map_app.
    split_and!; try done. by eexists.
Qed.

(** The whole loop. *)
Lemma output_trades_ok r base quote out l ts m f c b st k :
  Forall (trade_fits r) ts -> rq_price r <= u64_max -> versions_below k m -> 0 <= k ->
  k + 8 * Z.of_nat (length ts) <= i64_max ->
  0 <= f -> f + traded ts <= u64_max ->
  0 <= c -> c + sum_list (map (fun t => trade_price t * trade_quantity t) ts) <= u64_max ->
  exists ds b', output_trades (T := NullLedger) r base quote out l ts m f c b st =
      Ok (ds, f + traded ts,
          c + sum_list (map (fun t => trade_price t * trade_quantity t) ts), b') st /\
    extends b b' (map (trade_out r base quote) ts) (flat_map (trade_deltas r base quote) ts).
Proof.
  intros Hts Hp. revert m f c b k.
  induction Hts as [|t ts Hfit Hts IH]; intros m f c b k Hm Hk Hmax Hf Hfm Hc Hcm.
  - exists [], b. cbn. rewrite !Z.add_0_r. split; [done|]. unfold extends, same_bundle.
    rewrite !app_nil_r. split_and!; try done. exists []. by rewrite app_nil_r.
  - pose proof Hfit as (Hpr & Hq & Hr & Hcost). unfold traded in *.
    cbn [map sum_list foldr length output_trades flat_map] in *.
    fold (sum_list (map trade_quantity ts)) in *.
    fold (sum_list (map (fun t => trade_price t * trade_quantity t) ts)) in *.
    assert (0 <= sum_list (map trade_quantity ts)).
    { apply sum_list_nonneg, Forall_fmap. eapply Forall_impl; [exact Hts|].
      intros x (_ & ? & _). simpl. lia. }
    assert (0 <= sum_list (map (fun t => trade_price t * trade_quantity t) ts)).
    { apply sum_list_nonneg, Forall_fmap. eapply Forall_impl; [exact Hts|].
      intros x (? & ? & _). simpl. nia. }
    unfold bind at 1. rewrite add_ok by lia. unfold bind at 1.
    rewrite mul_ok by (unfold i64_max in *; ulia). unfold bind at 1. rewrite add_ok by nia.
    destruct (output_trade_ok r base quote out l t m b st k Hfit Hp Hm Hk ltac:(lia))
      as (d & m' & b1 & Heq & Hm' & Hext).
    unfold bind at 1. rewrite Heq.
    destruct (IH m' (f + trade_quantity t) (c + trade_price t * trade_quantity t) b1 (k + 8))
      as (ds & b2 & Heq2 & Hext2); [done|lia|lia|lia|lia|nia|lia|].
    unfold bind. rewrite Heq2. exists (d :: ds), b2. split.
    + unfold ret. do 2 f_equal. f_equal; [|lia]. f_equal. lia.
    + destruct Hext as (K1 & K2 & K3 & (es1 & K6) & K4 & K5), Hext2 as (G1 & G2 & G3 & (es2 & G6) & G4 & G5).
      unfold extends, same_bundle. rewrite G1, G2, G3, G4, G5, K1, K2, K3, K4, K5.
      rewrite <- !app_assoc. split_and!; try done. exists (es1 ++ es2). by rewrite G6, K6, app_assoc.
Qed.

(** Price times quantity of what rests. *)
Definition notional (q : list Order) : Z := sum_list (map (fun m => price m * quantity m) q).

Lemma ref_match_notional c qty q :
  Forall (fun m => 0 < quantity m) q -> Forall (fun m => 0 <= price m) q -> 0 <= qty ->
  let '(fills, _, _) := ref_match c qty q in
  sum_list (map (fun f => price f.1 * f.2) fills) <= notional q.
Proof.
  unfold notional. intros Hq. revert qty. induction Hq as [|m q Hm Hq IH]; intros qty Hp Hqty; simpl; [lia|].
  apply Forall_cons in Hp as [Hpm Hp].
  assert (0 <= sum_list (map (fun m => price m * quantity m) q)).
  { apply sum_list_nonneg, Forall_fmap, Forall_forall. intros x Hx. rewrite Forall_forall in Hq, Hp.
    specialize (Hq x Hx). specialize (Hp x Hx). simpl in *. nia. }
  destruct (Z.ltb_spec 0 qty); simpl; [|nia]. destruct (c m); simpl; [|nia].
  destruct (Z.ltb_spec qty (quantity m)); simpl; [nia|].
  specialize (IH (qty - quantity m) Hp ltac:(lia)).
  destruct (ref_match c (qty - quantity m) q) as [[fs q1] rest]. simpl. lia.
Qed.

(** Bounds under which no amount of an order's processing leaves the signed
    64-bit range. *)
Record order_fits (r : OrderRequest) (b : OrderBook) : Prop := {
  fits_price : 0 <= rq_price r <= u64_max;
  fits_quantity : 0 <= rq_quantity r <= i64_max;
  fits_amount : rq_price r * rq_quantity r <= i64_max;
  fits_makers : Forall (fun m => 0 <= price m) (queue (opposite (rq_side r)) b);
  fits_notional : notional (queue (opposite (rq_side r)) b) <= i64_max;
  fits_count : 8 * Z.of_nat (length (queue (opposite (rq_side r)) b)) <= i64_max;
  fits_match_seq : 0 <= book_match_seq b /\
    book_match_seq b + Z.of_nat (length (queue (opposite (rq_side r)) b)) <= u64_max
}.

Lemma fill_amounts r b fills left rest :
  wf_book b -> order_fits r b ->
  ref_match (accepts (request_order r)) (rq_quantity r) (queue (opposite (rq_side r)) b) = (fills, left, rest) ->
  Forall (fun f => 0 <= price f.1 /\ 0 < f.2 <= rq_quantity r /\ price f.1 * f.2 <= i64_max /\
                   accepts (request_order r) f.1 = true) fills.
Proof.
  intros Hwf [? ? ? Hmk Hnot ? ?] Href.
  pose proof (queue_positive (opposite (rq_side r)) b Hwf) as Hpos.
  pose proof (ref_match_conserves (accepts (request_order r)) (rq_quantity r) _ Hpos) as Hc.
  pose proof (ref_match_qty_le (accepts (request_order r)) (rq_quantity r) _ Hpos) as Hl.
  pose proof (ref_match_notional (accepts (request_order r)) (rq_quantity r) _ Hpos Hmk) as Hn.
  rewrite Href in *. destruct Hc as (Hsum & _ & Hf); [lia|].
  specialize (Hl ltac:(lia)). specialize (Hn ltac:(lia)).
  assert (Hprice : Forall (fun f => 0 <= price f.1) fills).
  { clear -Href Hmk. revert Href Hmk. generalize (queue (opposite (rq_side r)) b) as q.
    generalize (rq_quantity r) as qty. intros qty q. revert qty fills left rest.
    induction q as [|m q IH]; intros qty fills left rest; cbn [ref_match].
    - intros [= <- <- <-] _. by apply Forall_nil.
    - destruct (_ && _); [|intros [= <- <- <-] _; by apply Forall_nil].
      destruct (qty <? quantity m); [intros [= <- <- <-] [Hm _]%Forall_cons; by apply Forall_singleton|].
      destruct (ref_match _ (qty - quantity m) q) as [[fs q1] rs] eqn:Hq.
      intros [= <- <- <-] [Hm Hmk]%Forall_cons. apply Forall_cons. split; [done|]. by eapply IH. }
  apply Forall_forall. intros f Hin. rewrite Forall_forall in Hf, Hprice.
  pose proof (Hf f Hin) as ([Hf0 _] & Hacc). pose proof (Hprice f Hin).
  split_and!; [done|lia| | |done].
  - assert (f.2 <= filled_quantity fills); [|lia]. apply sum_list_elem; [|by apply (list_elem_of_fmap_2 snd)].
    apply Forall_fmap, Forall_forall. intros x Hx. simpl. pose proof (Hf x Hx). lia.
  - etrans; [|exact Hnot]. etrans; [|exact Hn].
    apply sum_list_elem; [|by apply (list_elem_of_fmap_2 (fun f => price f.1 * f.2))].
    apply Forall_fmap, Forall_forall. intros x Hx. simpl.
    pose proof (Hf x Hx) as ([? _] & _). pose proof (Hprice x Hx). nia.
Qed.

Lemma fill_trade_fits r m q n id :
  0 <= rq_price r -> rq_price r * rq_quantity r <= i64_max -> rq_quantity r <= i64_max ->
  0 <= price m -> 0 < q <= rq_quantity r -> price m * q <= i64_max ->
  accepts (request_order r) m = true -> trade_fits r (mk_trade (request_order r) m q n id).
Proof.
  intros Hp Ha Hq Hpm Hqr Hc Hacc. unfold trade_fits, refund, mk_trade, accepts in *. simpl in *.
  destruct (rq_side r); simpl in *.
  - rewrite Z.eqb_refl. simpl. apply Z.leb_le in Hacc.
    destruct (Z.ltb_spec (price m) (rq_price r)); split_and!; nia.
  - split_and!; lia.
Qed.

(** ** The whole of [process_order_with_output] *)

Lemma try_apply_null cmd (st : NullLedger * Core) : try_apply cmd st = Ok None st.
Proof. by destruct st. Qed.

Lemma tell_null cmd (st : NullLedger * Core) : tell cmd st = Ok tt st.
Proof. by destruct st. Qed.

Lemma apply_batch_null batch (st : NullLedger * Core) : apply_batch batch st = Ok tt st.
Proof. destruct batch; [done|apply tell_null]. Qed.

(** Asset and amount the order locks. *)
Definition lock_asset (base quote : Z) (r : OrderRequest) : Z :=
  match rq_side r with Buy => quote | Sell => base end.
Definition lock_amount (r : OrderRequest) : Z :=
  match rq_side r with Buy => rq_price r * rq_quantity r | Sell => rq_quantity r end.

Lemma lock_of_ok base quote r (st : NullLedger * Core) b :
  order_fits r b ->
  lock_of base quote r st = Ok (lock_asset base quote r, lock_amount r) st /\
  0 <= lock_amount r <= i64_max.
Proof.
  intros [? ? ? _ _ _ _]. unfold lock_of, lock_asset, lock_amount, i64_max in *.
  destruct (rq_side r); [|done]. unfold bind. rewrite mul_ok by (ulia || nia). split; [done|nia].
Qed.

Lemma run_book_ok sym m l c b trades b' g' :
  order_books c !! Z.to_nat sym = Some (Some b) ->
  m (b, trade_id_gen c) = Ok trades (b', g') ->
  map_err Other (on_core (T := NullLedger) (run_book sym m)) (l, c) =
  Ok trades (l, mkCore (<[Z.to_nat sym := Some b']> (order_books c)) g' (output_seq c) (last_output_hash c)).
Proof. intros Hb Hm. unfold map_err, on_core, run_book, zoom. cbn [snd fst]. by rewrite Hb, Hm. Qed.

(** The update, the status and the completion of an order of which [filled]
    traded for [cost]. *)
Definition final_status (filled remaining : Z) : Z :=
  if filled =? 0 then 1 else if remaining =? 0 then 3 else 2.

Definition final_update (r : OrderRequest) (filled cost : Z) : OutOrderUpdate :=
  mkOutUpdate (rq_order_id r) (rq_user_id r) (final_status filled (rq_quantity r - filled)) filled
    (rq_quantity r - filled) (if 0 <? filled then cost / filled else 0) (rq_timestamp r).

(** The bundle's first balance event locks the order's funds, with sequence
    number 1: the null ledger knows no version. *)
Definition locks_first (r : OrderRequest) (base quote : Z) (es : list BalanceEvent) : Prop :=
  exists e es', es = e :: es' /\ be_user_id e = rq_user_id r /\ be_asset_id e = lock_asset base quote r /\
    be_seq e = 1 /\ be_event_type e = "lock" /\ be_ref_id e = rq_order_id r.

(** What the bundle reports, from the trades the book made. *)
Definition reports (r : OrderRequest) (base quote : Z) (o : EngineOutput) (ts : list Trade) : Prop :=
  trades o = map (trade_out r base quote) ts /\
  map delta (balance_events o) =
    (rq_user_id r, lock_asset base quote r, - lock_amount r, lock_amount r) ::
    flat_map (trade_deltas r base quote) ts /\
  order_update o =
    Some (final_update r (traded ts) (sum_list (map (fun t => trade_price t * trade_quantity t) ts))) /\
  locks_first r base quote (balance_events o).

Lemma trades_fit r b fills left rest ts :
  wf_book b -> order_fits r b ->
  ref_match (accepts (request_order r)) (rq_quantity r) (queue (opposite (rq_side r)) b) = (fills, left, rest) ->
  Forall2 (fun t f => exists n id, t = mk_trade (request_order r) f.1 f.2 n id) ts fills ->
  Forall (trade_fits r) ts /\ traded ts = filled_quantity fills /\
  sum_list (map (fun t => trade_price t * trade_quantity t) ts) <= i64_max /\
  length ts = length fills.
Proof.
  intros Hwf Hfits Href Hts. pose proof (fill_amounts r b fills left rest Hwf Hfits Href) as Hf.
  pose proof (ref_match_notional (accepts (request_order r)) (rq_quantity r) _
    (queue_positive _ b Hwf) (fits_makers r b Hfits)) as Hn.
  rewrite Href in Hn. destruct Hfits as [Hb1 Hb2 Hb3 _ Hb4 _ _]. specialize (Hn ltac:(lia)).
  assert (sum_list (map (fun t => trade_price t * trade_quantity t) ts) =
    sum_list (map (fun f => price f.1 * f.2) fills) /\ traded ts = filled_quantity fills) as [Hsum Htr].
  { unfold traded, filled_quantity. clear -Hts. induction Hts as [|t f ts fills (n & id & ->) _ [IH1 IH2]]; [done|].
    destruct (mk_trade_number (request_order r) f.1 f.2 n id) as (_ & _ & Hq & Hp).
    cbn [map sum_list foldr]. rewrite Hq, Hp. unfold sum_list in *. by rewrite IH1, IH2. }
  split_and!; [|done|lia|by eapply Forall2_length].
  clear -Hts Hf Hb1 Hb2 Hb3. induction Hts as [|t f ts fills (n & id & ->) _ IH]; [by apply Forall_nil|].
  apply Forall_cons in Hf as [(? & ? & ? & ?) Hf]. apply Forall_cons. split; [|by apply IH].
  apply fill_trade_fits; (done || lia).
Qed.

Lemma finish_output_ok b i (st : NullLedger * Core) :
  b_input b = Some i ->
  exists o, finish_output b st = Ok o (st.1, set_last_hash (hash o) st.2) /\
    trades o = b_trades b /\ balance_events o = b_events b /\ order_update o = b_update b.
Proof.
  intros Hi. unfold finish_output, bind, build. rewrite Hi. by eexists.
Qed.

(** The last steps: the final update, the completion, the bundle. *)
Lemma close_ok r base quote b b0 b1 i ts filled cost (st : NullLedger * Core) :
  extends b0 b1 (map (trade_out r base quote) ts) (flat_map (trade_deltas r base quote) ts) ->
  b_trades b0 = [] -> b_input b0 = Some i ->
  map delta (b_events b0) = [(rq_user_id r, lock_asset base quote r, - lock_amount r, lock_amount r)] ->
  filled = traded ts -> cost = sum_list (map (fun t => trade_price t * trade_quantity t) ts) ->
  b_trades b = b_trades b1 -> b_events b = b_events b1 -> b_input b = b_input b1 ->
  b_update b = Some (final_update r filled cost) -> locks_first r base quote (b_events b0) ->
  exists o, finish_output b st = Ok o (st.1, set_last_hash (hash o) st.2) /\ reports r base quote o ts.
Proof.
  intros (Ht & He & Hi & (es & Hes) & _) Ht0 Hi0 He0 -> -> Hbt Hbe Hbi Hbu (e & es' & Hlock & Hfields).
  destruct (finish_output_ok b i st) as (o & Ho & Hot & Hoe & Hou); [by rewrite Hbi, Hi|].
  exists o. split; [done|]. unfold reports. rewrite Hot, Hoe, Hou, Hbt, Hbe, Hbu, Ht, He, Ht0, He0.
  split_and!; try done. exists e, (es' ++ es). by rewrite Hes, Hlock.
Qed.

(** The run of [process_order_with_output] on a registered symbol with the
    null ledger, an order that is fresh and whose amounts fit. *)
Lemma process_accepted am in_seq r cid c b base quote :
  am !! rq_symbol_id r = Some (base, quote) ->
  order_books c !! Z.to_nat (rq_symbol_id r) = Some (Some b) ->
  wf_book b -> rq_order_id r ∉ active_order_ids b -> order_fits r b ->
  0 <= output_seq c -> output_seq c + 1 <= u64_max ->
  exists ts b' g' o c',
    book_add_order (request_order r) (rq_timestamp r) (b, trade_id_gen c) = Ok ts (b', g') /\
    process_order_with_output am in_seq r cid (null_ledger, c) =
      Ok (rq_order_id r, o) (null_ledger, c') /\
    order_books c' = <[Z.to_nat (rq_symbol_id r) := Some b']> (order_books c) /\
    trade_id_gen c' = g' /\ reports r base quote o ts.
Proof.
  intros Ham Hbook Hwf Hnew Hfits Hz Hmax.
  pose proof Hfits as [Hp Hq _ _ _ Hcount [Hms Hms']].
  pose proof (add_order_queues (request_order r) (rq_timestamp r) b (trade_id_gen c) Hwf
    ltac:(simpl; lia) Hnew Hms Hms') as Href.
  pose proof (ref_match_fills_length (accepts (request_order r)) (rq_quantity r)
    (queue (opposite (rq_side r)) b)) as Hlen.
  pose proof (ref_match_conserves (accepts (request_order r)) (rq_quantity r) _
    (queue_positive (opposite (rq_side r)) b Hwf) ltac:(lia)) as Hcons.
  pose proof (ref_match_qty_le (accepts (request_order r)) (rq_quantity r) _
    (queue_positive (opposite (rq_side r)) b Hwf) ltac:(lia)) as Hle.
  cbn [quantity side request_order] in Href.
  destruct (ref_match _ _ _) as [[fills left] rest] eqn:Hm.
  destruct Href as (ts & b' & g' & Hadd & Hts & _).
  destruct (trades_fit r b fills left rest ts Hwf Hfits Hm Hts) as (Hfit & Htr & Hcost & Hl).
  destruct Hcons as (Hsum & _ & _).
  destruct (lock_of_ok base quote r (null_ledger, set_output_seq (output_seq c + 1) c) b Hfits) as [Hlock Hla].
  exists ts, b', g'.
  unfold process_order_with_output. unfold bind at 1.
  rewrite (bump_output_seq_eq (null_ledger, c) (output_seq c + 1)) by (apply u64_op_exact; ulia).
  cbn [fst snd]. unfold bind at 1. unfold get at 1. rewrite Ham. unfold bind at 1. rewrite Hlock.
  unfold bind at 1. unfold get at 1. unfold bind at 1. cbn [fst snd ledger_version ledger_frozen ledger_balance null_ledger_impl].
  rewrite add_ok by ulia. unfold bind at 1. rewrite try_apply_null.
  unfold bind at 1, neg_i64. rewrite (as_i64_id (lock_amount r)) by (unfold i64_max in *; lia).
  rewrite i64_op_exact by (unfold i64_max in *; lia). cbn [unwrap ret].
  unfold bind at 1. rewrite add_ok by (unfold i64_max in *; ulia). cbv zeta.
  unfold bind at 1. rewrite tell_null. unfold bind at 1. unfold get at 1. cbn [snd].
  unfold has_book. change (order_books (set_output_seq (output_seq c + 1) c)) with (order_books c).
  rewrite Hbook. cbn [negb]. unfold bind at 1.
  rewrite (run_book_ok _ _ _ (set_output_seq (output_seq c + 1) c) b ts b' g' Hbook Hadd). cbv zeta.
  unfold bind at 1. unfold get at 1. unfold bind at 1.
  set (b0 := add_order_placement _ _). set (st5 := (null_ledger, mkCore _ _ _ _)).
  destruct (output_trades_ok r base quote (output_seq c + 1) null_ledger ts ∅ 0 0 b0 st5 0)
    as (ds & b1 & Hot & Hext); [done|lia|by intros ? ? ?|lia|unfold i64_max in *; lia|lia| |lia| |].
  { unfold i64_max in *. ulia. }
  { unfold i64_max in *. ulia. }
  change (st5.1) with null_ledger. rewrite Hot. unfold bind at 1. rewrite apply_batch_null. unfold bind at 1.
  rewrite !Z.add_0_l, sub_ok by (unfold i64_max in *; ulia). cbv zeta.
  set (bf := if _ =? 3 then _ else _).
  destruct (close_ok r base quote bf b0 b1 (input_new in_seq (order_input r cid)) ts (traded ts)
    (sum_list (map (fun t => trade_price t * trade_quantity t) ts)) st5) as (o & Ho & Hrep);
    try (unfold bf; by destruct (_ =? 3)); [done..| |].
  { do 2 eexists. split; [done|]. by split_and!. }
  unfold bind. rewrite Ho. exists o. eexists. split_and!; [done..|exact Hrep].
Qed.
End accepted.

(** ** The entry point of the engine *)

(** The sum, over the balance events of asset [a], of what [f] picks. *)
Definition event_sum (f : BalanceEvent -> Z) (a : Z) (o : EngineOutput) : Z :=
  sum_list (map (fun e => if be_asset_id e =? a then f e else 0) (balance_events o)).

Definition delta_sum (f : Z * Z -> Z) (a : Z) (ds : list (Z * Z * Z * Z)) : Z :=
  sum_list (map (fun d => if d.1.1.2 =? a then f (d.1.2, d.2) else 0) ds).

Lemma event_sum_delta f a o :
  event_sum (fun e => f (be_delta_avail e, be_delta_frozen e)) a o =
  delta_sum f a (map delta (balance_events o)).
Proof. unfold event_sum, delta_sum. by rewrite map_map. Qed.

Lemma delta_sum_app f a ds1 ds2 : delta_sum f a (ds1 ++ ds2) = delta_sum f a ds1 + delta_sum f a ds2.
Proof. unfold delta_sum. by rewrite map_app, sum_list_app. Qed.

Section entry.
Context {bp : BuildProfile} `{OrderLog W} `{Digests}.
Implicit Types e : MatchingEngine W.

(** What the theorems below ask of the engine and of an order: a registered
    symbol with a well-formed book, an unused identifier, amounts in range. *)
Record ready (e : MatchingEngine W) (r : OrderRequest) (b : OrderBook) (base quote : Z) : Prop := {
  ready_wal : order_wal e = None;
  ready_symbol : asset_map e !! rq_symbol_id r = Some (base, quote);
  ready_book : engine_books e !! Z.to_nat (rq_symbol_id r) = Some (Some b);
  ready_wf : wf_book b;
  ready_fresh : rq_order_id r ∉ active_order_ids b;
  ready_fits : order_fits r b;
  ready_seq : 0 <= output_seq (core e) /\ output_seq (core e) + 1 <= u64_max
}.

Lemma entry_accepted in_seq r cid e b base quote :
  ready e r b base quote ->
  exists ts b' g' o e',
    book_add_order (request_order r) (rq_timestamp r) (b, trade_id_gen (core e)) = Ok ts (b', g') /\
    add_order_and_build_output in_seq r cid e = Ok (rq_order_id r, o) e' /\
    engine_books e' = <[Z.to_nat (rq_symbol_id r) := Some b']> (engine_books e) /\
    asset_map e' = asset_map e /\ reports r base quote o ts.
Proof.
  intros [Hw Hsym Hbook Hwf Hnew Hfits [Hz Hmax]].
  destruct (process_accepted (asset_map e) in_seq r cid (core e) b base quote)
    as (ts & b' & g' & o & c' & Hadd & Hproc & Hbooks & _ & Hrep); try done.
  exists ts, b', g', o. unfold add_order_and_build_output, wal_place.
  unfold bind at 1, get at 1. rewrite bool_decide_true by (by rewrite Hsym).
  unfold bind at 1. rewrite no_wal by done. unfold bind at 1, engine_of_core, zoom. rewrite Hproc.
  unfold bind. rewrite no_wal by done. eexists. split_and!; [done..|exact Hrep].
Qed.

(** C9: a bundle reports exactly what the reference matcher decides.  For an
    order that is ready to be processed, [add_order_and_build_output] returns a
    bundle: its trades are the reference's fills with their prices and
    quantities, its order update gives the filled and remaining quantities and
    the status (1 resting, 2 partly filled, 3 filled), and the book afterwards
    holds the reference's queues. *)
Theorem bundle_reports_matching in_seq r cid e b base quote :
  ready e r b base quote ->
  let '(fills, open_qty, rest) :=
    ref_match (accepts (request_order r)) (rq_quantity r) (queue (opposite (rq_side r)) b) in
  exists o e' b' avg, add_order_and_build_output in_seq r cid e = Ok (rq_order_id r, o) e' /\
    map (fun t => (to_price t, to_quantity t)) (trades o) = map (fun f => (price f.1, f.2)) fills /\
    order_update o = Some (mkOutUpdate (rq_order_id r) (rq_user_id r)
      (final_status (rq_quantity r - open_qty) open_qty) (rq_quantity r - open_qty) open_qty avg (rq_timestamp r)) /\
    engine_books e' !! Z.to_nat (rq_symbol_id r) = Some (Some b') /\
    queue (opposite (rq_side r)) b' = rest /\
    queue (rq_side r) b' =
      (if 0 <? open_qty then enqueue (with_quantity open_qty (request_order r)) (queue (rq_side r) b)
       else queue (rq_side r) b).
Proof.
  intros Hr. destruct (entry_accepted in_seq r cid e b base quote Hr)
    as (ts & b' & g' & o & e' & Hadd & Hok & Hbooks & _ & Htr & _ & Hou & _).
  destruct Hr as [Hw Hsym Hbook Hwf Hnew Hfits _].
  pose proof Hfits as [Hp Hq _ _ _ _ [Hms Hms']].
  pose proof (add_order_queues (request_order r) (rq_timestamp r) b (trade_id_gen (core e)) Hwf
    ltac:(simpl; lia) Hnew Hms Hms') as Href.
  pose proof (ref_match_conserves (accepts (request_order r)) (rq_quantity r) _
    (queue_positive (opposite (rq_side r)) b Hwf) ltac:(lia)) as Hcons.
  cbn [quantity side request_order] in Href.
  destruct (ref_match _ _ _) as [[fills open_qty] rest] eqn:Hm.
  destruct Href as (ts' & b'' & g'' & Hadd' & Hts & _ & _ & Hopp & Hown).
  rewrite Hadd in Hadd'. injection Hadd' as <- <- <-.
  destruct (trades_fit r b fills open_qty rest ts Hwf Hfits Hm Hts) as (_ & Htraded & _ & _).
  destruct Hcons as (Hsum & _ & _). rewrite Htraded in Hou.
  unfold final_update in Hou. replace (rq_quantity r - filled_quantity fills) with open_qty in Hou by lia.
  replace (filled_quantity fills) with (rq_quantity r - open_qty) in Hou by lia.
  exists o, e', b'. eexists. split_and!; [done| |exact Hou| |done|done].
  - rewrite Htr. clear -Hts. induction Hts as [|t f ts fills (n & id & ->) _ IH]; [done|].
    destruct (mk_trade_number (request_order r) f.1 f.2 n id) as (_ & _ & Hq & Hp).
    cbn [map trade_out to_price to_quantity]. by rewrite Hq, Hp, IH.
  - rewrite Hbooks. apply list_lookup_insert_eq. by eapply lookup_lt_Some.
Qed.

Lemma trade_deltas_conserve r base quote t a :
  delta_sum (fun d => d.1 + d.2) a (trade_deltas r base quote t) = 0.
Proof. unfold delta_sum. simpl. destruct (quote =? a), (base =? a); lia. Qed.

Lemma flat_deltas_conserve r base quote ts a :
  delta_sum (fun d => d.1 + d.2) a (flat_map (trade_deltas r base quote) ts) = 0.
Proof.
  induction ts as [|t ts IH]; [done|]. cbn [flat_map]. by rewrite delta_sum_app, trade_deltas_conserve, IH.
Qed.

(** The frozen amount a buying taker's trades release: its limit price times
    what was traded. *)
Lemma flat_deltas_frozen r base quote ts :
  rq_side r = Buy -> base <> quote ->
  Forall (fun t => buy_user_id t = rq_user_id r /\ trade_price t <= rq_price r) ts ->
  delta_sum (fun d => d.2) quote (flat_map (trade_deltas r base quote) ts) = - (rq_price r * traded ts).
Proof.
  intros Hs Hbq. unfold traded. induction 1 as [|t ts [Hu Hp] _ IH]; [cbn; lia|].
  assert (refund r t = (rq_price r - trade_price t) * trade_quantity t) as Hrf.
  { unfold refund. rewrite Hs, Hu, Z.eqb_refl. simpl.
    destruct (Z.ltb_spec (trade_price t) (rq_price r)); [done|]. assert (rq_price r = trade_price t) as Heq by lia. rewrite Heq. lia. }
  cbn [flat_map]. rewrite delta_sum_app, IH. cbn [map sum_list foldr]. unfold delta_sum. simpl.
  rewrite Z.eqb_refl, Hrf. destruct (Z.eqb_spec base quote); [done|]. simpl. unfold sum_list. nia.
Qed.

(** C10: the balance deltas of a bundle neither create nor destroy funds, and
    release exactly what was locked.  For every asset the changes of available
    and frozen amounts over all events of the bundle sum to zero; and for a
    buy order the frozen quote amount that its bundle leaves behind is the
    limit price times the quantity still open. *)
Theorem bundle_conserves_assets in_seq r cid e b base quote a :
  ready e r b base quote -> base <> quote ->
  exists o e', add_order_and_build_output in_seq r cid e = Ok (rq_order_id r, o) e' /\
    event_sum (fun ev => be_delta_avail ev + be_delta_frozen ev) a o = 0 /\
    (rq_side r = Buy ->
     exists u, order_update o = Some u /\
       event_sum be_delta_frozen quote o = rq_price r * ou_remaining_qty u).
Proof.
  intros Hr Hbq. destruct (entry_accepted in_seq r cid e b base quote Hr)
    as (ts & b' & g' & o & e' & Hadd & Hok & Hbooks & _ & Htr & Hev & Hou & _).
  exists o, e'. split; [done|]. split.
  - rewrite (event_sum_delta (fun d => d.1 + d.2)), Hev.
    change (?x :: ?l) with ([x] ++ l). rewrite delta_sum_app, flat_deltas_conserve.
    unfold delta_sum. simpl. destruct (_ =? a); lia.
  - intros Hs. eexists. split; [exact Hou|].
    rewrite (event_sum_delta (fun d => d.2)), Hev.
    change (?x :: ?l) with ([x] ++ l). rewrite delta_sum_app, flat_deltas_frozen; [|done|done|].
    + unfold delta_sum, lock_asset, lock_amount. rewrite Hs. simpl. rewrite Z.eqb_refl. lia.
    + destruct Hr as [_ _ _ Hwf Hnew Hfits _]. pose proof Hfits as [Hp Hq _ _ _ _ [Hms Hms']].
      pose proof (add_order_trades (request_order r) (rq_timestamp r) b (trade_id_gen (core e)) ts b' g'
        Hwf ltac:(simpl; lia) Hms Hms' Hadd) as [Hall _].
      pose proof (add_order_queues (request_order r) (rq_timestamp r) b (trade_id_gen (core e)) Hwf
        ltac:(simpl; lia) Hnew Hms Hms') as Href.
      destruct (ref_match _ _ _) as [[fills open_qty] rest].
      destruct Href as (? & ? & ? & Hadd' & Hts & _). rewrite Hadd in Hadd'. injection Hadd' as <- <- <-.
      cbn [side price request_order] in Hall. rewrite Hs in Hall. clear -Hall Hts Hs.
      induction Hts as [|t f ts fills (n & id & ->) _ IH]; [by apply Forall_nil|].
      apply Forall_cons in Hall as [(_ & Hc & _) Hall]. apply Forall_cons. split; [|by apply IH].
      apply Z.leb_le in Hc. split; [|done]. unfold mk_trade. cbn [side request_order]. by rewrite Hs.
Qed.
End entry.

(** ** Where the unlimited balance of the null ledger overflows *)

Lemma op_add_overflow {bp : BuildProfile} x y :
  overflow_checks = true -> u64_max < x + y -> op_add x y = None.
Proof.
  intros Hbp Hxy. unfold op_add, u64_op, in_range. rewrite Hbp.
  destruct (Z.leb_spec 0 (x + y)), (Z.leb_spec (x + y) u64_max); try done; lia.
Qed.

(** A run that neither returns nor fails panics. *)
Lemma outcome_panic {S E A} (r : res S E A) :
  outcome r (fun _ _ => False) (fun _ _ => False) -> r = Panic.
Proof. by destruct r. Qed.

Section overflow.
Context {bp : BuildProfile} `{OrderLog W} `{Digests}.
Implicit Types e : MatchingEngine W.

Lemma balance_update_panics user asset d m (st : NullLedger * Core) :
  overflow_checks = true -> 0 < d -> m !! (user, asset) = None ->
  get_and_update_balance null_ledger user asset d m st = Panic.
Proof.
  intros Hbp Hd Hm. unfold get_and_update_balance. rewrite Hm. simpl.
  destruct (Z.leb_spec 0 d); [|lia]. unfold bind, add. by rewrite op_add_overflow by (done || lia).
Qed.

Lemma logic_trade_panics r base quote t versions (st : NullLedger * Core) :
  overflow_checks = true -> base <> quote -> 0 < trade_quantity t <= i64_max ->
  logic_trade r base quote null_ledger t (versions, ∅) st = Panic.
Proof.
  intros Hbp Hbq Hq. apply outcome_panic. unfold logic_trade.
  apply outcome_bind. destruct (buyer_refund_of r t st) as [rf s|er s|] eqn:Hrf; simpl; [| |done].
  2:{ revert Hrf. unfold buyer_refund_of, sub, mul, bind, unwrap.
      destruct (_ && _); [|done]. destruct (_ <? _); [|done].
      destruct (op_sub _ _); [|done]. simpl. by destruct (op_mul _ _). }
  do 4 (apply outcome_bind; unfold get_and_add_version at 1; apply outcome_bind, outcome_unwrap;
        intros ? _; simpl).
  apply outcome_bind. unfold get_and_update_balance at 1. apply outcome_bind.
  assert (Hrest : forall (x : Z) (m : gmap (Z * Z) Z) s0, m !! (buy_user_id t, base) = None ->
    forall A (k : Z * gmap (Z * Z) Z -> M (NullLedger * Core) OrderError A),
    outcome (bind (get_and_update_balance null_ledger (buy_user_id t) base (as_i64 (trade_quantity t)) m) k s0)
      (fun _ _ => False) (fun _ _ => False)).
  { intros x m s0 Hm A k. apply outcome_bind. rewrite balance_update_panics; [done|done| |done].
    rewrite as_i64_id by (unfold i64_max in *; lia). lia. }
  assert (Hother : forall v, (<[(buy_user_id t, quote) := v]> ∅ : gmap (Z * Z) Z) !! (buy_user_id t, base) = None).
  { intros v. rewrite lookup_insert_ne by congruence. apply lookup_empty. }
  destruct (0 <=? as_i64 rf).
  - apply outcome_unwrap. intros e' _. simpl. apply (Hrest 0). apply Hother.
  - apply outcome_bind, outcome_unwrap. intros d _. destruct (d <=? _).
    + apply outcome_unwrap. intros e' _. simpl. apply (Hrest 0). apply Hother.
    + simpl. apply (Hrest 0). apply Hother.
Qed.

(** The path to the trade loop of [process_order_logic]. *)
Lemma process_logic_trades am r c b base quote t ts b' g' :
  overflow_checks = true -> base <> quote ->
  am !! rq_symbol_id r = Some (base, quote) ->
  order_books c !! Z.to_nat (rq_symbol_id r) = Some (Some b) -> order_fits r b ->
  book_add_order (request_order r) (rq_timestamp r) (b, trade_id_gen c) = Ok (t :: ts) (b', g') ->
  0 < trade_quantity t <= i64_max ->
  process_order_logic am r (null_ledger, c) = Panic.
Proof.
  intros Hbp Hbq Ham Hbook Hfits Hadd Hq. unfold process_order_logic. rewrite Ham.
  destruct (lock_of_ok base quote r (null_ledger, c) b Hfits) as [Hlock Hla].
  unfold bind at 1. rewrite Hlock. unfold bind at 1. unfold get at 1. unfold bind at 1.
  cbn [fst snd ledger_version ledger_balance null_ledger_impl].
  rewrite add_ok by ulia. unfold bind at 1. rewrite try_apply_null.
  unfold bind at 1. rewrite tell_null. unfold bind at 1. unfold get at 1. cbn [snd].
  unfold has_book. rewrite Hbook. cbn [negb]. unfold bind at 1.
  rewrite (run_book_ok _ _ _ c b (t :: ts) b' g' Hbook Hadd).
  unfold bind at 1. unfold get at 1. unfold bind at 1. cbn [fst logic_trades]. unfold bind at 1.
  by rewrite logic_trade_panics.
Qed.

(** In a build with overflow checks, the paths without a bundle cannot
    trade.  [add_order] and the batch run [process_order_logic] with the null
    ledger, whose balance of every user is [u64::MAX]; the first trade adds its
    quantity to that balance and panics.  Here: an order that is ready and has
    at least one acceptable maker. *)
Theorem order_logic_trade_panics r e b base quote :
  overflow_checks = true -> ready e r b base quote -> base <> quote -> 0 < rq_quantity r ->
  (exists m q, queue (opposite (rq_side r)) b = m :: q /\ accepts (request_order r) m = true) ->
  process_order_atomic r e = Panic.
Proof.
  intros Hbp [Hw Hsym Hbook Hwf Hnew Hfits _] Hbq Hpos (m & q & Hqueue & Hacc).
  pose proof Hfits as [Hp Hq _ _ _ _ [Hms Hms']].
  pose proof (add_order_queues (request_order r) (rq_timestamp r) b (trade_id_gen (core e)) Hwf
    ltac:(simpl; lia) Hnew Hms Hms') as Href.
  cbn [quantity side request_order] in Href.
  destruct (ref_match _ _ _) as [[fills open_qty] rest] eqn:Hm.
  destruct Href as (ts & b' & g' & Hadd & Hts & _).
  pose proof (fill_amounts r b fills open_qty rest Hwf Hfits Hm) as Hf.
  destruct Hts as [|t f ts fills (n & id & Ht) Hts].
  - exfalso. rewrite Hqueue in Hm. cbn [ref_match] in Hm. rewrite Hacc, andb_true_r in Hm.
    destruct (Z.ltb_spec 0 (rq_quantity r)); [|lia]. destruct (_ <? quantity m); [done|].
    by destruct (ref_match _ _ q) as [[? ?] ?].
  - apply Forall_cons in Hf as [(_ & Hfq & _) _].
    unfold process_order_atomic, bind, get, engine_of_core, zoom.
    rewrite (process_logic_trades _ r (core e) b base quote t ts b' g'); try done.
    rewrite Ht. destruct (mk_trade_number (request_order r) f.1 f.2 n id) as (_ & _ & -> & _). lia.
Qed.

(** The amount a cancelled order gives back. *)
Definition unlock_amount (o : Order) : Z :=
  match side o with Buy => price o * quantity o | Sell => quantity o end.

(** Cancelling a resting order.  The order leaves its queue whatever
    happens next.  The command list is then built from the null ledger's
    balance, [u64::MAX], to which the unlocked amount is added: with overflow
    checks every cancellation of a resting order panics; without them it
    answers with an [Unlock] whose [balance_after] has wrapped around to the
    amount minus one, and a [Cancelled] update. *)
Theorem cancel_resting_order (h : list Z -> Z -> Z) e sym b o base quote :
  order_wal e = None -> 0 < sym -> engine_books e !! Z.to_nat sym = Some (Some b) ->
  asset_map e !! sym = Some (base, quote) -> wf_book b -> o ∈ all_orders b ->
  0 < unlock_amount o <= u64_max -> 0 < price o ->
  if overflow_checks then cancel_order h sym (order_id o) e = Panic
  else exists e' b', cancel_order h sym (order_id o) e =
      Ok [LedgerCommand.Unlock (user_id o) (match side o with Buy => quote | Sell => base end)
            (unlock_amount o) (unlock_amount o - 1) 1; cancelled_update sym o] e' /\
    engine_books e' !! Z.to_nat sym = Some (Some b') /\
    (forall s, queue s b' = without (order_id o) (queue s b)) /\ wf_book b'.
Proof.
  intros Hw Hsym Hbook Ham Hwf Ho Hu Hp.
  pose proof (remove_order_outcome (order_id o) b Hwf) as Hrem.
  destruct (remove_order_found b o Hwf Ho) as (l' & _ & _ & Heq). rewrite Heq in Hrem.
  set (b' := set_levels _ _ _) in *. destruct Hrem as (_ & _ & Hq & _ & Hwf').
  assert (Hmul : side o = Buy -> op_mul (price o) (quantity o) = Some (unlock_amount o)).
  { intros Hs. unfold unlock_amount in *. rewrite Hs in *. apply u64_op_exact. unfold is_u64. lia. }
  assert (Hver : op_add 0 1 = Some 1) by (apply u64_op_exact; ulia).
  assert (Hadd : op_add u64_max (unlock_amount o) =
    if overflow_checks then None else Some (unlock_amount o - 1)).
  { unfold op_add, u64_op, in_range.
    destruct (Z.leb_spec (u64_max + unlock_amount o) u64_max); [lia|]. rewrite andb_false_r.
    destruct overflow_checks; [done|]. f_equal. rewrite Z.sub_0_r, Z.add_0_r. symmetry.
    apply (Z.mod_unique _ _ 1); ulia. }
  set (e1 := set_books (<[Z.to_nat sym := Some b']> (engine_books e)) e).
  set (user_asset := match side o with Buy => quote | Sell => base end) in *.
  assert (forall st : MatchingEngine W, unlock_of base quote o st = Ok (user_asset, unlock_amount o) st) as Hlock.
  { intros st. unfold unlock_of, user_asset. destruct (side o) eqn:Hs; unfold bind; [by rewrite Hmul|].
    unfold unlock_amount. by rewrite Hs. }
  assert (process_cancel sym (order_id o) e = if overflow_checks then Panic else
    Ok [LedgerCommand.Unlock (user_id o) user_asset (unlock_amount o) (unlock_amount o - 1) 1;
        cancelled_update sym o] e1) as Hcancel.
  { unfold process_cancel. rewrite (bind_ok get _ e e e eq_refl), Hbook.
    rewrite (bind_ok (zoom _ _ _) _ e o e1) by (unfold zoom; by rewrite Hbook, Heq).
    rewrite Ham, (bind_ok (ok_or (Some (base, quote)) _) _ e1 (base, quote) e1) by reflexivity.
    rewrite (bind_ok _ _ _ _ _ (Hlock e1)).
    cbn [ledger_balance ledger_version null_ledger_impl]. rewrite Hadd, Hver. by destruct overflow_checks. }
  assert (cancel_order h sym (order_id o) e = bind (process_cancel sym (order_id o)) (fun commands =>
    update_hash h (le_bytes 4 sym ++ le_bytes 8 (order_id o) ++ [255]) ;;; ret commands) e) as ->.
  { unfold cancel_order. rewrite (bind_ok get _ e e e eq_refl).
    destruct (Z.eqb_spec sym 0); [lia|]. rewrite (bind_ok (ret sym) _ e sym e eq_refl).
    by rewrite (bind_ok _ _ _ _ _ (no_wal _ e Hw)). }
  unfold bind. rewrite !Hcancel.
  destruct overflow_checks; [done|]. eexists. exists b'. split; [reflexivity|].
  split; [|done]. cbn. apply list_lookup_insert_eq. by eapply lookup_lt_Some.
Qed.

(** An engine restarted from a snapshot serves no symbol of it.  The
    snapshot carries the books but not the asset map: every symbol with a book
    refuses to be registered again, and until it is, orders for it are
    answered with [InvalidSymbol]. *)
Theorem restored_symbols_unusable e w sym b base quote in_seq r cid :
  engine_books e !! Z.to_nat sym = Some (Some b) -> rq_symbol_id r = sym ->
  let e' := engine_new (Some (engine_snapshot e)) w in
  register_symbol sym base quote e' =
    Err ("Symbol ID " +:+ pretty sym +:+ " is already in use") e' /\
  add_order_and_build_output in_seq r cid e' = Err (InvalidSymbol sym) e'.
Proof.
  intros Hb Hr e'. assert (engine_books e' !! Z.to_nat sym = Some (Some b)) as Hb' by done.
  assert (asset_map e' = ∅) as Ham by done. split.
  - unfold register_symbol. unfold bind at 1, get at 1.
    destruct (Nat.leb_spec (length (engine_books e')) (Z.to_nat sym)).
    + apply lookup_lt_Some in Hb'. lia.
    + rewrite Hb'. done.
  - unfold add_order_and_build_output, bind, get. rewrite Ham, Hr. by rewrite bool_decide_false by (by intros []).
Qed.
End overflow.

(** ** Concrete engines *)

#[export] Instance toy_digests : Digests := {|
  xxh3_64 l := foldl (fun h b => (h * 31 + b) mod u64_mod) 7 l;
  crc32 l := sum_list l mod 4294967296;
  json_of_input := hash_input_data
|}.

#[export] Instance silent_log : OrderLog unit := {|
  log_place_order_no_flush _ _ _ _ _ _ := ret tt;
  log_cancel_order _ := ret tt;
  log_flush := ret tt;
  log_current_seq _ := 0
|}.

Definition sample_engine : MatchingEngine unit :=
  mkEngine (mkCore [None; Some sample_book] half_new 5 77) {[1 := (1, 2)]} None 0.

Definition sample_request : OrderRequest := mkRequest 1 9 Buy Limit 102 20 90 1000.

Lemma sample_ready : ready sample_engine sample_request sample_book 1 2.
Proof.
  split; [done|done|done|exact sample_book_wf| | |].
  - apply (bool_decide_unpack _). vm_compute. exact I.
  - split; try (vm_compute; split; discriminate); try (vm_compute; discriminate).
    repeat (apply Forall_cons; split; [vm_compute; discriminate|]). by apply Forall_nil.
  - vm_compute. split; discriminate.
Qed.

Definition sample_inputs : list (Z * OrderRequest * string) :=
  [(1, sample_request, "a"); (2, mkRequest 1 10 Sell Limit 5 5 91 1001, "b")].

Lemma outputs_form_chain_witness :
  exists outs e', collect (bp := debug_profile) sample_inputs sample_engine = Ok outs e' /\
    Forall (fun o => verify o = true) outs /\
    forall i o1 o2, outs !! i = Some o1 -> outs !! S i = Some o2 ->
      verify_chain (bp := debug_profile) o2 o1 = Some true.
Proof.
  destruct (collect (bp := debug_profile) sample_inputs sample_engine) as [outs e'|er e'|] eqn:Hr;
    [|vm_compute in Hr; discriminate..].
  exists outs, e'. split; [reflexivity|].
  destruct (outputs_form_chain (bp := debug_profile) sample_inputs sample_engine outs e'
    ltac:(vm_compute; discriminate) ltac:(vm_compute; discriminate) Hr) as (Hv & _ & Hl).
  split; [exact Hv|exact Hl].
Defined.

(** The duplicate of a resting order, between two good ones. *)
Lemma refused_order_breaks_chain_witness :
  let o1 := set_hash 77 (output_new 5 0 (input_new 1 (order_input sample_request "a")) None [] []) in
  exists err e1 x e2,
    add_order_and_build_output (bp := debug_profile) 1 (mkRequest 1 3 Buy Limit 5 5 91 1000) "d" sample_engine
      = Err err e1 /\
    add_order_and_build_output (bp := debug_profile) 2 sample_request "a" e1 = Ok x e2 /\
    verify_chain (bp := debug_profile) x.2 o1 = Some false.
Proof.
  intros o1.
  destruct (add_order_and_build_output (bp := debug_profile) 1 (mkRequest 1 3 Buy Limit 5 5 91 1000) "d"
    sample_engine) as [x e1|err e1|] eqn:H1; [vm_compute in H1; discriminate| |vm_compute in H1; discriminate].
  destruct (add_order_and_build_output (bp := debug_profile) 2 sample_request "a" e1) as [x e2|er e2|] eqn:H2;
    [|vm_compute in H1; injection H1 as <- <-; vm_compute in H2; discriminate..].
  exists err, e1, x, e2. split; [reflexivity|]. split; [exact H2|].
  apply (refused_order_breaks_chain (bp := debug_profile) o1 sample_engine 1
    (mkRequest 1 3 Buy Limit 5 5 91 1000) "d" err e1 2 sample_request "a" x e2).
  - vm_compute. discriminate.
  - vm_compute. discriminate.
  - reflexivity.
  - reflexivity.
  - reflexivity.
  - exists (1, 2). reflexivity.
  - exact H1.
  - exact H2.
Defined.

Lemma bundle_reports_matching_witness :
  exists o e' avg, add_order_and_build_output (bp := debug_profile) 1 sample_request "a" sample_engine
      = Ok (9, o) e' /\
    map (fun t => (to_price t, to_quantity t)) (trades o) = [(101, 5); (101, 6)] /\
    order_update o = Some (mkOutUpdate 9 90 2 11 9 avg 1000).
Proof.
  destruct (bundle_reports_matching (bp := debug_profile) 1 sample_request "a" sample_engine sample_book 1 2
    sample_ready) as (o & e' & b' & avg & H1 & H2 & H3 & _).
  exists o, e', avg. split; [exact H1|]. split; [exact H2|exact H3].
Defined.

Lemma bundle_conserves_assets_witness :
  exists o e', add_order_and_build_output (bp := debug_profile) 1 sample_request "a" sample_engine
      = Ok (9, o) e' /\
    event_sum (fun ev => be_delta_avail ev + be_delta_frozen ev) 2 o = 0.
Proof.
  destruct (bundle_conserves_assets (bp := debug_profile) 1 sample_request "a" sample_engine sample_book 1 2 2
    sample_ready ltac:(discriminate)) as (o & e' & H1 & H2 & _).
  exists o, e'. split; [exact H1|exact H2].
Defined.

Lemma order_logic_trade_panics_witness :
  process_order_atomic (bp := debug_profile) sample_request sample_engine = Panic.
Proof.
  apply (order_logic_trade_panics (bp := debug_profile) sample_request sample_engine sample_book 1 2).
  - reflexivity.
  - exact sample_ready.
  - discriminate.
  - reflexivity.
  - eexists _, _. split; [vm_compute; reflexivity|reflexivity].
Defined.

Lemma cancel_resting_order_witness :
  let h := fun _ _ => 0 in
  cancel_order (bp := debug_profile) h 1 2 sample_engine = Panic /\
  exists e', cancel_order (bp := release_profile) h 1 2 sample_engine =
    Ok [LedgerCommand.Unlock 20 1 6 5 1; cancelled_update 1 (sample_order 2 20 Sell 101 6)] e'.
Proof.
  intros h.
  assert (sample_order 2 20 Sell 101 6 ∈ all_orders sample_book) as Hin
    by (apply (bool_decide_unpack _); vm_compute; exact I).
  split.
  - apply (cancel_resting_order (bp := debug_profile) h sample_engine 1 sample_book
      (sample_order 2 20 Sell 101 6) 1 2); try reflexivity; [exact sample_book_wf|exact Hin|].
    vm_compute. split; [reflexivity|discriminate].
  - destruct (cancel_resting_order (bp := release_profile) h sample_engine 1 sample_book
      (sample_order 2 20 Sell 101 6) 1 2) as (e' & b' & H & _); try reflexivity;
      [exact sample_book_wf|exact Hin|vm_compute; split; [reflexivity|discriminate]|].
    exists e'. exact H.
Defined.

Lemma restored_symbols_unusable_witness :
  let e' := engine_new (Some (engine_snapshot sample_engine)) None in
  register_symbol (W := unit) 1 1 2 e' = Err "Symbol ID 1 is already in use" e' /\
  add_order_and_build_output (bp := debug_profile) 1 sample_request "a" e' = Err (InvalidSymbol 1) e'.
Proof.
  apply (restored_symbols_unusable (bp := debug_profile) sample_engine None 1 sample_book 1 2 1 sample_request "a");
    reflexivity.
Defined.
