(* ===== verification/UbsParts.v ===== *)
(** * Parts of the balance authority ([src/src/ubs_core/])

    Rejection reasons ([error.rs]), orders and their cost ([order.rs]), the
    deduplication guard ([dedup.rs]), the debt ledger ([debt.rs]), the fee
    table ([fee.rs]), the risk model ([risk.rs]) and the balance events
    ([events.rs]). *)

From S2P Require Import Prelude UserAccount FastUlid.

#[local] Open Scope string_scope.
#[local] Open Scope list_scope.
#[local] Open Scope Z_scope.
#[local] Open Scope rust_scope.

(** ** Rejections *)

Inductive RejectReason :=
  | OrderTooOld | FutureTimestamp | DuplicateOrderId | InvalidSymbol | OrderCostOverflow
  | InsufficientBalance | InsufficientFunds | InsufficientFrozen | BalanceOverflow | AccountNotFound
  | SystemBusy | InternalError.

#[export] Instance RejectReason_eq_dec : EqDecision RejectReason.
Proof. solve_decision. Defined.

(** ** Orders *)

Inductive UbsSide := UbsBuy | UbsSell.

Definition ubs_side_from_u8 (v : Z) : option UbsSide :=
  if v =? 0 then Some UbsBuy else if v =? 1 then Some UbsSell else None.

Inductive UbsOrderType := UbsLimit | UbsMarket.

Definition ubs_order_type_from_u8 (v : Z) : option UbsOrderType :=
  if v =? 0 then Some UbsLimit else if v =? 1 then Some UbsMarket else None.

Record InternalOrder := mkInternal {
  io_order_id : Z; io_user_id : Z; io_symbol_id : Z; io_side : UbsSide;
  io_price : Z; io_qty : Z; io_order_type : UbsOrderType
}.

Definition timestamp_ms (o : InternalOrder) : Z := snow_timestamp_ms (io_order_id o).

Definition calculate_cost (o : InternalOrder) : Z :=
  match io_side o with
  | UbsBuy => default u64_max (checked_mul (io_price o) (io_qty o))
  | UbsSell => io_qty o
  end.

(** [trait RiskModel]; [UBSCore] holds one but never calls it. *)
Class RiskModel (R : Type) := {
  can_trade : R -> UserAccount -> InternalOrder -> bool;
  get_debit_asset : R -> InternalOrder -> Z -> Z -> Z
}.

Inductive SpotRiskModel := spot_risk_model.

#[export] Instance spot_risk : RiskModel SpotRiskModel := {
  can_trade _ _ o := negb (calculate_cost o =? u64_max);
  get_debit_asset _ o base quote := match io_side o with UbsBuy => quote | UbsSell => base end
}.

(** ** Deduplication *)

Definition CACHE_SIZE : nat := Z.to_nat 10000.
Definition MAX_TIME_DRIFT_MS : Z := 3000.

(** [cache] is an [IndexSet]: distinct elements in insertion order. *)
Record DeduplicationGuard := mkGuard { cache : list Z; min_allowed_ts : Z }.

Definition guard_new : DeduplicationGuard := mkGuard [] 0.

(** [IndexSet::pop] takes the last element. *)
Definition index_set_pop (l : list Z) : option (Z * list Z) :=
  match last l with Some x => Some (x, removelast l) | None => None end.

Definition index_set_insert (x : Z) (l : list Z) : list Z :=
  if bool_decide (x ∈ l) then l else l ++ [x].

Definition check_and_record (order_id now : Z) : M DeduplicationGuard RejectReason unit :=
  let order_ts := snow_timestamp_ms order_id in
  if MAX_TIME_DRIFT_MS <? saturating_sub now order_ts then throw OrderTooOld
  else if saturating_add now 1000 <? order_ts then throw FutureTimestamp
  else
    let* g := get in
    if order_ts <? min_allowed_ts g then throw OrderTooOld
    else if bool_decide (order_id ∈ cache g) then throw DuplicateOrderId
    else
      (if Nat.leb CACHE_SIZE (length (cache g)) then
         match index_set_pop (cache g) with
         | Some (evicted, rest) =>
             put (mkGuard rest (Z.max (min_allowed_ts g) (snow_timestamp_ms evicted)))
         | None => ret tt
         end
       else ret tt) ;;;
      modify (fun g => mkGuard (index_set_insert order_id (cache g)) (min_allowed_ts g)).

(** ** Debts *)

Inductive EventType :=
  | EvTradeSettle | EvOrderFee | EvLiquidation | EvStaleSpeculative
  | EvDeposit | EvOrderUnlock | EvWithdraw.

Inductive DebtReason := GhostMoney | FeeUnpaid | Liquidated | StaleSpeculative | SystemError.

Definition debt_reason (e : EventType) : DebtReason :=
  match e with
  | EvTradeSettle => GhostMoney
  | EvOrderFee => FeeUnpaid
  | EvLiquidation => Liquidated
  | EvStaleSpeculative => StaleSpeculative
  | EvDeposit | EvOrderUnlock | EvWithdraw => SystemError
  end.

Record DebtRecord := mkDebt { debt_amount : Z; debt_created_at : Z; debt_cause : DebtReason }.

(** [HashMap<(UserId, AssetId), DebtRecord>] *)
Abbreviation DebtLedger := (gmap (Z * Z) DebtRecord).

Definition has_debt (user : Z) (d : DebtLedger) : bool :=
  existsb (fun e => e.1.1 =? user) (map_to_list d).

Definition get_debt (user asset : Z) (d : DebtLedger) : option DebtRecord := d !! (user, asset).

Section debts.
Context {bp : BuildProfile}.

Definition add_debt {E : Type} (user asset : Z) (record : DebtRecord) : M DebtLedger E unit :=
  let* d := get in
  match d !! (user, asset) with
  | Some existing =>
      let* total := unwrap (op_add (debt_amount existing) (debt_amount record)) in
      put (<[(user, asset) := mkDebt total (debt_created_at existing) (debt_cause existing)]> d)
  | None => put (<[(user, asset) := record]> d)
  end.

(** The subtractions are of the minimum of both sides. *)
Definition pay_debt {E : Type} (user asset amount : Z) : M DebtLedger E Z :=
  let* d := get in
  match d !! (user, asset) with
  | Some debt =>
      let pay_off := Z.min amount (debt_amount debt) in
      let open_amount := debt_amount debt - pay_off in
      put (if open_amount =? 0 then delete (user, asset) d
           else <[(user, asset) := mkDebt open_amount (debt_created_at debt) (debt_cause debt)]> d) ;;;
      ret (amount - pay_off)
  | None => ret amount
  end.

Definition total_debt {E : Type} (user : Z) (d : DebtLedger) : M DebtLedger E Z :=
  foldl (fun acc e => let* t := acc in
                      if e.1.1 =? user then unwrap (op_add t (debt_amount e.2)) else ret t)
    (ret 0) (map_to_list d).
End debts.

(** ** Fees *)

Definition default_rates : list (Z * Z) :=
  [(1000, 1500); (900, 1400); (800, 1300); (700, 1200); (600, 1100);
   (500, 1000); (400, 900); (300, 800); (200, 600); (100, 400)].

Definition get_rate (rates : list (Z * Z)) (vip_level : Z) (is_maker : bool) : option Z :=
  (fun r => if is_maker then r.1 else r.2) <$> rates !! Nat.min (Z.to_nat vip_level) 9.

(** ** Events *)

Inductive UnlockReason := UnlockCancel | UnlockExpire | UnlockFillRemainder.

Inductive BalanceEvent :=
  | Deposited (tx_id user_id asset_id amount : Z)
  | Withdrawn (tx_id user_id asset_id amount : Z)
  | FundsLocked (order_id user_id asset_id amount : Z)
  | FundsUnlocked (order_id : Z) (reason : UnlockReason)
  | TradeSettled (match_id buyer_id seller_id base_asset quote_asset base_qty quote_amt
                  buyer_fee seller_fee buyer_order_id seller_order_id : Z)
  | AccountCreated (user_id : Z).

(** ** Deduplication: what is guaranteed and what is not *)

Lemma guard_refuses_recorded id now g :
  id ∈ cache g -> is_ok (check_and_record id now g) = false.
Proof.
  intros Hin. unfold check_and_record. destruct (_ <? _); [done|]. destruct (_ <? _); [done|].
  unfold bind, get. destruct (_ <? _); [done|]. by rewrite bool_decide_true.
Qed.

Lemma guard_accepts id now g g' :
  check_and_record id now g = Ok tt g' ->
  id ∉ cache g /\ min_allowed_ts g <= snow_timestamp_ms id /\
  cache g' = (if Nat.leb CACHE_SIZE (length (cache g)) then removelast (cache g) else cache g) ++ [id].
Proof.
  unfold check_and_record. destruct (_ <? _); [done|]. destruct (_ <? _); [done|].
  unfold bind, get. destruct (Z.ltb_spec (snow_timestamp_ms id) (min_allowed_ts g)); [done|].
  case_bool_decide as Hin; [done|]. unfold put, modify, ret.
  destruct (Nat.leb_spec CACHE_SIZE (length (cache g))) as [Hfull|Hfree].
  - unfold index_set_pop. destruct (last (cache g)) as [x|] eqn:Hlast.
    + intros [= <-]. simpl. unfold index_set_insert. rewrite bool_decide_false; [done|].
      intros Hx. apply Hin. apply list_elem_of_In. apply list_elem_of_In in Hx.
      destruct (cache g) as [|y l _] using rev_ind; [done|]. rewrite removelast_last in Hx.
      apply in_app_iff. by left.
    + apply last_None in Hlast. rewrite Hlast in Hfull. simpl in Hfull. change CACHE_SIZE with (Z.to_nat 10000) in Hfull. lia.
  - intros [= <-]. simpl. unfold index_set_insert. by rewrite bool_decide_false.
Qed.

(** The identifiers a sequence of checks lets through. *)
Fixpoint accepted (reqs : list (Z * Z)) (g : DeduplicationGuard) : list Z * DeduplicationGuard :=
  match reqs with
  | [] => ([], g)
  | (id, now) :: reqs' =>
      match check_and_record id now g with
      | Ok _ g' => let '(ids, g'') := accepted reqs' g' in (id :: ids, g'')
      | Err _ g' => accepted reqs' g'
      | Panic => ([], g)
      end
  end.

Lemma check_err_same id now g e g' : check_and_record id now g = Err e g' -> g' = g.
Proof.
  unfold check_and_record, bind, get, throw, put, modify, ret.
  destruct (_ <? _); [congruence|]. destruct (_ <? _); [congruence|].
  destruct (_ <? _); [congruence|]. case_bool_decide; [congruence|].
  destruct (Nat.leb _ _); [|done]. by destruct (index_set_pop _) as [[? ?]|].
Qed.

(** No order passes the guard twice while its cache lasts.  Whatever the
    clock shows and however the requests repeat, the first 10,000 identifiers
    that are let through are pairwise different. *)
Theorem dedup_no_duplicates reqs g :
  NoDup (cache g) -> (length (cache g) + length (accepted reqs g).1 <= CACHE_SIZE)%nat ->
  NoDup (cache g ++ (accepted reqs g).1).
Proof.
  revert g. induction reqs as [|[id now] reqs IH]; intros g Hnd Hlen; cbn [accepted] in *.
  - by rewrite app_nil_r.
  - destruct (check_and_record id now g) as [[] g'|e g'|] eqn:Hc; [| |by rewrite app_nil_r].
    + apply guard_accepts in Hc as (Hnew & _ & Hcache).
      destruct (accepted reqs g') as [ids g''] eqn:Ha. cbn [fst length] in *.
      destruct (Nat.leb_spec CACHE_SIZE (length (cache g))); [lia|].
      specialize (IH g'). rewrite Ha, Hcache in IH. cbn [fst] in IH.
      rewrite length_app in IH. cbn [length] in IH. rewrite <- app_assoc in IH. apply IH; [|lia].
      apply NoDup_app. split_and!; [done| |apply NoDup_singleton].
      intros x Hx ->%list_elem_of_singleton. done.
    + apply check_err_same in Hc as ->. by apply IH.
Qed.

Lemma dedup_no_duplicates_witness :
  let reqs := [(1048576, 1); (1048577, 1); (1048576, 2)] in
  (accepted reqs guard_new).1 = [1048576; 1048577] /\ NoDup [1048576; 1048577].
Proof.
  intros reqs. split; [vm_compute; reflexivity|].
  apply (dedup_no_duplicates reqs guard_new); [apply NoDup_nil_2|].
  apply (bool_decide_unpack _). vm_compute. exact I.
Defined.

(** A full guard forgets the newest identifier, not the oldest.
    [IndexSet::pop] removes the last element: once the cache is full, recording
    a new order [y] evicts the identifier [x] recorded just before, and [x]
    presented again within the time window is let through a second time. *)
Theorem dedup_evicts_newest g l x y now now' :
  cache g = l ++ [x] -> length (cache g) = CACHE_SIZE -> y ∉ cache g -> x ∉ l ->
  snow_timestamp_ms x <= snow_timestamp_ms y ->
  min_allowed_ts g <= snow_timestamp_ms x ->
  saturating_sub now (snow_timestamp_ms y) <= MAX_TIME_DRIFT_MS ->
  snow_timestamp_ms y <= saturating_add now 1000 ->
  saturating_sub now' (snow_timestamp_ms x) <= MAX_TIME_DRIFT_MS ->
  snow_timestamp_ms x <= saturating_add now' 1000 ->
  exists g1 g2, check_and_record y now g = Ok tt g1 /\ check_and_record x now' g1 = Ok tt g2.
Proof.
  intros Hcache Hfull Hy Hx Hxy Hmin Hd1 Hf1 Hd2 Hf2.
  assert (x <> y) as Hne by (intros ->; apply Hy; rewrite Hcache; set_solver).
  assert (check_and_record y now g =
    Ok tt (mkGuard (l ++ [y]) (Z.max (min_allowed_ts g) (snow_timestamp_ms x)))) as H1.
  { unfold check_and_record, bind, get, put, modify, ret.
    destruct (Z.ltb_spec MAX_TIME_DRIFT_MS (saturating_sub now (snow_timestamp_ms y))); [lia|].
    destruct (Z.ltb_spec (saturating_add now 1000) (snow_timestamp_ms y)); [lia|].
    destruct (Z.ltb_spec (snow_timestamp_ms y) (min_allowed_ts g)); [lia|].
    rewrite bool_decide_false by done. rewrite Hfull, Nat.leb_refl.
    unfold index_set_pop. rewrite Hcache, last_snoc, removelast_last. simpl.
    unfold index_set_insert. rewrite bool_decide_false; [done|].
    intros Hin. apply Hy. rewrite Hcache. apply elem_of_app. by left. }
  do 2 eexists. split; [exact H1|]. rewrite Hcache, length_app in Hfull. simpl in Hfull.
  assert (x ∉ l ++ [y]) as Hxn by set_solver.
  unfold check_and_record, bind, get, put, modify, ret. cbn [cache min_allowed_ts].
  destruct (Z.ltb_spec MAX_TIME_DRIFT_MS (saturating_sub now' (snow_timestamp_ms x))); [lia|].
  destruct (Z.ltb_spec (saturating_add now' 1000) (snow_timestamp_ms x)); [lia|].
  cbn [cache min_allowed_ts].
  destruct (Z.ltb_spec (snow_timestamp_ms x) (Z.max (min_allowed_ts g) (snow_timestamp_ms x))); [lia|].
  rewrite bool_decide_false by done. rewrite length_app. cbn [length].
  rewrite Hfull, Nat.leb_refl.
  unfold index_set_pop. rewrite last_snoc. reflexivity.
Qed.

Lemma dedup_evicts_newest_witness :
  let l := map (fun n => 5242880000 + Z.of_nat n) (seq 0 (Z.to_nat 9999)) in
  let x := 5242889999 in let y := 5242890000 in
  exists g1 g2, check_and_record y 5000 (mkGuard (l ++ [x]) 0) = Ok tt g1 /\
    check_and_record x 5001 g1 = Ok tt g2.
Proof.
  intros l x y.
  assert (forall z, z ∈ l -> 5242880000 <= z < 5242889999) as Hl.
  { intros z (n & -> & Hn%elem_of_seq)%list_elem_of_fmap. lia. }
  apply (dedup_evicts_newest (mkGuard (l ++ [x]) 0) l x y 5000 5001); cbn [cache min_allowed_ts].
  - reflexivity.
  - unfold l. rewrite length_app, length_map, length_seq. reflexivity.
  - intros [Hy%Hl|Hy%list_elem_of_singleton]%elem_of_app; unfold x, y in *; lia.
  - intros Hx%Hl. unfold x in Hx. lia.
  - by vm_compute.
  - by vm_compute.
  - by vm_compute.
  - by vm_compute.
  - by vm_compute.
  - by vm_compute.
Defined.
