(* ===== verification/WalRecord.v ===== *)
(** * Log records ([src/src/common_utils.rs], [src/src/ubs_core/wal/entry.rs])

    A record is [Ver(1)][Len(3)][CRC(4)][Data], header big-endian; an entry of
    the balance authority's log is a record whose data is a type byte and a
    payload.  The CRC comes from the crate [crc32fast]; it is a parameter, and
    all that is relied on is that it is a [u32]. *)

From S2P Require Import Prelude Bytes.

#[local] Open Scope string_scope.
#[local] Open Scope list_scope.
#[local] Open Scope Z_scope.

(** [crc32fast::hash]; hashing slices one after the other hashes their
    concatenation. *)
Class Crc32 := crc32 : list Z -> Z.
Class Crc32Laws `{Crc32} : Prop := crc32_u32 l : 0 <= crc32 l < 2 ^ 32.

(** ** Records *)

Definition WAL_RECORD_HEADER_SIZE : Z := 8.
Definition WAL_RECORD_MAX_LEN : Z := 16777215.
Definition WAL_SCHEMA_VERSION : Z := 0.

Definition pack_verlen (version length : Z) : Z :=
  Z.lor (Z.shiftl version 24) (Z.land length WAL_RECORD_MAX_LEN).

Definition unpack_verlen (verlen : Z) : Z * Z :=
  (Z.shiftr verlen 24, Z.land verlen WAL_RECORD_MAX_LEN).

Module WalRecordError.
Inductive t :=
  | TooShort
  | ZeroLength
  | LengthOverflow (len : Z)
  | CrcMismatch (stored computed : Z)
  | UnsupportedVersion (v : Z).
End WalRecordError.

Section records.
Context `{Crc32}.

Definition crc32_multi (slices : list (list Z)) : Z := crc32 (concat slices).

(** [None] is the panic of the [assert!]. *)
Definition wal_record_serialize_v (version : Z) (data : list Z) : option (list Z) :=
  if zlen data <=? WAL_RECORD_MAX_LEN then
    let verlen_bytes := be_bytes 4 (pack_verlen version (zlen data)) in
    Some (verlen_bytes ++ be_bytes 4 (crc32_multi [verlen_bytes; data]) ++ data)
  else None.

Definition wal_record_serialize (data : list Z) : option (list Z) :=
  wal_record_serialize_v WAL_SCHEMA_VERSION data.

Definition wal_record_deserialize_v (buf : list Z) : WalRecordError.t + Z * list Z * Z :=
  if zlen buf <? WAL_RECORD_HEADER_SIZE then inl WalRecordError.TooShort
  else
    let verlen_bytes := take 4 buf in
    let '(version, data_len) := unpack_verlen (be_value verlen_bytes) in
    if data_len =? 0 then inl WalRecordError.ZeroLength
    else if WAL_RECORD_MAX_LEN <? data_len then inl (WalRecordError.LengthOverflow data_len)
    else
      let stored_crc := be_value (take 4 (drop 4 buf)) in
      let total_len := WAL_RECORD_HEADER_SIZE + data_len in
      if zlen buf <? total_len then inl WalRecordError.TooShort
      else
        let data := take (Z.to_nat data_len) (drop 8 buf) in
        let computed_crc := crc32_multi [verlen_bytes; data] in
        if negb (computed_crc =? stored_crc)
        then inl (WalRecordError.CrcMismatch stored_crc computed_crc)
        else inr (version, data, total_len).

Definition wal_record_deserialize (buf : list Z) : WalRecordError.t + list Z * Z :=
  match wal_record_deserialize_v buf with
  | inl e => inl e
  | inr (_, data, consumed) => inr (data, consumed)
  end.
End records.

(** ** Entries *)

Module WalEntryType.
Inductive t := Deposit | Withdraw | OrderLock | OrderUnlock | Trade | Fee | Snapshot.

(** [self as u8] *)
Definition code (t : t) : Z :=
  match t with
  | Deposit => 1 | Withdraw => 2 | OrderLock => 3 | OrderUnlock => 4
  | Trade => 5 | Fee => 6 | Snapshot => 7
  end.

Definition try_from (value : Z) : option t :=
  if value =? 1 then Some Deposit
  else if value =? 2 then Some Withdraw
  else if value =? 3 then Some OrderLock
  else if value =? 4 then Some OrderUnlock
  else if value =? 5 then Some Trade
  else if value =? 6 then Some Fee
  else if value =? 7 then Some Snapshot
  else None.
End WalEntryType.

Record WalEntry := mkEntry { entry_type : WalEntryType.t; payload : list Z }.

Module WalError.
Inductive t :=
  | TooShort
  | InvalidLength (len : Z)
  | InvalidType (b : Z)
  | CrcMismatch (stored computed : Z)
  | IoError (msg : string).

(** [From<WalRecordError>] *)
Definition from_record (e : WalRecordError.t) : t :=
  match e with
  | WalRecordError.TooShort => TooShort
  | WalRecordError.ZeroLength => InvalidLength 0
  | WalRecordError.LengthOverflow len => InvalidLength len
  | WalRecordError.CrcMismatch stored computed => CrcMismatch stored computed
  | WalRecordError.UnsupportedVersion v => InvalidType v
  end.
End WalError.

Section entries.
Context `{Crc32}.

Definition entry_serialize (e : WalEntry) : option (list Z) :=
  wal_record_serialize (WalEntryType.code (entry_type e) :: payload e).

Definition entry_deserialize (buf : list Z) : WalError.t + WalEntry * Z :=
  match wal_record_deserialize buf with
  | inl e => inl (WalError.from_record e)
  | inr ([], _) => inl WalError.TooShort
  | inr (type_byte :: payload, consumed) =>
      match WalEntryType.try_from type_byte with
      | None => inl (WalError.InvalidType type_byte)
      | Some entry_type => inr (mkEntry entry_type payload, consumed)
      end
  end.
End entries.

(** ** Header arithmetic *)

Lemma pack_unpack version len :
  0 <= version < 256 -> 0 <= len <= WAL_RECORD_MAX_LEN ->
  0 <= pack_verlen version len < 2 ^ 32 /\
  unpack_verlen (pack_verlen version len) = (version, len).
Proof.
  intros Hv Hl. unfold WAL_RECORD_MAX_LEN in *.
  assert (pack_verlen version len = version * 2 ^ 24 + len) as Hp.
  { unfold pack_verlen, WAL_RECORD_MAX_LEN. change 16777215 with (Z.ones 24).
    rewrite Z.land_ones, (Z.mod_small len), Z.shiftl_mul_pow2 by lia.
    rewrite <- Z.add_lor_land.
    replace (Z.land (version * 2 ^ 24) len) with 0; [lia|].
    symmetry. apply Z.bits_inj'. intros n Hn. rewrite Z.land_spec, Z.bits_0.
    destruct (Z.lt_ge_cases n 24).
    - by rewrite Z.mul_pow2_bits_low.
    - rewrite (Z.bits_above_log2 len), andb_false_r; [done|lia|].
      destruct (Z.eq_dec len 0) as [->|]; [simpl; lia|]. apply Z.log2_lt_pow2; [lia|].
      apply Z.lt_le_trans with (2 ^ 24); [lia|]. apply Z.pow_le_mono_r; lia. }
  rewrite Hp. split; [lia|]. unfold unpack_verlen, WAL_RECORD_MAX_LEN.
  change 16777215 with (Z.ones 24). rewrite Z.land_ones, Z.shiftr_div_pow2 by lia. f_equal.
  - rewrite Z.div_add_l by lia. rewrite Z.div_small by lia. lia.
  - rewrite Z.add_comm, Z.mod_add by lia. apply Z.mod_small. lia.
Qed.

(** ** Round trips *)

Section roundtrip.
Context `{Crc32Laws}.

Lemma serialize_v_eq version data :
  zlen data <= WAL_RECORD_MAX_LEN ->
  exists hdr crc, hdr = be_bytes 4 (pack_verlen version (zlen data)) ++ be_bytes 4 crc /\
    length hdr = 8%nat /\ wal_record_serialize_v version data = Some (hdr ++ data).
Proof.
  intros Hlen. unfold wal_record_serialize_v. destruct (Z.leb_spec (zlen data) WAL_RECORD_MAX_LEN); [|lia].
  rewrite app_assoc. do 2 eexists. split; [done|]. split; [|done].
  by rewrite length_app, !be_bytes_length.
Qed.

(** What the reader makes of a record followed by anything. *)
Lemma record_read version data r rest :
  0 <= version < 256 -> data <> [] ->
  wal_record_serialize_v version data = Some r ->
  wal_record_deserialize_v (r ++ rest) = inr (version, data, zlen r).
Proof.
  intros Hv Hne. unfold wal_record_serialize_v.
  destruct (Z.leb_spec (zlen data) WAL_RECORD_MAX_LEN) as [Hmax|]; [|done].
  set (vb := be_bytes 4 (pack_verlen version (zlen data))).
  set (crc := crc32_multi [vb; data]). intros Hr.
  assert (r = vb ++ be_bytes 4 crc ++ data) as -> by congruence.
  pose proof (zlen_nonneg data) as Hnn. rewrite <- zlen_nil in Hne.
  destruct (pack_unpack version (zlen data)) as [Hpack Hunpack]; [done|lia|].
  assert (length vb = 4%nat) as Hvb by apply be_bytes_length.
  assert (length (be_bytes 4 crc) = 4%nat) as Hcl by apply be_bytes_length.
  assert (be_value vb = pack_verlen version (zlen data)) as Hval by (by apply be_value_bytes).
  assert (be_value (be_bytes 4 crc) = crc) as Hcrc.
  { apply be_value_bytes. change (256 ^ Z.of_nat 4) with (2 ^ 32). apply crc32_u32. }
  assert (crc32_multi [vb; data] = crc) as Hdef by done. clearbody vb crc. clear Hr.
  remember (be_bytes 4 crc) as cb eqn:Hcb. clear Hcb.
  unfold wal_record_deserialize_v. rewrite !zlen_app.
  assert (zlen vb = 4 /\ zlen (cb) = 4) as [-> ->] by (unfold zlen; lia).
  pose proof (zlen_nonneg rest). unfold WAL_RECORD_HEADER_SIZE, WAL_RECORD_MAX_LEN in *.
  destruct (Z.ltb_spec (4 + (4 + zlen data) + zlen rest) 8); [lia|].
  rewrite <- !app_assoc.
  rewrite (take_app_length' vb _ 4), (drop_app_length' vb _ 4),
    (take_app_length' (cb) _ 4) by done.
  rewrite Hval, Hunpack, Hcrc.
  destruct (Z.eqb_spec (zlen data) 0); [lia|]. destruct (Z.ltb_spec 16777215 (zlen data)); [lia|].
  destruct (Z.ltb_spec (4 + (4 + zlen data) + zlen rest) (8 + zlen data)); [lia|].
  replace (take _ (drop 8 _)) with data.
  - rewrite Hdef, Z.eqb_refl. simpl. do 2 f_equal. lia.
  - rewrite app_assoc, drop_app_length' by (rewrite length_app; lia).
    unfold zlen. by rewrite Nat2Z.id, take_app_length.
Qed.

(** A record cut anywhere is reported as too short. *)
Lemma record_truncated version data r n :
  0 <= version < 256 -> data <> [] ->
  wal_record_serialize_v version data = Some r -> (n < length r)%nat ->
  wal_record_deserialize_v (take n r) = inl WalRecordError.TooShort.
Proof.
  intros Hv Hne. unfold wal_record_serialize_v.
  destruct (Z.leb_spec (zlen data) WAL_RECORD_MAX_LEN) as [Hmax|]; [|done].
  set (vb := be_bytes 4 (pack_verlen version (zlen data))).
  set (cb := be_bytes 4 (crc32_multi [vb; data])). intros Hr Hn.
  assert (r = vb ++ cb ++ data) as -> by congruence.
  pose proof (zlen_nonneg data) as Hnn. rewrite <- zlen_nil in Hne.
  destruct (pack_unpack version (zlen data)) as [Hpack Hunpack]; [done|lia|].
  assert (length vb = 4%nat) as Hvb by apply be_bytes_length.
  assert (length cb = 4%nat) as Hcb by apply be_bytes_length.
  assert (be_value vb = pack_verlen version (zlen data)) as Hval by (by apply be_value_bytes).
  rewrite !length_app, Hvb, Hcb in Hn.
  assert (zlen (take n (vb ++ cb ++ data)) = Z.of_nat n) as Hlen.
  { unfold zlen. rewrite length_take, !length_app. lia. }
  unfold wal_record_deserialize_v. rewrite Hlen. unfold WAL_RECORD_HEADER_SIZE.
  destruct (Z.ltb_spec (Z.of_nat n) 8); [done|].
  rewrite take_take, Nat.min_l by lia.
  rewrite take_app_length' by done. rewrite Hval, Hunpack.
  unfold WAL_RECORD_MAX_LEN in *.
  destruct (Z.eqb_spec (zlen data) 0); [lia|]. destruct (Z.ltb_spec 16777215 (zlen data)); [lia|].
  destruct (Z.ltb_spec (Z.of_nat n) (8 + zlen data)); [done|unfold zlen in *; lia].
Qed.

(** Log records survive storage.  A record of any version and any
    non-empty data of at most 16 MB, followed by anything, reads back as that
    version and data and consumes exactly its own bytes; cut anywhere, it is
    reported as too short.  The only data the writer accepts and the reader
    refuses is the empty one. *)
Theorem wal_record_roundtrip version data :
  0 <= version < 256 -> zlen data <= WAL_RECORD_MAX_LEN ->
  exists r, wal_record_serialize_v version data = Some r /\ zlen r = 8 + zlen data /\
    forall rest,
      wal_record_deserialize_v (r ++ rest) =
        (if bool_decide (data = []) then inl WalRecordError.ZeroLength
         else inr (version, data, zlen r)) /\
      (forall n, (n < length r)%nat ->
         wal_record_deserialize_v (take n r) = inl WalRecordError.TooShort).
Proof.
  intros Hv Hlen. destruct (serialize_v_eq version data Hlen) as (hdr & crc & Hhdr & Hh & Hs).
  eexists. split; [done|]. split; [unfold zlen; rewrite length_app; lia|].
  intros rest. case_bool_decide as Hd.
  - subst data. split.
    + rewrite app_nil_r. change (zlen []) with 0 in *.
      destruct (pack_unpack version 0) as [Hpack Hunpack]; [done|unfold WAL_RECORD_MAX_LEN; lia|].
      unfold wal_record_deserialize_v. rewrite zlen_app.
      replace (zlen hdr) with 8 by (unfold zlen; lia). pose proof (zlen_nonneg rest).
      unfold WAL_RECORD_HEADER_SIZE. destruct (Z.ltb_spec (8 + zlen rest) 8); [lia|].
      rewrite Hhdr, <- !app_assoc, take_app_length' by (by rewrite be_bytes_length).
      by rewrite be_value_bytes, Hunpack.
    + rewrite app_nil_r. intros n Hn. unfold wal_record_deserialize_v.
      replace (zlen (take n hdr)) with (Z.of_nat n) by (unfold zlen; rewrite length_take; lia).
      unfold WAL_RECORD_HEADER_SIZE. destruct (Z.ltb_spec (Z.of_nat n) 8); [done|lia].
  - split; [by apply record_read|]. intros n Hn. by eapply record_truncated.
Qed.

(** ** Entries *)

Definition entry_fits (e : WalEntry) : Prop := zlen (payload e) < WAL_RECORD_MAX_LEN.

Lemma type_code_roundtrip t : WalEntryType.try_from (WalEntryType.code t) = Some t.
Proof. by destruct t. Qed.

Definition entry_data (e : WalEntry) : list Z := WalEntryType.code (entry_type e) :: payload e.

Lemma entry_serialize_data e :
  entry_serialize e = wal_record_serialize_v WAL_SCHEMA_VERSION (entry_data e).
Proof. reflexivity. Qed.

Lemma entry_data_ne e : entry_data e <> [].
Proof. done. Qed.

Lemma schema_version_byte : 0 <= WAL_SCHEMA_VERSION < 256.
Proof. unfold WAL_SCHEMA_VERSION. lia. Qed.

Lemma entry_serialize_eq e :
  entry_fits e -> exists r, entry_serialize e = Some r /\ zlen r = 9 + zlen (payload e).
Proof.
  intros He. unfold entry_fits in He.
  destruct (serialize_v_eq WAL_SCHEMA_VERSION (WalEntryType.code (entry_type e) :: payload e))
    as (hdr & crc & _ & Hh & Hs); [unfold zlen in *; simpl; lia|].
  eexists. split; [exact Hs|]. unfold zlen. rewrite length_app. simpl. lia.
Qed.

Lemma entry_read e r rest :
  entry_serialize e = Some r -> entry_deserialize (r ++ rest) = inr (e, zlen r).
Proof.
  rewrite entry_serialize_data. intros Hs. unfold entry_deserialize, wal_record_deserialize.
  rewrite (record_read WAL_SCHEMA_VERSION (entry_data e) r rest schema_version_byte (entry_data_ne e) Hs).
  unfold entry_data. rewrite type_code_roundtrip. by destruct e.
Qed.

Lemma entry_read_truncated e r n :
  entry_serialize e = Some r -> (n < length r)%nat -> entry_deserialize (take n r) = inl WalError.TooShort.
Proof.
  rewrite entry_serialize_data. intros Hs Hn. unfold entry_deserialize, wal_record_deserialize.
  by rewrite (record_truncated WAL_SCHEMA_VERSION (entry_data e) r n schema_version_byte
    (entry_data_ne e) Hs Hn).
Qed.

(** A run of zeros is not an entry. *)
Lemma entry_read_zeros n :
  (8 <= n)%nat -> entry_deserialize (zeros n) = inl (WalError.InvalidLength 0).
Proof.
  intros Hn. unfold entry_deserialize, wal_record_deserialize, wal_record_deserialize_v.
  assert (zlen (zeros n) = Z.of_nat n) as -> by (unfold zlen, zeros; by rewrite length_replicate).
  unfold WAL_RECORD_HEADER_SIZE. destruct (Z.ltb_spec (Z.of_nat n) 8); [lia|].
  do 8 (destruct n as [|n]; [lia|]). done.
Qed.
End roundtrip.

Lemma wal_record_roundtrip_witness :
  let C : Crc32 := fun l => Z.of_nat (length l) mod 2 ^ 32 in
  exists r, wal_record_serialize_v 42 [104; 105] = Some r /\
    wal_record_deserialize_v (r ++ [7; 7]) = inr (42, [104; 105], zlen r).
Proof.
  intros C. assert (Crc32Laws) as HL by (intros l; apply Z.mod_pos_bound; lia).
  destruct (@wal_record_roundtrip _ HL 42 [104; 105]) as (r & Hr & _ & Hrest);
    [lia|by vm_compute|].
  exists r. split; [exact Hr|]. apply (Hrest [7; 7]).
Defined.
