(* ===== verification/LedgerWal.v ===== *)
(** * The ledger's files ([src/src/ledger.rs])

    The memory-mapped segment ([WalSegment]), the log that rolls from segment
    to segment ([RollingWal]), the reader ([WalIterator]), the snapshots and
    [GlobalLedger::new], which puts them together.  A directory maps file names
    to files; a mapped file and the file in the directory are the same bytes. *)

From Stdlib Require Import Ascii.
From stdpp Require Import pretty.
From S2P Require Import Prelude Balance UserAccount Ledger Bytes WalRecord.

#[local] Open Scope string_scope.
#[local] Open Scope list_scope.
#[local] Open Scope Z_scope.
#[local] Open Scope rust_scope.

Definition MAX_RECORD_SIZE : Z := 10485760.
Definition WAL_MAX_SIZE : Z := 536870912.
Definition WAL_ROLL_TIME : Z := 300000.
Definition WAL_RETENTION : nat := 3.
Definition SNAPSHOT_RETENTION : nat := 3.

(** [bincode], [md5]; deserializing ignores what follows. *)
Class LedgerCodec := {
  bincode_command : LedgerCommand -> option (list Z);
  debincode_command : list Z -> option LedgerCommand;
  bincode_snapshot : Snapshot -> option (list Z);
  debincode_snapshot : list Z -> option (Snapshot * list Z);
  md5_hex : list Z -> string
}.

Class LedgerCodecLaws `{LedgerCodec} : Prop := {
  command_roundtrip cmd l : bincode_command cmd = Some l -> debincode_command l = Some cmd;
  snapshot_roundtrip s l rest :
    bincode_snapshot s = Some l -> debincode_snapshot (l ++ rest) = Some (s, l)
}.

(** ** Mapped files

    The bytes written, and the length of the file, whose other bytes are zero. *)

Record MappedFile := mkMapped { written : list Z; file_len : Z }.

Definition slice (off n : Z) (f : MappedFile) : list Z :=
  take (Z.to_nat n) (drop (Z.to_nat off) (written f) ++ zeros (Z.to_nat n)).

(** [&mmap[off..off + n]]; [None] is the panic. *)
Definition mmap_read (off n : Z) (f : MappedFile) : option (list Z) :=
  if off + n <=? file_len f then Some (slice off n f) else None.

(** [mmap[off..off + data.len()].copy_from_slice(data)] *)
Definition mmap_write (off : Z) (data : list Z) (f : MappedFile) : option MappedFile :=
  if off + zlen data <=? file_len f
  then Some (mkMapped (overwrite (Z.to_nat off) data (written f)) (file_len f)) else None.

Definition set_file_len (n : Z) (f : MappedFile) : MappedFile :=
  mkMapped (if zlen (written f) <=? n then written f else take (Z.to_nat n) (written f)) n.

(** ** Segments *)

Record WalSegment := mkSegment {
  mmap : MappedFile; cursor : Z; seg_len : Z; md5_ctx : list Z; current_path : string
}.

(** [create(true).truncate(false)]: an existing file keeps its bytes. *)
Definition segment_create (path : string) (existing : option MappedFile) : WalSegment :=
  mkSegment (set_file_len WAL_MAX_SIZE (default (mkMapped [] 0) existing)) 0 WAL_MAX_SIZE [] path.

(** The scan of [open_existing]; every turn advances the cursor, and behind
    the last byte written it stops.  [None] is a panic. *)
Fixpoint scan_records (fuel : nat) (f : MappedFile) (cursor : Z) (md5_ctx : list Z)
  : option (Z * list Z) :=
  match fuel with
  | O => None
  | S fuel' =>
      if cursor + 8 <? file_len f then
        match mmap_read cursor 4 f with
        | None => None
        | Some len_bytes =>
            let payload_len := le_value len_bytes in
            if payload_len =? 0 then Some (cursor, md5_ctx)
            else if file_len f <? cursor + 8 + payload_len then Some (cursor, md5_ctx)
            else
              let total_len := 8 + 8 + payload_len in
              match mmap_read cursor total_len f with
              | None => None
              | Some data => scan_records fuel' f (cursor + total_len) (md5_ctx ++ data)
              end
        end
      else Some (cursor, md5_ctx)
  end.

Definition open_existing (path : string) (f : MappedFile) : option WalSegment :=
  match scan_records (S (length (written f))) f 0 [] with
  | Some (cursor, ctx) => Some (mkSegment f cursor (file_len f) ctx path)
  | None => None
  end.

Section codec.
Context `{Crc32} `{LedgerCodec}.

Definition copy_in (data : list Z) : M WalSegment LedgerError unit :=
  let* s := get in
  let* f := unwrap (mmap_write (cursor s) data (mmap s)) in
  put (mkSegment f (cursor s + zlen data) (seg_len s) (md5_ctx s) (current_path s)).

Definition segment_append (seq : Z) (cmd : LedgerCommand) : M WalSegment LedgerError unit :=
  let* cmd_bytes := ok_or (bincode_command cmd) (ExternalError "bincode") in
  let data_len := 8 + zlen cmd_bytes in
  let* s := get in
  if seg_len s <? cursor s + 8 + data_len then throw (ExternalError "Segment Full")
  else
    let len_bytes := le_bytes 4 data_len in
    let seq_bytes := le_bytes 8 seq in
    let crc_bytes := le_bytes 4 (crc32 (len_bytes ++ seq_bytes ++ cmd_bytes)) in
    copy_in len_bytes ;;;
    copy_in crc_bytes ;;;
    copy_in seq_bytes ;;;
    copy_in cmd_bytes ;;;
    modify (fun s => mkSegment (mmap s) (cursor s) (seg_len s)
      (md5_ctx s ++ len_bytes ++ crc_bytes ++ seq_bytes ++ cmd_bytes) (current_path s)).

Definition finish_and_get_md5 (s : WalSegment) : string := md5_hex (md5_ctx s).

(** ** The reader *)

Inductive wal_next :=
  | NextItem (seq : Z) (cmd : LedgerCommand) (off : Z)
  | NextDone
  | NextError (e : LedgerError)
  | NextPanic.

(** [reader.read_exact]; [None] is [UnexpectedEof]. *)
Definition read_at (off n : Z) (f : MappedFile) : option (list Z) := mmap_read off n f.

Definition iterator_next (f : MappedFile) (off : Z) : wal_next :=
  match read_at off 4 f with
  | None => NextDone
  | Some len_buf =>
      let payload_len := le_value len_buf in
      if MAX_RECORD_SIZE <? payload_len then NextError (ExternalError "Record too large")
      else if payload_len =? 0 then NextDone
      else
        match read_at (off + 4) 4 f with
        | None => NextError (ExternalError "UnexpectedEof")
        | Some crc_buf =>
            match read_at (off + 8) payload_len f with
            | None => NextError (ExternalError "UnexpectedEof")
            | Some data_buf =>
                if negb (crc32 (len_buf ++ data_buf) =? le_value crc_buf)
                then NextError (ExternalError "CRC Mismatch")
                else if payload_len <? 8 then NextPanic
                else
                  match debincode_command (drop 8 data_buf) with
                  | None => NextError (ExternalError "bincode")
                  | Some cmd => NextItem (le_value (take 8 data_buf)) cmd (off + 8 + payload_len)
                  end
            end
        end
  end.

(** How a reading ends. *)
Inductive wal_end := EndOk | EndError (e : LedgerError) | EndPanic.

(** What the consumer, which stops at the first error, takes from a file. *)
Fixpoint read_items (fuel : nat) (f : MappedFile) (off : Z)
  : list (Z * LedgerCommand) * wal_end :=
  match fuel with
  | O => ([], EndPanic)
  | S fuel' =>
      match iterator_next f off with
      | NextDone => ([], EndOk)
      | NextError e => ([], EndError e)
      | NextPanic => ([], EndPanic)
      | NextItem seq cmd off' =>
          let '(items, e) := read_items fuel' f off' in ((seq, cmd) :: items, e)
      end
  end.

Definition file_items (f : MappedFile) : list (Z * LedgerCommand) * wal_end :=
  read_items (S (length (written f))) f 0.

(** The chained iterators. *)
Fixpoint chain_items (files : list MappedFile) : list (Z * LedgerCommand) * wal_end :=
  match files with
  | [] => ([], EndOk)
  | f :: rest =>
      match file_items f with
      | (items, EndOk) => let '(more, e) := chain_items rest in (items ++ more, e)
      | stopped => stopped
      end
  end.
End codec.

(** ** Names *)

(** [s.split(c)] *)
Fixpoint split_on (c : Ascii.ascii) (s : string) : list string :=
  match s with
  | EmptyString => [""]
  | String x rest =>
      match split_on c rest with
      | [] => []
      | part :: parts =>
          if Ascii.eqb x c then "" :: part :: parts else String x part :: parts
      end
  end.

(** [path.file_stem()] and [path.extension()]: cut at the last dot, unless it
    is the first character. *)
Definition stem_extension (name : string) : string * option string :=
  match reverse (split_on "."%char name) with
  | ext :: stem_rev =>
      let stem := String.concat "." (reverse stem_rev) in
      if (stem =? "")%string then (name, None) else (stem, Some ext)
  | [] => (name, None)
  end.

Definition digit (c : Ascii.ascii) : option Z :=
  let n := Z.of_N (Ascii.N_of_ascii c) in
  if (48 <=? n) && (n <=? 57) then Some (n - 48) else None.

Fixpoint digits (acc : Z) (s : string) : option Z :=
  match s with
  | EmptyString => Some acc
  | String c rest =>
      match digit c with
      | None => None
      | Some d => if acc * 10 + d <=? u64_max then digits (acc * 10 + d) rest else None
      end
  end.

(** [s.parse::<u64>()] *)
Definition parse_u64 (s : string) : option Z :=
  match s with
  | EmptyString => None
  | String "+" EmptyString => None
  | String "+" rest => digits 0 rest
  | _ => digits 0 s
  end.

Definition wal_name (seq : Z) : string := "ledger_" +:+ pretty seq +:+ ".wal".

(** The number in a log file's name, and in a snapshot's with its checksum. *)
Definition parse_wal_name (name : string) : option Z :=
  let '(stem, ext) := stem_extension name in
  if String.prefix "ledger_" stem && bool_decide (ext = Some "wal") then
    match split_on "_"%char stem with
    | _ :: seq :: _ => parse_u64 seq
    | _ => None
    end
  else None.

Definition parse_snapshot_name (name : string) : option (Z * string) :=
  let '(stem, ext) := stem_extension name in
  if String.prefix "snapshot_" stem && bool_decide (ext = Some "snap") then
    match split_on "_"%char stem with
    | [_; seq; md5] => (fun n => (n, md5)) <$> parse_u64 seq
    | _ => None
    end
  else None.

(** ** Directories *)

Abbreviation Dir := (gmap string MappedFile).
Abbreviation SnapDir := (gmap string (list Z)).

(** [fs::read_dir] lists the names of a directory in some order. *)
Class ReadDir := read_dir : forall {A}, gmap string A -> list string.
Class ReadDirLaws `{ReadDir} : Prop :=
  read_dir_names A (d : gmap string A) : Permutation (read_dir d) (fst <$> map_to_list d).

(** [sort_by_key], which is stable. *)
Fixpoint insert_by_key {A} (x : Z * A) (l : list (Z * A)) : list (Z * A) :=
  match l with
  | [] => [x]
  | y :: l' => if x.1 <=? y.1 then x :: l else y :: insert_by_key x l'
  end.

Definition sort_by_key {A} (l : list (Z * A)) : list (Z * A) := foldr insert_by_key [] l.

Section dirs.
Context `{ReadDir}.

Definition list_wals (d : Dir) : list (Z * string) :=
  sort_by_key (omap (fun name => (fun seq => (seq, name)) <$> parse_wal_name name) (read_dir d)).

Definition find_latest_wal (d : Dir) : option string := snd <$> last (list_wals d).

Definition cleanup_old_wals (d : Dir) : Dir :=
  let wals := list_wals d in
  if Nat.ltb WAL_RETENTION (length wals)
  then foldl (fun d w => delete w.2 d) d (take (length wals - WAL_RETENTION) wals)
  else d.

(** [partition_point] on the sorted list. *)
Fixpoint partition_point {A} (p : A -> bool) (l : list A) : nat :=
  match l with
  | [] => 0
  | x :: l' => if p x then S (partition_point p l') else 0
  end.

(** The segments [replay_iter] chains. *)
Definition replay_files (d : Dir) (min_seq : Z) : list MappedFile :=
  let wals := list_wals d in
  let start_idx := Nat.pred (partition_point (fun w => w.1 <=? min_seq) wals) in
  omap (fun w => d !! w.2) (drop start_idx wals).
End dirs.

(** ** The rolling log

    [now] is what the system clock shows at the next call. *)

Record RollingWal := mkRolling {
  wal_dir : Dir; current_segment : option WalSegment; last_roll_time : Z; now : Z
}.

Section rolling.
Context `{Crc32} `{LedgerCodec} `{ReadDir}.

(** [None] is a panic of [open_existing]. *)
Definition rolling_new (d : Dir) (start_seq now : Z) : option RollingWal :=
  match find_latest_wal d with
  | Some last_file =>
      match d !! last_file with
      | Some f => (fun s => mkRolling d (Some s) now now) <$> open_existing last_file f
      | None => None
      end
  | None =>
      let path := wal_name start_seq in
      let s := segment_create path (d !! path) in
      Some (mkRolling (<[path := mmap s]> d) (Some s) now now)
  end.

(** [stem.contains(&md5_str)] *)
Definition contains (pat s : string) : bool :=
  match String.index 0 pat s with Some _ => true | None => false end.

(** The old segment's file, renamed after its checksum. *)
Definition retire (s : WalSegment) (d : Dir) : Dir :=
  let md5_str := finish_and_get_md5 s in
  let stem := (stem_extension (current_path s)).1 in
  if contains md5_str stem then d
  else
    match d !! current_path s with
    | Some f => <[stem +:+ "_" +:+ md5_str +:+ ".wal" := f]> (delete (current_path s) d)
    | None => d
    end.

(** The cleanup runs on a thread of its own, at any later time
    ([cleanup_old_wals]). *)
Definition rotate (next_seq : Z) : M RollingWal LedgerError unit :=
  modify (fun w =>
    let d := match current_segment w with Some s => retire s (wal_dir w) | None => wal_dir w end in
    let new_path := wal_name next_seq in
    let s := segment_create new_path (d !! new_path) in
    mkRolling (<[new_path := mmap s]> d) (Some s) (now w) (now w)).

(** An append to the mapping is an append to the file. *)
Definition append_to_current (seq : Z) (cmd : LedgerCommand) : M RollingWal LedgerError unit :=
  zoom current_segment
       (fun s w => mkRolling (<[current_path s := mmap s]> (wal_dir w)) (Some s) (last_roll_time w) (now w))
       (segment_append seq cmd).

Definition rolling_append (seq : Z) (cmd : LedgerCommand) : M RollingWal LedgerError unit :=
  let* w := get in
  let time_trigger := WAL_ROLL_TIME <=? saturating_sub (now w) (last_roll_time w) in
  (if time_trigger then rotate seq else ret tt) ;;;
  fun w =>
    match append_to_current seq cmd w with
    | Ok _ w' => Ok tt w'
    | Err _ w' => (rotate seq ;;; append_to_current seq cmd) w'
    | Panic => Panic
    end.
End rolling.

(** ** Snapshots *)

Section snapshots.
Context `{LedgerCodec} `{ReadDir}.

(** A snapshot is taken only if its number is positive. *)
Definition find_latest_snapshot (d : SnapDir) : option (Z * string * string) :=
  (foldl (fun acc name =>
     match parse_snapshot_name name with
     | Some (seq, md5) => if acc.1 <? seq then (seq, Some (seq, name, md5)) else acc
     | None => acc
     end) (0, None) (read_dir d)).2.

Definition snapshot_name (seq : Z) (md5 : string) : string :=
  "snapshot_" +:+ pretty seq +:+ "_" +:+ md5 +:+ ".snap".

(** The retention of [trigger_snapshot]: descending by number, the first three
    are kept. *)
Definition cleanup_old_snapshots (d : SnapDir) : SnapDir :=
  let snaps := sort_by_key (omap (fun name => (fun p => (- p.1, name)) <$> parse_snapshot_name name)
                              (read_dir d)) in
  foldl (fun d s => delete s.2 d) d (drop SNAPSHOT_RETENTION snaps).

(** The thread of [trigger_snapshot], run to its end. *)
Definition trigger_snapshot (accounts : Accounts) (last_seq : Z) (d : SnapDir) : SnapDir :=
  let tmp := "snapshot_" +:+ pretty last_seq +:+ ".tmp" in
  match bincode_snapshot (mkSnapshot last_seq accounts) with
  | None => <[tmp := []]> d
  | Some bytes =>
      cleanup_old_snapshots (<[snapshot_name last_seq (md5_hex bytes) := bytes]> (delete tmp d))
  end.

(** [None]: the snapshot does not decode or does not match its name. *)
Definition load_snapshot (d : SnapDir) : option (option Snapshot) :=
  match find_latest_snapshot d with
  | None => Some None
  | Some (_, name, expected_md5) =>
      match d !! name with
      | None => None
      | Some bytes =>
          match debincode_snapshot bytes with
          | None => None
          | Some (snap, consumed) =>
              if (md5_hex consumed =? expected_md5)%string then Some (Some snap) else None
          end
      end
  end.
End snapshots.

(** ** Opening a ledger *)

Section open.
Context {bp : BuildProfile} `{Crc32} `{LedgerCodec} `{ReadDir} `{LedgerListener L}.

#[global] Instance rolling_wal : WalOps RollingWal := {|
  wal_append := rolling_append;
  wal_replay w := (chain_items (replay_files (wal_dir w) 0)).1
|}.

(** [GlobalLedger::new]: the snapshot, the replay, which stops at the first
    error, and the log opened for appending. *)
Definition ledger_open (now : Z) (d : Dir) (snaps : SnapDir)
  : res unit LedgerError (GlobalLedger RollingWal L) :=
  match load_snapshot snaps with
  | None => Err (ExternalError "Snapshot MD5 Mismatch") tt
  | Some snap =>
      let start := match snap with
                   | Some s => (snap_accounts s, snap_last_seq s)
                   | None => (∅, 0)
                   end in
      let '(items, stop) := chain_items (replay_files d start.2) in
      match iter replay_entry items start, stop with
      | Ok _ (accts, seq), EndOk =>
          match op_add seq 1 with
          | Some next =>
              match rolling_new d next now with
              | Some w => Ok (mkGlobal accts (Some w) seq None) tt
              | None => Panic
              end
          | None => Panic
          end
      | Ok _ _, EndError e => Err e tt
      | Ok _ _, EndPanic => Panic
      | Err e _, _ => Err e tt
      | Panic, _ => Panic
      end
  end.

(** [from_state]: neither snapshot nor log is read. *)
Definition ledger_from_state (now : Z) (d : Dir) (accts : Accounts) (last_seq : Z)
  : res unit LedgerError (GlobalLedger RollingWal L) :=
  match op_add last_seq 1 with
  | Some next =>
      match rolling_new d next now with
      | Some w => Ok (mkGlobal accts (Some w) last_seq None) tt
      | None => Panic
      end
  | None => Panic
  end.

End open.
