(* ===== verification/LedgerWalProofs.v ===== *)
(** * The ledger's log, byte by byte

    What a segment holds after appends, what the reader makes of it, and what
    a ledger finds again when it is opened once and when it is opened twice. *)

From S2P Require Import Prelude Balance UserAccount Ledger LedgerCommit Bytes WalRecord LedgerWal.

#[local] Open Scope string_scope.
#[local] Open Scope list_scope.
#[local] Open Scope Z_scope.
#[local] Open Scope rust_scope.

(** ** Slices *)

Lemma slice_at pre x rest len :
  slice (zlen pre) (zlen x) (mkMapped (pre ++ x ++ rest) len) = x.
Proof.
  unfold slice. cbn [written]. rewrite !zlen_to_nat, drop_app_length, <- app_assoc.
  by rewrite take_app_length.
Qed.

Lemma mmap_read_at l len off n pre x rest :
  l = pre ++ x ++ rest -> off = zlen pre -> n = zlen x -> off + n <= len ->
  mmap_read off n (mkMapped l len) = Some x.
Proof.
  intros -> -> -> Hlen. unfold mmap_read. cbn [file_len].
  destruct (Z.leb_spec (zlen pre + zlen x) len); [|lia]. by rewrite slice_at.
Qed.

Lemma slice_zeros pre n rest len :
  0 <= n -> slice (zlen pre) n (mkMapped (pre ++ zeros (Z.to_nat n) ++ rest) len) = zeros (Z.to_nat n).
Proof.
  intros Hn. pose proof (slice_at pre (zeros (Z.to_nat n)) rest len) as Hs.
  replace (zlen (zeros (Z.to_nat n))) with n in Hs; [done|].
  rewrite zlen_eq. unfold zeros. rewrite length_replicate. lia.
Qed.

Lemma slice_beyond l n len : slice (zlen l) n (mkMapped l len) = zeros (Z.to_nat n).
Proof.
  unfold slice. cbn [written]. rewrite zlen_to_nat, drop_all. simpl. unfold zeros.
  by rewrite take_replicate, Nat.min_id.
Qed.

Lemma le_value_zeros n : le_value (zeros n) = 0.
Proof. unfold zeros. induction n as [|n IH]; simpl; [done|]. by rewrite IH. Qed.

Lemma overwrite_gap l k data : overwrite (length l + k) data l = l ++ zeros k ++ data.
Proof.
  unfold overwrite. replace (length l + k - length l)%nat with k by lia.
  rewrite drop_ge by lia. rewrite app_nil_r, take_ge, app_assoc; [done|].
  rewrite length_app. unfold zeros. rewrite length_replicate. lia.
Qed.

Section segments.
Context `{Crc32Laws} `{LedgerCodecLaws}.

(** ** Records *)

(** The bytes of one record. *)
Definition record_bytes (seq : Z) (b : list Z) : list Z :=
  le_bytes 4 (8 + zlen b) ++
  le_bytes 4 (crc32 (le_bytes 4 (8 + zlen b) ++ le_bytes 8 seq ++ b)) ++ le_bytes 8 seq ++ b.

Lemma record_bytes_length seq b : zlen (record_bytes seq b) = 16 + zlen b.
Proof. unfold record_bytes. rewrite !zlen_app, !zlen_eq, !le_bytes_length. lia. Qed.

(** A log of records the reader accepts. *)
Inductive log_bytes : list (Z * LedgerCommand) -> list Z -> Prop :=
  | log_nil : log_bytes [] []
  | log_cons seq cmd b entries l :
      is_u64 seq -> bincode_command cmd = Some b -> 8 + zlen b <= MAX_RECORD_SIZE ->
      log_bytes entries l -> log_bytes ((seq, cmd) :: entries) (record_bytes seq b ++ l).

Lemma log_snoc entries l seq cmd b :
  log_bytes entries l -> is_u64 seq -> bincode_command cmd = Some b -> 8 + zlen b <= MAX_RECORD_SIZE ->
  log_bytes (entries ++ [(seq, cmd)]) (l ++ record_bytes seq b).
Proof.
  induction 1 as [|seq' cmd' b' entries l ??? Hlog IH]; intros Hs Hb Hm.
  - rewrite <- (app_nil_r (record_bytes _ _)). simpl. by econstructor; [..|constructor].
  - rewrite <- app_assoc. simpl. econstructor; [done..|]. by apply IH.
Qed.

Lemma log_entries_length entries l : log_bytes entries l -> (length entries <= length l)%nat.
Proof.
  induction 1 as [|seq cmd b entries l ??? Hlog IH]; [done|]. pose proof (record_bytes_length seq b) as Hr.
  rewrite zlen_eq in Hr. pose proof (zlen_nonneg b). cbn [length]. rewrite length_app. lia.
Qed.

(** *** Reading one record *)

Lemma read_record pre seq cmd b rest len :
  is_u64 seq -> bincode_command cmd = Some b -> 8 + zlen b <= MAX_RECORD_SIZE ->
  zlen (pre ++ record_bytes seq b) <= len ->
  iterator_next (mkMapped (pre ++ record_bytes seq b ++ rest) len) (zlen pre) =
    NextItem seq cmd (zlen (pre ++ record_bytes seq b)).
Proof.
  intros Hseq Hb Hmax Hlen. rewrite zlen_app, record_bytes_length in Hlen |- *.
  pose proof (zlen_nonneg b). pose proof (zlen_nonneg pre).
  set (lb := le_bytes 4 (8 + zlen b)). set (sb := le_bytes 8 seq).
  set (crc := crc32 (lb ++ sb ++ b)). set (cb := le_bytes 4 crc).
  assert (Hrec : record_bytes seq b = lb ++ cb ++ sb ++ b) by done.
  assert (Hl : zlen lb = 4) by (unfold lb; by rewrite zlen_eq, le_bytes_length).
  assert (Hc : zlen cb = 4) by (unfold cb; by rewrite zlen_eq, le_bytes_length).
  assert (Hs : zlen sb = 8) by (unfold sb; by rewrite zlen_eq, le_bytes_length).
  assert (Hd : zlen (sb ++ b) = 8 + zlen b) by (rewrite zlen_app; lia).
  assert (Hvl : le_value lb = 8 + zlen b).
  { apply le_value_bytes. unfold MAX_RECORD_SIZE in Hmax. change (256 ^ Z.of_nat 4) with 4294967296. lia. }
  assert (Hvc : le_value cb = crc).
  { apply le_value_bytes. change (256 ^ Z.of_nat 4) with (2 ^ 32). apply crc32_u32. }
  assert (Hvs : le_value sb = seq) by by apply le_bytes_u64.
  assert (Hdef : crc32 (lb ++ sb ++ b) = crc) by done.
  rewrite Hrec. clear Hrec. clearbody lb crc cb sb.
  set (l := pre ++ (lb ++ cb ++ sb ++ b) ++ rest).
  assert (Hr4 : mmap_read (zlen pre) 4 (mkMapped l len) = Some lb).
  { apply (mmap_read_at l len _ _ pre lb ((cb ++ sb ++ b) ++ rest)); [|done|done|lia].
    unfold l. by rewrite <- !app_assoc. }
  assert (Hr8 : mmap_read (zlen pre + 4) 4 (mkMapped l len) = Some cb).
  { apply (mmap_read_at l len _ _ (pre ++ lb) cb ((sb ++ b) ++ rest)); [|rewrite zlen_app; lia|done|lia].
    unfold l. by rewrite <- !app_assoc. }
  assert (Hdata : mmap_read (zlen pre + 8) (8 + zlen b) (mkMapped l len) = Some (sb ++ b)).
  { apply (mmap_read_at l len _ _ (pre ++ lb ++ cb) (sb ++ b) rest); [|rewrite !zlen_app; lia|done|lia].
    unfold l. by rewrite <- !app_assoc. }
  unfold iterator_next, read_at. rewrite Hr4. cbv zeta. rewrite Hvl.
  destruct (Z.ltb_spec MAX_RECORD_SIZE (8 + zlen b)); [lia|].
  destruct (Z.eqb_spec (8 + zlen b) 0); [lia|].
  rewrite Hr8, Hdata, Hvc, Hdef, Z.eqb_refl. cbn [negb].
  destruct (Z.ltb_spec (8 + zlen b) 8); [lia|].
  rewrite zlen_eq in Hs. rewrite drop_app_length', take_app_length' by lia.
  rewrite (command_roundtrip cmd b Hb), Hvs. f_equal. lia.
Qed.

(** Behind the records, or in front of a hole, the reader stops. *)
Lemma read_end pre k rest len :
  (4 <= k)%nat \/ rest = [] ->
  iterator_next (mkMapped (pre ++ zeros k ++ rest) len) (zlen pre) = NextDone.
Proof.
  intros Hk. unfold iterator_next, read_at, mmap_read. cbn [file_len].
  destruct (Z.leb_spec (zlen pre + 4) len); [|done].
  replace (slice _ _ _) with (zeros 4); [by rewrite le_value_zeros|].
  unfold slice. cbn [written]. rewrite zlen_to_nat, drop_app_length.
  change (Z.to_nat 4) with 4%nat. unfold zeros. destruct Hk as [Hk|Hk].
  - replace k with (4 + (k - 4))%nat by lia. rewrite replicate_add, <- !app_assoc.
    rewrite take_app_length' by done. done.
  - subst rest. rewrite app_nil_r, <- replicate_add, take_replicate. f_equal. lia.
Qed.

Lemma read_log entries l pre k rest len fuel :
  log_bytes entries l -> (4 <= k)%nat \/ rest = [] -> zlen (pre ++ l) <= len ->
  (length entries < fuel)%nat ->
  read_items fuel (mkMapped (pre ++ l ++ zeros k ++ rest) len) (zlen pre) = (entries, EndOk).
Proof.
  intros Hlog Hk. revert pre fuel. induction Hlog as [|seq cmd b entries l Hs Hb Hm Hlog IH];
    intros pre fuel Hlen Hfuel; (destruct fuel as [|fuel]; [simpl in Hfuel; lia|]); cbn [read_items].
  - simpl. by rewrite read_end.
  - rewrite <- app_assoc. rewrite app_assoc, zlen_app in Hlen. pose proof (zlen_nonneg l).
    rewrite (read_record pre seq cmd b) by (done || lia). rewrite app_assoc.
    rewrite IH; [done|rewrite zlen_app; lia|simpl in Hfuel; lia].
Qed.

Lemma file_items_log entries l k rest len :
  log_bytes entries l -> (4 <= k)%nat \/ rest = [] -> zlen l <= len ->
  file_items (mkMapped (l ++ zeros k ++ rest) len) = (entries, EndOk).
Proof.
  intros Hlog Hk Hlen. unfold file_items. change 0 with (zlen (@nil Z)).
  apply (read_log entries l [] k rest len); [done|done|done|]. cbn [written].
  pose proof (log_entries_length _ _ Hlog). rewrite length_app. lia.
Qed.

(** ** Appending *)

(** The cursor is [k] bytes behind the last byte written. *)
Definition positioned (l : list Z) (k : nat) (s : WalSegment) : Prop :=
  written (mmap s) = l /\ cursor s = zlen l + Z.of_nat k /\ seg_len s = file_len (mmap s).

Lemma copy_in_at l k data s :
  positioned l k s -> cursor s + zlen data <= seg_len s ->
  exists s', copy_in data s = Ok tt s' /\ positioned (l ++ zeros k ++ data) 0 s' /\
    cursor s' = cursor s + zlen data /\ seg_len s' = seg_len s /\ current_path s' = current_path s.
Proof.
  intros (Hw & Hc & Hl) Hfit. unfold copy_in, bind, get, unwrap, mmap_write.
  rewrite <- Hl. destruct (Z.leb_spec (cursor s + zlen data) (seg_len s)); [|lia].
  eexists. split; [done|]. split; [|done]. split; [|split].
  - simpl. rewrite Hw, Hc. replace (Z.to_nat (zlen l + Z.of_nat k)) with (length l + k)%nat by (rewrite zlen_eq; lia).
    apply overwrite_gap.
  - simpl. rewrite !zlen_app, Hc. unfold zeros. rewrite (zlen_eq (replicate _ _)), length_replicate. lia.
  - done.
Qed.

(** An append writes one record where the cursor is, or leaves the segment as
    it was; it never writes past the end of the mapping. *)
Lemma segment_append_at seq cmd l k s :
  positioned l k s ->
  match segment_append seq cmd s with
  | Ok _ s' => exists b, bincode_command cmd = Some b /\
      positioned (l ++ zeros k ++ record_bytes seq b) 0 s' /\ cursor s' <= seg_len s' /\
      seg_len s' = seg_len s /\ current_path s' = current_path s
  | Err _ s' => s' = s /\ forall b, bincode_command cmd = Some b -> seg_len s < cursor s + 16 + zlen b
  | Panic => False
  end.
Proof.
  intros Hpos. unfold segment_append. unfold bind at 1, ok_or.
  destruct (bincode_command cmd) as [b|]; [|by split].
  unfold ret at 1, bind at 1, get. cbv zeta.
  destruct (Z.ltb_spec (seg_len s) (cursor s + 8 + (8 + zlen b))) as [Hfull|Hfit].
  { split; [done|]. intros ? [= <-]. lia. }
  set (lb := le_bytes 4 (8 + zlen b)). set (sb := le_bytes 8 seq).
  set (cb := le_bytes 4 (crc32 (lb ++ sb ++ b))).
  assert (Hl : zlen lb = 4) by (unfold lb; by rewrite zlen_eq, le_bytes_length).
  assert (Hc : zlen cb = 4) by (unfold cb; by rewrite zlen_eq, le_bytes_length).
  assert (Hs : zlen sb = 8) by (unfold sb; by rewrite zlen_eq, le_bytes_length).
  assert (Hrec : record_bytes seq b = lb ++ cb ++ sb ++ b) by done.
  clearbody lb cb sb. unfold bind. pose proof (zlen_nonneg b).
  destruct (copy_in_at l k lb s Hpos) as (s1 & -> & P1 & C1 & L1 & N1); [lia|].
  destruct (copy_in_at _ _ cb s1 P1) as (s2 & -> & P2 & C2 & L2 & N2); [lia|].
  destruct (copy_in_at _ _ sb s2 P2) as (s3 & -> & P3 & C3 & L3 & N3); [lia|].
  destruct (copy_in_at _ _ b s3 P3) as (s4 & -> & P4 & C4 & L4 & N4); [lia|].
  exists b. rewrite Hrec. split; [done|]. simpl in P4. rewrite <- !app_assoc in P4.
  destruct P4 as (Hw & Hcur & Hlen). simpl. split; [by split|]. split; [lia|]. split; congruence.
Qed.

(** ** Reopening *)

(** [open_existing] takes the length field for that of the payload alone,
    although it counts the sequence number too: behind one record it places
    the cursor 8 bytes too far. *)
Lemma open_after_one path seq b len :
  8 + zlen b <= MAX_RECORD_SIZE -> zlen (record_bytes seq b) + 8 <= len ->
  exists s, open_existing path (mkMapped (record_bytes seq b) len) = Some s /\
    mmap s = mkMapped (record_bytes seq b) len /\ positioned (record_bytes seq b) 8 s /\
    seg_len s = len /\ current_path s = path.
Proof.
  intros Hmax Hlen. pose proof (record_bytes_length seq b) as Hr. pose proof (zlen_nonneg b).
  set (r := record_bytes seq b) in *. set (f := mkMapped r len).
  assert (Hfuel : exists n, length r = S n).
  { rewrite zlen_eq in Hr. destruct (length r) as [|n]; [lia|by exists n]. }
  destruct Hfuel as [n Hn]. unfold open_existing. cbn [written f]. rewrite Hn.
  assert (Hfirst : mmap_read 0 4 f = Some (le_bytes 4 (8 + zlen b))).
  { apply (mmap_read_at r len 0 4 [] _ (drop 4 r)); [|done|by rewrite zlen_eq, le_bytes_length|lia].
    by rewrite <- (take_drop 4 r) at 1. }
  assert (Hval : le_value (le_bytes 4 (8 + zlen b)) = 8 + zlen b).
  { apply le_value_bytes. unfold MAX_RECORD_SIZE in Hmax. change (256 ^ Z.of_nat 4) with 4294967296. lia. }
  set (total := 8 + 8 + (8 + zlen b)). assert (Htot : total = zlen r + 8) by (unfold total; lia).
  assert (Hread : mmap_read 0 total f = Some (slice 0 total f)).
  { unfold mmap_read. cbn [file_len f]. by destruct (Z.leb_spec (0 + total) len); [|lia]. }
  set (fuel := S n). cbn [scan_records]. unfold fuel. clear fuel.
  cbn [file_len f]. destruct (Z.ltb_spec (0 + 8) len); [|lia].
  rewrite Hfirst, Hval. destruct (Z.eqb_spec (8 + zlen b) 0); [lia|].
  destruct (Z.ltb_spec len (0 + 8 + (8 + zlen b))); [lia|]. fold total. rewrite Hread.
  assert (Hend : scan_records (S n) f (0 + total) ([] ++ slice 0 total f) =
    Some (total, slice 0 total f)).
  { cbn [scan_records file_len f]. destruct (Z.ltb_spec (0 + total + 8) len); [|done].
    unfold mmap_read. cbn [file_len f]. destruct (Z.leb_spec (0 + total + 4) len); [|lia].
    replace (slice (0 + total) 4 f) with (zeros 4); [by rewrite le_value_zeros|].
    unfold slice. cbn [written f]. rewrite drop_ge by (rewrite zlen_eq in *; lia). done. }
  rewrite Hend. eexists. split; [done|]. split; [done|]. split; [|done]. split; [done|].
  split; [|done]. cbn [cursor]. lia.
Qed.

(** ** A log of one segment *)

Context `{ReadDirLaws}.

Lemma read_dir_empty {A} : read_dir (∅ : gmap string A) = [].
Proof.
  pose proof (read_dir_names A ∅) as Hp. rewrite map_to_list_empty in Hp.
  by apply Permutation_nil_r in Hp.
Qed.

Lemma read_dir_single {A} name (f : A) : read_dir ({[name := f]} : gmap string A) = [name].
Proof.
  pose proof (read_dir_names A {[name := f]}) as Hp. rewrite map_to_list_singleton in Hp.
  by apply Permutation_singleton_r in Hp.
Qed.

(** The first segment of a ledger that starts from nothing. *)
Definition first_name : string := wal_name 1.

Lemma parse_first : parse_wal_name first_name = Some 1.
Proof. by vm_compute. Qed.

Lemma list_first f : list_wals {[first_name := f]} = [(1, first_name)].
Proof. unfold list_wals. rewrite read_dir_single. cbn [omap list_omap]. by rewrite parse_first. Qed.

Lemma latest_first f : find_latest_wal {[first_name := f]} = Some first_name.
Proof. unfold find_latest_wal. by rewrite list_first. Qed.

Lemma replay_first f min_seq : replay_files {[first_name := f]} min_seq = [f].
Proof.
  unfold replay_files. rewrite list_first. cbn [partition_point fst].
  destruct (1 <=? min_seq); cbn [Nat.pred drop omap list_omap snd]; by rewrite lookup_singleton_eq.
Qed.

(** The log is the first segment, positioned, and not due to be rolled. *)
Record single (l : list Z) (k : nat) (w : RollingWal) : Prop := {
  single_seg : exists s, current_segment w = Some s /\ wal_dir w = {[first_name := mmap s]} /\
    positioned l k s /\ current_path s = first_name /\ seg_len s = WAL_MAX_SIZE;
  single_time : saturating_sub (now w) (last_roll_time w) < WAL_ROLL_TIME
}.

Lemma single_append l k w seq cmd b :
  single l k w -> bincode_command cmd = Some b ->
  zlen l + Z.of_nat k + 16 + zlen b <= WAL_MAX_SIZE ->
  exists w', rolling_append seq cmd w = Ok tt w' /\ single (l ++ zeros k ++ record_bytes seq b) 0 w'.
Proof.
  intros [(s & Hs & Hd & Hpos & Hpath & Hlen) Ht] Hb Hfit. unfold rolling_append.
  unfold bind, get. destruct (Z.leb_spec WAL_ROLL_TIME (saturating_sub (now w) (last_roll_time w))); [lia|].
  cbn [ret]. unfold append_to_current, zoom. rewrite Hs.
  pose proof (segment_append_at seq cmd l k s Hpos) as Happ.
  destruct (segment_append seq cmd s) as [[] s'|e s'|]; [|exfalso|done].
  - destruct Happ as (b' & Hb' & Hpos' & _ & Hlen' & Hpath'). assert (b' = b) as -> by congruence.
    eexists. split; [done|]. split; [|done]. exists s'. split; [done|]. split; [|split; [done|]].
    + simpl. rewrite Hd, Hpath', Hpath. apply insert_singleton_eq.
    + split; congruence.
  - destruct Happ as [_ Hfull]. specialize (Hfull b Hb). destruct Hpos as (_ & Hc & _). lia.
Qed.

(** Opening a log in an empty directory. *)
Lemma rolling_new_fresh t :
  exists w, rolling_new ∅ 1 t = Some w /\ single [] 0 w.
Proof.
  unfold rolling_new, find_latest_wal, list_wals. rewrite read_dir_empty. simpl.
  eexists. split; [done|]. split; [|simpl; unfold saturating_sub, WAL_ROLL_TIME; lia].
  eexists. split; [done|]. split; [apply insert_empty|]. rewrite lookup_empty. split; [|done].
  by split.
Qed.

Lemma rolling_new_after_one seq b len t start :
  8 + zlen b <= MAX_RECORD_SIZE -> len = WAL_MAX_SIZE ->
  exists w, rolling_new {[first_name := mkMapped (record_bytes seq b) len]} start t = Some w /\
    single (record_bytes seq b) 8 w.
Proof.
  intros Hmax ->. pose proof (record_bytes_length seq b).
  destruct (open_after_one first_name seq b WAL_MAX_SIZE Hmax) as (s & Hopen & Hm & Hpos & Hl & Hp).
  { unfold MAX_RECORD_SIZE, WAL_MAX_SIZE in *. lia. }
  unfold rolling_new. rewrite latest_first, lookup_singleton_eq, Hopen. simpl.
  eexists. split; [done|]. split; [|simpl; unfold saturating_sub, WAL_ROLL_TIME; lia].
  exists s. rewrite Hm. by split_and!.
Qed.

(** ** Sessions of a ledger *)

Context {bp : BuildProfile} `{LedgerListener L}.
Implicit Types g : GlobalLedger RollingWal L.

(** The log behind accepted appends: the same log if there were none, else
    the new records behind the hole. *)
Definition grown_bytes (cmds : list LedgerCommand) (l : list Z) (k : nat) (lx : list Z) : list Z :=
  match cmds with [] => l | _ => l ++ zeros k ++ lx end.

Definition grown_hole (cmds : list LedgerCommand) (k : nat) : nat :=
  match cmds with [] => k | _ => 0 end.

(** With room for all of them the log takes all the appends. *)
Lemma append_all_single cmds : forall l k n w lx,
  single l k w -> log_bytes (numbered n cmds) lx -> zlen l + Z.of_nat k + zlen lx <= WAL_MAX_SIZE ->
  exists w', append_all (numbered n cmds) w = Ok tt w' /\
    single (grown_bytes cmds l k lx) (grown_hole cmds k) w'.
Proof.
  induction cmds as [|cmd cmds IH]; intros l k n w lx Hsingle Hlog Hfit; [by exists w|].
  cbn [numbered] in *. inversion Hlog as [|seq' cmd' b entries ly Hseq Hb Hrec Hlog']; subst.
  rewrite zlen_app, record_bytes_length in Hfit. pose proof (zlen_nonneg ly).
  destruct (single_append l k w (n + 1) cmd b Hsingle Hb ltac:(lia)) as (w1 & Ha & Hsingle1).
  destruct (IH _ _ (n + 1) w1 ly Hsingle1 Hlog') as (w' & Hall & Hsingle').
  { rewrite !zlen_app, record_bytes_length. unfold zeros at 1.
    rewrite (zlen_eq (replicate _ _)), length_replicate. lia. }
  exists w'. unfold append_all in *. cbn [iter fst snd wal_append rolling_wal] in *. unfold bind. rewrite Ha. split; [done|].
  destruct cmds as [|cmd2 cmds]; simpl in *.
  - inversion Hlog'; subst. by rewrite app_nil_r.
  - by rewrite <- !app_assoc in Hsingle'.
Qed.

(** A run of accepted requests, single commands and batches, on a log of one
    segment with room for all of them. *)
Lemma session rs l k g w lx g' :
  let cmds := concat (map request_cmds rs) in
  wal g = Some w -> single l k w -> 0 <= last_seq g ->
  log_bytes (numbered (last_seq g) cmds) lx -> zlen l + Z.of_nat k + zlen lx <= WAL_MAX_SIZE ->
  last_seq g + Z.of_nat (length cmds) <= u64_max ->
  iter submit rs g = Ok tt g' ->
  exists w', wal g' = Some w' /\ single (grown_bytes cmds l k lx) (grown_hole cmds k) w' /\
    iter apply_transaction cmds (accounts g) = Ok tt (accounts g') /\
    last_seq g' = last_seq g + Z.of_nat (length cmds).
Proof.
  intros cmds Hw Hsingle Hs Hlog Hfit Hmax Hrun.
  destruct (submits_inv rs g g' w Hw Hs Hmax Hrun) as (w' & Hall & Hw' & Happ & Hseq).
  destruct (append_all_single cmds l k (last_seq g) w lx Hsingle Hlog Hfit) as (w1 & Hall1 & Hs1).
  fold cmds in Hall. rewrite Hall1 in Hall. injection Hall as ->. by exists w'.
Qed.

Lemma no_snapshot : load_snapshot ∅ = Some None.
Proof. unfold load_snapshot, find_latest_snapshot. by rewrite read_dir_empty. Qed.

(** Opening, once the content of the only segment is known. *)
Lemma open_first t f entries :
  file_items f = (entries, EndOk) ->
  ledger_open (L := L) t {[first_name := f]} ∅ =
  match iter replay_entry entries (∅, 0) with
  | Ok _ (accts, seq) =>
      match op_add seq 1 with
      | Some next =>
          match rolling_new {[first_name := f]} next t with
          | Some w => Ok (mkGlobal accts (Some w) seq None) tt
          | None => Panic
          end
      | None => Panic
      end
  | Err e _ => Err e tt
  | Panic => Panic
  end.
Proof.
  intros Hf. unfold ledger_open. rewrite no_snapshot, replay_first. cbn [chain_items]. rewrite Hf.
  rewrite app_nil_r. by destruct (iter replay_entry entries (∅, 0)) as [? []| |].
Qed.

Lemma open_fresh t :
  exists w, ledger_open (L := L) t ∅ ∅ = Ok (mkGlobal ∅ (Some w) 0 None) tt /\ single [] 0 w.
Proof.
  destruct (rolling_new_fresh t) as (w & Hw & Hs). exists w. split; [|done].
  unfold ledger_open. rewrite no_snapshot. unfold replay_files, list_wals. rewrite read_dir_empty.
  cbn [omap list_omap sort_by_key foldr drop chain_items iter snd partition_point Nat.pred].
  unfold ret, op_add. rewrite u64_op_exact by ulia. change (0 + 1) with 1. by rewrite Hw.
Qed.

(** The same for single commands. *)
Lemma session_cmds cmds l k g w lx g' :
  wal g = Some w -> single l k w -> 0 <= last_seq g ->
  log_bytes (numbered (last_seq g) cmds) lx -> zlen l + Z.of_nat k + zlen lx <= WAL_MAX_SIZE ->
  last_seq g + Z.of_nat (length cmds) <= u64_max ->
  iter global_apply cmds g = Ok tt g' ->
  exists w', wal g' = Some w' /\ single (grown_bytes cmds l k lx) (grown_hole cmds k) w' /\
    iter apply_transaction cmds (accounts g) = Ok tt (accounts g') /\
    last_seq g' = last_seq g + Z.of_nat (length cmds).
Proof.
  pose proof (session (map One cmds) l k g w lx g') as Hs. cbv zeta in Hs.
  by rewrite request_cmds_one, iter_submit_one in Hs.
Qed.

(** What the first session leaves behind. *)
Lemma first_session t rs lx g0 g1 :
  let cmds := concat (map request_cmds rs) in
  ledger_open (L := L) t ∅ ∅ = Ok g0 tt -> iter submit rs g0 = Ok tt g1 ->
  log_bytes (numbered 0 cmds) lx -> zlen lx <= WAL_MAX_SIZE -> Z.of_nat (length cmds) < u64_max ->
  exists w1, wal g1 = Some w1 /\ single lx 0 w1 /\
    iter apply_transaction cmds ∅ = Ok tt (accounts g1) /\ last_seq g1 = Z.of_nat (length cmds).
Proof.
  intros cmds H0open Hrun Hlog Hfit Hcount. destruct (open_fresh t) as (w0 & Ho & Hs0).
  rewrite Ho in H0open. injection H0open as <-.
  destruct (session rs [] 0 (mkGlobal ∅ (Some w0) 0 None) w0 lx g1 eq_refl Hs0) as (w1 & Hw1 & Hs1 & Happ & Hseq);
    [done|done|done|cbn [last_seq]; fold cmds; lia|done|]. fold cmds in Hs1, Happ, Hseq.
  exists w1. split; [done|]. split; [|split; [exact Happ|rewrite Hseq; cbn [last_seq]; lia]].
  clearbody cmds. destruct cmds; [|done]. by inversion Hlog; subst.
Qed.

(** What a ledger finds in its only segment. *)
Lemma single_file l k w :
  single l k w -> exists w_len, wal_dir w = {[first_name := mkMapped l w_len]} /\ w_len = WAL_MAX_SIZE.
Proof.
  intros [(s & _ & -> & (Hw & _ & Hl) & _ & Hlen) _]. exists (file_len (mmap s)).
  split; [|congruence]. do 2 f_equal. destruct (mmap s); simpl in *. by f_equal.
Qed.

(** C4: a first session is durable, up to the cursor.  Open a ledger in empty
    directories and let it accept any requests, single commands and batches,
    within one rolling interval, so that the log is its first segment; let the
    records of the commands be of the size the reader takes (10 MiB) and fit
    that segment.  When it is opened again, the replay reads exactly these
    commands, and the accounts and the sequence number it rebuilds are those of
    the running ledger: the opening never fails with an error, and it returns
    that ledger unless the scan that places the cursor behind the log, which
    misreads the records' lengths, panics. *)
Theorem first_session_recovered t t' rs lx g0 g1 :
  ledger_open (L := L) t ∅ ∅ = Ok g0 tt -> iter submit rs g0 = Ok tt g1 ->
  log_bytes (numbered 0 (concat (map request_cmds rs))) lx -> zlen lx <= WAL_MAX_SIZE ->
  Z.of_nat (length (concat (map request_cmds rs))) < u64_max ->
  exists w1, wal g1 = Some w1 /\
    chain_items (replay_files (wal_dir w1) 0) = (numbered 0 (concat (map request_cmds rs)), EndOk) /\
    iter replay_entry (numbered 0 (concat (map request_cmds rs))) (∅, 0)
      = Ok tt (accounts g1, last_seq g1) /\
    ledger_open (L := L) t' (wal_dir w1) ∅ =
    match rolling_new (wal_dir w1) (last_seq g1 + 1) t' with
    | Some w2 => Ok (mkGlobal (accounts g1) (Some w2) (last_seq g1) None) tt
    | None => Panic
    end.
Proof.
  intros H0open Hrun Hlog Hfit Hcount.
  destruct (first_session t rs lx g0 g1 H0open Hrun Hlog Hfit Hcount) as (w1 & Hw1 & Hs1 & Happ & Hseq).
  exists w1. split; [done|]. destruct (single_file _ _ _ Hs1) as (len & -> & ->).
  set (cmds := concat _) in *.
  assert (Hitems : file_items (mkMapped lx WAL_MAX_SIZE) = (numbered 0 cmds, EndOk)).
  { rewrite <- (app_nil_r lx). apply (file_items_log _ _ 0 []); [done|by right|done]. }
  assert (Hrep : iter replay_entry (numbered 0 cmds) (∅, 0) = Ok tt (accounts g1, last_seq g1)).
  { rewrite replay_numbered by lia. by rewrite Happ, Hseq. }
  split; [|split; [done|]].
  - rewrite replay_first. cbn [chain_items]. rewrite Hitems. by rewrite app_nil_r.
  - rewrite (open_first t' _ _ Hitems), Hrep. unfold op_add. rewrite u64_op_exact by ulia. done.
Qed.

(** A refused command poisons the log.  [GlobalLedger::apply] writes the
    command to the log before it validates it: a command the accounts refuse
    (a withdrawal beyond the balance) is answered with an error, and the next
    start fails with it. *)
Theorem refused_apply_poisons_log t t' rs cmd b e a lx g0 g1 :
  ledger_open (L := L) t ∅ ∅ = Ok g0 tt -> iter submit rs g0 = Ok tt g1 ->
  log_bytes (numbered 0 (concat (map request_cmds rs))) lx ->
  bincode_command cmd = Some b -> 8 + zlen b <= MAX_RECORD_SIZE -> zlen lx + 16 + zlen b <= WAL_MAX_SIZE ->
  Z.of_nat (length (concat (map request_cmds rs))) < u64_max ->
  apply_transaction cmd (accounts g1) = Err e a ->
  exists g2 w2, global_apply cmd g1 = Err e g2 /\ wal g2 = Some w2 /\ last_seq g2 = last_seq g1 /\
    ledger_open (L := L) t' (wal_dir w2) ∅ = Err e tt.
Proof.
  intros H0open Hrun Hlog Hb Hrec Hfit Hcount Hrefused. pose proof (zlen_nonneg b).
  destruct (first_session t rs lx g0 g1 H0open Hrun Hlog ltac:(lia) Hcount) as (w1 & Hw1 & Hs1 & Happ & Hseq).
  set (cmds := concat _) in *.
  destruct (single_append lx 0 w1 (last_seq g1 + 1) cmd b Hs1 Hb ltac:(lia)) as (w2 & Ha & Hs2).
  change (zeros 0 ++ ?r) with r in Hs2.
  eexists _, w2. split; [eapply (global_apply_refused cmd g1 w1); [done|lia|lia|exact Ha|exact Hrefused]|].
  split; [done|]. split; [done|]. destruct (single_file _ _ _ Hs2) as (len & -> & ->).
  assert (Hlog2 : log_bytes (numbered 0 (cmds ++ [cmd])) (lx ++ record_bytes (last_seq g1 + 1) b)).
  { rewrite numbered_app. cbn [numbered]. rewrite Z.add_0_l, <- Hseq. apply log_snoc; [done|ulia|done..]. }
  rewrite (open_first t' _ (numbered 0 (cmds ++ [cmd]))).
  - rewrite numbered_app, iter_app. unfold bind. rewrite replay_numbered by lia. rewrite Happ.
    cbn [numbered iter]. unfold bind. rewrite replay_next by lia. by rewrite Hrefused.
  - rewrite <- (app_nil_r (_ ++ _)). apply (file_items_log _ _ 0 []); [done|by right|].
    rewrite zlen_app, record_bytes_length. lia.
Qed.

(** Behind a hole the reader sees nothing. *)
Lemma first_record_only cmd b rest :
  bincode_command cmd = Some b -> 8 + zlen b <= MAX_RECORD_SIZE ->
  rest = [] \/ (exists x, rest = zeros 8 ++ x) ->
  log_bytes (numbered 0 [cmd]) (record_bytes 1 b) /\
  file_items (mkMapped (record_bytes 1 b ++ rest) WAL_MAX_SIZE) = (numbered 0 [cmd], EndOk).
Proof.
  intros Hb Hmax Hrest. pose proof (zlen_nonneg b). pose proof (record_bytes_length 1 b).
  assert (Hlog : log_bytes (numbered 0 [cmd]) (record_bytes 1 b)).
  { rewrite <- (app_nil_r (record_bytes 1 b)). by econstructor; [ulia|..|constructor]. }
  split; [done|]. unfold MAX_RECORD_SIZE, WAL_MAX_SIZE in *. destruct Hrest as [->|[x ->]].
  - apply (file_items_log _ _ 0 []); [done|by right|lia].
  - apply (file_items_log _ _ 8 x); [done|left; lia|lia].
Qed.

(** A restart hides what follows.  A ledger that has accepted one command,
    is opened again and accepts any further commands has them in memory and,
    behind a hole of 8 zero bytes, in its file; opened a third time it is back
    at the state after the first command, without an error. *)
Theorem restart_hides_commands t t' t'' cmd cmds b lx g0 g1 w1 g2 g3 w3 :
  ledger_open (L := L) t ∅ ∅ = Ok g0 tt -> global_apply cmd g0 = Ok tt g1 -> wal g1 = Some w1 ->
  bincode_command cmd = Some b -> 8 + zlen b <= MAX_RECORD_SIZE ->
  ledger_open (L := L) t' (wal_dir w1) ∅ = Ok g2 tt -> iter global_apply cmds g2 = Ok tt g3 -> wal g3 = Some w3 ->
  log_bytes (numbered 1 cmds) lx -> zlen b + zlen lx + 24 <= WAL_MAX_SIZE -> Z.of_nat (length cmds) + 1 < u64_max ->
  iter apply_transaction cmds (accounts g1) = Ok tt (accounts g3) /\
  match ledger_open (L := L) t'' (wal_dir w3) ∅ with
  | Ok g4 _ => accounts g4 = accounts g1 /\ last_seq g4 = 1
  | Err _ _ => False
  | Panic => rolling_new (wal_dir w3) 2 t'' = None
  end.
Proof.
  intros H0open Hone Hw1 Hb Hmax H2open Hrun Hw3 Hlog Hfit Hcount.
  destruct (open_fresh t) as (w0 & Ho & Hs0). rewrite Ho in H0open. injection H0open as <-.
  pose proof (zlen_nonneg lx). pose proof (zlen_nonneg b).
  destruct (first_record_only cmd b [] Hb Hmax (or_introl eq_refl)) as [Hlog1 H1f]. rewrite app_nil_r in H1f.
  destruct (session_cmds [cmd] [] 0 (mkGlobal ∅ (Some w0) 0 None) w0 (record_bytes 1 b) g1 eq_refl Hs0) as (w1' & Hw1' & Hs1 & Happ1 & Hseq1);
    [done|done|rewrite record_bytes_length; change (zlen []) with 0; lia|simpl; ulia|by cbn [iter]; unfold bind; rewrite Hone|].
  assert (w1' = w1) as -> by congruence.
  cbn [grown_bytes grown_hole app zeros replicate accounts last_seq] in *.
  destruct (single_file _ _ _ Hs1) as (len & Hd1 & ->). rewrite Hd1 in H2open.
  assert (Happ0 : iter replay_entry (numbered 0 [cmd]) (∅, 0) = Ok tt (accounts g1, 1)).
  { rewrite replay_numbered by (simpl; ulia). by rewrite Happ1. }
  rewrite (open_first t' _ _ H1f), Happ0 in H2open. unfold op_add in H2open.
  rewrite u64_op_exact in H2open by ulia.
  destruct (rolling_new_after_one 1 b WAL_MAX_SIZE t' 2 Hmax eq_refl) as (w2 & Hr2 & Hs2).
  change (1 + 1) with 2 in H2open. rewrite Hr2 in H2open. injection H2open as <-.
  destruct (session_cmds cmds _ _ (mkGlobal (accounts g1) (Some w2) 1 None) w2 lx g3 eq_refl Hs2) as (w3' & Hw3' & Hs3 & Happ3 & Hseq3);
    [simpl; lia|done|rewrite record_bytes_length; lia|cbn [last_seq]; lia|done|].
  assert (w3' = w3) as -> by congruence. split; [done|].
  destruct (single_file _ _ _ Hs3) as (len & -> & ->).
  rewrite (open_first t'' _ (numbered 0 [cmd])).
  - rewrite Happ0. unfold op_add. rewrite u64_op_exact by ulia. change (1 + 1) with 2.
    by destruct (rolling_new _ 2 t'').
  - destruct cmds; [exact H1f|]. apply first_record_only; [done|done|right; by exists lx].
Qed.
End segments.

(** ** A concrete ledger *)

Module Concrete.
#[export] Instance sum_crc : Crc32 := fun l => foldr Z.add 0 l mod 2 ^ 32.

#[export] Instance sum_crc_laws : Crc32Laws.
Proof. intros l. by apply Z.mod_pos_bound. Qed.

(** Deposits and withdrawals of small numbers, a byte each. *)
Definition encode (cmd : LedgerCommand) : option (list Z) :=
  match cmd with
  | LedgerCommand.Deposit u a m x v =>
      if bool_decide (Forall (fun b => 0 <= b < 256) [u; a; m; x; v]) then Some [u; a; m; x; v] else None
  | LedgerCommand.Withdraw u a m x v =>
      if bool_decide (Forall (fun b => 0 <= b < 256) [u; a; m; x; v]) then Some [1; u; a; m; x; v] else None
  | _ => None
  end.

Definition decode (l : list Z) : option LedgerCommand :=
  match l with
  | [u; a; m; x; v] => Some (LedgerCommand.Deposit u a m x v)
  | [_; u; a; m; x; v] => Some (LedgerCommand.Withdraw u a m x v)
  | _ => None
  end.

#[export] Instance small_commands : LedgerCodec := {|
  bincode_command := encode;
  debincode_command := decode;
  bincode_snapshot _ := None;
  debincode_snapshot _ := None;
  md5_hex _ := "md5"
|}.

#[export] Instance small_commands_laws : LedgerCodecLaws.
Proof.
  split; [|done]. intros cmd l. simpl. unfold encode. destruct cmd; try done;
    (case_bool_decide; [|done]); by intros [= <-].
Qed.

#[export] Instance listing : ReadDir := fun A d => fst <$> map_to_list d.

#[export] Instance listing_laws : ReadDirLaws.
Proof. by intros A d. Qed.

#[local] Existing Instance debug_profile.

Abbreviation Db := (GlobalLedger RollingWal unit).

Definition state_or (g : Db) {E} (r : res E LedgerError Db) : Db := match r with Ok g' _ => g' | _ => g end.
Definition run_or (g : Db) (r : res Db LedgerError unit) : Db := match r with Ok _ g' => g' | _ => g end.
Definition dir_of (g : Db) : Dir := match wal g with Some w => wal_dir w | None => ∅ end.

Definition nothing : Db := mkGlobal ∅ None 0 None.
Definition pay (m : Z) : LedgerCommand := LedgerCommand.Deposit 7 2 m 0 0.

Definition fresh : Db := state_or nothing (ledger_open 0 ∅ ∅).
Definition requests : list request := [One (pay 50); Many [pay 30; pay 5]].
Definition paid : Db := run_or fresh (iter submit requests fresh).

(** One deposit, a restart, another deposit. *)
Definition paid_once : Db := run_or fresh (global_apply (pay 50) fresh).
Definition restarted : Db := state_or nothing (ledger_open 0 (dir_of paid_once) ∅).
Definition paid_twice : Db := run_or restarted (iter global_apply [pay 30] restarted).
Definition restarted_again : Db := state_or nothing (ledger_open 0 (dir_of paid_twice) ∅).

Definition deposit_bytes (n m : Z) : list Z := record_bytes n [7; 2; m; 0; 0].

Lemma log_pay n m entries l :
  is_u64 n -> 0 <= m < 256 -> log_bytes entries l -> log_bytes ((n, pay m) :: entries) (deposit_bytes n m ++ l).
Proof.
  intros Hn Hm Hl. apply log_cons; [done| |by vm_compute|done].
  simpl. unfold encode. rewrite bool_decide_eq_true_2; [done|]. repeat (apply Forall_cons; split; [lia|]). done.
Qed.
End Concrete.

Section witnesses.
Import Concrete.
#[local] Existing Instance debug_profile.

Definition paid_log : list Z := deposit_bytes 1 50 ++ deposit_bytes 2 30 ++ deposit_bytes 3 5 ++ [].

Lemma log_paid : log_bytes (numbered 0 (concat (map request_cmds requests))) paid_log.
Proof.
  apply log_pay; [ulia|lia|]. apply log_pay; [ulia|lia|]. apply log_pay; [ulia|lia|]. constructor.
Qed.

Lemma first_session_recovered_witness :
  exists w1, wal paid = Some w1 /\ last_seq paid = 3 /\
    read_field avail (accounts paid) 7 2 = 85 /\
    ledger_open (L := unit) 9 (wal_dir w1) ∅ =
    match rolling_new (wal_dir w1) 4 9 with
    | Some w2 => Ok (mkGlobal (accounts paid) (Some w2) 3 None) tt
    | None => Panic
    end.
Proof.
  destruct (first_session_recovered 0 9 requests paid_log fresh paid) as (w1 & Hw1 & _ & _ & Hopen).
  - vm_compute. reflexivity.
  - vm_compute. reflexivity.
  - exact log_paid.
  - vm_compute. discriminate.
  - vm_compute. reflexivity.
  - exists w1. split; [exact Hw1|]. split; [vm_compute; reflexivity|]. split; [vm_compute; reflexivity|].
    exact Hopen.
Defined.

(** A withdrawal of more than there is. *)
Definition overdraw : LedgerCommand := LedgerCommand.Withdraw 7 2 200 0 0.

Lemma refused_apply_poisons_log_witness :
  exists g2 w2, global_apply overdraw paid = Err (WithdrawFailed 7 2) g2 /\ wal g2 = Some w2 /\
    last_seq g2 = 3 /\ ledger_open (L := unit) 9 (wal_dir w2) ∅ = Err (WithdrawFailed 7 2) tt.
Proof.
  destruct (apply_transaction overdraw (accounts paid)) as [[] a|e a|] eqn:Happ;
    [vm_compute in Happ; discriminate| |vm_compute in Happ; discriminate].
  assert (e = WithdrawFailed 7 2) as -> by (vm_compute in Happ; congruence).
  destruct (refused_apply_poisons_log 0 9 requests overdraw [1; 7; 2; 200; 0; 0] (WithdrawFailed 7 2) a
    paid_log fresh paid) as (g2 & w2 & Hr & Hw2 & Hseq & Hopen).
  - vm_compute. reflexivity.
  - vm_compute. reflexivity.
  - exact log_paid.
  - vm_compute. reflexivity.
  - vm_compute. discriminate.
  - vm_compute. discriminate.
  - vm_compute. reflexivity.
  - exact Happ.
  - exists g2, w2. split; [exact Hr|]. split; [exact Hw2|]. split; [exact Hseq|exact Hopen].
Defined.

Lemma restart_hides_commands_witness :
  read_field avail (accounts paid_twice) 7 2 = 80 /\
  match ledger_open (L := unit) 0 (dir_of paid_twice) ∅ with
  | Ok g4 _ => accounts g4 = accounts paid_once /\ last_seq g4 = 1
  | Err _ _ => False
  | Panic => rolling_new (dir_of paid_twice) 2 0 = None
  end.
Proof.
  split; [vm_compute; reflexivity|].
  destruct (wal paid_once) as [w1|] eqn:H1; [|vm_compute in H1; discriminate].
  destruct (wal paid_twice) as [w3|] eqn:H3; [|vm_compute in H3; discriminate].
  pose proof (restart_hides_commands 0 0 0 (pay 50) [pay 30] [7; 2; 50; 0; 0] (deposit_bytes 2 30 ++ [])
    fresh paid_once w1 restarted paid_twice w3) as Hthm.
  unfold dir_of. rewrite H3. apply Hthm; [| |exact H1| | | | |exact H3| | |].
  - vm_compute. reflexivity.
  - vm_compute. reflexivity.
  - vm_compute. reflexivity.
  - vm_compute. discriminate.
  - assert (Hd : wal_dir w1 = dir_of paid_once) by (unfold dir_of; by rewrite H1). rewrite Hd.
    vm_compute. reflexivity.
  - vm_compute. reflexivity.
  - apply log_pay; [ulia|lia|]. constructor.
  - vm_compute. discriminate.
  - vm_compute. reflexivity.
Defined.
End witnesses.
