(* ===== verification/UbsWal.v ===== *)
(** * The balance authority's log ([src/src/ubs_core/wal/])

    The write buffer ([aligned_buffer.rs]), the group-commit writer
    ([group_commit.rs]), the memory-mapped writer ([mmap_wal.rs]) and the
    reader ([replay.rs]).  A file is its bytes, the bytes that a power loss
    would leave, and a script of what its next system calls do. *)

From S2P Require Import Prelude Bytes WalRecord.

#[local] Open Scope string_scope.
#[local] Open Scope list_scope.
#[local] Open Scope Z_scope.
#[local] Open Scope rust_scope.

(** ** Files

    [std::fs::File] as the code uses it.  A call takes the next outcome of the
    script; a script that has run out means that the calls succeed. *)

Inductive io_outcome :=
  | IoOk
  | IoFail (written : nat) (msg : string).

Record FileIo := mkFile { contents : list Z; durable : list Z; script : list io_outcome }.

Definition sys_call (done : FileIo -> FileIo) (partial : nat -> FileIo -> FileIo)
  : M FileIo WalError.t unit :=
  fun f =>
    match script f with
    | [] => Ok tt (done f)
    | IoOk :: rest => Ok tt (done (mkFile (contents f) (durable f) rest))
    | IoFail n msg :: rest =>
        Err (WalError.IoError msg) (partial n (mkFile (contents f) (durable f) rest))
    end.

Definition set_contents (l : list Z) (f : FileIo) : FileIo := mkFile l (durable f) (script f).

(** [write_all_at]; a failing call may have written a prefix. *)
Definition write_all_at (data : list Z) (off : Z) : M FileIo WalError.t unit :=
  sys_call (fun f => set_contents (overwrite (Z.to_nat off) data (contents f)) f)
           (fun n f => set_contents (overwrite (Z.to_nat off) (take n data) (contents f)) f).

(** [sync_data], [sync_all] *)
Definition sync_file : M FileIo WalError.t unit :=
  sys_call (fun f => mkFile (contents f) (contents f) (script f)) (fun _ f => f).

(** [set_len] to a length at least the present one. *)
Definition set_len (n : Z) : M FileIo WalError.t unit :=
  sys_call (fun f => set_contents (extend (Z.to_nat n) (contents f)) f) (fun _ f => f).

(** [fs2::FileExt::allocate]: it changes nothing when the space cannot be
    reserved, and otherwise at most extends the file with zeros. *)
Class Fs2 := fs2_allocate : Z -> M FileIo WalError.t unit.

Class Fs2Laws `{Fs2} : Prop := {
  fs2_extends n f f' : fs2_allocate n f = Ok tt f' ->
    exists k, (length (contents f) + k <= Nat.max (length (contents f)) (Z.to_nat n))%nat /\
      contents f' = contents f ++ zeros k;
  fs2_script n f : script f = [] -> exists f', fs2_allocate n f = Ok tt f' /\ script f' = []
}.

(** ** The write buffer *)

Record AlignedBuffer := mkBuffer { capacity : Z; buffered : list Z; alignment : Z }.

Definition is_power_of_two (x : Z) : bool := (0 <? x) && (Z.land x (x - 1) =? 0).

(** [None]: an [assert!] fails. *)
Definition buffer_new (cap align : Z) : option AlignedBuffer :=
  if is_power_of_two align && (0 <? cap) then Some (mkBuffer cap [] align) else None.

Definition buffer_with_capacity (cap : Z) : option AlignedBuffer := buffer_new cap 4096.

Definition remaining (b : AlignedBuffer) : Z := capacity b - zlen (buffered b).

Definition buffer_write (data : list Z) (b : AlignedBuffer) : bool * AlignedBuffer :=
  if remaining b <? zlen data then (false, b)
  else (true, mkBuffer (capacity b) (buffered b ++ data) (alignment b)).

Definition buffer_clear (b : AlignedBuffer) : AlignedBuffer := mkBuffer (capacity b) [] (alignment b).

Definition pad_to_alignment (b : AlignedBuffer) : AlignedBuffer :=
  let len := zlen (buffered b) in
  let padding := (alignment b - len mod alignment b) mod alignment b in
  if (0 <? padding) && (padding <=? remaining b)
  then mkBuffer (capacity b) (buffered b ++ zeros (Z.to_nat padding)) (alignment b)
  else b.

(** ** Group commit *)

Record GroupCommitConfig := mkConfig {
  max_batch_size : Z; buffer_size : Z; use_direct_io : bool; pre_alloc_size : Z
}.

Definition default_config : GroupCommitConfig := mkConfig 100 65536 false 67108864.

Record GroupCommitWal := mkWal {
  file : FileIo; buffer : AlignedBuffer; pending_count : Z; config : GroupCommitConfig;
  total_entries : Z; bytes_written : Z
}.

Section group_commit.
Context `{Crc32} `{Fs2}.

Definition on_file {A} (m : M FileIo WalError.t A) : M GroupCommitWal WalError.t A :=
  zoom (fun w => Some (file w))
       (fun f w => mkWal f (buffer w) (pending_count w) (config w) (total_entries w) (bytes_written w)) m.

(** The counters are bounded by the length of the file and do not overflow. *)
Definition flush : M GroupCommitWal WalError.t unit :=
  let* w := get in
  if zlen (buffered (buffer w)) =? 0 then ret tt
  else
    on_file (write_all_at (buffered (buffer w)) (bytes_written w)) ;;;
    on_file sync_file ;;;
    modify (fun w =>
      mkWal (file w) (buffer_clear (buffer w)) 0 (config w) (total_entries w)
        (bytes_written w + zlen (buffered (buffer w)))).

Definition write_to_buffer (data : list Z) : M GroupCommitWal WalError.t unit :=
  let* w := get in
  let '(written, b) := buffer_write data (buffer w) in
  put (mkWal (file w) b (pending_count w) (config w) (total_entries w) (bytes_written w)) ;;;
  if negb written then throw (WalError.IoError "Buffer write failed") else ret tt.

Definition count_entry : M GroupCommitWal WalError.t unit :=
  modify (fun w => mkWal (file w) (buffer w) (pending_count w + 1) (config w) (total_entries w + 1)
                     (bytes_written w)).

Definition wal_append (entry : WalEntry) : M GroupCommitWal WalError.t unit :=
  let* serialized := unwrap (entry_serialize entry) in
  let* w := get in
  (if remaining (buffer w) <? zlen serialized then flush else ret tt) ;;;
  let* w := get in
  if capacity (buffer w) <? zlen serialized then throw (WalError.IoError "Entry too large")
  else
    write_to_buffer serialized ;;;
    count_entry ;;;
    let* w := get in
    if max_batch_size (config w) <=? pending_count w then flush else ret tt.

(** Reads do not take part in the script. *)
Definition find_write_position (f : FileIo) : Z :=
  let l := contents f in
  if zlen l =? 0 then 0
  else if Nat.leb 4 (length l) && (le_value (take 4 l) =? 0) then 0 (* pre-allocated but empty *)
  else zlen l.

(** [enable_direct_io] is [Ok] without effect, except on macOS, where it
    changes the caching of the file descriptor. *)
Definition enable_direct_io (direct : bool) : M FileIo WalError.t unit := ret tt.

Definition new_wal (cfg : GroupCommitConfig) (f : FileIo) (cursor : Z) : option GroupCommitWal :=
  (fun b => mkWal f b 0 cfg 0 cursor) <$> buffer_with_capacity (buffer_size cfg).

(** [GroupCommitWal::open] on the file at the path (an empty one when there
    was none). *)
Definition wal_open (cfg : GroupCommitConfig) : M FileIo WalError.t GroupCommitWal :=
  enable_direct_io (use_direct_io cfg) ;;;
  let* f := get in
  (if (0 <? pre_alloc_size cfg) && (zlen (contents f) <? pre_alloc_size cfg) then
     fs2_allocate (pre_alloc_size cfg) ;;;
     set_len (pre_alloc_size cfg)
   else ret tt) ;;;
  let* f := get in
  unwrap (new_wal cfg f (find_write_position f)).

(** The zero-fill loop of [create]: [write_all] of at most 1 MB at the cursor. *)
Fixpoint zero_fill (fuel : nat) (size written : Z) : M FileIo WalError.t unit :=
  match fuel with
  | O => ret tt
  | S fuel' =>
      if written <? size then
        let bytes_to_write := Z.min 1048576 (size - written) in
        write_all_at (zeros (Z.to_nat bytes_to_write)) written ;;;
        zero_fill fuel' size (written + bytes_to_write)
      else ret tt
  end.

(** [truncate(true)] empties the file first; a turn of the loop writes at
    least one byte. *)
Definition wal_create (cfg : GroupCommitConfig) : M FileIo WalError.t GroupCommitWal :=
  modify (set_contents []) ;;;
  enable_direct_io (use_direct_io cfg) ;;;
  (if 0 <? pre_alloc_size cfg then
     fs2_allocate (pre_alloc_size cfg) ;;;
     zero_fill (S (Z.to_nat (pre_alloc_size cfg / 1048576))) (pre_alloc_size cfg) 0 ;;;
     sync_file
   else ret tt) ;;;
  let* f := get in
  unwrap (new_wal cfg f 0).
End group_commit.

(** ** Replay *)

Record ReplayStats := mkStats { stat_entries : Z; stat_bytes : Z; stat_errors : Z }.

(** What [BufReader::read] answers, call after call; the end of the list is
    the end of the file. *)
Abbreviation ReadScript := (list (string + list Z)).

Record WalReplay := mkReplay {
  reader : ReadScript; entries_read : Z; bytes_read : Z; errors : list (Z * WalError.t)
}.

Definition replay_open (reads : ReadScript) : WalReplay := mkReplay reads 0 0 [].

(** The chunk loop: an empty read is the end of the file. *)
Fixpoint read_chunks (reads : ReadScript) (acc : list Z) : ReadScript * (string + list Z) :=
  match reads with
  | [] => ([], inr acc)
  | inl e :: rest => (rest, inl e)
  | inr [] :: rest => (rest, inr acc)
  | inr chunk :: rest => read_chunks rest (acc ++ chunk)
  end.

Section replay.
Context `{Crc32} {C : Type} (callback : WalEntry -> M C WalError.t unit).

Definition push_error (off : Z) (e : WalError.t) (r : WalReplay) : WalReplay :=
  mkReplay (reader r) (entries_read r) (bytes_read r) (errors r ++ [(off, e)]).

Definition count_read (consumed : Z) (r : WalReplay) : WalReplay :=
  mkReplay (reader r) (entries_read r + 1) (bytes_read r + consumed) (errors r).

(** The parse loop on what is left of the buffer at [offset]; the callback's
    own state is part of the state.  [None]: the fuel is used up. *)
Fixpoint replay_loop (fuel : nat) (offset : Z) (rest : list Z)
  : M (WalReplay * C) WalError.t (option unit) :=
  fun '(r, c) =>
    match fuel with
    | O => Ok None (r, c)
    | S fuel' =>
        if zlen rest =? 0 then Ok (Some tt) (r, c)
        else if zlen rest <? WAL_RECORD_HEADER_SIZE then
          if all_zero rest then Ok (Some tt) (r, c)
          else Ok (Some tt) (push_error offset WalError.TooShort r, c)
        else
          match entry_deserialize rest with
          | inr (entry, consumed) =>
              let next := replay_loop fuel' (offset + consumed) (drop (Z.to_nat consumed) rest) in
              match callback entry c with
              | Ok _ c' => next (count_read consumed r, c')
              | Err e c' => next (count_read consumed (push_error offset e r), c')
              | Panic => Panic
              end
          | inl WalError.TooShort =>
              if all_zero rest then Ok (Some tt) (r, c)
              else Ok (Some tt) (push_error offset WalError.TooShort r, c)
          | inl e =>
              let len := le_value (take 4 rest) in
              if (0 <? len) && (len <? zlen rest)
              then replay_loop fuel' (offset + len) (drop (Z.to_nat len) rest) (push_error offset e r, c)
              else Ok (Some tt) (push_error offset e r, c)
          end
    end.

(** [replay]; every turn of the loop drops at least a byte. *)
Definition replay : M (WalReplay * C) WalError.t (option ReplayStats) :=
  fun '(r, c) =>
    let '(reads, res) := read_chunks (reader r) [] in
    let r := mkReplay reads (entries_read r) (bytes_read r) (errors r) in
    match res with
    | inl e => Err (WalError.IoError e) (r, c)
    | inr buf =>
        match replay_loop (S (length buf)) 0 buf (r, c) with
        | Ok (Some _) (r', c') =>
            Ok (Some (mkStats (entries_read r') (bytes_read r') (zlen (errors r')))) (r', c')
        | Ok None s => Ok None s
        | Err e s => Err e s
        | Panic => Panic
        end
    end.
End replay.

(** ** The memory-mapped log *)

Definition DEFAULT_FILE_SIZE : Z := 67108864.

Record MmapWal := mkMmap { mmap : list Z; cursor : Z; mmap_entries : Z }.

(** [None]: the fuel is used up. *)
Fixpoint find_cursor (fuel : nat) (pos : Z) (m : list Z) : option Z :=
  match fuel with
  | O => None
  | S fuel' =>
      if pos + 4 <=? zlen m then
        let len := le_value (take 4 (drop (Z.to_nat pos) m)) in
        if len =? 0 then Some pos
        else
          let entry_size := 4 + 4 + 1 + len in
          if zlen m <? pos + entry_size then Some pos else find_cursor fuel' (pos + entry_size) m
      else Some pos
  end.

(** [set_len] extends a short file before it is mapped.  Every turn of
    [find_cursor] moves on by more than nine bytes. *)
Definition mmap_open (l : list Z) : option MmapWal :=
  let m := if zlen l <? DEFAULT_FILE_SIZE then extend (Z.to_nat DEFAULT_FILE_SIZE) l else l in
  (fun pos => mkMmap m pos 0) <$> find_cursor (S (Z.to_nat (zlen m))) 0 m.

Section mmap.
Context `{Crc32}.

Definition mmap_append (entry : WalEntry) : M MmapWal WalError.t unit :=
  let* serialized := unwrap (entry_serialize entry) in
  let* w := get in
  if zlen (mmap w) <? cursor w + zlen serialized then throw (WalError.IoError "WAL full")
  else
    put (mkMmap (overwrite (Z.to_nat (cursor w)) serialized (mmap w))
           (cursor w + zlen serialized) (mmap_entries w + 1)).
End mmap.

(** ** Logs *)

Section log_lemmas.
Context `{Crc32Laws}.

Definition record_of (e : WalEntry) : list Z := default [] (entry_serialize e).

Definition log_of (es : list WalEntry) : list Z := concat (map record_of es).

Lemma record_of_Some e : entry_fits e -> entry_serialize e = Some (record_of e).
Proof. intros (r & Hr & _)%entry_serialize_eq. unfold record_of. by rewrite Hr. Qed.

Lemma record_of_length e : entry_fits e -> zlen (record_of e) = 9 + zlen (payload e).
Proof. intros (r & Hr & Hl)%entry_serialize_eq. unfold record_of. by rewrite Hr. Qed.

Lemma log_of_app es1 es2 : log_of (es1 ++ es2) = log_of es1 ++ log_of es2.
Proof. unfold log_of. by rewrite map_app, concat_app. Qed.

Lemma log_of_snoc es e : log_of (es ++ [e]) = log_of es ++ record_of e.
Proof. rewrite log_of_app. unfold log_of at 2. simpl. by rewrite app_nil_r. Qed.

Lemma log_of_cons e es : log_of (e :: es) = record_of e ++ log_of es.
Proof. done. Qed.

Lemma log_of_nil es : Forall entry_fits es -> log_of es = [] -> es = [].
Proof.
  intros Hes Hl. destruct Hes as [|e es He _]; [done|].
  rewrite log_of_cons in Hl. apply app_eq_nil in Hl as [Hl%zlen_nil _].
  apply record_of_length in He. pose proof (zlen_nonneg (payload e)). lia.
Qed.

(** A callback that keeps what it is given. *)
Definition collect (e : WalEntry) : M (list WalEntry) WalError.t unit := modify (fun l => l ++ [e]).

Definition advance (es : list WalEntry) (r : WalReplay) : WalReplay :=
  mkReplay (reader r) (entries_read r + zlen es) (bytes_read r + zlen (log_of es)) (errors r).

(** The loop eats whole records. *)
Lemma replay_entries es tail fuel off r c :
  Forall entry_fits es ->
  replay_loop collect (length es + fuel) off (log_of es ++ tail) (r, c) =
  replay_loop collect fuel (off + zlen (log_of es)) tail (advance es r, c ++ es).
Proof.
  intros Hes. revert off r c. induction Hes as [|e es He Hes IH]; intros off r c.
  - destruct r as [rd er br errs]. unfold advance, zlen. simpl.
    by rewrite !Z.add_0_r, app_nil_r.
  - rewrite log_of_cons, <- app_assoc. cbn [length Nat.add replay_loop].
    pose proof (record_of_length e He) as Hlen. pose proof (zlen_nonneg (payload e)).
    pose proof (zlen_nonneg (log_of es ++ tail)).
    rewrite zlen_app. unfold WAL_RECORD_HEADER_SIZE.
    destruct (Z.eqb_spec (zlen (record_of e) + zlen (log_of es ++ tail)) 0); [lia|].
    destruct (Z.ltb_spec (zlen (record_of e) + zlen (log_of es ++ tail)) 8); [lia|].
    rewrite (entry_read e (record_of e) _ (record_of_Some e He)).
    change (collect e c) with (Ok (E := WalError.t) tt (c ++ [e])).
    rewrite zlen_to_nat, drop_app_length, IH.
    unfold advance, count_read. cbn [reader entries_read bytes_read errors].
    rewrite <- app_assoc, log_of_cons, !zlen_app, !Z.add_assoc. simpl app.
    replace (zlen (e :: es)) with (1 + zlen es) by (unfold zlen; simpl; lia).
    by rewrite Z.add_assoc.
Qed.

(** Eight zero bytes stop the loop with an error; fewer at the end of the file
    are taken for padding. *)
Lemma replay_zeros k tail fuel off r c :
  (8 <= k)%nat ->
  replay_loop collect (S fuel) off (zeros k ++ tail) (r, c) =
  Ok (Some tt) (push_error off (WalError.InvalidLength 0) r, c).
Proof.
  intros Hk. replace k with (8 + (k - 8))%nat by lia. generalize (k - 8)%nat as j. intros j.
  unfold zeros. rewrite replicate_add, <- app_assoc.
  cbn [replay_loop]. rewrite zlen_app. change (zlen (replicate 8 0)) with 8.
  pose proof (zlen_nonneg (replicate j 0 ++ tail)). unfold WAL_RECORD_HEADER_SIZE.
  destruct (Z.eqb_spec (8 + zlen (replicate j 0 ++ tail)) 0); [lia|].
  destruct (Z.ltb_spec (8 + zlen (replicate j 0 ++ tail)) 8); [lia|].
  unfold entry_deserialize, wal_record_deserialize, wal_record_deserialize_v.
  rewrite zlen_app. change (zlen (replicate 8 0)) with 8. unfold WAL_RECORD_HEADER_SIZE.
  by destruct (Z.ltb_spec (8 + zlen (replicate j 0 ++ tail)) 8); [lia|].
Qed.

Lemma replay_padding k fuel off r c :
  (k < 8)%nat ->
  replay_loop collect (S fuel) off (zeros k) (r, c) = Ok (Some tt) (r, c).
Proof.
  intros Hk. cbn [replay_loop].
  assert (zlen (zeros k) = Z.of_nat k) as -> by (unfold zlen, zeros; by rewrite length_replicate).
  destruct (Z.eqb_spec (Z.of_nat k) 0); [done|].
  unfold WAL_RECORD_HEADER_SIZE. destruct (Z.ltb_spec (Z.of_nat k) 8); [|lia].
  by rewrite all_zero_zeros.
Qed.

Lemma log_of_count es : Forall entry_fits es -> (length es <= length (log_of es))%nat.
Proof.
  induction 1 as [|e es He Hes IH]; [done|]. rewrite log_of_cons, length_app. cbn [length].
  pose proof (record_of_length e He) as Hlen. pose proof (zlen_nonneg (payload e)).
  rewrite zlen_eq in Hlen. lia.
Qed.

Lemma read_chunks_all chunks acc :
  Forall (fun c => c <> []) chunks ->
  read_chunks (map inr chunks) acc = ([], inr (acc ++ concat chunks)).
Proof.
  intros Hc. revert acc. induction Hc as [|c chunks Hc _ IH]; intros acc; simpl.
  - by rewrite app_nil_r.
  - destruct c as [|b c]; [done|]. by rewrite IH, <- app_assoc.
Qed.

(** What replay makes of a log followed by zeros and possibly more. *)
Definition padding_errors (off : Z) (k : nat) : list (Z * WalError.t) :=
  if Nat.leb 8 k then [(off, WalError.InvalidLength 0)] else [].

Lemma replay_log es k tail chunks :
  Forall entry_fits es -> Forall (fun c => c <> []) chunks ->
  concat chunks = log_of es ++ zeros k ++ tail -> tail = [] \/ (8 <= k)%nat ->
  replay collect (replay_open (map inr chunks), []) =
  Ok (Some (mkStats (zlen es) (zlen (log_of es)) (zlen (padding_errors (zlen (log_of es)) k))))
    (mkReplay [] (zlen es) (zlen (log_of es)) (padding_errors (zlen (log_of es)) k), es).
Proof.
  intros Hes Hchunks Hcat Htail. unfold replay. cbn [reader replay_open].
  rewrite read_chunks_all by done. rewrite Hcat. simpl app at 1.
  pose proof (log_of_count es Hes) as Hcount.
  remember (log_of es ++ zeros k ++ tail) as buf eqn:Hbuf.
  assert (exists fuel, S (length buf) = (length es + S fuel)%nat) as [fuel Hfuel].
  { exists (length buf - length es)%nat. rewrite Hbuf, length_app. lia. }
  rewrite app_nil_l, Hfuel. rewrite Hbuf, replay_entries by done. simpl app.
  unfold padding_errors. destruct (Nat.leb_spec 8 k).
  - rewrite replay_zeros by done. done.
  - destruct Htail as [->|]; [|lia]. rewrite app_nil_r. by rewrite replay_padding.
Qed.
End log_lemmas.

(** ** Replay terminates *)

Section replay_total.
Context `{Crc32Laws} {C : Type} (callback : WalEntry -> M C WalError.t unit).

Lemma entry_consumed buf e n : entry_deserialize buf = inr (e, n) -> 0 < n <= zlen buf.
Proof.
  unfold entry_deserialize, wal_record_deserialize, wal_record_deserialize_v.
  destruct (Z.ltb_spec (zlen buf) WAL_RECORD_HEADER_SIZE); [done|].
  destruct (unpack_verlen _) as [version data_len] eqn:Hu.
  assert (0 <= data_len) as Hnn.
  { unfold unpack_verlen in Hu. injection Hu as _ <-. apply Z.land_nonneg. by right. }
  destruct (Z.eqb_spec data_len 0); [done|]. destruct (_ <? _); [done|].
  destruct (Z.ltb_spec (zlen buf) (WAL_RECORD_HEADER_SIZE + data_len)); [done|].
  destruct (negb _); [done|]. destruct (take (Z.to_nat data_len) _) as [|t p]; [done|]. simpl.
  destruct (WalEntryType.try_from t); [|done]. intros [= _ <-].
  unfold WAL_RECORD_HEADER_SIZE in *. lia.
Qed.

Lemma replay_loop_total fuel off rest s :
  (length rest < fuel)%nat -> outcome (replay_loop callback fuel off rest s)
    (fun o _ => o = Some tt) (fun _ _ => False).
Proof.
  revert off rest s. induction fuel as [|fuel IH]; intros off rest [r c] Hfuel; [lia|].
  cbn [replay_loop]. destruct (Z.eqb_spec (zlen rest) 0); [done|].
  destruct (_ <? _); [by destruct (all_zero rest)|].
  assert (forall n, 0 < n <= zlen rest -> (length (drop (Z.to_nat n) rest) < fuel)%nat) as Hdrop.
  { intros n' Hn'. rewrite length_drop. unfold zlen in *. lia. }
  destruct (entry_deserialize rest) as [[| | | |]|[e consumed]] eqn:He;
    [by destruct (all_zero rest)|..].
  5: { apply entry_consumed in He. destruct (callback e c); [..|done]; by apply IH, Hdrop. }
  all: destruct ((0 <? _) && _) eqn:Hskip; [|done];
    apply andb_true_iff in Hskip as [?%Z.ltb_lt ?%Z.ltb_lt]; apply IH, Hdrop; lia.
Qed.

End replay_total.
