(* ===== verification/UbsWalProofs.v ===== *)
(** * What the balance authority's log guarantees

    Replay terminates; the group-commit writer keeps what it acknowledges and a
    torn log is recovered to a prefix of it; a reopened log does neither: the
    group-commit writer appends behind the padding and the memory-mapped one
    overwrites the first entries. *)

From S2P Require Import Prelude Bytes WalRecord UbsWal.

#[local] Open Scope string_scope.
#[local] Open Scope list_scope.
#[local] Open Scope Z_scope.
#[local] Open Scope rust_scope.

(** ** Replay terminates *)

Section replay_ends.
Context `{Crc32Laws} {C : Type} (callback : WalEntry -> M C WalError.t unit).

(** C15: replay terminates.  Whatever the file holds, whatever the callback
    does with its state, and however the reads are cut, replay returns its
    statistics, or the error of a failing read, or the callback panicked; the
    fuel of the parse loop is never used up. *)
Theorem replay_terminates reads c :
  outcome (replay callback (replay_open reads, c))
    (fun stats _ => exists st, stats = Some st)
    (fun e _ => exists msg, e = WalError.IoError msg /\ inl msg ∈ reads).
Proof.
  unfold replay. cbn [reader replay_open].
  assert (forall acc rest msg, read_chunks reads acc = (rest, inl msg) -> inl msg ∈ reads) as Herr.
  { induction reads as [|[e|[|b ch]] reads IH]; intros acc rest msg; simpl; [done|..].
    - intros [= _ <-]. apply list_elem_of_here.
    - done.
    - intros Hr%IH. by apply list_elem_of_further. }
  destruct (read_chunks reads []) as [rest [msg|buf]] eqn:Hr; [simpl; eauto|].
  pose proof (replay_loop_total callback (S (length buf)) 0 buf
    (mkReplay rest (entries_read (replay_open reads)) (bytes_read (replay_open reads))
       (errors (replay_open reads)), c) ltac:(lia)) as Ht.
  destruct (replay_loop _ _ _ _ _) as [o [r' c']|e s|]; simpl in *; [|done..].
  subst o. simpl. eauto.
Qed.
End replay_ends.

(** ** Group commit keeps what it acknowledges *)

Section commit.
Context `{Crc32Laws} `{Fs2Laws}.

(** [base] is what the file held before this writer, [done] the entries it has
    put into the file since and [pend] those that are in its buffer.  A failed
    write may have left something in the place of the buffer. *)
Definition wal_at (base : list Z) (done pend : list WalEntry) (w : GroupCommitWal) : Prop :=
  exists junk k,
    contents (file w) = base ++ log_of done ++ junk ++ zeros k /\
    (length junk <= length (log_of pend))%nat /\
    buffered (buffer w) = log_of pend /\
    bytes_written w = zlen base + zlen (log_of done) /\
    (done = [] \/ exists k', durable (file w) = base ++ log_of done ++ zeros k').

(** The writer has taken in [acc]. *)
Record wal_inv (base : list Z) (acc : list WalEntry) (w : GroupCommitWal) : Prop := {
  inv_split : exists done pend, acc = done ++ pend /\ wal_at base done pend w;
  inv_fits : Forall entry_fits acc
}.

(** Everything taken in is on disk. *)
Definition wal_synced (base : list Z) (acc : list WalEntry) (w : GroupCommitWal) : Prop :=
  acc = [] \/ exists k, durable (file w) = base ++ log_of acc ++ zeros k.

(** Writing into the junk region leaves junk; writing all of it leaves none. *)
Lemma overwrite_junk base junk k data :
  overwrite (length base) data (base ++ junk ++ zeros k) =
  base ++ (data ++ drop (length data) junk) ++ zeros (k - (length data - length junk)).
Proof.
  rewrite overwrite_at, drop_app, <- app_assoc. unfold zeros. by rewrite drop_replicate.
Qed.

(** A flush puts the buffer's entries into the file, for good, or leaves what is
    there. *)
Lemma flush_at base done pend w :
  wal_at base done pend w -> Forall entry_fits pend ->
  match flush w with
  | Ok _ w' => wal_at base (done ++ pend) [] w' /\ capacity (buffer w') = capacity (buffer w) /\
               (script (file w) = [] -> script (file w') = [])
  | Err _ w' => wal_at base done pend w' /\ buffer w' = buffer w /\ script (file w) <> []
  | Panic => False
  end.
Proof.
  intros (junk & k & Hc & Hj & Hb & Hw & Hd) Hfp.
  assert (forall data, overwrite (Z.to_nat (bytes_written w)) data (contents (file w)) =
    base ++ log_of done ++ (data ++ drop (length data) junk) ++ zeros (k - (length data - length junk)))
    as Hover.
  { intros data. rewrite Hc, Hw, <- zlen_app, zlen_to_nat, app_assoc, overwrite_junk.
    by rewrite <- !app_assoc. }
  unfold flush, bind, get. destruct (Z.eqb_spec (zlen (buffered (buffer w))) 0) as [Hz|Hz].
  { apply zlen_nil in Hz. assert (pend = []) as -> by (apply log_of_nil; [done|congruence]).
    rewrite app_nil_r. split_and!; try done. exists junk, k. by split_and!. }
  assert (forall n s, wal_at base done pend
    (mkWal (mkFile (overwrite (Z.to_nat (bytes_written w)) (take n (buffered (buffer w))) (contents (file w)))
              (durable (file w)) s) (buffer w) (pending_count w) (config w) (total_entries w)
       (bytes_written w))) as Hpart.
  { intros n s. rewrite Hover. eexists _, _.
    split; [reflexivity|]. split; [|by split_and!].
    rewrite length_app, length_drop, length_take, Hb. lia. }
  assert (forall s, wal_at base done pend
    (mkWal (mkFile (overwrite (Z.to_nat (bytes_written w)) (buffered (buffer w)) (contents (file w)))
              (durable (file w)) s) (buffer w) (pending_count w) (config w) (total_entries w)
       (bytes_written w))) as Hfull.
  { intros s. specialize (Hpart (length (buffered (buffer w))) s). by rewrite firstn_all in Hpart. }
  set (contents' := overwrite (Z.to_nat (bytes_written w)) (buffered (buffer w)) (contents (file w))) in *.
  assert (contents' = base ++ log_of (done ++ pend) ++ zeros (k - (length (log_of pend) - length junk)))
    as Hnew.
  { unfold contents'. rewrite Hover, Hb, drop_ge, app_nil_r, log_of_app, <- !app_assoc by done. done. }
  assert (forall s, wal_at base (done ++ pend) []
    (mkWal (mkFile contents' contents' s) (buffer_clear (buffer w)) 0 (config w)
       (total_entries w) (bytes_written w + zlen (buffered (buffer w))))) as Hdone.
  { intros s. exists [], (k - (length (log_of pend) - length junk))%nat.
    cbn [contents durable file buffer bytes_written buffered buffer_clear].
    split_and!; try done; [|right; by eexists]. rewrite Hw, Hb, log_of_app, zlen_app. lia. }
  unfold on_file, zoom, write_all_at, sync_file, sys_call, modify. cbn [file].
  destruct (script (file w)) as [|[|n msg] rest] eqn:Hs; cbn [script set_contents contents durable file].
  - rewrite Hs. split_and!; [apply Hdone|done|done].
  - destruct rest as [|[|m msg'] rest']; cbn [script set_contents contents durable file].
    + split_and!; [apply Hdone|done|done].
    + split_and!; [apply Hdone|done|done].
    + split_and!; [apply Hfull|done|done].
  - split_and!; [apply Hpart|done|done].
Qed.

Lemma wal_at_buffered base done w : wal_at base done [] w -> buffered (buffer w) = [].
Proof. by intros (? & ? & _ & _ & Hb & _). Qed.

Lemma wal_at_synced base done w : wal_at base done [] w -> wal_synced base done w.
Proof. by intros (? & ? & _ & _ & _ & _ & Hd). Qed.

Lemma flush_inv base acc w :
  wal_inv base acc w ->
  match flush w with
  | Ok _ w' => wal_inv base acc w' /\ wal_synced base acc w' /\ buffered (buffer w') = [] /\
               capacity (buffer w') = capacity (buffer w) /\ (script (file w) = [] -> script (file w') = [])
  | Err _ w' => wal_inv base acc w' /\ buffer w' = buffer w /\ script (file w) <> []
  | Panic => False
  end.
Proof.
  intros [(done & pend & -> & Hat) Hf]. pose proof (proj2 (proj1 (Forall_app _ _ _) Hf)) as Hfp.
  pose proof (flush_at base done pend w Hat Hfp) as Hflush. destruct (flush w) as [[] w'|e w'|]; [| |done].
  - destruct Hflush as (Hat' & Hcap & Hs). split; [|split; [by apply wal_at_synced|]].
    + split; [|done]. exists (done ++ pend), []. by rewrite app_nil_r.
    + split; [by eapply wal_at_buffered|done].
  - destruct Hflush as (Hat' & Hbuf & Hs). split; [|done]. split; [|done]. by exists done, pend.
Qed.

(** What an append does to the writer: what is in the file stays there; the
    entry is taken in, or the append fails and has, or has not, taken it in. *)
Definition taken (base : list Z) (done pend : list WalEntry) (new : list WalEntry) (w : GroupCommitWal) : Prop :=
  exists done' pend', done' ++ pend' = done ++ pend ++ new /\ done `prefix_of` done' /\
    wal_at base done' pend' w.

Lemma flush_taken base done pend w :
  wal_at base done pend w -> Forall entry_fits pend ->
  match flush w with
  | Ok _ w' => taken base done pend [] w' /\ capacity (buffer w') = capacity (buffer w) /\
               (script (file w) = [] -> script (file w') = [])
  | Err _ w' => taken base done pend [] w' /\ capacity (buffer w') = capacity (buffer w) /\
               script (file w) <> []
  | Panic => False
  end.
Proof.
  intros Hat Hf. pose proof (flush_at base done pend w Hat Hf) as Hfl.
  destruct (flush w) as [[] w'|e w'|]; [| |done]; destruct Hfl as (Hat' & Hcap & Hs).
  - split; [|done]. exists (done ++ pend), []. rewrite !app_nil_r. split_and!; [done|by exists pend|done].
  - split; [|split; [by rewrite Hcap|done]]. exists done, pend. by rewrite app_nil_r.
Qed.

(** An entry for which the buffer has room goes into the buffer. *)
Lemma buffered_at base done pend e w :
  wal_at base done pend w ->
  wal_at base done (pend ++ [e])
    (mkWal (file w) (mkBuffer (capacity (buffer w)) (buffered (buffer w) ++ record_of e) (alignment (buffer w)))
       (pending_count w + 1) (config w) (total_entries w + 1) (bytes_written w)).
Proof.
  intros (junk & k & Hc & Hj & Hb & Hw & Hd). exists junk, k. cbn [file buffer bytes_written buffered].
  rewrite log_of_snoc, Hb, length_app. split_and!; try done. lia.
Qed.

Lemma append_at base done pend e w :
  wal_at base done pend w -> Forall entry_fits (pend ++ [e]) -> 9 + zlen (payload e) <= capacity (buffer w) ->
  match wal_append e w with
  | Ok _ w' => taken base done pend [e] w' /\ capacity (buffer w') = capacity (buffer w) /\
               (script (file w) = [] -> script (file w') = [])
  | Err _ w' => (taken base done pend [] w' \/ taken base done pend [e] w') /\
                capacity (buffer w') = capacity (buffer w) /\ script (file w) <> []
  | Panic => False
  end.
Proof.
  intros Hat Hfe Hcap. pose proof Hfe as [Hfp He]%Forall_app. rewrite Forall_singleton in He. pose proof (record_of_length e He) as Hlen.
  unfold wal_append. rewrite (record_of_Some e He). unfold unwrap. rewrite bind_ret.
  unfold bind at 1, get.
  assert (match (if remaining (buffer w) <? zlen (record_of e) then flush else ret tt) w with
          | Ok _ w1 => (exists done1 pend1, done1 ++ pend1 = done ++ pend /\ done `prefix_of` done1 /\
                wal_at base done1 pend1 w1 /\ Forall entry_fits pend1) /\
              capacity (buffer w1) = capacity (buffer w) /\
              zlen (record_of e) <= remaining (buffer w1) /\
              (script (file w) = [] -> script (file w1) = [])
          | Err _ w1 => taken base done pend [] w1 /\ capacity (buffer w1) = capacity (buffer w) /\
              script (file w) <> []
          | Panic => False
          end) as Hfirst.
  { destruct (Z.ltb_spec (remaining (buffer w)) (zlen (record_of e))).
    2: { split_and!; [|done..]. by exists done, pend. }
    pose proof (flush_taken _ _ _ _ Hat Hfp) as Ht.
    pose proof (flush_at _ _ _ _ Hat Hfp) as Hf. destruct (flush w) as [[] w1|err w1|]; [|done..].
    destruct Hf as (Hat1 & Hc & ?). split_and!; try done.
    - exists (done ++ pend), []. rewrite app_nil_r. split_and!; [done|by exists pend|done|by apply Forall_nil].
    - unfold remaining. rewrite (wal_at_buffered _ _ _ Hat1). change (zlen []) with 0. lia. }
  unfold bind at 1.
  destruct ((if _ <? _ then flush else ret tt) w) as [[] w1|err w1|]; [| |done].
  2: { destruct Hfirst as (? & ? & ?). split_and!; [by left|done|done]. }
  destruct Hfirst as ((done1 & pend1 & Hsplit & Hpre & Hat1 & Hf1) & Hcap1 & Hrem & Hscript).
  unfold bind at 1, get.
  destruct (Z.ltb_spec (capacity (buffer w1)) (zlen (record_of e))); [lia|].
  unfold write_to_buffer, buffer_write, bind, get.
  destruct (Z.ltb_spec (remaining (buffer w1)) (zlen (record_of e))); [lia|].
  unfold put, count_entry, modify. cbn [negb ret]. unfold ret.
  pose proof (buffered_at _ _ _ e _ Hat1) as Hat2.
  cbn [file buffer pending_count config total_entries bytes_written buffered capacity alignment].
  set (w2 := mkWal (file w1) _ _ _ _ _) in *.
  assert (Hlift : forall w', taken base done1 (pend1 ++ [e]) [] w' -> taken base done pend [e] w').
  { intros w' (d & p & Hdp & Hp & Hw'). exists d, p. split; [|split; [by etrans|done]].
    rewrite Hdp, app_nil_r, !app_assoc. by rewrite Hsplit. }
  destruct (_ <=? _).
  - pose proof (flush_taken _ _ _ w2 Hat2) as Ht.
    destruct (flush w2) as [[] w3|err w3|]; [| |by apply Ht, Forall_app; split; [|by apply Forall_singleton]].
    + destruct Ht as (Ht & Hc & Hs); [by apply Forall_app; split; [|by apply Forall_singleton]|].
      split_and!; [by apply Hlift|by rewrite Hc|]. intros. by apply Hs, Hscript.
    + destruct Ht as (Ht & Hc & Hs); [by apply Forall_app; split; [|by apply Forall_singleton]|].
      split_and!; [right; by apply Hlift|by rewrite Hc|]. intros Hs0. by apply Hs, Hscript.
  - split_and!; [|done|done]. apply Hlift. exists done1, (pend1 ++ [e]). by rewrite app_nil_r.
Qed.

(** An append that fails has, or has not, taken the entry in. *)
Lemma append_inv base acc e w :
  wal_inv base acc w -> entry_fits e -> 9 + zlen (payload e) <= capacity (buffer w) ->
  match wal_append e w with
  | Ok _ w' => wal_inv base (acc ++ [e]) w' /\ capacity (buffer w') = capacity (buffer w) /\
               (script (file w) = [] -> script (file w') = [])
  | Err _ w' => (wal_inv base acc w' \/ wal_inv base (acc ++ [e]) w') /\
                capacity (buffer w') = capacity (buffer w) /\ script (file w) <> []
  | Panic => False
  end.
Proof.
  intros [(done & pend & -> & Hat) Hf] He Hcap. pose proof (proj2 (proj1 (Forall_app _ _ _) Hf)) as Hfp.
  assert (Hfe : Forall entry_fits (pend ++ [e])) by (apply Forall_app; split; [done|by apply Forall_singleton]).
  assert (Hinv : forall new w', new = [] \/ new = [e] -> taken base done pend new w' ->
    wal_inv base ((done ++ pend) ++ new) w').
  { intros new w' Hnew (d & p & Hdp & _ & Hw'). split; [exists d, p; by rewrite Hdp, app_assoc|].
    apply Forall_app. split; [done|]. destruct Hnew as [->| ->]; [by apply Forall_nil|by apply Forall_singleton]. }
  pose proof (append_at base done pend e w Hat Hfe Hcap) as Ha.
  destruct (wal_append e w) as [[] w'|err w'|]; [| |done].
  - destruct Ha as (Ht & ?). split; [apply Hinv; [by right|done]|done].
  - destruct Ha as ([Ht|Ht] & ?); (split; [|done]); [left|right; apply Hinv; [by right|done]].
    rewrite <- (app_nil_r (done ++ pend)). apply Hinv; [by left|done].
Qed.

(** An entry for which the buffer has room is in the buffer before anything can
    go wrong. *)
Lemma append_room base acc e w :
  wal_inv base acc w -> entry_fits e -> 9 + zlen (payload e) <= remaining (buffer w) ->
  exists w2, wal_append e w = (if max_batch_size (config w2) <=? pending_count w2 then flush else ret tt) w2 /\
    wal_inv base (acc ++ [e]) w2 /\ file w2 = file w /\ buffered (buffer w2) <> [].
Proof.
  intros [(done & pend & -> & Hat) Hf] He Hroom.
  pose proof (record_of_length e He) as Hlen.
  assert (0 <= zlen (buffered (buffer w))) as Hnn by apply zlen_nonneg.
  exists (mkWal (file w) (mkBuffer (capacity (buffer w)) (buffered (buffer w) ++ record_of e)
            (alignment (buffer w))) (pending_count w + 1) (config w) (total_entries w + 1) (bytes_written w)).
  split; [|split; [|split; [done|]]].
  - unfold wal_append. rewrite (record_of_Some e He). unfold unwrap. rewrite bind_ret.
    unfold bind, get, ret. destruct (Z.ltb_spec (remaining (buffer w)) (zlen (record_of e))); [lia|].
    unfold remaining in *. destruct (Z.ltb_spec (capacity (buffer w)) (zlen (record_of e))); [lia|].
    unfold write_to_buffer, buffer_write, bind, get, remaining.
    destruct (Z.ltb_spec (capacity (buffer w) - zlen (buffered (buffer w))) (zlen (record_of e))); [lia|].
    reflexivity.
  - split.
    + exists done, (pend ++ [e]). rewrite <- app_assoc. split; [done|]. by apply buffered_at.
    + apply Forall_app. split; [done|]. by apply Forall_singleton.
  - cbn [buffer buffered]. intros [_ Hnil]%app_eq_nil. pose proof (zlen_nonneg (payload e)).
    rewrite Hnil in Hlen. change (zlen []) with 0 in Hlen. lia.
Qed.

Lemma flush_write_fails n msg w :
  script (file w) = [IoFail n msg] -> buffered (buffer w) <> [] ->
  exists w', flush w = Err (WalError.IoError msg) w' /\ script (file w') = [].
Proof.
  intros Hs Hne. rewrite <- zlen_nil in Hne. unfold flush, bind, get.
  destruct (Z.eqb_spec (zlen (buffered (buffer w))) 0); [done|].
  unfold on_file, zoom, write_all_at, sys_call. rewrite Hs. eexists. by split.
Qed.

Lemma append_all_inv base acc es w :
  wal_inv base acc w -> script (file w) = [] -> Forall entry_fits es ->
  Forall (fun e => 9 + zlen (payload e) <= capacity (buffer w)) es ->
  exists w', (iter wal_append es ;;; flush) w = Ok tt w' /\ wal_synced base (acc ++ es) w'.
Proof.
  intros Hinv Hs Hfits Hcap. revert acc w Hinv Hs Hcap.
  induction Hfits as [|e es He _ IH]; intros acc w Hinv Hs Hcap.
  - unfold bind. cbn [iter ret]. unfold ret. pose proof (flush_inv _ _ _ Hinv) as Hf.
    destruct (flush w) as [[] w'|err w'|]; [|by destruct Hf as (_ & _ & ?)|done].
    exists w'. rewrite app_nil_r. by destruct Hf as (_ & ? & _).
  - apply Forall_cons in Hcap as [Hce Hcap].
    pose proof (append_inv _ _ e _ Hinv He Hce) as Ha. cbn [iter]. rewrite bind_assoc.
    unfold bind at 1.
    destruct (wal_append e w) as [[] w1|err w1|]; [|by destruct Ha as (_ & _ & ?)|done].
    destruct Ha as (Hi1 & Hc1 & Hs1).
    destruct (IH (acc ++ [e]) w1 Hi1 (Hs1 Hs)) as (w' & Hrun & Hsync); [by rewrite Hc1|].
    exists w'. rewrite <- app_assoc in Hsync. by split.
Qed.

Lemma open_file cfg f :
  script f = [] -> 0 < buffer_size cfg ->
  exists f' w, wal_open cfg f = Ok w f' /\
    contents (file w) = extend (Z.to_nat (pre_alloc_size cfg)) (contents f) /\
    script (file w) = [] /\ bytes_written w = find_write_position (file w) /\
    buffered (buffer w) = [] /\ capacity (buffer w) = buffer_size cfg.
Proof.
  intros Hs Hb. unfold wal_open, enable_direct_io. rewrite bind_ret. unfold bind at 1, get.
  set (n := Z.to_nat (pre_alloc_size cfg)).
  assert (exists f1, (if (0 <? pre_alloc_size cfg) && (zlen (contents f) <? pre_alloc_size cfg)
            then bind (fs2_allocate (pre_alloc_size cfg)) (fun _ => set_len (pre_alloc_size cfg))
            else ret tt) f = Ok tt f1 /\ script f1 = [] /\ contents f1 = extend n (contents f))
    as (f1 & Hf1 & Hs1 & Hc1).
  { destruct (Z.ltb_spec 0 (pre_alloc_size cfg)), (Z.ltb_spec (zlen (contents f)) (pre_alloc_size cfg));
      simpl; rewrite ?zlen_eq in *.
    - destruct (fs2_script (pre_alloc_size cfg) f Hs) as (f1 & Hf & Hs1).
      destruct (fs2_extends _ _ _ Hf) as (j & Hj & Hc). fold n in Hj.
      rewrite (bind_ok _ _ _ _ _ Hf). unfold set_len, sys_call. rewrite Hs1.
      eexists. split; [done|]. split; [done|]. cbn [contents set_contents]. fold n. rewrite Hc.
      unfold extend, zeros. rewrite <- app_assoc, <- replicate_add, length_app, length_replicate.
      do 2 f_equal. lia.
    - exists f. unfold extend. replace (n - length (contents f))%nat with 0%nat by lia.
      by rewrite app_nil_r.
    - exists f. unfold extend. replace (n - length (contents f))%nat with 0%nat by lia.
      by rewrite app_nil_r.
    - exists f. unfold extend. replace (n - length (contents f))%nat with 0%nat by lia.
      by rewrite app_nil_r. }
  rewrite (bind_ok _ _ _ _ _ Hf1). unfold bind, get, new_wal, buffer_with_capacity, buffer_new.
  destruct (Z.ltb_spec 0 (buffer_size cfg)); [|lia]. simpl.
  do 2 eexists. split; [done|]. done.
Qed.

(** An opening that succeeds, whatever the file's calls did. *)
Lemma opened_file cfg f w f' :
  wal_open cfg f = Ok w f' -> 0 < buffer_size cfg ->
  contents (file w) = extend (Z.to_nat (pre_alloc_size cfg)) (contents f) /\
  (script f = [] -> script (file w) = []) /\ bytes_written w = find_write_position (file w) /\
  buffered (buffer w) = [] /\ capacity (buffer w) = buffer_size cfg.
Proof.
  intros Hopen Hb. unfold wal_open, enable_direct_io in Hopen. rewrite bind_ret in Hopen.
  unfold bind at 1, get at 1 in Hopen. set (n := Z.to_nat (pre_alloc_size cfg)).
  apply bind_inv_ok in Hopen as ([] & f1 & Hf1 & Hnew).
  assert (contents f1 = extend n (contents f) /\ (script f = [] -> script f1 = [])) as [Hc1 Hs1].
  { assert (Hsame : (n - length (contents f))%nat = 0%nat -> contents f = extend n (contents f)).
    { intros Hn. unfold extend. rewrite Hn. by rewrite app_nil_r. }
    destruct (Z.ltb_spec 0 (pre_alloc_size cfg)), (Z.ltb_spec (zlen (contents f)) (pre_alloc_size cfg));
      simpl in Hf1; rewrite ?zlen_eq in *; try (injection Hf1 as <-; split; [apply Hsame; lia|done]).
    apply bind_inv_ok in Hf1 as ([] & f2 & Hf2 & Hset).
    destruct (fs2_extends _ _ _ Hf2) as (j & Hj & Hc). fold n in Hj.
    assert (Hlen : contents f1 = extend n (contents f2) /\ (script f2 = [] -> script f1 = [])).
    { unfold set_len, sys_call in Hset. fold n in Hset.
      destruct (script f2) as [|[] rest] eqn:Hs2; [| |done]; injection Hset as <-; [|done].
      split; [done|]. intros _. exact Hs2. }
    destruct Hlen as [-> Hs]. split.
    - rewrite Hc. unfold extend, zeros. rewrite <- app_assoc, <- replicate_add, length_app, length_replicate.
      do 2 f_equal. lia.
    - intros Hs0. apply Hs. destruct (fs2_script (pre_alloc_size cfg) f Hs0) as (f2' & Hf2' & Hs2).
      rewrite Hf2 in Hf2'. injection Hf2' as ->. exact Hs2. }
  unfold bind, get, new_wal, buffer_with_capacity, buffer_new in Hnew.
  destruct (Z.ltb_spec 0 (buffer_size cfg)); [|lia]. simpl in Hnew. injection Hnew as <- <-. by split_and!.
Qed.

Lemma opened_inv w base k :
  contents (file w) = base ++ zeros k -> script (file w) = [] ->
  bytes_written w = zlen base -> buffered (buffer w) = [] -> wal_inv base [] w.
Proof.
  intros Hc Hs Hw Hb. split; [|by apply Forall_nil]. exists [], []. split; [done|].
  exists [], k. split_and!; try done; [|by left]. rewrite Hw. change (zlen (log_of [])) with 0. lia.
Qed.

Lemma fresh_position f n : contents f = zeros n -> (n = 0 \/ 4 <= n)%nat -> find_write_position f = 0.
Proof.
  intros Hc Hn. unfold find_write_position. rewrite Hc.
  destruct (Z.eqb_spec (zlen (zeros n)) 0); [done|].
  destruct Hn as [->|Hn]; [done|]. do 4 (destruct n as [|n]; [lia|]). done.
Qed.

Lemma padding_errors_count off k : zlen (padding_errors off k) = if Nat.leb 8 k then 1 else 0.
Proof. unfold padding_errors. by destruct (Nat.leb 8 k). Qed.

Lemma le_value_zero l : Forall is_byte l -> le_value l = 0 -> l = zeros (length l).
Proof.
  unfold zeros. induction 1 as [|b l Hb Hl IH]; [done|]. cbn [le_value length replicate]. intros Hz.
  pose proof (le_value_bound l Hl). unfold is_byte in Hb. rewrite <- IH by lia. f_equal. lia.
Qed.

(** The little-endian reading of a record's first four bytes is not zero. *)
Lemma record_head e : entry_fits e -> exists hd tl, record_of e = hd ++ tl /\
  hd = be_bytes 4 (1 + zlen (payload e)).
Proof.
  intros He. pose proof (record_of_Some e He) as Hr. rewrite entry_serialize_data in Hr.
  unfold entry_fits in He.
  assert (zlen (entry_data e) = 1 + zlen (payload e)) as Hd
    by (unfold entry_data; rewrite !zlen_eq; cbn [length]; lia).
  destruct (serialize_v_eq WAL_SCHEMA_VERSION (entry_data e)) as (hdr & crc & Hh & _ & Hs); [lia|].
  rewrite Hr in Hs. injection Hs as Hs. rewrite Hs, Hh, <- app_assoc.
  eexists _, _. split; [done|]. f_equal. rewrite Hd. unfold pack_verlen.
  pose proof (zlen_nonneg (payload e)). unfold WAL_SCHEMA_VERSION, WAL_RECORD_MAX_LEN in *.
  rewrite Z.shiftl_0_l, Z.lor_0_l. change 16777215 with (Z.ones 24).
  rewrite Z.land_ones by lia. apply Z.mod_small. lia.
Qed.

Lemma used_position f es tail :
  contents f = log_of es ++ tail -> Forall entry_fits es -> es <> [] ->
  find_write_position f = zlen (contents f).
Proof.
  intros Hc Hes Hne. destruct Hes as [|e es He Hes]; [done|]. clear Hne.
  destruct (record_head e He) as (hd & tl & Hr & Hhd).
  rewrite log_of_cons, Hr, <- !app_assoc in Hc.
  assert (length hd = 4%nat) as Hlen by (rewrite Hhd; apply be_bytes_length).
  unfold find_write_position. destruct (Z.eqb_spec (zlen (contents f)) 0) as [|_]; [done|].
  replace (take 4 (contents f)) with hd by (by rewrite Hc, take_app_length').
  destruct (Nat.leb 4 _); [|done]. destruct (Z.eqb_spec (le_value hd) 0) as [Hz|]; [|done].
  exfalso. unfold entry_fits, WAL_RECORD_MAX_LEN in He. pose proof (zlen_nonneg (payload e)).
  assert (1 + zlen (payload e) = 0); [|lia].
  rewrite <- (be_value_bytes 4 (1 + zlen (payload e))) by (change (256 ^ Z.of_nat 4) with 4294967296; lia).
  rewrite <- Hhd. apply le_value_zero in Hz; [|rewrite Hhd; unfold be_bytes; apply Forall_rev, le_bytes_range].
  rewrite Hz, Hlen. done.
Qed.

Definition record_fits (cfg : GroupCommitConfig) (e : WalEntry) : Prop :=
  entry_fits e /\ 9 + zlen (payload e) <= buffer_size cfg.

Lemma record_fits_split cfg es :
  Forall (record_fits cfg) es ->
  Forall entry_fits es /\ Forall (fun e => 9 + zlen (payload e) <= buffer_size cfg) es.
Proof. intros Hes. split; eapply Forall_impl; try exact Hes; by intros e [? ?]. Qed.

(** What the log acknowledges it gives back.  Opening a fresh log in any
    configuration, appending any sequence of entries that fit the buffer, with
    whatever automatic flushes the batch size and the buffer size cause, and
    flushing once, succeeds when the file system does; reading the bytes a
    power loss would leave, in any chunks, then hands exactly these entries to
    the callback in order.  A pre-allocated tail of eight zeros or more is
    counted as one error, although it is normal padding. *)
Theorem group_commit_durable cfg es f :
  contents f = [] -> script f = [] -> 0 < buffer_size cfg ->
  pre_alloc_size cfg = 0 \/ 4 <= pre_alloc_size cfg ->
  Forall (record_fits cfg) es -> es <> [] ->
  exists w0 f0 w k, wal_open cfg f = Ok w0 f0 /\ (iter wal_append es ;;; flush) w0 = Ok tt w /\
    durable (file w) = log_of es ++ zeros k /\
    forall chunks, Forall (fun c => c <> []) chunks -> concat chunks = durable (file w) ->
      exists r, replay collect (replay_open (map inr chunks), []) =
        Ok (Some (mkStats (zlen es) (zlen (log_of es)) (if Nat.leb 8 k then 1 else 0))) (r, es).
Proof.
  intros Hc Hs Hb Hpre [Hfits Hcap]%record_fits_split Hne.
  destruct (open_file cfg f Hs Hb) as (f0 & w0 & Hopen & Hc0 & Hs0 & Hw0 & Hb0 & Hcap0).
  rewrite Hc in Hc0. unfold extend in Hc0. simpl in Hc0. rewrite Nat.sub_0_r in Hc0.
  rewrite (fresh_position _ _ Hc0) in Hw0 by lia.
  pose proof (opened_inv w0 [] _ Hc0 Hs0 Hw0 Hb0) as Hinv.
  destruct (append_all_inv [] [] es w0 Hinv Hs0 Hfits) as (w & Hrun & Hsync); [by rewrite Hcap0|].
  destruct Hsync as [Hnil|(k & Hd)]; [done|]. simpl in Hd.
  exists w0, f0, w, k. split_and!; [done|done|done|].
  intros chunks Hch Hcat. rewrite Hd in Hcat.
  eexists. rewrite (replay_log es k [] chunks Hfits Hch); [|by rewrite app_nil_r|by left].
  rewrite padding_errors_count. reflexivity.
Qed.

(** A reopened log loses what it acknowledges.  On a pre-allocated file
    that already holds entries, [open] places the writer at the end of the
    file, behind the zeros; every entry appended and flushed from then on is
    on disk, and replay stops at the zeros before it: it returns the old
    entries only. *)
Theorem reopened_log_loses_entries cfg es k news f :
  contents f = log_of es ++ zeros k -> (8 <= k)%nat -> es <> [] ->
  Forall entry_fits es -> script f = [] -> 0 < buffer_size cfg ->
  Forall (record_fits cfg) news -> news <> [] ->
  exists w0 f0 w, wal_open cfg f = Ok w0 f0 /\ (iter wal_append news ;;; flush) w0 = Ok tt w /\
    (exists j i, durable (file w) = log_of es ++ zeros j ++ log_of news ++ zeros i) /\
    forall chunks, Forall (fun c => c <> []) chunks -> concat chunks = durable (file w) ->
      exists r, replay collect (replay_open (map inr chunks), []) =
        Ok (Some (mkStats (zlen es) (zlen (log_of es)) 1)) (r, es).
Proof.
  intros Hc Hk Hne Hes Hs Hb [Hfits Hcap]%record_fits_split Hnews.
  destruct (open_file cfg f Hs Hb) as (f0 & w0 & Hopen & Hc0 & Hs0 & Hw0 & Hb0 & Hcap0).
  unfold extend in Hc0. set (m := (Z.to_nat (pre_alloc_size cfg) - length (contents f))%nat) in Hc0.
  assert (contents (file w0) = log_of es ++ zeros (k + m)) as Hc1.
  { rewrite Hc0, Hc, <- app_assoc. unfold zeros. by rewrite replicate_add. }
  rewrite (used_position _ _ _ Hc1 Hes Hne) in Hw0.
  assert (contents (file w0) = contents (file w0) ++ zeros 0) as Hc2 by (by rewrite app_nil_r).
  pose proof (opened_inv w0 _ 0 Hc2 Hs0 Hw0 Hb0) as Hinv.
  destruct (append_all_inv _ [] news w0 Hinv Hs0 Hfits) as (w & Hrun & Hsync); [by rewrite Hcap0|].
  destruct Hsync as [Hnil|(j & Hd)]; [done|]. simpl in Hd.
  assert (durable (file w) = log_of es ++ zeros (k + m) ++ log_of news ++ zeros j) as Hdur
    by (by rewrite Hd, Hc1, <- app_assoc).
  exists w0, f0, w. split_and!; [done|done|by eauto|].
  intros chunks Hch Hcat. rewrite Hdur in Hcat.
  eexists. rewrite (replay_log es (k + m) _ chunks Hes Hch Hcat) by (right; lia).
  rewrite padding_errors_count. destruct (Nat.leb_spec 8 (k + m)); [|lia]. reflexivity.
Qed.
End commit.

(** ** A torn log *)

Section torn.
Context `{Crc32Laws}.

(** What is left of a log cut anywhere: whole records, and a record cut short
    or nothing. *)
Lemma log_take es n :
  Forall entry_fits es -> (n <= length (log_of es))%nat ->
  exists es1 es2 t, es = es1 ++ es2 /\ take n (log_of es) = log_of es1 ++ t /\
    (t = [] \/ exists e es3 m, es2 = e :: es3 /\ t = take m (record_of e) /\
                 (0 < m < length (record_of e))%nat).
Proof.
  intros Hes. revert n. induction Hes as [|e es He Hes IH]; intros n Hn.
  - exists [], [], []. split; [done|]. split; [|by left]. apply take_nil.
  - rewrite log_of_cons, length_app in Hn.
    destruct (Nat.le_gt_cases (length (record_of e)) n) as [Hle|Hlt].
    + destruct (IH (n - length (record_of e))%nat ltac:(lia)) as (es1 & es2 & t & -> & Ht & Hcase).
      exists (e :: es1), es2, t. split; [done|]. split; [|done].
      rewrite !log_of_cons, <- app_assoc, <- Ht. by rewrite take_app_ge.
    + exists [], (e :: es), (take n (record_of e)). split; [done|].
      rewrite log_of_cons, take_app_le by lia. split; [done|].
      destruct n as [|n]; [by left|]. right. exists e, es, (S n). split_and!; [done|done|lia..].
Qed.

Lemma replay_torn_tail e m fuel off r c :
  entry_fits e -> (0 < m < length (record_of e))%nat ->
  exists errs, zlen errs <= 1 /\
    replay_loop collect (S fuel) off (take m (record_of e)) (r, c) =
    Ok (Some tt) (mkReplay (reader r) (entries_read r) (bytes_read r) (errors r ++ errs), c).
Proof.
  intros He Hm. cbn [replay_loop].
  rewrite (entry_read_truncated e (record_of e) m (record_of_Some e He)) by lia.
  destruct (Z.eqb_spec (zlen (take m (record_of e))) 0) as [Hz|_].
  { rewrite zlen_eq, length_take in Hz. lia. }
  assert (forall x : Z * WalError.t, zlen [x] <= 1) as Hone by done.
  destruct (_ <? _), (all_zero _);
    (exists []; rewrite app_nil_r; by destruct r) || (eexists; by split; [apply Hone|]).
Qed.

(** C19: a torn log is recovered to a prefix.  Cut the bytes of any log
    anywhere, as a crash in the middle of a write does: replay hands the
    callback a prefix of the entries, the longest whose records are whole, and
    counts at most one error. *)
Theorem torn_log_prefix es n chunks :
  Forall entry_fits es -> (n <= length (log_of es))%nat ->
  Forall (fun c => c <> []) chunks -> concat chunks = take n (log_of es) ->
  exists es1 es2 r errs,
    es = es1 ++ es2 /\ 0 <= errs <= 1 /\
    zlen (log_of es1) <= Z.of_nat n /\
    (forall e es3, es2 = e :: es3 -> Z.of_nat n < zlen (log_of (es1 ++ [e]))) /\
    replay collect (replay_open (map inr chunks), []) =
      Ok (Some (mkStats (zlen es1) (zlen (log_of es1)) errs)) (r, es1).
Proof.
  intros Hes Hn Hch Hcat.
  destruct (log_take es n Hes Hn) as (es1 & es2 & t & -> & Ht & Hcase).
  apply Forall_app in Hes as [Hes1 Hes2].
  assert (Z.of_nat n = zlen (log_of es1) + zlen t) as Hlen.
  { rewrite <- zlen_app, <- Ht, zlen_eq, length_take. lia. }
  rewrite Ht in Hcat. unfold replay, replay_open. cbn [reader entries_read bytes_read errors].
  rewrite read_chunks_all by done. rewrite app_nil_l, Hcat.
  pose proof (log_of_count es1 Hes1) as Hcount.
  assert (exists fuel, S (length (log_of es1 ++ t)) = (length es1 + S fuel)%nat) as [fuel ->].
  { exists (length (log_of es1 ++ t) - length es1)%nat. rewrite length_app. lia. }
  rewrite replay_entries by done.
  destruct Hcase as [->|(e & es3 & m & -> & -> & Hm)].
  - eexists es1, es2, _, 0. split_and!; [done|lia|lia|rewrite Hlen; change (zlen []) with 0; lia| |].
    { intros e es3 ->. rewrite log_of_snoc, zlen_app, Hlen.
      apply Forall_cons in Hes2 as [He _]. apply record_of_length in He.
      pose proof (zlen_nonneg (payload e)). change (zlen []) with 0. lia. }
    reflexivity.
  - apply Forall_cons in Hes2 as [He _].
    assert (zlen (take m (record_of e)) = Z.of_nat m) as Hmz
      by (rewrite zlen_eq, length_take; lia).
    destruct (replay_torn_tail e m fuel (0 + zlen (log_of es1))
      (advance es1 (mkReplay [] 0 0 [])) ([] ++ es1) He Hm) as (errs & Herrs & Hrun).
    eexists es1, (e :: es3), _, (zlen errs). pose proof (zlen_nonneg errs).
    split_and!; [done|lia|lia|lia|..].
    { intros e' es' [= <- <-]. rewrite log_of_snoc, zlen_app, Hlen, Hmz, (zlen_eq (record_of e)). lia. }
    unfold advance in *. cbn [reader entries_read bytes_read errors] in *.
    rewrite Hrun. cbn [reader entries_read bytes_read errors]. reflexivity.
Qed.
End torn.

(** ** The memory-mapped log *)

Section mmap_theorems.
Context `{Crc32Laws}.

(** The scan ends within its fuel. *)
Lemma find_cursor_total fuel pos m :
  Forall is_byte m -> 0 <= pos -> zlen m - pos < Z.of_nat fuel -> (0 < fuel)%nat ->
  exists p, find_cursor fuel pos m = Some p /\ pos <= p.
Proof.
  intros Hm. revert pos. induction fuel as [|fuel IH]; intros pos Hpos Hf Hf0; [lia|].
  cbn [find_cursor]. destruct (Z.leb_spec (pos + 4) (zlen m)); [|exists pos; split; [done|lia]].
  assert (0 <= le_value (take 4 (drop (Z.to_nat pos) m))) as Hnn
    by (apply le_value_bound, Forall_take, Forall_drop, Hm).
  destruct (Z.eqb_spec (le_value (take 4 (drop (Z.to_nat pos) m))) 0); [exists pos; split; [done|lia]|].
  destruct (Z.ltb_spec (zlen m) (pos + (4 + 4 + 1 + le_value (take 4 (drop (Z.to_nat pos) m)))));
    [exists pos; split; [done|lia]|].
  destruct (IH (pos + (4 + 4 + 1 + le_value (take 4 (drop (Z.to_nat pos) m)))))
    as (p & Hp & ?); [lia|lia|lia|]. exists p. split; [done|lia].
Qed.

(** The length that the scan reads: the header's bytes in the wrong order. *)
Lemma record_le_length e tl hd :
  entry_fits e -> record_of e = hd ++ tl -> hd = be_bytes 4 (1 + zlen (payload e)) ->
  16777216 * ((1 + zlen (payload e)) mod 256) <= le_value hd.
Proof.
  intros He _ ->. unfold entry_fits, WAL_RECORD_MAX_LEN in He. pose proof (zlen_nonneg (payload e)).
  set (x := 1 + zlen (payload e)). unfold be_bytes. simpl.
  pose proof (Z.mod_pos_bound (x / 256) 256). pose proof (Z.mod_pos_bound (x / 256 / 256) 256).
  pose proof (Z.mod_pos_bound (x / 256 / 256 / 256) 256). lia.
Qed.

(** A reopened memory-mapped log overwrites itself.  The record header is
    big-endian and [find_cursor] reads it as little-endian; when the low byte
    of the first record's length is at least 4, the scan takes the record to
    reach past the end of the file and reports the log as empty.  A 64 MB log
    of any entries is then reopened with the cursor at zero, and the next
    entry of the same size replaces the first one on disk. *)
Theorem mmap_reopen_overwrites e es tail e' :
  Forall entry_fits (e :: es) -> entry_fits e' ->
  4 <= (1 + zlen (payload e)) mod 256 ->
  zlen (log_of (e :: es) ++ tail) = DEFAULT_FILE_SIZE ->
  zlen (payload e') = zlen (payload e) ->
  exists w w', mmap_open (log_of (e :: es) ++ tail) = Some w /\ cursor w = 0 /\
    mmap_append e' w = Ok tt w' /\ mmap w' = log_of (e' :: es) ++ tail.
Proof.
  intros [He Hes]%Forall_cons He' Hlow Hsize Hpl.
  pose proof (record_of_length e He) as Hl. pose proof (record_of_length e' He') as Hl'.
  pose proof (zlen_nonneg (payload e)).
  destruct (record_head e He) as (hd & tl & Hr & Hhd).
  pose proof (record_le_length e tl hd He Hr Hhd) as Hle.
  assert (length hd = 4%nat) as Hlen by (rewrite Hhd; apply be_bytes_length).
  assert (zlen (record_of e) <= DEFAULT_FILE_SIZE) as Hfit.
  { rewrite <- Hsize, log_of_cons, <- app_assoc, zlen_app.
    pose proof (zlen_nonneg (log_of es ++ tail)). lia. }
  exists (mkMmap (log_of (e :: es) ++ tail) 0 0). eexists. split; [|split; [done|]].
  - unfold mmap_open. rewrite Hsize, Z.ltb_irrefl. rewrite log_of_cons, Hr, <- !app_assoc in *.
    cbn [find_cursor]. change (Z.to_nat 0) with 0%nat. rewrite drop_0, take_app_length' by done.
    rewrite Hsize. unfold DEFAULT_FILE_SIZE in *.
    destruct (Z.leb_spec (0 + 4) 67108864); [|lia].
    destruct (Z.eqb_spec (le_value hd) 0); [done|].
    destruct (Z.ltb_spec 67108864 (0 + (4 + 4 + 1 + le_value hd))); [done|lia].
  - unfold mmap_append. rewrite (record_of_Some e' He'). unfold bind, unwrap, ret, get.
    cbn [mmap cursor]. rewrite Hsize.
    destruct (Z.ltb_spec DEFAULT_FILE_SIZE (0 + zlen (record_of e'))); [lia|].
    unfold put. split; [done|]. cbn [mmap]. rewrite log_of_cons, <- app_assoc.
    pose proof (overwrite_at [] (record_of e') (record_of e ++ log_of es ++ tail)) as Hw.
    rewrite !app_nil_l in Hw. change (Z.to_nat 0) with (length (@nil Z)). rewrite Hw.
    rewrite log_of_cons, <- app_assoc. f_equal.
    apply drop_app_length'. rewrite !zlen_eq in *. lia.
Qed.
End mmap_theorems.

(** ** A new log is all zeros *)

Section create.
Context `{Fs2Laws}.

Lemma write_all_at_ok data off f :
  script f = [] ->
  write_all_at data off f = Ok tt (set_contents (overwrite (Z.to_nat off) data (contents f)) f).
Proof. intros Hs. unfold write_all_at, sys_call. by rewrite Hs. Qed.

Lemma overwrite_zeros off d n : overwrite off (zeros d) (zeros n) = zeros (Nat.max n (off + d)).
Proof.
  unfold overwrite, zeros. rewrite !length_replicate, <- replicate_add, take_replicate, drop_replicate.
  rewrite <- !replicate_add. f_equal. lia.
Qed.

(** Each turn writes a megabyte or the rest, so the fuel of [create] is enough. *)
Lemma zero_fill_done fuel size written n f :
  0 <= written -> size - written <= 1048576 * Z.of_nat fuel ->
  script f = [] -> contents f = zeros n ->
  exists f', zero_fill fuel size written f = Ok tt f' /\ script f' = [] /\
    contents f' = zeros (Nat.max n (if written <? size then Z.to_nat size else 0)).
Proof.
  revert written n f. induction fuel as [|fuel IH]; intros written n f Hw Hfuel Hs Hc.
  - exists f. destruct (Z.ltb_spec written size); [lia|]. by rewrite Nat.max_0_r.
  - cbn [zero_fill]. destruct (Z.ltb_spec written size) as [Hlt|]; [|exists f; by rewrite Nat.max_0_r].
    rewrite (bind_ok _ _ _ _ _ (write_all_at_ok (zeros (Z.to_nat (Z.min 1048576 (size - written))))
      written f Hs)).
    set (d := Z.to_nat (Z.min 1048576 (size - written))).
    destruct (IH (written + Z.min 1048576 (size - written)) (Nat.max n (Z.to_nat written + d))
      (set_contents (overwrite (Z.to_nat written) (zeros d) (contents f)) f)) as (f' & Hf & Hs' & Hc');
      [lia|lia|exact Hs|cbn [contents set_contents]; rewrite Hc; apply overwrite_zeros|].
    exists f'. split_and!; [exact Hf|done|]. rewrite Hc'. f_equal. unfold d.
    destruct (Z.ltb_spec (written + Z.min 1048576 (size - written)) size); lia.
Qed.

(** Creating a log leaves a synced file of zeros of the configured size and a
    writer at its start, whatever the path held before. *)
Lemma create_zeroed cfg f :
  script f = [] -> 0 < buffer_size cfg -> 0 < pre_alloc_size cfg ->
  exists f' w, wal_create cfg f = Ok w f' /\ contents (file w) = zeros (Z.to_nat (pre_alloc_size cfg)) /\
    durable (file w) = contents (file w) /\ script (file w) = [] /\
    bytes_written w = 0 /\ buffered (buffer w) = [].
Proof.
  intros Hs Hb Hp. unfold wal_create, enable_direct_io. unfold bind at 1, modify. rewrite bind_ret.
  set (n := pre_alloc_size cfg) in *. destruct (Z.ltb_spec 0 n); [|lia].
  destruct (fs2_script n (set_contents [] f) Hs) as (f1 & Hf1 & Hs1).
  destruct (fs2_extends _ _ _ Hf1) as (k & Hk & Hc1). cbn [contents set_contents length] in Hk, Hc1.
  destruct (zero_fill_done (S (Z.to_nat (n / 1048576))) n 0 k f1) as (f2 & Hf2 & Hs2 & Hc2);
    [lia| |done|done|].
  { pose proof (Z.div_mod n 1048576 ltac:(lia)). pose proof (Z.mod_pos_bound n 1048576 ltac:(lia)).
    pose proof (Z.div_pos n 1048576 ltac:(lia) ltac:(lia)). lia. }
  destruct (Z.ltb_spec 0 n); [|lia].
  rewrite bind_assoc, (bind_ok _ _ _ _ _ Hf1), bind_assoc, (bind_ok _ _ _ _ _ Hf2).
  unfold bind, sync_file, sys_call, get. rewrite Hs2. unfold new_wal, buffer_with_capacity, buffer_new.
  destruct (Z.ltb_spec 0 (buffer_size cfg)); [|lia]. simpl.
  do 2 eexists. split; [done|]. cbn [file contents durable script bytes_written buffer buffered].
  split_and!; try done. rewrite Hc2. f_equal. lia.
Qed.
End create.

(** ** The theorems at concrete logs *)

Module Concrete.
#[local] Instance sum_crc : Crc32 := fun l => sum_list l mod 2 ^ 32.

#[local] Instance sum_crc_laws : Crc32Laws.
Proof. intros l. apply Z.mod_pos_bound. lia. Defined.

#[local] Instance plain_fs2 : Fs2 :=
  fun n f => Ok tt (set_contents (extend (Z.to_nat n) (contents f)) f).

#[local] Instance plain_fs2_laws : Fs2Laws.
Proof.
  split.
  - intros n f f' [= <-]. eexists. split; [|reflexivity]. lia.
  - intros n f Hs. eexists. by split.
Defined.

Definition small_config : GroupCommitConfig := mkConfig 2 40 false 64.

Definition order_entry (b : Z) : WalEntry := mkEntry WalEntryType.OrderLock [b; b; b].

Lemma small_entries bs : Forall (record_fits small_config) (map order_entry bs).
Proof. apply Forall_forall. intros e (b & -> & _)%list_elem_of_fmap. by split; vm_compute. Qed.

Lemma small_entries_fit bs : Forall entry_fits (map order_entry bs).
Proof. eapply Forall_impl; [apply small_entries|]. by intros e [? _]. Qed.

Lemma replay_terminates_witness :
  exists st s, replay collect (replay_open [inr [1; 2; 3]; inr [255; 0; 9; 9; 9; 9; 7; 7; 7; 7]], []) =
    Ok (Some st) s.
Proof.
  pose proof (replay_terminates collect [inr [1; 2; 3]; inr [255; 0; 9; 9; 9; 9; 7; 7; 7; 7]] []) as Ht.
  destruct (replay collect _) as [o s|e s|] eqn:Hr; cbn [outcome] in Ht.
  - destruct Ht as [st ->]. by exists st, s.
  - vm_compute in Hr. discriminate Hr.
  - vm_compute in Hr. discriminate Hr.
Defined.

Lemma group_commit_durable_witness :
  let es := map order_entry [5; 6; 7] in
  exists w0 f0 w k, wal_open small_config (mkFile [] [] []) = Ok w0 f0 /\
    (iter wal_append es ;;; flush) w0 = Ok tt w /\
    durable (file w) = log_of es ++ zeros k.
Proof.
  intros es.
  destruct (group_commit_durable small_config es (mkFile [] [] []))
    as (w0 & f0 & w & k & Hopen & Hrun & Hd & _);
    [done|done|by vm_compute|by right|apply small_entries|done|].
  exists w0, f0, w, k. split; [exact Hopen|]. split; [exact Hrun|exact Hd].
Defined.

Lemma reopened_log_loses_entries_witness :
  let es := map order_entry [5] in let news := map order_entry [6; 7] in
  exists w0 f0 w, wal_open small_config (mkFile (log_of es ++ zeros 52) [] []) = Ok w0 f0 /\
    (iter wal_append news ;;; flush) w0 = Ok tt w /\
    exists r, replay collect (replay_open [inr (durable (file w))], []) =
      Ok (Some (mkStats 1 12 1)) (r, es).
Proof.
  intros es news.
  destruct (reopened_log_loses_entries small_config es 52 news (mkFile (log_of es ++ zeros 52) [] []))
    as (w0 & f0 & w & Hopen & Hrun & (j & i & Hd) & Hreplay);
    [done|lia|done|apply (small_entries_fit [5])|done|by vm_compute|apply (small_entries [6; 7])|done|].
  exists w0, f0, w. split; [exact Hopen|]. split; [exact Hrun|].
  apply (Hreplay [durable (file w)]).
  - apply Forall_cons. split; [rewrite Hd; by vm_compute|by apply Forall_nil].
  - apply app_nil_r.
Defined.

Lemma torn_log_prefix_witness :
  exists es1 es2, map order_entry [5; 6] = es1 ++ es2 /\
    exists r errs, replay collect (replay_open [inr (take 20 (log_of (map order_entry [5; 6])))], []) =
      Ok (Some (mkStats (zlen es1) (zlen (log_of es1)) errs)) (r, es1).
Proof.
  destruct (torn_log_prefix (map order_entry [5; 6]) 20 [take 20 (log_of (map order_entry [5; 6]))])
    as (es1 & es2 & r & errs & Hes & _ & _ & _ & Hr).
  - apply (small_entries_fit [5; 6]).
  - vm_compute. lia.
  - apply Forall_cons. split; [by vm_compute|by apply Forall_nil].
  - apply app_nil_r.
  - exists es1, es2. split; [exact Hes|]. exists r, errs. exact Hr.
Defined.

Lemma mmap_reopen_overwrites_witness :
  exists w w', mmap_open (log_of [order_entry 5] ++ zeros (Z.to_nat 67108852)) = Some w /\ cursor w = 0 /\
    mmap_append (order_entry 6) w = Ok tt w' /\
    mmap w' = log_of [order_entry 6] ++ zeros (Z.to_nat 67108852).
Proof.
  apply (mmap_reopen_overwrites (order_entry 5) [] (zeros (Z.to_nat 67108852)) (order_entry 6)).
  - apply (small_entries_fit [5]).
  - by vm_compute.
  - by vm_compute.
  - rewrite zlen_app. replace (zlen (zeros (Z.to_nat 67108852))) with 67108852; [reflexivity|].
    unfold zeros. rewrite zlen_eq, length_replicate, Z2Nat.id; lia.
  - reflexivity.
Defined.
End Concrete.
