(* ===== verification/UbsCore.v ===== *)
(** * The balance authority ([src/src/ubs_core/core.rs])

    [UBSCore] holds the accounts, the deduplication guard, the debts, the fee
    configuration and the symbol table, and is attached to a log, to the queue
    of the order publisher and to the channel of balance events.  Every method
    is a computation on the whole state.  The wall clock is an argument. *)

From S2P Require Import Prelude Balance UserAccount Ledger UbsParts WalRecord UbsWal.

#[local] Open Scope string_scope.
#[local] Open Scope list_scope.
#[local] Open Scope Z_scope.
#[local] Open Scope rust_scope.

Definition HIGH_WATER_MARK : Z := 10000.
Definition ORDER_QUEUE_SIZE : Z := 10000.

Record OrderMessage := mkMessage { om_order_id : Z; om_payload : list Z }.

(** The sending end of the bounded channel: what the publisher has not taken
    yet, and whether it is still there. *)
Record OrderQueue := mkQueue { queued : list OrderMessage; publisher_alive : bool }.

(** The sending end of the unbounded event channel. *)
Record EventChannel := mkChannel { sent : list BalanceEvent; listener_alive : bool }.

(** The risk model is held and never called; it carries no state here. *)
Record UBSCore := mkCore {
  accounts : Accounts;
  dedup_guard : DeduplicationGuard;
  debt_ledger : DebtLedger;
  pending_queue : list InternalOrder;
  vip_configs : gmap Z Z;
  vip_table : list (Z * Z);
  asset_map : gmap Z (Z * Z);
  is_replay_mode : bool;
  wal : option GroupCommitWal;
  order_tx : option OrderQueue;
  event_tx : option EventChannel
}.

Definition ubs_new : UBSCore :=
  mkCore ∅ guard_new ∅ [] ∅ default_rates ∅ false None None None.

(** ** Parts of the state *)

Definition set_accounts (x : Accounts) (c : UBSCore) : UBSCore :=
  mkCore x (dedup_guard c) (debt_ledger c) (pending_queue c) (vip_configs c) (vip_table c)
    (asset_map c) (is_replay_mode c) (wal c) (order_tx c) (event_tx c).
Definition set_guard (x : DeduplicationGuard) (c : UBSCore) : UBSCore :=
  mkCore (accounts c) x (debt_ledger c) (pending_queue c) (vip_configs c) (vip_table c)
    (asset_map c) (is_replay_mode c) (wal c) (order_tx c) (event_tx c).
Definition set_debts (x : DebtLedger) (c : UBSCore) : UBSCore :=
  mkCore (accounts c) (dedup_guard c) x (pending_queue c) (vip_configs c) (vip_table c)
    (asset_map c) (is_replay_mode c) (wal c) (order_tx c) (event_tx c).
Definition set_asset_map (x : gmap Z (Z * Z)) (c : UBSCore) : UBSCore :=
  mkCore (accounts c) (dedup_guard c) (debt_ledger c) (pending_queue c) (vip_configs c)
    (vip_table c) x (is_replay_mode c) (wal c) (order_tx c) (event_tx c).
Definition set_replay_flag (x : bool) (c : UBSCore) : UBSCore :=
  mkCore (accounts c) (dedup_guard c) (debt_ledger c) (pending_queue c) (vip_configs c)
    (vip_table c) (asset_map c) x (wal c) (order_tx c) (event_tx c).
Definition set_wal (x : option GroupCommitWal) (c : UBSCore) : UBSCore :=
  mkCore (accounts c) (dedup_guard c) (debt_ledger c) (pending_queue c) (vip_configs c)
    (vip_table c) (asset_map c) (is_replay_mode c) x (order_tx c) (event_tx c).
Definition set_order_tx (x : option OrderQueue) (c : UBSCore) : UBSCore :=
  mkCore (accounts c) (dedup_guard c) (debt_ledger c) (pending_queue c) (vip_configs c)
    (vip_table c) (asset_map c) (is_replay_mode c) (wal c) x (event_tx c).
Definition set_event_tx (x : option EventChannel) (c : UBSCore) : UBSCore :=
  mkCore (accounts c) (dedup_guard c) (debt_ledger c) (pending_queue c) (vip_configs c)
    (vip_table c) (asset_map c) (is_replay_mode c) (wal c) (order_tx c) x.

Definition on_accounts {E A} (m : M Accounts E A) : M UBSCore E A :=
  zoom (fun c => Some (accounts c)) set_accounts m.
Definition on_guard {E A} (m : M DeduplicationGuard E A) : M UBSCore E A :=
  zoom (fun c => Some (dedup_guard c)) set_guard m.
Definition on_debts {E A} (m : M DebtLedger E A) : M UBSCore E A :=
  zoom (fun c => Some (debt_ledger c)) set_debts m.
Definition on_wal {A} (m : M GroupCommitWal WalError.t A) : M UBSCore WalError.t A :=
  zoom wal (fun w => set_wal (Some w)) m.

(** ** Configuration *)

Definition with_event_listener : UBSCore -> UBSCore := set_event_tx (Some (mkChannel [] true)).

Definition register_symbol (symbol_id base quote : Z) (c : UBSCore) : UBSCore :=
  set_asset_map (<[symbol_id := (base, quote)]> (asset_map c)) c.

Definition create_order_queue : UBSCore -> UBSCore := set_order_tx (Some (mkQueue [] true)).

Definition set_replay_mode (enabled : bool) : UBSCore -> UBSCore := set_replay_flag enabled.

(** [self.accounts.entry(user_id).or_insert_with(...)] *)
Definition get_or_create_account (user : Z) (c : UBSCore) : UBSCore :=
  set_accounts (<[user := entry_or_new user (accounts c)]> (accounts c)) c.

(** ** Reads *)

Definition ubs_get_balance (user asset : Z) (c : UBSCore) : option Z :=
  avail <$> (accounts c !! user ≫= get_balance asset).

Definition get_balance_full (user asset : Z) (c : UBSCore) : option (Z * Z) :=
  (fun b => (avail b, frozen b)) <$> (accounts c !! user ≫= get_balance asset).

Definition ubs_has_debt (user : Z) (c : UBSCore) : bool := has_debt user (debt_ledger c).

Definition can_withdraw (user asset amount : Z) (c : UBSCore) : bool :=
  if has_debt user (debt_ledger c) then false
  else
    match accounts c !! user ≫= get_balance asset with
    | Some balance => amount <=? avail balance
    | None => false
    end.

Definition current_time (order : InternalOrder) (clock : Z) (c : UBSCore) : Z :=
  if is_replay_mode c then timestamp_ms order else clock.

(** ** Events *)

(** A closed channel is logged and otherwise ignored. *)
Definition emit_event {E} (event : BalanceEvent) : M UBSCore E unit :=
  modify (fun c =>
    match event_tx c with
    | Some ch =>
        if listener_alive ch then set_event_tx (Some (mkChannel (sent ch ++ [event]) true)) c else c
    | None => c
    end).

(** [self.accounts.get_mut(&user_id).ok_or(AccountNotFound)?] and what is done
    with the account. *)
Definition with_account {A} (user : Z) (m : M UserAccount RejectReason A) : M UBSCore RejectReason A :=
  let* c := get in
  match accounts c !! user with
  | Some _ => on_accounts (on_existing user m)
  | None => throw AccountNotFound
  end.

(** The lazily created account of the deposit paths. *)
Definition ensure_account {E} (user : Z) : M UBSCore E unit :=
  let* c := get in
  match accounts c !! user with
  | Some _ => ret tt
  | None =>
      put (set_accounts (<[user := new_account user]> (accounts c)) c) ;;;
      emit_event (AccountCreated user)
  end.

(** ** Funds *)

Definition lock_funds (user asset amount order_id : Z) : M UBSCore RejectReason Z :=
  let* new_avail := with_account user
    (borrow asset (map_err (fun _ => InsufficientFunds) (lock amount) ;;;
                   let* b := get in ret (avail b))) in
  emit_event (FundsLocked order_id user asset amount) ;;;
  ret new_avail.

Definition unlock_funds (user asset amount order_id : Z) : M UBSCore RejectReason Z :=
  let* new_avail := with_account user
    (borrow asset (map_err (fun _ => InsufficientFrozen) (unlock amount) ;;;
                   let* b := get in ret (avail b))) in
  emit_event (FundsUnlocked order_id UnlockCancel) ;;;
  ret new_avail.

(** Parameters in the order of the source. *)
Definition settle_trade
    (match_id buyer_id seller_id base_asset quote_asset base_qty quote_amt buyer_refund
     buyer_order_id seller_order_id buyer_fee seller_fee : Z) : M UBSCore RejectReason unit :=
  with_account buyer_id (
    borrow quote_asset (map_err (fun _ => InsufficientFrozen) (spend_frozen quote_amt)) ;;;
    borrow base_asset (map_err (fun _ => BalanceOverflow) (deposit base_qty)) ;;;
    if 0 <? buyer_refund
    then borrow quote_asset (map_err (fun _ => InsufficientFrozen) (unlock buyer_refund))
    else ret tt) ;;;
  with_account seller_id (
    borrow base_asset (map_err (fun _ => InsufficientFrozen) (spend_frozen base_qty)) ;;;
    borrow quote_asset (map_err (fun _ => BalanceOverflow) (deposit quote_amt))) ;;;
  emit_event (TradeSettled match_id buyer_id seller_id base_asset quote_asset base_qty quote_amt
                buyer_fee seller_fee buyer_order_id seller_order_id).

Section profile.
Context {bp : BuildProfile}.

Definition on_deposit {E} (user asset amount tx_id : Z) : M UBSCore E unit :=
  let* remaining := on_debts (pay_debt user asset amount) in
  if 0 <? remaining then
    ensure_account user ;;;
    on_accounts (on_existing user (borrow asset (ignore (deposit remaining)))) ;;;
    emit_event (Deposited tx_id user asset remaining)
  else ret tt.

Definition on_withdraw {E} (user asset amount tx_id : Z) : M UBSCore E bool :=
  let* c := get in
  match accounts c !! user with
  | None => ret false
  | Some _ =>
      let* done := on_accounts (on_existing user (borrow asset
        (fun b => match withdraw amount b with
                  | Ok _ b' => Ok true b'
                  | Err _ b' => Ok false b'
                  | Panic => Panic
                  end))) in
      if (done : bool) then
        emit_event (Withdrawn tx_id user asset amount) ;;;
        ret true
      else ret false
  end.

(** The [i64] arithmetic on one balance: [inl] the new available amount,
    [inr] the shortfall of ghost money. *)
Definition apply_delta_to_balance {E} (delta : Z) : M Balance E (Z + Z) :=
  let* b := get in
  let current := as_i64 (avail b) in
  let* expected := unwrap (i64_op (current + delta)) in
  if 0 <=? expected then
    (if 0 <=? delta then ignore (deposit (as_u64 delta))
     else
       let* neg := unwrap (i64_op (- delta)) in
       ignore (withdraw (as_u64 neg))) ;;;
    let* b := get in
    ret (inl (avail b))
  else
    ignore (withdraw (as_u64 current)) ;;;
    let* shortfall := unwrap (i64_op (- expected)) in
    ret (inr (as_u64 shortfall)).

Definition apply_balance_delta {E} (user asset delta : Z) (event_type : EventType) (clock : Z)
  : M UBSCore E Z :=
  ensure_account user ;;;
  let* outcome := on_accounts (on_existing user (borrow asset (apply_delta_to_balance delta))) in
  match outcome with
  | inl new_avail => ret new_avail
  | inr shortfall =>
      on_debts (add_debt user asset (mkDebt shortfall clock (debt_reason event_type))) ;;;
      ret 0
  end.

Definition calculate_fee (user trade_value : Z) (is_maker : bool) (c : UBSCore) : option Z :=
  let vip_level := default 0 (vip_configs c !! user) in
  rate ← get_rate (vip_table c) vip_level is_maker;
  fee ← op_mul trade_value rate;
  Some (fee / 1000000).
End profile.

(** ** Orders *)

Definition validate_order (order : InternalOrder) (clock : Z) : M UBSCore RejectReason unit :=
  let* c := get in
  if HIGH_WATER_MARK <? Z.of_nat (length (pending_queue c)) then throw SystemBusy
  else
    let now := current_time order clock c in
    on_guard (check_and_record (io_order_id order) now) ;;;
    let* c := get in
    let* _account := ok_or (accounts c !! io_user_id order) AccountNotFound in
    let cost := calculate_cost order in
    if cost =? u64_max then throw OrderCostOverflow
    else
      match asset_map c !! io_symbol_id order with
      | None => throw InvalidSymbol
      | Some (base_asset, quote_asset) =>
          let lock_asset := match io_side order with UbsBuy => quote_asset | UbsSell => base_asset end in
          let* _ := lock_funds (io_user_id order) lock_asset cost (io_order_id order) in
          ret tt
      end.

(** [bincode::serialize] of an order. *)
Class OrderCodec := bincode_order : InternalOrder -> option (list Z).

Section durable.
Context `{Crc32} `{Fs2} {codec : OrderCodec}.

(** [tx.try_send]: a full queue or a publisher that is gone is logged, and the
    order goes on ("safe in WAL"). *)
Definition try_send (msg : OrderMessage) (q : OrderQueue) : OrderQueue :=
  if publisher_alive q && (Z.of_nat (length (queued q)) <? ORDER_QUEUE_SIZE)
  then mkQueue (queued q ++ [msg]) true else q.

Definition persist_order (order : InternalOrder) : M UBSCore RejectReason unit :=
  let* c := get in
  match wal c with
  | None => ret tt
  | Some _ =>
      let* payload := ok_or (bincode_order order) InternalError in
      let entry := mkEntry WalEntryType.OrderLock payload in
      map_err (fun _ => InternalError) (on_wal (wal_append entry)) ;;;
      map_err (fun _ => InternalError) (on_wal flush)
  end.

Definition publish_order (order : InternalOrder) : M UBSCore RejectReason unit :=
  modify (fun c =>
    match order_tx c with
    | Some q =>
        let payload := default [] (bincode_order order) in
        set_order_tx (Some (try_send (mkMessage (io_order_id order) payload) q)) c
    | None => c
    end).

Definition process_order_durable (order : InternalOrder) (clock : Z) : M UBSCore RejectReason unit :=
  validate_order order clock ;;;
  persist_order order ;;;
  publish_order order.

(** [with_wal]: opens the log at the path in the default configuration. *)
Definition with_wal : M FileIo string UBSCore :=
  let* w := map_err (fun _ => "Failed to open WAL") (wal_open default_config) in
  ret (set_wal (Some w) ubs_new).
End durable.

(** ** What a user holds *)

Definition bal_of (accts : Accounts) (user asset : Z) : Balance := bal (entry_or_new user accts) asset.

Lemma bal_of_insert accts user acc u a :
  bal_of (<[user := acc]> accts) u a = if user =? u then bal acc a else bal_of accts u a.
Proof.
  unfold bal_of, entry_or_new. destruct (Z.eqb_spec user u) as [->|].
  - by rewrite lookup_insert_eq.
  - by rewrite lookup_insert_ne.
Qed.

Lemma bal_of_new user asset : bal (new_account user) asset = default_balance.
Proof. done. Qed.

(** ** Accounts through the core *)

Lemma with_account_eq {A} user (m : M UserAccount RejectReason A) c :
  with_account user m c =
  match accounts c !! user with
  | Some acc => res_map (fun acc' => set_accounts (<[user := acc']> (accounts c)) c) (m acc)
  | None => Err AccountNotFound c
  end.
Proof.
  unfold with_account, bind, get, on_accounts, on_existing, zoom.
  destruct (accounts c !! user) as [acc|] eqn:Hu; [|done]. rewrite Hu. by destruct (m acc).
Qed.

Lemma emit_event_eq {E} event c :
  exists c', emit_event (E := E) event c = Ok tt c' /\ accounts c' = accounts c /\
    dedup_guard c' = dedup_guard c /\ debt_ledger c' = debt_ledger c /\ wal c' = wal c /\
    order_tx c' = order_tx c /\ asset_map c' = asset_map c /\
    (forall ch, event_tx c = Some ch -> listener_alive ch = true ->
       event_tx c' = Some (mkChannel (sent ch ++ [event]) true)).
Proof.
  eexists. split; [done|]. destruct (event_tx c) as [ch|] eqn:Htx; [|by split_and!].
  destruct (listener_alive ch) eqn:Hal; split_and!; try done; intros ch' [= <-] Hal'; [done|congruence].
Qed.

(** A balance method with its errors renamed, through a borrow. *)
Lemma borrow_op_ok {E} a op (g : string -> E) acc x acc' :
  borrow a (map_err g (run_op op)) acc = Ok x acc' ->
  exists b, run_op op (bal acc a) = Ok x b /\ acc' = upd a b acc.
Proof. intros (b & Hb%map_err_inv_ok & ->)%borrow_ok. by exists b. Qed.

Lemma borrow_op_holds {E} a op (g : string -> E) acc x acc' :
  borrow a (map_err g (run_op op)) acc = Ok x acc' ->
  forall a', holds acc' a' = holds acc a' + at_asset a (flow op) a'.
Proof.
  intros (b & Hb & ->)%borrow_op_ok a'. destruct x. apply run_op_flow in Hb.
  rewrite holds_upd. unfold at_asset, holds. destruct (Z.eqb_spec a a'); subst; lia.
Qed.
