(* ===== verification/UbsCoreProofs.v ===== *)
(** * What the balance authority guarantees

    Settlement conserves the supply when it succeeds and loses funds when the
    seller's side fails; validation locks exactly the cost or moves nothing;
    deposits and balance deltas are exact in the net position of a user;
    accepted orders are in the log. *)

From S2P Require Import Prelude Balance UserAccount Ledger FastUlid UbsParts Bytes WalRecord.
From S2P Require Import UbsWal UbsWalProofs UbsCore.

#[local] Open Scope string_scope.
#[local] Open Scope list_scope.
#[local] Open Scope Z_scope.
#[local] Open Scope rust_scope.

(** ** Settlement *)

Lemma settle_buyer_holds quote base spend gain refund acc acc' :
  (borrow quote (map_err (fun _ => InsufficientFrozen) (spend_frozen spend)) ;;;
   borrow base (map_err (fun _ => BalanceOverflow) (deposit gain)) ;;;
   if 0 <? refund then borrow quote (map_err (fun _ => InsufficientFrozen) (unlock refund))
   else ret tt) acc = Ok tt acc' ->
  forall a, holds acc' a = holds acc a - at_asset quote spend a + at_asset base gain a.
Proof.
  intros ([] & acc1 & H1 & ([] & acc2 & H2 & H3)%bind_inv_ok)%bind_inv_ok a.
  pose proof (borrow_op_holds _ (OpSpendFrozen spend) _ _ _ _ H1 a) as F1.
  pose proof (borrow_op_holds _ (OpDeposit gain) _ _ _ _ H2 a) as F2.
  assert (holds acc' a = holds acc2 a) as F3.
  { destruct (0 <? refund); [|by injection H3 as <-].
    pose proof (borrow_op_holds _ (OpUnlock refund) _ _ _ _ H3 a) as F3.
    unfold at_asset in F3. simpl in F3. destruct (quote =? a); lia. }
  unfold at_asset in *. simpl in *. destruct (quote =? a), (base =? a); lia.
Qed.

Lemma settle_seller_holds base quote spend gain acc acc' :
  (borrow base (map_err (fun _ => InsufficientFrozen) (spend_frozen spend)) ;;;
   borrow quote (map_err (fun _ => BalanceOverflow) (deposit gain))) acc = Ok tt acc' ->
  forall a, holds acc' a = holds acc a - at_asset base spend a + at_asset quote gain a.
Proof.
  intros ([] & acc1 & H1 & H2)%bind_inv_ok a.
  pose proof (borrow_op_holds _ (OpSpendFrozen spend) _ _ _ _ H1 a) as F1.
  pose proof (borrow_op_holds _ (OpDeposit gain) _ _ _ _ H2 a) as F2.
  unfold at_asset in *. simpl in *. destruct (quote =? a), (base =? a); lia.
Qed.

Lemma with_account_supply {A} user (m : M UserAccount RejectReason A) c x c' a d :
  with_account user m c = Ok x c' ->
  (forall acc acc', m acc = Ok x acc' -> holds acc' a = holds acc a + d) ->
  supply a (accounts c') = supply a (accounts c) + d.
Proof.
  rewrite with_account_eq. destruct (accounts c !! user) as [acc|] eqn:Hu; [|done].
  destruct (m acc) as [y acc'|e acc'|] eqn:Hm; [|done..]. intros [= -> <-] Hd.
  cbn [accounts set_accounts]. rewrite supply_insert. unfold entry_or_new. rewrite Hu. simpl.
  rewrite (Hd _ _ Hm). lia.
Qed.

(** C13: settling a trade conserves every asset.  When [settle_trade] returns
    [Ok], the total supply of every asset is what it was, whoever the buyer and
    the seller are (the same user included) and whatever the refund. *)
Theorem settle_trade_conserves mid buyer seller base quote bq qa refund boid soid bfee sfee c c' a :
  settle_trade mid buyer seller base quote bq qa refund boid soid bfee sfee c = Ok tt c' ->
  supply a (accounts c') = supply a (accounts c).
Proof.
  unfold settle_trade.
  intros ([] & c1 & H1 & ([] & c2 & H2 & H3)%bind_inv_ok)%bind_inv_ok.
  apply (with_account_supply _ _ _ _ _ a (- at_asset quote qa a + at_asset base bq a)) in H1.
  2: { intros acc acc' Hm. rewrite (settle_buyer_holds _ _ _ _ _ _ _ Hm a). lia. }
  apply (with_account_supply _ _ _ _ _ a (- at_asset base bq a + at_asset quote qa a)) in H2.
  2: { intros acc acc' Hm. rewrite (settle_seller_holds _ _ _ _ _ _ Hm a). lia. }
  edestruct (emit_event_eq (E := RejectReason)) as (c3 & Hc3 & Hacc & _).
  rewrite Hc3 in H3. injection H3 as <-. rewrite Hacc. lia.
Qed.

(** Settlement is not atomic.  When the buyer can pay and the seller's
    frozen base is short, [settle_trade] reports [InsufficientFrozen] after it
    has settled the buyer: the buyer's quote is gone and the buyer's base has
    been created, so the supplies no longer match. *)
Theorem settle_trade_not_atomic mid buyer seller base quote bq qa boid soid bfee sfee c accb accs :
  buyer <> seller -> base <> quote ->
  accounts c !! buyer = Some accb -> accounts c !! seller = Some accs ->
  qa <= frozen (bal accb quote) -> avail (bal accb base) + bq <= u64_max ->
  frozen (bal accs base) < bq ->
  exists c', settle_trade mid buyer seller base quote bq qa 0 boid soid bfee sfee c =
      Err InsufficientFrozen c' /\
    supply quote (accounts c') = supply quote (accounts c) - qa /\
    supply base (accounts c') = supply base (accounts c) + bq /\
    event_tx c' = event_tx c.
Proof.
  intros Hus Hbq Hb Hs Hq Hbase Hshort. unfold settle_trade.
  unfold bind at 1. rewrite with_account_eq, Hb. unfold bind at 1 2.
  rewrite borrow_eq. unfold map_err at 1. rewrite spend_frozen_eq.
  destruct (Z.leb_spec qa (frozen (bal accb quote))); [|lia]. cbn [res_map].
  rewrite borrow_eq. unfold map_err at 1. rewrite deposit_eq, bal_upd.
  destruct (Z.eqb_spec quote base) as [|_]; [congruence|].
  destruct (Z.leb_spec (avail (bal accb base) + bq) u64_max); [|lia]. cbn [res_map].
  change (0 <? 0) with false. cbn [ret]. unfold ret at 1. cbn [res_map].
  set (accb' := upd base _ _). unfold bind at 1. rewrite with_account_eq.
  cbn [accounts set_accounts]. rewrite lookup_insert_ne by done. rewrite Hs.
  unfold bind at 1. rewrite borrow_eq. unfold map_err at 1. rewrite spend_frozen_eq.
  destruct (Z.leb_spec bq (frozen (bal accs base))); [lia|]. cbn [res_map].
  eexists. split; [done|]. cbn [accounts set_accounts event_tx].
  rewrite !supply_insert. unfold entry_or_new. rewrite lookup_insert_ne, Hs, Hb by done.
  cbn [default]. unfold id, accb'. rewrite !holds_upd, !Z.eqb_refl.
  assert ((base =? quote) = false /\ (quote =? base) = false) as [Hbq1 Hbq2] by (split; lia).
  rewrite ?Hbq1, ?Hbq2.
  unfold holds, held. cbn [avail frozen stamp]. split_and!; [lia|lia|done].
Qed.

(** ** Validation *)

(** What every user holds of every asset is the same. *)
Definition same_balances (c c' : UBSCore) : Prop :=
  forall u a, bal_of (accounts c') u a = bal_of (accounts c) u a.

Lemma lock_funds_cases user asset amount oid c :
  (forall u a, held (bal_of (accounts c) u a) <= u64_max) ->
  match lock_funds user asset amount oid c with
  | Ok x c' => exists acc, accounts c !! user = Some acc /\ amount <= avail (bal acc asset) /\
      x = avail (bal acc asset) - amount /\
      accounts c' = <[user := upd asset (stamp (avail (bal acc asset) - amount)
                                           (frozen (bal acc asset) + amount) (bal acc asset)) acc]> (accounts c) /\
      dedup_guard c' = dedup_guard c /\ debt_ledger c' = debt_ledger c /\ wal c' = wal c /\
      order_tx c' = order_tx c /\
      (forall ch, event_tx c = Some ch -> listener_alive ch = true ->
         event_tx c' = Some (mkChannel (sent ch ++ [FundsLocked oid user asset amount]) true))
  | Err e c' => same_balances c c' /\ dedup_guard c' = dedup_guard c /\ debt_ledger c' = debt_ledger c /\
      wal c' = wal c /\ order_tx c' = order_tx c /\ event_tx c' = event_tx c
  | Panic => False
  end.
Proof.
  intros Hheld. unfold lock_funds. unfold bind at 1. rewrite with_account_eq.
  destruct (accounts c !! user) as [acc|] eqn:Hu; [|by split_and!].
  rewrite borrow_eq. unfold bind, map_err, get, ret. rewrite lock_eq.
  specialize (Hheld user asset). unfold bal_of, entry_or_new in Hheld. rewrite Hu in Hheld.
  simpl in Hheld. unfold held in Hheld.
  destruct (Z.leb_spec amount (avail (bal acc asset))) as [Hle|Hgt].
  - destruct (Z.leb_spec (frozen (bal acc asset) + amount) u64_max); [|lia]. cbn [res_map].
    set (c1 := set_accounts _ c).
    destruct (emit_event_eq (E := RejectReason) (FundsLocked oid user asset amount) c1)
      as (c2 & Hc2 & Ha & Hg & Hd & Hw & Ho & _ & Hev).
    rewrite Hc2. exists acc. rewrite Ha, Hg, Hd, Hw, Ho. by split_and!.
  - cbn [res_map]. split_and!; try done. intros u a. cbn [accounts set_accounts].
    rewrite bal_of_insert, bal_upd. destruct (Z.eqb_spec user u) as [->|]; [|done].
    unfold bal_of, entry_or_new. rewrite Hu. simpl. by destruct (Z.eqb_spec asset a) as [->|].
Qed.

(** The guard's checks touch the guard only. *)
Lemma guard_frame id now c :
  match on_guard (check_and_record id now) c with
  | Ok _ c' => exists g, c' = set_guard g c /\ id ∈ cache g /\ id ∉ cache (dedup_guard c)
  | Err _ c' => c' = c
  | Panic => False
  end.
Proof.
  unfold on_guard, zoom. destruct (check_and_record id now (dedup_guard c)) as [[] g|e g|] eqn:Hc.
  - apply guard_accepts in Hc as (Hn & _ & Hcache). exists g. split_and!; [done| |done].
    rewrite Hcache. apply elem_of_app. right. apply list_elem_of_here.
  - apply check_err_same in Hc as ->. by destruct c.
  - revert Hc. unfold check_and_record, bind, get, throw, put, modify, ret.
    destruct (_ <? _); [done|]. destruct (_ <? _); [done|]. destruct (_ <? _); [done|].
    case_bool_decide; [done|]. destruct (Nat.leb _ _); [|done].
    by destruct (index_set_pop _) as [[? ?]|].
Qed.

Definition lock_asset (order : InternalOrder) (assets : Z * Z) : Z :=
  match io_side order with UbsBuy => assets.2 | UbsSell => assets.1 end.

(** What validation does, on every path. *)
Lemma validate_order_cases order clock c :
  (forall u a, held (bal_of (accounts c) u a) <= u64_max) ->
  match validate_order order clock c with
  | Ok _ c' => exists acc assets, accounts c !! io_user_id order = Some acc /\
      asset_map c !! io_symbol_id order = Some assets /\
      let a := lock_asset order assets in
      calculate_cost order <= avail (bal acc a) /\ calculate_cost order <> u64_max /\
      accounts c' = <[io_user_id order :=
        upd a (stamp (avail (bal acc a) - calculate_cost order)
                     (frozen (bal acc a) + calculate_cost order) (bal acc a)) acc]> (accounts c) /\
      io_order_id order ∉ cache (dedup_guard c) /\ io_order_id order ∈ cache (dedup_guard c') /\
      debt_ledger c' = debt_ledger c /\ wal c' = wal c /\ order_tx c' = order_tx c /\
      (forall ch, event_tx c = Some ch -> listener_alive ch = true -> event_tx c' =
         Some (mkChannel (sent ch ++ [FundsLocked (io_order_id order) (io_user_id order) a
                                        (calculate_cost order)]) true))
  | Err e c' => same_balances c c' /\ debt_ledger c' = debt_ledger c /\ wal c' = wal c /\
      order_tx c' = order_tx c /\ event_tx c' = event_tx c
  | Panic => False
  end.
Proof.
  intros Hheld. unfold validate_order. unfold bind at 1, get.
  destruct (_ <? _); [by split_and!|].
  pose proof (guard_frame (io_order_id order) (current_time order clock c) c) as Hg.
  unfold bind at 1. destruct (on_guard _ c) as [[] c1|e c1|]; [|by subst|done].
  destruct Hg as (g & -> & Hin & Hnew). unfold bind at 1, get. cbn [accounts asset_map set_guard].
  unfold ok_or. destruct (accounts c !! io_user_id order) as [acc0|] eqn:Hu; [|by split_and!].
  rewrite bind_ret. destruct (Z.eqb_spec (calculate_cost order) u64_max) as [|Hcost]; [by split_and!|].
  destruct (asset_map c !! io_symbol_id order) as [[base quote]|] eqn:Hm; [|by split_and!].
  fold (lock_asset order (base, quote)).
  change (match io_side order with UbsBuy => quote | UbsSell => base end)
    with (lock_asset order (base, quote)).
  pose proof (lock_funds_cases (io_user_id order) (lock_asset order (base, quote))
    (calculate_cost order) (io_order_id order) (set_guard g c) Hheld) as Hl.
  unfold bind. destruct (lock_funds _ _ _ _ _) as [x c2|e c2|]; [| |done].
  - destruct Hl as (acc & Hu' & Hle & _ & Ha & Hg & Hd & Hw & Ho & Hev).
    cbn [accounts dedup_guard debt_ledger wal order_tx event_tx set_guard] in *.
    exists acc, (base, quote). rewrite Hg. split_and!; try done; congruence.
  - destruct Hl as (? & ? & ? & ? & ? & ?). by split_and!.
Qed.

Lemma validate_recorded o clock c :
  io_order_id o ∈ cache (dedup_guard c) -> is_ok (validate_order o clock c) = false.
Proof.
  intros Hin. unfold validate_order, bind, get. destruct (_ <? _); [done|]. unfold on_guard, zoom.
  pose proof (guard_refuses_recorded (io_order_id o) (current_time o clock c) (dedup_guard c) Hin) as Hr.
  by destruct (check_and_record _ _ _).
Qed.

(** C14: validating an order locks its cost or does nothing.  With what a user
    holds below the 64-bit ceiling, [Ok] means that exactly the cost moved from
    available to frozen, of the quote asset for a purchase and the base asset
    for a sale, and that every other balance is untouched; the order is then
    refused when it comes again.  A refusal leaves every balance and the event
    channel as they were; validation never panics. *)
Theorem validate_order_locks order clock c :
  (forall u a, held (bal_of (accounts c) u a) <= u64_max) ->
  match validate_order order clock c with
  | Ok _ c' => exists assets, asset_map c !! io_symbol_id order = Some assets /\
      let u := io_user_id order in let a := lock_asset order assets in
      calculate_cost order <= avail (bal_of (accounts c) u a) /\
      avail (bal_of (accounts c') u a) = avail (bal_of (accounts c) u a) - calculate_cost order /\
      frozen (bal_of (accounts c') u a) = frozen (bal_of (accounts c) u a) + calculate_cost order /\
      (forall u' a', u' <> u \/ a' <> a -> bal_of (accounts c') u' a' = bal_of (accounts c) u' a') /\
      forall clock', is_ok (validate_order order clock' c') = false
  | Err e c' => same_balances c c' /\ event_tx c' = event_tx c
  | Panic => False
  end.
Proof.
  intros Hheld. pose proof (validate_order_cases order clock c Hheld) as Hv.
  destruct (validate_order order clock c) as [[] c'|e c'|]; [|by destruct Hv as (? & _ & _ & _ & ?)|done].
  destruct Hv as (acc & assets & Hu & Hm & Hle & Hcost & Ha & Hnew & Hin & _).
  exists assets. split; [done|]. cbv zeta. set (a := lock_asset order assets) in *.
  assert (bal_of (accounts c) (io_user_id order) a = bal acc a) as ->
    by (unfold bal_of, entry_or_new; by rewrite Hu).
  rewrite Ha. split; [done|]. rewrite !bal_of_insert, !Z.eqb_refl, !bal_upd, !Z.eqb_refl.
  split_and!; [done|done| |].
  - intros u' a' Hne. rewrite bal_of_insert.
    destruct (Z.eqb_spec (io_user_id order) u') as [<-|]; [|done]. rewrite bal_upd.
    destruct (Z.eqb_spec a a') as [<-|]; [by destruct Hne|]. unfold bal_of, entry_or_new. by rewrite Hu.
  - intros clock'. by apply validate_recorded.
Qed.

(** ** Debts *)

Definition debt_of (c : UBSCore) (u a : Z) : Z := default 0 (debt_amount <$> debt_ledger c !! (u, a)).

(** Available funds less debt. *)
Definition net_position (c : UBSCore) (u a : Z) : Z := avail (bal_of (accounts c) u a) - debt_of c u a.

Lemma debt_of_nonneg c u a :
  map_Forall (fun _ r => 0 < debt_amount r) (debt_ledger c) -> 0 <= debt_of c u a.
Proof.
  intros Hd. unfold debt_of. destruct (debt_ledger c !! (u, a)) as [r|] eqn:Hr; [|done].
  simpl. specialize (Hd _ _ Hr). simpl in Hd. lia.
Qed.

Section net.
Context {bp : BuildProfile}.

Lemma ensure_account_eq {E : Type} user c :
  exists c', ensure_account (E := E) user c = Ok tt c' /\ accounts c' !! user = Some (entry_or_new user (accounts c)) /\
    same_balances c c' /\ debt_ledger c' = debt_ledger c.
Proof.
  unfold ensure_account, bind, get, entry_or_new.
  destruct (accounts c !! user) as [acc|] eqn:Hu; [by exists c|]. unfold put.
  set (c1 := set_accounts _ c).
  destruct (emit_event_eq (E := E) (AccountCreated user) c1) as (c2 & Hc2 & Ha & _ & Hd & _).
  exists c2. rewrite Hc2, Ha, Hd. cbn [accounts set_accounts c1]. rewrite lookup_insert_eq.
  split_and!; [done|done| |done]. intros u a. rewrite Ha. cbn [accounts set_accounts c1].
  rewrite bal_of_insert. destruct (Z.eqb_spec user u) as [->|]; [|done].
  unfold bal_of, entry_or_new. by rewrite Hu.
Qed.

(** A method on one balance of an existing account. *)
Lemma on_balance_eq {E A} user asset (m : M Balance E A) c acc x b :
  accounts c !! user = Some acc -> m (bal_of (accounts c) user asset) = Ok x b ->
  on_accounts (on_existing user (borrow asset m)) c =
    Ok x (set_accounts (<[user := upd asset b acc]> (accounts c)) c) /\
  forall u a, bal_of (<[user := upd asset b acc]> (accounts c)) u a =
    if (user =? u) && (asset =? a) then b else bal_of (accounts c) u a.
Proof.
  intros Hu Hm. unfold on_accounts, on_existing, zoom. rewrite Hu, borrow_eq.
  unfold bal_of, entry_or_new in Hm. rewrite Hu in Hm. simpl in Hm. rewrite Hm. split; [done|].
  intros u a. rewrite bal_of_insert, bal_upd. destruct (Z.eqb_spec user u) as [->|]; [|done].
  unfold bal_of, entry_or_new. rewrite Hu. simpl. by destruct (asset =? a).
Qed.

Lemma pay_debt_eq {E : Type} (user asset amount : Z) (d : DebtLedger) :
  0 <= amount -> map_Forall (fun _ r => 0 < debt_amount r) d ->
  let owed := default 0 (debt_amount <$> d !! (user, asset)) in
  exists d', pay_debt (E := E) user asset amount d = Ok (amount - Z.min amount owed) d' /\
    map_Forall (fun _ r => 0 < debt_amount r) d' /\
    forall u a, default 0 (debt_amount <$> d' !! (u, a)) =
      if (user =? u) && (asset =? a) then owed - Z.min amount owed
      else default 0 (debt_amount <$> d !! (u, a)).
Proof.
  intros Hamt Hd. unfold pay_debt, bind, get, put, ret.
  destruct (d !! (user, asset)) as [r|] eqn:Hr; cbn [fmap option_fmap option_map default].
  - unfold id. eexists. split; [done|]. pose proof (Hd _ _ Hr) as Hpos. simpl in Hpos.
    split; [destruct (Z.eqb_spec (debt_amount r - Z.min amount (debt_amount r)) 0);
            [by apply map_Forall_delete|apply map_Forall_insert_2; [simpl; lia|done]]|].
    intros u a.
    destruct (Z.eqb_spec user u) as [->|Hu], (Z.eqb_spec asset a) as [->|Ha]; simpl;
      (destruct (Z.eqb_spec (debt_amount r - Z.min amount (debt_amount r)) 0);
       [rewrite ?lookup_delete_eq, ?lookup_delete_ne by congruence
       |rewrite ?lookup_insert_eq, ?lookup_insert_ne by congruence]; simpl; try done; lia).
  - eexists. split; [f_equal; lia|]. split; [done|]. intros u a.
    destruct (Z.eqb_spec user u) as [->|Hu], (Z.eqb_spec asset a) as [->|Ha]; simpl; try done.
    rewrite Hr. simpl. lia.
Qed.

(** A deposit within the 64-bit range, whatever the error type around it. *)
Lemma on_deposit_exact {E : Type} (user asset amount tx : Z) c :
  0 <= amount -> map_Forall (fun _ r => 0 < debt_amount r) (debt_ledger c) ->
  avail (bal_of (accounts c) user asset) + amount <= u64_max ->
  exists c', on_deposit (E := E) user asset amount tx c = Ok tt c' /\
    map_Forall (fun _ r => 0 < debt_amount r) (debt_ledger c') /\
    debt_of c' user asset = Z.max 0 (debt_of c user asset - amount) /\
    forall u a, net_position c' u a =
      net_position c u a + (if (user =? u) && (asset =? a) then amount else 0).
Proof.
  intros Hamt Hd Hmax. unfold on_deposit.
  destruct (pay_debt_eq (E := E) user asset amount (debt_ledger c) Hamt Hd) as (d' & Hpay & Hpos' & Hd').
  fold (debt_of c user asset) in *. set (owed := debt_of c user asset) in *.
  assert (0 <= owed) as Howed by by apply debt_of_nonneg.
  unfold bind at 1. unfold on_debts at 1, zoom. rewrite Hpay. set (c1 := set_debts d' c).
  assert (debt_of c1 user asset = Z.max 0 (owed - amount)) as Hdebt.
  { unfold debt_of. cbn [debt_ledger set_debts c1]. rewrite Hd', !Z.eqb_refl. simpl. lia. }
  destruct (Z.ltb_spec 0 (amount - Z.min amount owed)) as [Hpos|Hz].
  - destruct (ensure_account_eq (E := E) user c1) as (c2 & Hc2 & Hu2 & Hsame & Hd2).
    rewrite (bind_ok _ _ _ _ _ Hc2).
    destruct (on_balance_eq (E := E) user asset (ignore (deposit (amount - Z.min amount owed)))
      c2 _ tt (stamp (avail (bal_of (accounts c2) user asset) + (amount - Z.min amount owed))
                 (frozen (bal_of (accounts c2) user asset)) (bal_of (accounts c2) user asset)) Hu2)
      as [Hrun Hbal].
    { unfold ignore. rewrite deposit_eq, Hsame. cbn [accounts set_debts c1].
      destruct (Z.leb_spec (avail (bal_of (accounts c) user asset) + (amount - Z.min amount owed)) u64_max);
        [done|lia]. }
    rewrite (bind_ok _ _ _ _ _ Hrun). set (c3 := set_accounts _ c2).
    destruct (emit_event_eq (E := E) (Deposited tx user asset (amount - Z.min amount owed)) c3)
      as (c4 & Hc4 & Ha4 & _ & Hd4 & _).
    exists c4. split; [done|].
    assert (debt_ledger c4 = d') as Hd4' by (rewrite Hd4; cbn [debt_ledger set_accounts c3]; by rewrite Hd2).
    split; [by rewrite Hd4'|]. split; [unfold debt_of; rewrite Hd4'; exact Hdebt|]. intros u a. unfold net_position, debt_of.
    rewrite Hd4', Ha4. cbn [accounts set_accounts c3]. rewrite Hbal, Hd', !Hsame.
    cbn [accounts set_debts c1].
    destruct (Z.eqb_spec user u) as [->|], (Z.eqb_spec asset a) as [->|]; simpl; try lia.
    fold (debt_of c u a) in *. unfold owed. unfold debt_of. lia.
  - exists c1. split; [done|]. split; [done|]. split; [done|]. intros u a. unfold net_position, debt_of.
    cbn [accounts debt_ledger set_debts c1]. rewrite Hd'.
    destruct (Z.eqb_spec user u) as [->|], (Z.eqb_spec asset a) as [->|]; simpl; try lia.
    unfold owed, debt_of in *. lia.
Qed.

(** A deposit is exact and pays debt first.  Within the 64-bit range a
    deposit succeeds, raises the user's net position in the asset (available
    minus debt) by exactly the amount, reduces the debt as far as the amount
    reaches, and changes no other net position. *)
Theorem deposit_pays_debt_first user asset amount tx c :
  0 <= amount -> map_Forall (fun _ r => 0 < debt_amount r) (debt_ledger c) ->
  avail (bal_of (accounts c) user asset) + amount <= u64_max ->
  exists c', on_deposit (E := string) user asset amount tx c = Ok tt c' /\
    debt_of c' user asset = Z.max 0 (debt_of c user asset - amount) /\
    forall u a, net_position c' u a =
      net_position c u a + (if (user =? u) && (asset =? a) then amount else 0).
Proof.
  intros Hamt Hd Hmax. destruct (on_deposit_exact (E := string) user asset amount tx c Hamt Hd Hmax)
    as (c' & Hc & _ & Hdebt & Hnet). by exists c'.
Qed.

Definition i64_max : Z := 9223372036854775807.

Lemma apply_delta_cases {E : Type} delta b :
  0 <= avail b <= i64_max -> - i64_max <= delta -> avail b + delta <= i64_max ->
  exists b', apply_delta_to_balance (E := E) delta b =
      Ok (if 0 <=? avail b + delta then inl (avail b + delta) else inr (- (avail b + delta))) b' /\
    avail b' = Z.max 0 (avail b + delta).
Proof.
  unfold i64_max. intros Hb Hlo Hhi. unfold apply_delta_to_balance, bind, get.
  rewrite as_i64_id by lia. rewrite i64_op_exact by lia. cbn [unwrap]. unfold ret.
  destruct (Z.leb_spec 0 (avail b + delta)).
  - destruct (Z.leb_spec 0 delta).
    + rewrite as_u64_id by ulia. unfold ignore. rewrite deposit_eq.
      destruct (Z.leb_spec (avail b + delta) u64_max); [|ulia]. eexists. split; [done|]. simpl. lia.
    + rewrite i64_op_exact by lia. cbn [unwrap]. unfold ret, ignore.
      rewrite as_u64_id by ulia. rewrite withdraw_eq.
      destruct (Z.leb_spec (- delta) (avail b)); [|lia]. eexists.
      cbn [avail stamp].
      split; [by replace (avail b - - delta) with (avail b + delta) by lia|simpl; lia].
  - rewrite as_u64_id by ulia. unfold ignore. rewrite withdraw_eq, Z.leb_refl.
    rewrite i64_op_exact by lia. cbn [unwrap]. unfold ret. rewrite as_u64_id by ulia.
    eexists. split; [done|]. simpl. lia.
Qed.

Lemma add_debt_eq {E : Type} (user asset : Z) (r : DebtRecord) (d : DebtLedger) :
  0 <= debt_amount r -> map_Forall (fun _ r => 0 < debt_amount r) d ->
  default 0 (debt_amount <$> d !! (user, asset)) + debt_amount r <= u64_max ->
  exists d', add_debt (E := E) user asset r d = Ok tt d' /\
    forall u a, default 0 (debt_amount <$> d' !! (u, a)) =
      default 0 (debt_amount <$> d !! (u, a)) +
      (if (user =? u) && (asset =? a) then debt_amount r else 0).
Proof.
  intros Hr Hd Hmax. unfold add_debt, bind, get.
  destruct (d !! (user, asset)) as [old|] eqn:Hold; simpl in Hmax.
  - specialize (Hd _ _ Hold). simpl in Hd. unfold op_add. rewrite u64_op_exact by ulia.
    cbn [unwrap]. unfold ret, put. eexists. split; [done|]. intros u a.
    destruct (Z.eqb_spec user u) as [->|], (Z.eqb_spec asset a) as [->|]; simpl;
      rewrite ?lookup_insert_eq, ?lookup_insert_ne by congruence; simpl; rewrite ?Hold; simpl; lia.
  - unfold put. eexists. split; [done|]. intros u a.
    destruct (Z.eqb_spec user u) as [->|], (Z.eqb_spec asset a) as [->|]; simpl;
      rewrite ?lookup_insert_eq, ?lookup_insert_ne by congruence; simpl; rewrite ?Hold; simpl; lia.
Qed.

(** A balance delta is exact in the net position.  With the available
    amount below 2^63 and no overflow of the debt, applying a delta succeeds,
    changes the user's net position in the asset by exactly the delta and no
    other net position, and answers the new available amount: what cannot be
    taken from the balance becomes debt. *)
Theorem balance_delta_exact user asset delta ev clock c :
  map_Forall (fun _ r => 0 < debt_amount r) (debt_ledger c) ->
  0 <= avail (bal_of (accounts c) user asset) <= i64_max ->
  - i64_max <= delta -> avail (bal_of (accounts c) user asset) + delta <= i64_max ->
  debt_of c user asset + Z.max 0 (- (avail (bal_of (accounts c) user asset) + delta)) <= u64_max ->
  exists c', apply_balance_delta (E := string) user asset delta ev clock c =
      Ok (avail (bal_of (accounts c') user asset)) c' /\
    debt_of c' user asset =
      debt_of c user asset + Z.max 0 (- (avail (bal_of (accounts c) user asset) + delta)) /\
    forall u a, net_position c' u a =
      net_position c u a + (if (user =? u) && (asset =? a) then delta else 0).
Proof.
  intros Hd Hav Hlo Hhi Hmax. unfold apply_balance_delta.
  destruct (ensure_account_eq (E := string) user c) as (c1 & Hc1 & Hu1 & Hsame & Hd1).
  rewrite (bind_ok _ _ _ _ _ Hc1). rewrite <- (Hsame user asset) in *.
  destruct (apply_delta_cases (E := string) delta _ Hav Hlo Hhi) as (b' & Hrun & Hb').
  destruct (on_balance_eq user asset _ c1 _ _ b' Hu1 Hrun) as [Hon Hbal].
  rewrite (bind_ok _ _ _ _ _ Hon). set (c2 := set_accounts _ c1) in *.
  assert (bal_of (accounts c2) user asset = b') as Hb2.
  { cbn [accounts set_accounts c2]. by rewrite Hbal, !Z.eqb_refl. }
  set (av := avail (bal_of (accounts c1) user asset)) in *.
  assert (forall d u a, avail (bal_of (accounts c2) u a) - d -
            (avail (bal_of (accounts c) u a) - d) =
            if (user =? u) && (asset =? a) then Z.max 0 (av + delta) - av else 0) as Hdiff.
  { intros d u a. cbn [accounts set_accounts c2]. rewrite Hbal, <- Hsame.
    destruct (Z.eqb_spec user u) as [->|], (Z.eqb_spec asset a) as [->|]; simpl; try lia. }
  destruct (Z.leb_spec 0 (av + delta)).
  - exists c2. rewrite Hb2, Hb'. unfold debt_of, net_position, debt_of.
    cbn [debt_ledger set_accounts c2]. rewrite Hd1. split; [unfold ret; f_equal; lia|].
    split; [lia|]. intros u a.
    specialize (Hdiff (default 0 (debt_amount <$> debt_ledger c !! (u, a))) u a).
    destruct ((user =? u) && (asset =? a)); lia.
  - destruct (add_debt_eq (E := string) user asset (mkDebt (- (av + delta)) clock (debt_reason ev))
      (debt_ledger c2)) as (d' & Hadd & Hdd);
      [simpl; lia|cbn [debt_ledger set_accounts c2]; by rewrite Hd1| |].
    { cbn [debt_ledger set_accounts c2 debt_amount]. rewrite Hd1.
      fold (debt_of c user asset). lia. }
    unfold bind at 1, on_debts, zoom. rewrite Hadd. exists (set_debts d' c2).
    cbn [accounts set_debts]. rewrite Hb2, Hb'. split; [unfold ret; f_equal; lia|].
    unfold debt_of, net_position, debt_of. cbn [debt_ledger set_debts accounts].
    assert (debt_ledger c2 = debt_ledger c) as Hd2 by (cbn [debt_ledger set_accounts c2]; done).
    rewrite Hd2 in Hdd. cbn [debt_amount] in Hdd. split.
    + rewrite Hdd, !Z.eqb_refl. simpl. lia.
    + intros u a. rewrite Hdd.
      specialize (Hdiff (default 0 (debt_amount <$> debt_ledger c !! (u, a))) u a).
      destruct ((user =? u) && (asset =? a)); lia.
Qed.
End net.

(** C16: a large balance is taken for a negative one.  The available amount is
    read as an [i64]: from 2^63 on it wraps, and crediting such a user zeroes
    the balance and books a debt. *)
Theorem large_balance_becomes_debt {bp : BuildProfile} user asset delta ev clock c acc :
  accounts c !! user = Some acc -> debt_ledger c !! (user, asset) = None -> 0 <= delta ->
  2 ^ 63 <= avail (bal acc asset) -> 2 ^ 63 < avail (bal acc asset) + delta < 2 ^ 64 ->
  delta < 2 ^ 63 ->
  exists c', apply_balance_delta (E := string) user asset delta ev clock c = Ok 0 c' /\
    avail (bal_of (accounts c') user asset) = 0 /\
    debt_of c' user asset = 2 ^ 64 - (avail (bal acc asset) + delta).
Proof.
  intros Hu Hd Hdelta Hlo Hsum Hhi. unfold apply_balance_delta.
  assert (ensure_account (E := string) user c = Ok tt c) as He.
  { unfold ensure_account, bind, get. by rewrite Hu. }
  rewrite (bind_ok _ _ _ _ _ He).
  assert (bal_of (accounts c) user asset = bal acc asset) as Hbal
    by (unfold bal_of, entry_or_new; by rewrite Hu).
  set (av := avail (bal acc asset)) in *.
  assert (as_i64 av = av - 2 ^ 64) as Hi64.
  { unfold as_i64, u64_mod. rewrite Z.mod_small by lia.
    destruct (Z.ltb_spec av 9223372036854775808); lia. }
  assert (apply_delta_to_balance (E := string) delta (bal_of (accounts c) user asset) =
    Ok (inr (2 ^ 64 - (av + delta))) (stamp 0 (frozen (bal acc asset)) (bal acc asset))) as Hrun.
  { rewrite Hbal. unfold apply_delta_to_balance, bind, get. fold av.
    rewrite Hi64, i64_op_exact by lia. cbn [unwrap]. unfold ret.
    destruct (Z.leb_spec 0 (av - 2 ^ 64 + delta)); [lia|].
    assert (as_u64 (av - 2 ^ 64) = av) as ->.
    { unfold as_u64, u64_mod. replace (av - 2 ^ 64) with (av + (-1) * 18446744073709551616) by lia.
      rewrite Z.mod_add by lia. apply Z.mod_small. lia. }
    unfold ignore. rewrite withdraw_eq. fold av. rewrite Z.leb_refl, i64_op_exact by lia.
    cbn [unwrap]. unfold ret. rewrite as_u64_id by ulia.
    replace (- (av - 2 ^ 64 + delta)) with (2 ^ 64 - (av + delta)) by lia.
    by replace (av - av) with 0 by lia. }
  destruct (on_balance_eq (E := string) user asset _ c acc _ _ Hu Hrun) as [Hon Hb].
  rewrite (bind_ok _ _ _ _ _ Hon). unfold bind, on_debts, zoom, add_debt, bind, get.
  cbn [debt_ledger set_accounts]. rewrite Hd. unfold put, ret. eexists. split; [done|].
  cbn [accounts set_debts set_accounts]. rewrite Hb, !Z.eqb_refl. split; [done|].
  unfold debt_of. cbn [debt_ledger set_debts]. by rewrite lookup_insert_eq.
Qed.

(** Debt does not stop withdrawals.  [can_withdraw] answers no to every
    request of a user with any debt; [on_withdraw], the method that moves the
    money, never asks it and pays out whatever is available. *)
Theorem withdraw_ignores_debt user asset amount tx c acc :
  accounts c !! user = Some acc -> ubs_has_debt user c = true -> amount <= avail (bal acc asset) ->
  can_withdraw user asset amount c = false /\
  exists c', on_withdraw (E := string) user asset amount tx c = Ok true c' /\
    avail (bal_of (accounts c') user asset) = avail (bal acc asset) - amount /\
    debt_ledger c' = debt_ledger c.
Proof.
  intros Hu Hdebt Hle. unfold ubs_has_debt in Hdebt. split; [unfold can_withdraw; by rewrite Hdebt|].
  assert (bal_of (accounts c) user asset = bal acc asset) as Hbal
    by (unfold bal_of, entry_or_new; by rewrite Hu).
  unfold on_withdraw. unfold bind at 1, get. rewrite Hu. unfold bind at 1.
  edestruct (on_balance_eq (E := string) user asset
    (fun b => match withdraw amount b with
              | Ok _ b' => Ok true b'
              | Err _ b' => Ok false b'
              | Panic => Panic
              end) c acc true) as [Hon Hb]; [done| |].
  { rewrite Hbal, withdraw_eq. destruct (Z.leb_spec amount (avail (bal acc asset))); [done|lia]. }
  rewrite Hon. set (c1 := set_accounts _ c).
  destruct (emit_event_eq (E := string) (Withdrawn tx user asset amount) c1) as (c2 & Hc2 & Ha & _ & Hd & _).
  unfold bind. rewrite Hc2. exists c2. split; [done|]. rewrite Ha, Hd. cbn [accounts debt_ledger set_accounts c1].
  by rewrite Hb, !Z.eqb_refl.
Qed.

(** ** Orders and the log *)

Section orders.
Context `{Crc32Laws} `{Fs2Laws} {codec : OrderCodec}.

Definition entry_of (order : InternalOrder) : WalEntry :=
  mkEntry WalEntryType.OrderLock (default [] (bincode_order order)).

(** The order has an encoding and its record fits the default buffer. *)
Definition order_fits (order : InternalOrder) : Prop :=
  exists p, bincode_order order = Some p /\ 9 + zlen p <= 65536.

Lemma order_entry_fits o : order_fits o -> entry_fits (entry_of o).
Proof.
  intros (p & Hp & Hl). unfold entry_fits, entry_of, WAL_RECORD_MAX_LEN. rewrite Hp. simpl.
  unfold id. lia.
Qed.

(** Requests with the clock at their arrival, and the orders that got [Ok];
    [None] if one of them panics. *)
Fixpoint run_orders (reqs : list (InternalOrder * Z)) (c : UBSCore) : option (list InternalOrder * UBSCore) :=
  match reqs with
  | [] => Some ([], c)
  | (order, clock) :: reqs' =>
      match process_order_durable order clock c with
      | Ok _ c' => (fun r => (order :: r.1, r.2)) <$> run_orders reqs' c'
      | Err _ c' => run_orders reqs' c'
      | Panic => None
      end
  end.

(** What is in the log's file and what is in its buffer; every balance is below
    the ceiling. *)
Record core_inv (base : list Z) (done pend : list WalEntry) (c : UBSCore) : Prop := {
  core_wal : exists w, wal c = Some w /\ wal_at base done pend w /\ capacity (buffer w) = 65536;
  core_fits : Forall entry_fits (done ++ pend);
  core_held : forall u a, held (bal_of (accounts c) u a) <= u64_max
}.

(** No call of the log's file will fail. *)
Definition no_faults (c : UBSCore) : Prop :=
  exists w, wal c = Some w /\ script (file w) = [].

(** Persisting an order puts its entry, behind all those before it, into the
    file; or it fails, with the entry taken in or not, and what is in the file
    stays there. *)
Lemma persist_order_at base done pend o c w :
  wal c = Some w -> wal_at base done pend w -> Forall entry_fits (done ++ pend) ->
  capacity (buffer w) = 65536 -> order_fits o ->
  match persist_order o c with
  | Ok _ c' => exists w', c' = set_wal (Some w') c /\ wal_at base (done ++ pend ++ [entry_of o]) [] w' /\
      capacity (buffer w') = 65536 /\ (script (file w) = [] -> script (file w') = [])
  | Err e c' => exists w', c' = set_wal (Some w') c /\ e = InternalError /\ script (file w) <> [] /\
      (taken base done pend [] w' \/ taken base done pend [entry_of o] w') /\ capacity (buffer w') = 65536
  | Panic => False
  end.
Proof.
  intros Hw Hat Hfits Hcap Ho. pose proof (order_entry_fits o Ho) as He.
  destruct Ho as (p & Hp & Hlen).
  assert (entry_of o = mkEntry WalEntryType.OrderLock p) as Heo by (unfold entry_of; by rewrite Hp).
  assert (Hfp : Forall entry_fits (pend ++ [entry_of o])).
  { apply Forall_app in Hfits as [_ ?]. apply Forall_app. split; [done|by apply Forall_singleton]. }
  unfold persist_order, bind, get. rewrite Hw. unfold ok_or. rewrite Hp. unfold ret.
  rewrite <- Heo. unfold map_err, on_wal, zoom. rewrite Hw.
  pose proof (append_at _ _ _ (entry_of o) _ Hat Hfp) as Ha.
  assert (9 + zlen (payload (entry_of o)) <= capacity (buffer w)) as Hroom by (rewrite Heo; simpl; lia).
  specialize (Ha Hroom).
  destruct (wal_append (entry_of o) w) as [[] w1|err w1|]; [| |done].
  2: { destruct Ha as (Ht & Hc & Hs). exists w1. split_and!; [done|done|done|done|congruence]. }
  destruct Ha as ((done1 & pend1 & Hdp & Hpre & Hat1) & Hcap1 & Hs1). cbn [wal set_wal].
  assert (Hf1 : Forall entry_fits (done1 ++ pend1)).
  { rewrite Hdp, app_assoc. apply Forall_app. split; [done|by apply Forall_singleton]. }
  apply Forall_app in Hf1 as [_ Hf1].
  pose proof (flush_at _ _ _ _ Hat1 Hf1) as Hf.
  destruct (flush w1) as [[] w2|err w2|]; [| |done].
  - destruct Hf as (Hat2 & Hcap2 & Hs2). exists w2. rewrite <- Hdp. split_and!; [done|done|congruence|auto].
  - destruct Hf as (Hat2 & Hbuf & Hs2). exists w2. split_and!; [done|done|auto| |congruence].
    right. exists done1, pend1. done.
Qed.

Lemma publish_order_eq o c :
  exists c', publish_order o c = Ok tt c' /\ accounts c' = accounts c /\ wal c' = wal c /\
    dedup_guard c' = dedup_guard c.
Proof. eexists. split; [done|]. by destruct (order_tx c). Qed.

Lemma held_upd_lock accts user acc a x :
  accts !! user = Some acc ->
  forall u a', held (bal_of (<[user := upd a (stamp (avail (bal acc a) - x) (frozen (bal acc a) + x)
                                                (bal acc a)) acc]> accts) u a') =
               held (bal_of accts u a').
Proof.
  intros Hu u a'. rewrite bal_of_insert, bal_upd. destruct (Z.eqb_spec user u) as [<-|]; [|done].
  unfold bal_of, entry_or_new. rewrite Hu. simpl.
  destruct (Z.eqb_spec a a') as [<-|]; [|done]. unfold held. simpl. lia.
Qed.

(** The log behind one more order: what was in the file stays in front; the
    entry is the last of the file if the order was accepted. *)
Definition order_step (done pend : list WalEntry) (e : WalEntry) (accepted : bool)
    (done' pend' : list WalEntry) : Prop :=
  if accepted then done' = done ++ pend ++ [e] /\ pend' = []
  else done `prefix_of` done' /\
       (done' ++ pend' = done ++ pend \/ done' ++ pend' = done ++ pend ++ [e]).

Lemma process_order_step base done pend o clock c :
  core_inv base done pend c -> order_fits o ->
  match process_order_durable o clock c with
  | Panic => False
  | r => exists c' done' pend', state_of r = Some c' /\ core_inv base done' pend' c' /\
      order_step done pend (entry_of o) (is_ok r) done' pend' /\
      (no_faults c -> no_faults c' /\ (is_ok r = false -> done' = done /\ pend' = pend))
  end.
Proof.
  intros [(w & Hw & Hat & Hcap) Hfits Hheld] Ho. unfold process_order_durable.
  pose proof (validate_order_cases o clock c Hheld) as Hv. unfold bind at 1.
  assert (Hkeep : forall es, es = [] \/ es = [entry_of o] -> Forall entry_fits ((done ++ pend) ++ es)).
  { intros es Hes. apply Forall_app. split; [done|]. pose proof (order_entry_fits o Ho).
    destruct Hes as [->| ->]; [by apply Forall_nil|by apply Forall_singleton]. }
  destruct (validate_order o clock c) as [[] c1|e c1|]; [| |done].
  - destruct Hv as (ac & assets & Hu & _ & _ & _ & Ha & _ & _ & _ & Hw1 & _). rewrite Hw in Hw1.
    assert (Hheld1 : forall u a, held (bal_of (accounts c1) u a) <= u64_max).
    { intros u a. rewrite Ha, (held_upd_lock _ _ _ _ _ Hu). apply Hheld. }
    pose proof (persist_order_at base done pend o c1 w Hw1 Hat Hfits Hcap Ho) as Hp. unfold bind.
    destruct (persist_order o c1) as [[] c2|e c2|]; [| |done].
    + destruct Hp as (w' & -> & Hat' & Hcap' & Hs').
      destruct (publish_order_eq o (set_wal (Some w') c1)) as (c3 & -> & Ha3 & Hw3 & _).
      exists c3, (done ++ pend ++ [entry_of o]), []. split; [done|]. split; [|split; [done|]].
      * split; [exists w'; by rewrite Hw3| |by rewrite Ha3].
        rewrite app_nil_r, app_assoc. apply Hkeep. by right.
      * intros (w0 & Hw0 & Hs0). split; [|done]. exists w'. rewrite Hw3. split; [done|].
        apply Hs'. congruence.
    + destruct Hp as (w' & -> & -> & Hs & Ht & Hcap').
      assert (Hcase : exists es done' pend', (es = [] \/ es = [entry_of o]) /\
        done' ++ pend' = done ++ pend ++ es /\ done `prefix_of` done' /\ wal_at base done' pend' w').
      { destruct Ht as [(d & p & ?)|(d & p & ?)]; [exists []|exists [entry_of o]]; exists d, p; auto. }
      destruct Hcase as (es & done' & pend' & Hes & Hdp & Hpre & Hat').
      exists (set_wal (Some w') c1), done', pend'. split; [done|]. split; [|split].
      * split; [by exists w'| |done]. rewrite Hdp, app_assoc. by apply Hkeep.
      * split; [done|]. destruct Hes as [->| ->]; [left; by rewrite Hdp, app_nil_r|by right].
      * intros (w0 & Hw0 & Hs0). destruct Hs. congruence.
  - destruct Hv as (Hsame & _ & Hw1 & _). exists c1, done, pend. split; [done|]. split; [|split].
    + split; [exists w; by rewrite Hw1|done|]. intros u a. rewrite Hsame. apply Hheld.
    + split; [done|by left].
    + intros (w0 & ? & ?). split; [|done]. exists w0. by rewrite Hw1.
Qed.

(** A run of orders: it does not panic; every accepted order's entry is in the
    file, in the order of acceptance; whatever else is in the log was asked
    for; and without faults the log holds the accepted orders and no others. *)
Lemma run_orders_log base reqs : forall done pend c,
  core_inv base done pend c -> Forall (fun r => order_fits r.1) reqs ->
  exists ok c' done' pend' es, run_orders reqs c = Some (ok, c') /\ core_inv base done' pend' c' /\
    done `prefix_of` done' /\ done' ++ pend' = (done ++ pend) ++ es /\
    es `sublist_of` map (fun r => entry_of r.1) reqs /\
    (ok = [] \/ exists es1 rest, done' = (done ++ pend) ++ es1 /\ es = es1 ++ rest /\
       map entry_of ok `sublist_of` es1) /\
    (no_faults c -> pend = [] -> pend' = [] /\ es = map entry_of ok).
Proof.
  induction reqs as [|[o t] reqs IH]; intros done pend c Hc Hreqs; cbn [run_orders map].
  { exists [], c, done, pend, []. split_and!; [done|done|done|by rewrite app_nil_r|constructor|by left|done]. }
  apply Forall_cons in Hreqs as [Ho Hreqs]. cbn [fst] in *.
  pose proof (process_order_step base done pend o t c Hc Ho) as Hstep.
  destruct (process_order_durable o t c) as [[] c1|e c1|]; [| |done];
    destruct Hstep as (c1' & done1 & pend1 & [= <-] & Hc1 & Hos & Hnf); cbn [is_ok order_step] in *;
    destruct (IH done1 pend1 c1 Hc1 Hreqs) as (ok & c' & done' & pend' & es & -> & Hc' & Hpre & Hdp & Hsub & Hok & Hclean).
  - destruct Hos as [-> ->]. rewrite app_nil_r in *.
    exists (o :: ok), c', done', pend', (entry_of o :: es). cbn [fmap option_fmap option_map fst snd].
    split_and!; [done|done| | | | |].
    + etrans; [|done]. by exists (pend ++ [entry_of o]).
    + rewrite Hdp. by rewrite <- !app_assoc.
    + by constructor.
    + right. destruct Hok as [->|(es1 & rest & Hd & -> & Hs1)].
      * destruct Hpre as [x Hx]. exists (entry_of o :: x), (pend' ++ [])%list.
        split_and!.
        -- rewrite Hx. by rewrite <- !app_assoc.
        -- assert (x ++ pend' = es) as <-; [|by rewrite app_nil_r].
           apply (app_inv_head (done ++ pend ++ [entry_of o])). rewrite <- Hdp, Hx. apply app_assoc.
        -- cbn [map]. apply sublist_skip, sublist_nil_l.
      * exists (entry_of o :: es1), rest. split_and!; [|done|by constructor].
        rewrite Hd. by rewrite <- !app_assoc.
    + intros Hn ->. destruct (Hnf Hn) as [Hn1 _]. destruct (Hclean Hn1 eq_refl) as [-> ->]. done.
  - destruct Hos as [Hpre1 Hcase].
    assert (exists x, (x = [] \/ x = [entry_of o]) /\ done1 ++ pend1 = (done ++ pend) ++ x) as (x & Hx & Hdp1).
    { destruct Hcase as [-> | ->]; [exists []|exists [entry_of o]]; rewrite <- ?app_assoc, ?app_nil_r; auto. }
    exists ok, c', done', pend', (x ++ es). split_and!; [done|done|by etrans| | | |].
    + rewrite Hdp, Hdp1. by rewrite <- !app_assoc.
    + destruct Hx as [->| ->]; simpl; [by apply sublist_cons|by constructor].
    + destruct Hok as [->|(es1 & rest & Hd & -> & Hs1)]; [by left|]. right.
      exists (x ++ es1), rest. split_and!; [|by rewrite app_assoc|by apply sublist_inserts_l].
      rewrite Hd, Hdp1. by rewrite <- !app_assoc.
    + intros Hn ->. destruct (Hnf Hn) as [Hn1 Hsame]. destruct (Hsame eq_refl) as [-> ->].
      destruct (Hclean Hn1 eq_refl) as [-> ->]. split; [done|].
      assert (x = []) as ->; [|done]. apply (app_inv_head (done ++ [])). rewrite <- Hdp1, !app_nil_r. done.
Qed.

(** C12: once accepted, never lost, whatever the disk does.  Start from a core
    with a freshly opened log (an empty file) and any accounts below the 64-bit
    ceiling, and send it any sequence of orders at any times, while any of the
    file's writes and syncs fail, with any part of the data written: the
    processing never panics, and replaying the bytes that a power loss would
    leave at the end gives back every order that was answered [Ok], in the
    order of acceptance, and besides these only orders that were asked for
    (one refused for a log error may have been logged all the same).  When no
    call fails, it gives back exactly the accepted orders. *)
Theorem accepted_orders_durable reqs c f w f' :
  contents f = [] -> wal_open default_config f = Ok w f' -> wal c = Some w ->
  (forall u a, held (bal_of (accounts c) u a) <= u64_max) ->
  Forall (fun r => order_fits r.1) reqs ->
  exists ok c' w' es, run_orders reqs c = Some (ok, c') /\ wal c' = Some w' /\
    map entry_of ok `sublist_of` es /\ es `sublist_of` map (fun r => entry_of r.1) reqs /\
    (script f = [] -> es = map entry_of ok) /\
    (es = [] \/
     forall chunks, Forall (fun ch => ch <> []) chunks -> concat chunks = durable (file w') ->
       exists st r, replay collect (replay_open (map inr chunks), []) = Ok (Some st) (r, es)).
Proof.
  intros Hc Hopen Hw Hheld Hreqs.
  assert (buffer_size default_config = 65536 /\ 4 <= pre_alloc_size default_config) as [Hbs Hpre] by done.
  revert Hopen Hbs Hpre. generalize default_config. intros cfg Hopen Hbs Hpre.
  destruct (opened_file cfg f w f' Hopen ltac:(lia)) as (Hc0 & Hs0 & Hw0 & Hb0 & Hcap0).
  rewrite Hc in Hc0. unfold extend in Hc0. rewrite app_nil_l in Hc0.
  change (length []) with 0%nat in Hc0. rewrite Nat.sub_0_r in Hc0.
  rewrite (fresh_position _ _ Hc0) in Hw0 by (right; lia).
  assert (Hcore : core_inv [] [] [] c).
  { split; [|by apply Forall_nil|done]. exists w. split_and!; [done| |lia].
    eexists [], _. split_and!; [exact Hc0|done|done|done|by left]. }
  destruct (run_orders_log [] reqs [] [] c Hcore Hreqs) as (ok & c' & done' & pend' & es & Hrun & Hc' &
    _ & Hdp & Hsub & Hok & Hclean).
  destruct Hc' as [(w' & Hw' & (junk & k & _ & _ & _ & _ & Hd) & _) Hfits _]. cbn [app] in *.
  exists ok, c', w', done'. split_and!; [done|done| | | |].
  - destruct Hok as [->|(es1 & rest & -> & _ & Hs1)]; [apply sublist_nil_l|done].
  - etrans; [|exact Hsub]. rewrite <- Hdp. by apply sublist_inserts_r.
  - intros Hs. destruct Hclean as [-> Hes]; [by exists w; auto|done|]. by rewrite app_nil_r in Hdp; rewrite Hdp.
  - destruct Hd as [->|(k' & Hd)]; [by left|]. right. intros chunks Hch Hcat. rewrite Hd in Hcat. simpl in Hcat.
    apply Forall_app in Hfits as [Hfits _].
    do 2 eexists. rewrite (replay_log _ k' [] chunks Hfits Hch); [done|by rewrite app_nil_r|by left].
Qed.

(** An order that is refused for a log error is in the log all the same.
    Let the log's write fail once while a valid order is persisted (the buffer
    having room for it).  The client gets [InternalError]; the funds stay
    locked, the same order is from then on refused as a duplicate, and its
    record stays in the buffer: the next flush that succeeds makes the
    refused order durable. *)
Theorem refused_order_is_logged base acc o clock c c1 w n msg :
  (forall u a, held (bal_of (accounts c) u a) <= u64_max) ->
  validate_order o clock c = Ok tt c1 -> wal c1 = Some w -> wal_inv base acc w ->
  script (file w) = [IoFail n msg] -> order_fits o ->
  9 + zlen (payload (entry_of o)) <= remaining (buffer w) ->
  exists c' w', process_order_durable o clock c = Err InternalError c' /\
    accounts c' = accounts c1 /\ wal c' = Some w' /\
    (forall clock', is_ok (process_order_durable o clock' c') = false) /\
    exists w'' k, flush w' = Ok tt w'' /\
      durable (file w'') = base ++ log_of (acc ++ [entry_of o]) ++ zeros k.
Proof.
  intros Hheld Hv Hw Hinv Hs Hfits Hroom.
  pose proof (validate_order_cases o clock c Hheld) as Hcases. rewrite Hv in Hcases.
  destruct Hcases as (? & ? & _ & _ & _ & _ & _ & _ & Hin & _). pose proof (order_entry_fits o Hfits) as He.
  pose proof (record_of_length _ He) as Hlen.
  unfold process_order_durable. rewrite (bind_ok _ _ _ _ _ Hv).
  destruct (append_room _ _ _ _ Hinv He Hroom) as (w2 & Happ & Hinv2 & Hfile2 & Hne2).
  assert (exists w3, flush w2 = Err (WalError.IoError msg) w3 /\ script (file w3) = []) as (w3 & Hf3 & Hs3).
  { apply (flush_write_fails n). by rewrite Hfile2. done. }
  pose proof (flush_inv _ _ _ Hinv2) as Hinv3. rewrite Hf3 in Hinv3. destruct Hinv3 as (Hinv3 & _ & _).
  assert (persist_order o c1 = Err InternalError (set_wal (Some w3) c1)) as Hp.
  { destruct Hfits as (p & Hp & _). unfold persist_order. unfold bind at 1, get. rewrite Hw.
    unfold ok_or. rewrite Hp, bind_ret.
    replace (mkEntry WalEntryType.OrderLock p) with (entry_of o) by (unfold entry_of; by rewrite Hp).
    unfold bind, map_err, on_wal, zoom. rewrite Hw, Happ.
    destruct (_ <=? _); [by rewrite Hf3|]. cbn [wal set_wal ret]. unfold ret. cbn [wal set_wal].
    by rewrite Hf3. }
  rewrite (bind_err _ _ _ _ _ Hp). exists (set_wal (Some w3) c1), w3. split_and!; [done|done|done| |].
  { intros clock'. unfold process_order_durable, bind.
    pose proof (validate_recorded o clock' (set_wal (Some w3) c1) Hin) as Hr.
    by destruct (validate_order o clock' _). }
  pose proof (flush_inv _ _ _ Hinv3) as Hf4.
  destruct (flush w3) as [[] w4|e w4|]; [|by destruct Hf4 as (_ & _ & ?)|done].
  destruct Hf4 as (_ & [Hnil|(k & Hd)] & _); [by destruct acc|]. by exists w4, k.
Qed.
End orders.

(** ** The theorems at concrete states *)

(** A bound that holds of every entry holds of every balance. *)
Lemma held_bound accts :
  map_Forall (fun _ acc => Forall (fun e => held e.2 <= u64_max) (assets acc)) accts ->
  forall u a, held (bal_of accts u a) <= u64_max.
Proof.
  intros Hall u a. unfold bal_of, entry_or_new. destruct (accts !! u) as [acc|] eqn:Hu; [|done].
  specialize (Hall _ _ Hu). simpl in Hall. simpl. unfold bal, get_balance.
  induction Hall as [|e l He Hl IH]; [done|]. rewrite find_by_cons. by destruct (is_asset a e).
Qed.

Module Concrete.
#[local] Instance sum_crc : Crc32 := fun l => sum_list l mod 2 ^ 32.

#[local] Instance sum_crc_laws : Crc32Laws.
Proof. intros l. apply Z.mod_pos_bound. lia. Defined.

#[local] Instance plain_fs2 : Fs2 :=
  fun n f => Ok tt (set_contents (extend (Z.to_nat n) (contents f)) f).

#[local] Instance plain_fs2_laws : Fs2Laws.
Proof.
  split.
  - intros n f f' [= <-]. eexists. split; [|reflexivity]. lia.
  - intros n f Hs. eexists. by split.
Defined.

#[local] Instance id_codec : OrderCodec := fun o => Some (le_bytes 8 (io_order_id o)).

#[local] Instance profile : BuildProfile := debug_profile.

(** User 1 has 8000 of asset 2 and 2000 of it locked, user 2 has 100 and 10 of
    asset 1; symbol 7 trades asset 1 against asset 2; user 1 owes 40 of
    asset 3. *)
Definition demo : UBSCore :=
  register_symbol 7 1 2 (set_debts {[(1, 3) := mkDebt 40 0 GhostMoney]} (set_accounts
    {[1 := mkAccount 1 [(2, mkBalance 8000 2000 4)]; 2 := mkAccount 2 [(1, mkBalance 100 10 2)]]} ubs_new)).

Definition demo_order : InternalOrder := mkInternal 5242880000 1 7 UbsBuy 10 20 UbsLimit.

Definition demo_wal (s : list io_outcome) : GroupCommitWal :=
  mkWal (mkFile [] [] s) (mkBuffer 65536 [] 4096) 0 default_config 0 0.

Lemma demo_held w : forall u a, held (bal_of (accounts (set_wal w demo)) u a) <= u64_max.
Proof. apply held_bound. apply (bool_decide_unpack _). vm_compute. exact I. Defined.

Lemma demo_debts : map_Forall (fun _ r => 0 < debt_amount r) (debt_ledger demo).
Proof. apply (bool_decide_unpack _). vm_compute. exact I. Defined.

Lemma settle_trade_conserves_witness :
  exists c', settle_trade 9 1 2 1 2 5 1500 500 21 22 0 0 demo = Ok tt c' /\
    supply 2 (accounts c') = supply 2 (accounts demo).
Proof.
  destruct (settle_trade 9 1 2 1 2 5 1500 500 21 22 0 0 demo) as [[] c'|e c'|] eqn:Hs.
  - exists c'. split; [reflexivity|]. exact (settle_trade_conserves _ _ _ _ _ _ _ _ _ _ _ _ _ _ 2 Hs).
  - vm_compute in Hs. discriminate Hs.
  - vm_compute in Hs. discriminate Hs.
Defined.

Lemma settle_trade_not_atomic_witness :
  exists c', settle_trade 9 1 2 1 2 11 1500 0 21 22 0 0 demo = Err InsufficientFrozen c' /\
    supply 2 (accounts c') = supply 2 (accounts demo) - 1500 /\
    supply 1 (accounts c') = supply 1 (accounts demo) + 11.
Proof.
  destruct (settle_trade_not_atomic 9 1 2 1 2 11 1500 21 22 0 0 demo
    (mkAccount 1 [(2, mkBalance 8000 2000 4)]) (mkAccount 2 [(1, mkBalance 100 10 2)]))
    as (c' & Hc & H2 & H1 & _); [done|done|reflexivity|reflexivity|by vm_compute|by vm_compute|by vm_compute|].
  exists c'. split; [exact Hc|]. split; [exact H2|exact H1].
Defined.

Lemma validate_order_locks_witness :
  exists c', validate_order demo_order 5000 demo = Ok tt c' /\
    avail (bal_of (accounts c') 1 2) = 7800 /\ frozen (bal_of (accounts c') 1 2) = 2200.
Proof.
  pose proof (validate_order_locks demo_order 5000 demo (demo_held None)) as Hv.
  destruct (validate_order demo_order 5000 demo) as [[] c'|e c'|] eqn:Hr;
    [|vm_compute in Hr; discriminate Hr|vm_compute in Hr; discriminate Hr].
  destruct Hv as (assets & Hm & _ & Ha & Hf & _). vm_compute in Hm. injection Hm as <-.
  exists c'. split; [reflexivity|]. split; [exact Ha|exact Hf].
Defined.

Lemma deposit_pays_debt_first_witness :
  exists c', on_deposit (E := string) 1 3 100 77 demo = Ok tt c' /\ debt_of c' 1 3 = 0 /\
    net_position c' 1 3 = 60.
Proof.
  destruct (deposit_pays_debt_first 1 3 100 77 demo) as (c' & Hc & Hd & Hn);
    [lia|exact demo_debts|by vm_compute|].
  exists c'. split; [exact Hc|]. split; [exact Hd|]. rewrite (Hn 1 3). vm_compute. reflexivity.
Defined.

Lemma balance_delta_exact_witness :
  exists c', apply_balance_delta (E := string) 1 2 (-9000) EvTradeSettle 123 demo =
      Ok (avail (bal_of (accounts c') 1 2)) c' /\ debt_of c' 1 2 = 1000.
Proof.
  destruct (balance_delta_exact 1 2 (-9000) EvTradeSettle 123 demo) as (c' & Hc & Hd & _);
    [exact demo_debts|by vm_compute|by vm_compute|by vm_compute|by vm_compute|].
  exists c'. split; [exact Hc|exact Hd].
Defined.

Lemma large_balance_becomes_debt_witness :
  let rich := set_accounts {[5 := mkAccount 5 [(1, mkBalance (2 ^ 63) 0 1)]]} ubs_new in
  exists c', apply_balance_delta (E := string) 5 1 1 EvDeposit 123 rich = Ok 0 c' /\
    avail (bal_of (accounts c') 5 1) = 0 /\ debt_of c' 5 1 = 2 ^ 63 - 1.
Proof.
  intros rich.
  apply (large_balance_becomes_debt 5 1 1 EvDeposit 123 rich (mkAccount 5 [(1, mkBalance (2 ^ 63) 0 1)]));
    first [reflexivity | by vm_compute].
Defined.

Lemma withdraw_ignores_debt_witness :
  can_withdraw 1 2 8000 demo = false /\
  exists c', on_withdraw (E := string) 1 2 8000 78 demo = Ok true c' /\
    avail (bal_of (accounts c') 1 2) = 0.
Proof.
  destruct (withdraw_ignores_debt 1 2 8000 78 demo (mkAccount 1 [(2, mkBalance 8000 2000 4)]))
    as (Hno & c' & Hc & Ha & _); [reflexivity|by vm_compute|by vm_compute|].
  split; [exact Hno|]. exists c'. split; [exact Hc|exact Ha].
Defined.

Lemma demo_order_fits : order_fits demo_order.
Proof. eexists. split; [reflexivity|]. by vm_compute. Defined.

(** Opening an empty file whose first call, the extension, goes well. *)
Lemma open_empty rest :
  exists w f', wal_open default_config (mkFile [] [] (IoOk :: rest)) = Ok w f'.
Proof.
  unfold wal_open, enable_direct_io. rewrite bind_ret. unfold bind at 1, get at 1. cbn [contents].
  change ((0 <? pre_alloc_size default_config) && (zlen [] <? pre_alloc_size default_config)) with true.
  cbv iota. unfold bind, fs2_allocate, plain_fs2, set_len, sys_call. cbn [script set_contents]. unfold get.
  change (buffer_size default_config) with 65536. unfold new_wal, buffer_with_capacity, unwrap.
  change (buffer_new (buffer_size default_config) 4096) with (Some (mkBuffer 65536 [] 4096)).
  cbn [fmap option_fmap option_map]. unfold ret. by do 2 eexists.
Qed.

(** The same order twice, while the write of the first fails after 3 bytes. *)
Lemma accepted_orders_durable_witness :
  exists w f' ok c' w' es,
    wal_open default_config (mkFile [] [] [IoOk; IoFail 3 "EIO"]) = Ok w f' /\
    run_orders [(demo_order, 5000); (demo_order, 5001)] (set_wal (Some w) demo) = Some (ok, c') /\
    wal c' = Some w' /\ map entry_of ok `sublist_of` es /\
    (es = [] \/
     forall chunks, Forall (fun ch => ch <> []) chunks -> concat chunks = durable (file w') ->
       exists st r, replay collect (replay_open (map inr chunks), []) = Ok (Some st) (r, es)).
Proof.
  destruct (open_empty [IoFail 3 "EIO"]) as (w & f' & Hopen).
  destruct (accepted_orders_durable [(demo_order, 5000); (demo_order, 5001)] (set_wal (Some w) demo)
    (mkFile [] [] [IoOk; IoFail 3 "EIO"]) w f' eq_refl Hopen eq_refl (demo_held (Some w)))
    as (ok & c' & w' & es & Hrun & Hw' & Hsub & _ & _ & Hrep).
  - apply Forall_cons. split; [exact demo_order_fits|].
    apply Forall_cons. split; [exact demo_order_fits|by apply Forall_nil].
  - exists w, f', ok, c', w', es. split; [exact Hopen|]. split; [exact Hrun|]. split; [exact Hw'|].
    split; [exact Hsub|exact Hrep].
Defined.

Lemma refused_order_is_logged_witness :
  exists c' w' w'' k,
    process_order_durable demo_order 5000 (set_wal (Some (demo_wal [IoFail 3 "EIO"])) demo) =
      Err InternalError c' /\ wal c' = Some w' /\ flush w' = Ok tt w'' /\
    durable (file w'') = log_of [entry_of demo_order] ++ zeros k.
Proof.
  set (w := demo_wal [IoFail 3 "EIO"]). set (c := set_wal (Some w) demo).
  destruct (validate_order demo_order 5000 c) as [[] c1|e c1|] eqn:Hv;
    [|vm_compute in Hv; discriminate Hv|vm_compute in Hv; discriminate Hv].
  assert (wal c1 = Some w) as Hw by (vm_compute in Hv; by injection Hv as <-).
  destruct (refused_order_is_logged [] [] demo_order 5000 c c1 w 3 "EIO" (demo_held (Some w)) Hv Hw)
    as (c' & w' & Hp & _ & Hw' & _ & w'' & k & Hf & Hd).
  - split; [|by apply Forall_nil]. exists [], []. split; [done|]. exists [], 0%nat. split_and!; first [done|by left].
  - reflexivity.
  - exact demo_order_fits.
  - by vm_compute.
  - exists c', w', w'', k. split; [exact Hp|]. split; [exact Hw'|]. split; [exact Hf|exact Hd].
Defined.
End Concrete.
