(* ===== verification/UbsComm.v ===== *)
(** * Messages to the balance authority ([src/src/ubs_core/comm/])

    The wire messages ([order_receiver.rs], [response.rs]), the type byte in
    front of them ([message.rs]) and the handler ([ubscore_handler.rs]) that
    decodes a request, runs it on [UBSCore], logs accepted orders and forwards
    them to the matching engine. *)

From stdpp Require Import pretty.
From S2P Require Import Prelude UserAccount Bytes UbsParts WalRecord UbsWal UbsCore.

#[local] Open Scope string_scope.
#[local] Open Scope list_scope.
#[local] Open Scope Z_scope.
#[local] Open Scope rust_scope.

(** ** Wire messages

    [#[repr(C)]] structures as they lie in the memory of a little-endian
    machine; padding bytes are what they happen to be. *)

Class Padding := padding : nat -> list Z.
Class PaddingLaws `{Padding} : Prop := padding_length n : length (padding n) = n.

Module Wire.
Record OrderMessage := mkOrder {
  order_id : Z; user_id : Z; symbol_id : Z; side : Z; order_type : Z; price : Z; qty : Z
}.

(** [DepositMessage] and [WithdrawMessage] have the same fields. *)
Record FundsMessage := mkFunds { tx_id : Z; funds_user_id : Z; asset_id : Z; amount : Z }.

Record ResponseMessage := mkResponse { resp_order_id : Z; accepted : Z; reason_code : Z }.
End Wire.

(** The [n] bytes at [off] as an integer. *)
Definition field_at (off n : nat) (bytes : list Z) : Z := le_value (take n (drop off bytes)).

Section wire.
Context `{Padding}.

Definition order_to_bytes (m : Wire.OrderMessage) : list Z :=
  le_bytes 8 (Wire.order_id m) ++ le_bytes 8 (Wire.user_id m) ++ le_bytes 4 (Wire.symbol_id m) ++
  le_bytes 1 (Wire.side m) ++ le_bytes 1 (Wire.order_type m) ++ padding 2 ++
  le_bytes 8 (Wire.price m) ++ le_bytes 8 (Wire.qty m).

Definition order_from_bytes (bytes : list Z) : option Wire.OrderMessage :=
  if zlen bytes <? 40 then None
  else Some (Wire.mkOrder (field_at 0 8 bytes) (field_at 8 8 bytes) (field_at 16 4 bytes)
               (field_at 20 1 bytes) (field_at 21 1 bytes) (field_at 24 8 bytes) (field_at 32 8 bytes)).

Definition funds_to_bytes (m : Wire.FundsMessage) : list Z :=
  le_bytes 8 (Wire.tx_id m) ++ le_bytes 8 (Wire.funds_user_id m) ++ le_bytes 4 (Wire.asset_id m) ++
  padding 4 ++ le_bytes 8 (Wire.amount m).

Definition funds_from_bytes (bytes : list Z) : option Wire.FundsMessage :=
  if zlen bytes <? 32 then None
  else Some (Wire.mkFunds (field_at 0 8 bytes) (field_at 8 8 bytes) (field_at 16 4 bytes) (field_at 24 8 bytes)).

Definition response_to_bytes (m : Wire.ResponseMessage) : list Z :=
  le_bytes 8 (Wire.resp_order_id m) ++ le_bytes 1 (Wire.accepted m) ++ le_bytes 1 (Wire.reason_code m) ++
  padding 6.

Definition response_from_bytes (bytes : list Z) : option Wire.ResponseMessage :=
  if zlen bytes <? 16 then None
  else Some (Wire.mkResponse (field_at 0 8 bytes) (field_at 8 1 bytes) (field_at 9 1 bytes)).
End wire.

Definition response_accept (order_id : Z) : Wire.ResponseMessage := Wire.mkResponse order_id 1 0.
Definition response_reject (order_id reason : Z) : Wire.ResponseMessage := Wire.mkResponse order_id 0 reason.
Definition is_accepted (m : Wire.ResponseMessage) : bool := Wire.accepted m =? 1.

(** [self as u8] *)
Definition ubs_side_code (s : UbsSide) : Z := match s with UbsBuy => 0 | UbsSell => 1 end.
Definition ubs_order_type_code (t : UbsOrderType) : Z := match t with UbsLimit => 0 | UbsMarket => 1 end.

Definition from_order (o : InternalOrder) : Wire.OrderMessage :=
  Wire.mkOrder (io_order_id o) (io_user_id o) (io_symbol_id o) (ubs_side_code (io_side o))
    (ubs_order_type_code (io_order_type o)) (io_price o) (io_qty o).

Definition to_internal_order (m : Wire.OrderMessage) : RejectReason + InternalOrder :=
  match ubs_side_from_u8 (Wire.side m) with
  | None => inl InvalidSymbol
  | Some side =>
      match ubs_order_type_from_u8 (Wire.order_type m) with
      | None => inl InvalidSymbol
      | Some order_type =>
          inr (mkInternal (Wire.order_id m) (Wire.user_id m) (Wire.symbol_id m) side (Wire.price m)
                 (Wire.qty m) order_type)
      end
  end.

(** ** The type byte *)

Module MsgType.
Inductive t := Order | Cancel | Query | Deposit | Withdraw | Response.

#[global] Instance eq_dec : EqDecision t.
Proof. solve_decision. Defined.

Definition code (m : t) : Z :=
  match m with Order => 1 | Cancel => 2 | Query => 3 | Deposit => 4 | Withdraw => 5 | Response => 128 end.

Definition try_from (value : Z) : option t :=
  if value =? 1 then Some Order
  else if value =? 2 then Some Cancel
  else if value =? 3 then Some Query
  else if value =? 4 then Some Deposit
  else if value =? 5 then Some Withdraw
  else if value =? 128 then Some Response
  else None.
End MsgType.

Definition parse_message (payload : list Z) : option (MsgType.t * list Z) :=
  match payload with
  | [] => None
  | b :: body => (fun t => (t, body)) <$> MsgType.try_from b
  end.

Definition build_message (t : MsgType.t) (body : list Z) : list Z := MsgType.code t :: body.

(** ** The handler

    The log is memory-mapped: an append is at once in the file's pages, and in
    [disk] - what a power loss leaves - after a flush that succeeds.  [flushes]
    says which of the coming flushes will; when it runs out they all do.  The
    producer is the list of records handed to it. *)

Record KafkaRecord := mkRecord { record_key : string; record_payload : list Z }.

Record Handler := mkHandler {
  ubs_core : UBSCore;
  mmap_wal : MmapWal;
  disk : list Z;
  flushes : list bool;
  kafka_producer : option (list KafkaRecord)
}.

(** [bincode::serialize] of a cancel request with its two placeholders. *)
Class CancelCodec := bincode_cancel : Z -> Z -> option (list Z).

Definition reason_code_of (reason : RejectReason) : Z :=
  match reason with
  | InsufficientBalance => 1
  | DuplicateOrderId => 2
  | AccountNotFound => 7
  | _ => 99
  end.

Section handler.
Context {bp : BuildProfile} `{Crc32} {codec : OrderCodec} `{Padding} `{CancelCodec}.

Definition on_core {E A} (m : M UBSCore E A) : M Handler E A :=
  zoom (fun h => Some (ubs_core h))
       (fun c h => mkHandler c (mmap_wal h) (disk h) (flushes h) (kafka_producer h)) m.

Definition on_mmap {A} (m : M MmapWal WalError.t A) : M Handler WalError.t A :=
  zoom (fun h => Some (mmap_wal h))
       (fun w h => mkHandler (ubs_core h) w (disk h) (flushes h) (kafka_producer h)) m.

(** [if let Err(e) = self.wal.flush() { log::error!(..) }] *)
Definition flush_or_log {E} : M Handler E unit :=
  modify (fun h =>
    let '(done, rest) := match flushes h with [] => (true, []) | b :: rest => (b, rest) end in
    mkHandler (ubs_core h) (mmap_wal h) (if (done : bool) then mmap (mmap_wal h) else disk h) rest
      (kafka_producer h)).

Definition produce {E} (r : KafkaRecord) : M Handler E unit :=
  modify (fun h =>
    mkHandler (ubs_core h) (mmap_wal h) (disk h) (flushes h) ((fun l => l ++ [r]) <$> kafka_producer h)).

(** [Result] of the handler's methods: an error is the response to send. *)
Definition Handle (A : Type) : Type := M Handler (list Z) A.

Definition accept_response (order_id : Z) : list Z :=
  build_message MsgType.Response (response_to_bytes (response_accept order_id)).

Definition reject_response (order_id reason : Z) : list Z :=
  build_message MsgType.Response (response_to_bytes (response_reject order_id reason)).

Definition INTERNAL_ERROR : Z := 99.

(** The first half of [handle_order] and [handle_order_no_flush]: decode,
    validate, append; the error is the immediate response. *)
Definition accept_order (body : list Z) (clock : Z) : Handle InternalOrder :=
  let* order_msg := ok_or (order_from_bytes body) (reject_response 0 INTERNAL_ERROR) in
  match to_internal_order order_msg with
  | inl _ => throw (reject_response (Wire.order_id order_msg) 5)
  | inr order =>
      map_err (fun reason => reject_response (io_order_id order) (reason_code_of reason))
        (on_core (validate_order order clock)) ;;;
      match bincode_order order with
      | Some payload =>
          map_err (fun _ => reject_response (io_order_id order) INTERNAL_ERROR)
            (on_mmap (mmap_append (mkEntry WalEntryType.OrderLock payload)))
      | None => ret tt
      end ;;;
      ret order
  end.

Definition forward_to_kafka {E} (order : InternalOrder) : M Handler E unit :=
  produce (mkRecord (pretty (io_order_id order)) (default [] (bincode_order order))).

Definition handle_order (body : list Z) (clock : Z) : Handle (list Z) :=
  let* order := accept_order body clock in
  flush_or_log ;;;
  forward_to_kafka order ;;;
  ret (accept_response (io_order_id order)).

Definition handle_cancel (body : list Z) : Handle (list Z) :=
  if zlen body <? 16 then ret (reject_response 0 INTERNAL_ERROR)
  else
    let user_id := field_at 0 8 body in
    let order_id := field_at 8 8 body in
    let* h := get in
    match kafka_producer h, bincode_cancel user_id order_id with
    | Some _, Some payload =>
        produce (mkRecord (pretty order_id) payload) ;;;
        ret (accept_response order_id)
    | _, _ => ret (reject_response order_id INTERNAL_ERROR)
    end.

Definition handle_query : Handle (list Z) := ret (reject_response 0 INTERNAL_ERROR).

Definition handle_deposit (body : list Z) : Handle (list Z) :=
  let* msg := ok_or (funds_from_bytes body) (reject_response 0 INTERNAL_ERROR) in
  on_core (on_deposit (Wire.funds_user_id msg) (Wire.asset_id msg) (Wire.amount msg) (Wire.tx_id msg)) ;;;
  ret (accept_response (Wire.funds_user_id msg)).

Definition handle_withdraw (body : list Z) : Handle (list Z) :=
  let* msg := ok_or (funds_from_bytes body) (reject_response 0 INTERNAL_ERROR) in
  let* done := on_core (on_withdraw (Wire.funds_user_id msg) (Wire.asset_id msg) (Wire.amount msg)
                          (Wire.tx_id msg)) in
  ret (if (done : bool) then accept_response (Wire.funds_user_id msg)
       else reject_response (Wire.funds_user_id msg) 1).

(** The messages that are answered at once. *)
Definition handle_other (t : MsgType.t) (body : list Z) : Handle (list Z) :=
  match t with
  | MsgType.Cancel => handle_cancel body
  | MsgType.Query => handle_query
  | MsgType.Deposit => handle_deposit body
  | MsgType.Withdraw => handle_withdraw body
  | _ => ret (reject_response 0 INTERNAL_ERROR)
  end.

(** The response of a method, an early return included. *)
Definition respond (m : Handle (list Z)) : M Handler Empty_set (list Z) :=
  fun h =>
    match m h with
    | Ok r h' => Ok r h'
    | Err r h' => Ok r h'
    | Panic => Panic
    end.

Definition on_message (payload : list Z) (clock : Z) : M Handler Empty_set (list Z) :=
  match parse_message payload with
  | None => ret (reject_response 0 INTERNAL_ERROR)
  | Some (MsgType.Order, body) => respond (handle_order body clock)
  | Some (t, body) => respond (handle_other t body)
  end.

(** *** Batches *)

Inductive ProcessResult :=
  | Pending (order : InternalOrder) (response : list Z)
  | Immediate (response : list Z).

Definition handle_order_no_flush (body : list Z) (clock : Z) : M Handler Empty_set ProcessResult :=
  fun h =>
    match accept_order body clock h with
    | Ok order h' => Ok (Pending order (accept_response (io_order_id order))) h'
    | Err r h' => Ok (Immediate r) h'
    | Panic => Panic
    end.

Definition process_no_flush (payload : list Z) (clock : Z) : M Handler Empty_set ProcessResult :=
  match parse_message payload with
  | None => ret (Immediate (reject_response 0 INTERNAL_ERROR))
  | Some (MsgType.Order, body) => handle_order_no_flush body clock
  | Some (t, body) => let* r := respond (handle_other t body) in ret (Immediate r)
  end.

(** A request with its correlation identifier, and the clock when it is
    validated. *)
Record Request := mkReq { correlation_id : Z; req_payload : list Z; req_clock : Z }.

Fixpoint phase1 (items : list Request) : M Handler Empty_set (list (Z * ProcessResult)) :=
  match items with
  | [] => ret []
  | item :: rest =>
      let* result := process_no_flush (req_payload item) (req_clock item) in
      let* results := phase1 rest in
      ret ((correlation_id item, result) :: results)
  end.

Definition is_pending (r : Z * ProcessResult) : bool :=
  match r.2 with Pending _ _ => true | Immediate _ => false end.

Fixpoint phase3 (results : list (Z * ProcessResult)) : M Handler Empty_set (list (Z * list Z)) :=
  match results with
  | [] => ret []
  | (correlation, result) :: rest =>
      let* response :=
        match result with
        | Pending order response => forward_to_kafka order ;;; ret response
        | Immediate response => ret response
        end in
      let* responses := phase3 rest in
      ret ((correlation, response) :: responses)
  end.

Definition process_batch (items : list Request) : M Handler Empty_set (list (Z * list Z)) :=
  let* results := phase1 items in
  (if existsb is_pending results then flush_or_log else ret tt) ;;;
  phase3 results.
End handler.
