(* ===== verification/UbsCommProofs.v ===== *)
(** * What the request handler guarantees

    The order a client encodes is the order that is processed, and the verdict
    it decodes is its own; a batch is its requests one by one, except that a
    cancel request overtakes the orders before it; an order is acknowledged
    whether or not its log entry reached the disk. *)

From stdpp Require Import pretty.
From S2P Require Import Prelude Balance UserAccount Bytes UbsParts WalRecord UbsWal UbsCore UbsCoreProofs UbsComm.

#[local] Open Scope string_scope.
#[local] Open Scope list_scope.
#[local] Open Scope Z_scope.
#[local] Open Scope rust_scope.

(** ** Fields *)

Lemma field_at_here n x rest :
  0 <= x < 256 ^ Z.of_nat n -> field_at 0 n (le_bytes n x ++ rest) = x.
Proof.
  intros Hx. unfold field_at. rewrite drop_0. rewrite <- (le_bytes_length n x) at 1.
  rewrite take_app_length. by apply le_value_bytes.
Qed.

Lemma field_at_last n x : 0 <= x < 256 ^ Z.of_nat n -> field_at 0 n (le_bytes n x) = x.
Proof. intros Hx. rewrite <- (app_nil_r (le_bytes n x)). by apply field_at_here. Qed.

Lemma field_at_skip k off n l rest :
  length l = k -> field_at (k + off) n (l ++ rest) = field_at off n rest.
Proof. intros <-. unfold field_at. do 2 f_equal. rewrite drop_app_ge by lia. f_equal. lia. Qed.

Record order_in_range (o : InternalOrder) : Prop := {
  range_order_id : is_u64 (io_order_id o);
  range_user_id : is_u64 (io_user_id o);
  range_symbol_id : 0 <= io_symbol_id o < 256 ^ 4;
  range_price : is_u64 (io_price o);
  range_qty : is_u64 (io_qty o)
}.

Lemma is_u64_bytes x : is_u64 x -> 0 <= x < 256 ^ Z.of_nat 8.
Proof. change (256 ^ Z.of_nat 8) with u64_mod. ulia. Qed.

#[export] Hint Resolve is_u64_bytes : u64.

(** Walks to the field at a constant offset past the fields before it. *)
Ltac walk_field :=
  match goal with
  | |- field_at 0 _ (le_bytes _ _ ++ _) = _ => apply field_at_here
  | |- field_at 0 _ (le_bytes _ _) = _ => apply field_at_last
  | |- field_at ?off _ (le_bytes ?k ?x ++ _) = _ =>
      rewrite (field_at_skip k (off - k) _ (le_bytes k x)) by apply le_bytes_length; cbn [Nat.sub]; walk_field
  | |- field_at ?off _ (padding ?k ++ _) = _ =>
      rewrite (field_at_skip k (off - k) _ (padding k)) by apply padding_length; cbn [Nat.sub]; walk_field
  end.

Section wire.
Context `{PaddingLaws}.

Lemma order_to_bytes_length m : length (order_to_bytes m) = 40%nat.
Proof. unfold order_to_bytes. by rewrite !length_app, !le_bytes_length, padding_length. Qed.

Lemma funds_to_bytes_length m : length (funds_to_bytes m) = 32%nat.
Proof. unfold funds_to_bytes. by rewrite !length_app, !le_bytes_length, padding_length. Qed.

Lemma response_to_bytes_length m : length (response_to_bytes m) = 16%nat.
Proof. unfold response_to_bytes. by rewrite !length_app, !le_bytes_length, padding_length. Qed.

Lemma order_bytes_roundtrip o :
  order_in_range o -> order_from_bytes (order_to_bytes (from_order o)) = Some (from_order o).
Proof.
  intros [Hoid Huid Hsym Hpr Hq]. unfold order_from_bytes. rewrite zlen_eq, order_to_bytes_length.
  change (Z.of_nat 40 <? 40) with false. cbv iota. f_equal.
  unfold order_to_bytes, from_order.
  cbn [Wire.order_id Wire.user_id Wire.symbol_id Wire.side Wire.order_type Wire.price Wire.qty].
  f_equal; walk_field; auto with u64; [destruct (io_side o)|destruct (io_order_type o)]; simpl; lia.
Qed.

Lemma funds_bytes_roundtrip m :
  is_u64 (Wire.tx_id m) -> is_u64 (Wire.funds_user_id m) -> 0 <= Wire.asset_id m < 256 ^ 4 ->
  is_u64 (Wire.amount m) -> funds_from_bytes (funds_to_bytes m) = Some m.
Proof.
  destruct m as [t u a x]. cbn [Wire.tx_id Wire.funds_user_id Wire.asset_id Wire.amount]. intros Ht Hu Ha Hx.
  unfold funds_from_bytes. rewrite zlen_eq, funds_to_bytes_length.
  change (Z.of_nat 32 <? 32) with false. cbv iota. f_equal. unfold funds_to_bytes.
  cbn [Wire.tx_id Wire.funds_user_id Wire.asset_id Wire.amount]. f_equal; walk_field; auto with u64.
Qed.

Lemma response_bytes_roundtrip m :
  is_u64 (Wire.resp_order_id m) -> 0 <= Wire.accepted m < 256 -> 0 <= Wire.reason_code m < 256 ->
  response_from_bytes (response_to_bytes m) = Some m.
Proof.
  destruct m as [i a r]. cbn [Wire.resp_order_id Wire.accepted Wire.reason_code]. intros Hi Ha Hr.
  unfold response_from_bytes. rewrite zlen_eq, response_to_bytes_length.
  change (Z.of_nat 16 <? 16) with false. cbv iota. f_equal. unfold response_to_bytes.
  cbn [Wire.resp_order_id Wire.accepted Wire.reason_code]. f_equal; walk_field; auto with u64.
Qed.

Lemma to_from_order o : to_internal_order (from_order o) = inr o.
Proof. destruct o as [i u y [] p q []]; done. Qed.

Lemma parse_build t body : parse_message (build_message t body) = Some (t, body).
Proof. by destruct t. Qed.
End wire.

(** ** Batches and single requests *)

Section batches.
Context {bp : BuildProfile} `{Crc32} {codec : OrderCodec} `{Padding} `{CancelCodec}.

(** The handler with other outlets: what is on the disk and in the producer. *)
Definition set_outlets (d : list Z) (f : list bool) (k : option (list KafkaRecord)) (h : Handler) : Handler :=
  mkHandler (ubs_core h) (mmap_wal h) d f k.

(** A computation that neither reads nor writes the outlets. *)
Class Framed {E A} (m : M Handler E A) : Prop :=
  framed d f k h : m (set_outlets d f k h) = res_map (set_outlets d f k) (m h).

#[global] Instance framed_ret {E A} (a : A) : Framed (ret (E := E) a).
Proof. by intros d fl k h. Qed.
#[global] Instance framed_throw {E A} (e : E) : Framed (throw (A := A) e).
Proof. by intros d fl k h. Qed.
#[global] Instance framed_panic {E A} : Framed (panic (E := E) (A := A)).
Proof. by intros d fl k h. Qed.

#[global] Instance framed_bind {E A B} (m : M Handler E A) (f : A -> M Handler E B) :
  Framed m -> (forall a, Framed (f a)) -> Framed (bind m f).
Proof.
  intros Hm Hf d fl k h. unfold bind. rewrite (framed (m := m)).
  destruct (m h) as [a h'|e h'|]; [apply framed|done|done].
Qed.

#[global] Instance framed_ok_or {E A} (o : option A) (e : E) : Framed (ok_or o e).
Proof. by destruct o. Qed.

#[global] Instance framed_map_err {E E' A} (f : E -> E') (m : M Handler E A) : Framed m -> Framed (map_err f m).
Proof. intros Hm d fl k h. unfold map_err. rewrite (framed (m := m)). by destruct (m h). Qed.

#[global] Instance framed_on_core {E A} (m : M UBSCore E A) : Framed (on_core m).
Proof. intros d fl k h. unfold on_core, zoom. cbn [ubs_core set_outlets]. by destruct (m _). Qed.

#[global] Instance framed_on_mmap {A} (m : M MmapWal WalError.t A) : Framed (on_mmap m).
Proof. intros d fl k h. unfold on_mmap, zoom. cbn [mmap_wal set_outlets]. by destruct (m _). Qed.

#[global] Instance framed_respond (m : Handle (list Z)) : Framed m -> Framed (respond m).
Proof. intros Hm d fl k h. unfold respond. rewrite (framed (m := m)). by destruct (m h). Qed.

#[global] Instance framed_accept_order body clock : Framed (accept_order body clock).
Proof.
  unfold accept_order. apply framed_bind; [apply _|]. intros m.
  destruct (to_internal_order m) as [r|o]; [apply _|].
  destruct (bincode_order o); apply _.
Qed.

#[global] Instance framed_order_no_flush body clock : Framed (handle_order_no_flush body clock).
Proof. intros d fl k h. unfold handle_order_no_flush. rewrite framed. by destruct (accept_order _ _ h). Qed.

Definition is_cancel (payload : list Z) : bool :=
  match parse_message payload with Some (MsgType.Cancel, _) => true | _ => false end.

#[global] Instance framed_handle_deposit body : Framed (handle_deposit body).
Proof. unfold handle_deposit. apply _. Qed.

#[global] Instance framed_handle_withdraw body : Framed (handle_withdraw body).
Proof. unfold handle_withdraw. apply _. Qed.

Lemma framed_no_flush payload clock : is_cancel payload = false -> Framed (process_no_flush payload clock).
Proof.
  unfold is_cancel, process_no_flush, handle_other. intros Hc.
  destruct (parse_message payload) as [[[] body]|]; try apply _. done.
Qed.

Definition no_cancel (items : list Request) : Prop :=
  Forall (fun r => is_cancel (req_payload r) = false) items.

Lemma framed_phase1 items : no_cancel items -> Framed (phase1 items).
Proof.
  induction 1 as [|r items Hr _ IH]; simpl; [apply _|]. pose proof (framed_no_flush _ (req_clock r) Hr). apply _.
Qed.

(** What a framed computation leaves of the outlets. *)
Lemma framed_outlets {E A} (m : M Handler E A) h h' :
  Framed m -> state_of (m h) = Some h' ->
  disk h' = disk h /\ flushes h' = flushes h /\ kafka_producer h' = kafka_producer h.
Proof.
  intros Hm Hs. pose proof (framed (m := m) (disk h) (flushes h) (kafka_producer h) h) as Hf.
  assert (set_outlets (disk h) (flushes h) (kafka_producer h) h = h) as Heq by (by destruct h).
  rewrite Heq in Hf. destruct (m h) as [a h1|e h1|]; simpl in *; [| |done];
    injection Hs as <-; injection Hf as Hf; by rewrite Hf.
Qed.

(** *** The log moves for pending orders only *)

Definition keeps_log {E A} (m : M Handler E A) : Prop :=
  forall h h', state_of (m h) = Some h' -> mmap_wal h' = mmap_wal h.

Lemma keeps_log_on_core {E A} (m : M UBSCore E A) : keeps_log (on_core m).
Proof. intros h h'. unfold on_core, zoom. by destruct (m _) as [a c|e c|]; intros [= <-]. Qed.

Lemma mmap_append_eq e w :
  mmap_append e w =
  match entry_serialize e with
  | None => Panic
  | Some l =>
      if zlen (mmap w) <? cursor w + zlen l then Err (WalError.IoError "WAL full") w
      else Ok tt (mkMmap (overwrite (Z.to_nat (cursor w)) l (mmap w)) (cursor w + zlen l) (mmap_entries w + 1))
  end.
Proof.
  unfold mmap_append, unwrap. destruct (entry_serialize e) as [l|]; [|done].
  rewrite bind_ret. unfold bind at 1, get. by destruct (_ <? _).
Qed.

Lemma accept_order_refused body clock h r h' :
  accept_order body clock h = Err r h' -> mmap_wal h' = mmap_wal h.
Proof.
  unfold accept_order. unfold bind at 1, ok_or. destruct (order_from_bytes body) as [m|]; [|by intros [= _ <-]].
  unfold ret at 1. destruct (to_internal_order m) as [e|o]; [by intros [= _ <-]|].
  unfold bind at 1, map_err at 1. pose proof (keeps_log_on_core (validate_order o clock) h) as Hk.
  destruct (on_core _ h) as [[] h1|e h1|]; simpl in Hk; [|intros [= _ <-]; by apply Hk|done].
  rewrite <- (Hk h1 eq_refl). destruct (bincode_order o) as [p|]; [|done].
  unfold bind, map_err, on_mmap, zoom. rewrite mmap_append_eq.
  destruct (entry_serialize _) as [l|]; [|done]. destruct (_ <? _); [by intros [= _ <-]|by intros [=]].
Qed.

Lemma immediate_keeps_log payload clock h x h' :
  is_cancel payload = false -> process_no_flush payload clock h = Ok (Immediate x) h' ->
  mmap_wal h' = mmap_wal h.
Proof.
  unfold is_cancel, process_no_flush, handle_other.
  destruct (parse_message payload) as [[[] body]|]; intros Hc; [..|by intros [= _ <-]];
    try done; try (by intros [= _ <-]).
  - unfold handle_order_no_flush. destruct (accept_order body clock h) as [o h1|e h1|] eqn:Ha; [done| |done].
    intros [= _ <-]. by eapply accept_order_refused.
  - unfold handle_deposit, respond, bind, ok_or, ret.
    destruct (funds_from_bytes body) as [m|]; [|by intros [= _ <-]].
    pose proof (keeps_log_on_core (E := list Z)
      (on_deposit (Wire.funds_user_id m) (Wire.asset_id m) (Wire.amount m) (Wire.tx_id m)) h) as Hk.
    destruct (on_core _ h) as [[] h1|e h1|]; simpl in *; [| |done]; intros [= _ <-]; by apply Hk.
  - unfold handle_withdraw, respond, bind, ok_or, ret.
    destruct (funds_from_bytes body) as [m|]; [|by intros [= _ <-]].
    pose proof (keeps_log_on_core (E := list Z)
      (on_withdraw (Wire.funds_user_id m) (Wire.asset_id m) (Wire.amount m) (Wire.tx_id m)) h) as Hk.
    destruct (on_core _ h) as [b h1|e h1|]; simpl in *; [| |done]; intros [= _ <-]; by apply Hk.
Qed.

Lemma phase1_keeps_log items h rs h' :
  no_cancel items -> phase1 items h = Ok rs h' -> existsb is_pending rs = false -> mmap_wal h' = mmap_wal h.
Proof.
  intros Hno. revert h rs h'. induction Hno as [|r items Hr _ IH]; intros h rs h'; simpl; [by intros [= <- <-]|].
  intros (x & h1 & Hx & Hrest)%bind_inv_ok. apply bind_inv_ok in Hrest as (rs' & h2 & Hrs & [= <- <-]).
  simpl. destruct x as [o reply|reply]; [done|]. simpl. intros Hp.
  rewrite (IH _ _ _ Hrs Hp). by eapply immediate_keeps_log.
Qed.

(** *** The last phase *)

Definition record_of_order (o : InternalOrder) : KafkaRecord :=
  mkRecord (pretty (io_order_id o)) (default [] (bincode_order o)).

Definition forwarded (r : Z * ProcessResult) : list KafkaRecord :=
  match r.2 with Pending o _ => [record_of_order o] | Immediate _ => [] end.

Definition reply (r : Z * ProcessResult) : Z * list Z :=
  (r.1, match r.2 with Pending _ response | Immediate response => response end).

Definition push (l : list KafkaRecord) (k : option (list KafkaRecord)) : option (list KafkaRecord) :=
  (fun l' => l' ++ l) <$> k.

Lemma push_push l1 l2 k : push l2 (push l1 k) = push (l1 ++ l2) k.
Proof. destruct k; [|done]. unfold push. simpl. by rewrite app_assoc. Qed.

Lemma push_nil k : push [] k = k.
Proof. destruct k; [|done]. unfold push. simpl. by rewrite app_nil_r. Qed.

Lemma phase3_eq rs h :
  phase3 rs h =
  Ok (map reply rs) (set_outlets (disk h) (flushes h) (push (concat (map forwarded rs)) (kafka_producer h)) h).
Proof.
  revert h. induction rs as [|[i [o r|r]] rs IH]; intros h; cbn [phase3 map concat].
  - rewrite push_nil. by destruct h.
  - unfold bind at 1, forward_to_kafka, produce, bind at 1, modify. unfold ret at 1.
    rewrite (bind_ok _ _ _ _ _ (IH _)). unfold ret, set_outlets. cbn [map concat ubs_core mmap_wal disk flushes kafka_producer].
    by rewrite <- push_push.
  - unfold bind at 1. unfold ret at 1. by rewrite (bind_ok _ _ _ _ _ (IH _)).
Qed.

(** A flush that succeeds. *)
Definition synced (h : Handler) : Handler := set_outlets (mmap (mmap_wal h)) [] (kafka_producer h) h.

Lemma flush_ok {E} h : flushes h = [] -> flush_or_log (E := E) h = Ok tt (synced h).
Proof. intros Hf. unfold flush_or_log, modify. by rewrite Hf. Qed.

Lemma on_message_eq payload clock h :
  flushes h = [] ->
  on_message payload clock h =
  match process_no_flush payload clock h with
  | Ok (Pending o response) h' =>
      Ok response (set_outlets (mmap (mmap_wal h')) [] (push [record_of_order o] (kafka_producer h')) h')
  | Ok (Immediate response) h' => Ok response h'
  | Err e h' => Err e h'
  | Panic => Panic
  end.
Proof.
  intros Hf. unfold on_message, process_no_flush.
  destruct (parse_message payload) as [[[] body]|]; try done;
    try (unfold bind, ret; by destruct (respond _ h) as [a h1|e h1|]; [|destruct e|]).
  unfold respond, handle_order, handle_order_no_flush. unfold bind at 1.
  pose proof (framed_outlets (accept_order body clock) h) as Hout.
  destruct (accept_order body clock h) as [o h1|e h1|]; [|done|done].
  destruct (Hout h1 _ eq_refl) as (_ & Hf1 & _). rewrite Hf in Hf1.
  by rewrite (bind_ok _ _ _ _ _ (flush_ok h1 Hf1)).
Qed.

(** The requests one by one. *)
Fixpoint serve (items : list Request) : M Handler Empty_set (list (Z * list Z)) :=
  match items with
  | [] => ret []
  | item :: rest =>
      let* response := on_message (req_payload item) (req_clock item) in
      let* responses := serve rest in
      ret ((correlation_id item, response) :: responses)
  end.

(** A batch in terms of its first phase. *)
Lemma process_batch_eq items h :
  flushes h = [] -> no_cancel items ->
  process_batch items h =
  match phase1 items h with
  | Ok rs h' =>
      Ok (map reply rs)
         (set_outlets (if existsb is_pending rs then mmap (mmap_wal h') else disk h') []
            (push (concat (map forwarded rs)) (kafka_producer h')) h')
  | Err e h' => Err e h'
  | Panic => Panic
  end.
Proof.
  intros Hf Hno. unfold process_batch. unfold bind at 1.
  pose proof (framed_outlets (phase1 items) h) as Hout.
  destruct (phase1 items h) as [rs h'|e h'|]; [|done|done].
  destruct (Hout h' (framed_phase1 _ Hno) eq_refl) as (_ & Hf' & _). rewrite Hf in Hf'.
  destruct (existsb is_pending rs).
  - rewrite (bind_ok _ _ _ _ _ (flush_ok h' Hf')), phase3_eq. done.
  - unfold bind, ret. rewrite phase3_eq. by rewrite Hf'.
Qed.

(** C17: batching is invisible.  A batch without cancel requests, while flushes
    succeed, gives the responses of its requests served one by one and leaves
    the same balances, log, disk and records for the matching engine, with one
    flush instead of one for every order; it panics when they would. *)
Theorem batch_serves_each items h :
  no_cancel items -> flushes h = [] -> process_batch items h = serve items h.
Proof.
  intros Hno. revert h. induction Hno as [|r items Hr Hno IH]; intros h Hf.
  { rewrite (process_batch_eq [] h Hf) by by apply Forall_nil. simpl. unfold ret.
    rewrite push_nil. f_equal. destruct h; simpl in *; by subst. }
  simpl. unfold bind at 1. rewrite (on_message_eq _ _ _ Hf).
  rewrite process_batch_eq; [|done|by apply Forall_cons]. simpl. unfold bind at 1.
  pose proof (framed_no_flush _ (req_clock r) Hr) as Hframe.
  pose proof (framed_outlets (process_no_flush (req_payload r) (req_clock r)) h) as Hout.
  destruct (process_no_flush (req_payload r) (req_clock r) h) as [x h1|[]|]; [|done].
  destruct (Hout h1 _ eq_refl) as (Hd1 & Hf1 & Hk1). rewrite Hf in Hf1.
  pose proof (framed_phase1 _ Hno) as Hframe1.
  pose proof (framed_outlets (phase1 items) h1) as Hout1.
  destruct x as [o response|response].
  - set (h2 := set_outlets _ _ _ h1). unfold bind. rewrite <- (IH h2 eq_refl), (process_batch_eq _ h2 eq_refl Hno).
    unfold h2. rewrite framed. pose proof (phase1_keeps_log items h1) as Hlog.
    destruct (phase1 items h1) as [rs h3|[]|]; [|done]. simpl.
    destruct (Hout1 h3 _ eq_refl) as (_ & _ & Hk3).
    specialize (Hlog rs h3 Hno eq_refl). unfold ret, set_outlets. cbn [map concat existsb forwarded is_pending reply fst snd ubs_core mmap_wal disk flushes kafka_producer].
    rewrite push_push, Hk3. destruct (existsb is_pending rs); [done|]. by rewrite Hlog.
  - unfold bind. rewrite <- (IH h1 Hf1), (process_batch_eq _ h1 Hf1 Hno).
    by destruct (phase1 items h1) as [rs h3|[]|].
Qed.
End batches.

(** ** Cancel requests in a batch *)

Section cancels.
Context {bp : BuildProfile} `{Crc32} {codec : OrderCodec} `{Padding} `{CancelCodec}.

Lemma cancel_eq body h payload :
  16 <= zlen body -> kafka_producer h <> None ->
  bincode_cancel (field_at 0 8 body) (field_at 8 8 body) = Some payload ->
  let oid := field_at 8 8 body in
  respond (handle_cancel body) h =
  Ok (accept_response oid)
     (set_outlets (disk h) (flushes h) (push [mkRecord (pretty oid) payload] (kafka_producer h)) h).
Proof.
  intros Hl Hk Hp oid. unfold handle_cancel.
  destruct (Z.ltb_spec (zlen body) 16); [lia|]. unfold respond, bind, get.
  destruct (kafka_producer h) as [l|] eqn:Hl'; [|done]. rewrite Hp. cbn. rewrite Hl'. done.
Qed.

(** In a batch a cancel overtakes its order.  When an order that will be
    accepted and the request to cancel it reach the handler in one batch, the
    matching engine is sent the cancel first and the order second; one by one
    the requests are forwarded in the order in which they came.  Both are
    answered [accepted] either way. *)
Theorem batch_cancel_overtakes p t cid body t' cid' h h1 o response l payload :
  flushes h = [] -> kafka_producer h = Some l ->
  process_no_flush p t h = Ok (Pending o response) h1 ->
  16 <= zlen body -> bincode_cancel (field_at 0 8 body) (field_at 8 8 body) = Some payload ->
  let order := record_of_order o in
  let cancel := mkRecord (pretty (field_at 8 8 body)) payload in
  let items := [mkReq cid p t; mkReq cid' (build_message MsgType.Cancel body) t'] in
  exists hb hs replies,
    process_batch items h = Ok replies hb /\ kafka_producer hb = Some (l ++ [cancel; order]) /\
    serve items h = Ok replies hs /\ kafka_producer hs = Some (l ++ [order; cancel]).
Proof.
  intros Hf Hk Hp Hl Hc order cancel items.
  assert (disk h1 = disk h /\ flushes h1 = [] /\ kafka_producer h1 = Some l) as (Hd1 & Hf1 & Hk1).
  { pose proof (framed_outlets (process_no_flush p t) h h1) as Hout. rewrite <- Hf, <- Hk. apply Hout; [|by rewrite Hp].
    apply framed_no_flush. unfold is_cancel. unfold process_no_flush in Hp.
    destruct (parse_message p) as [[[] b]|]; try done.
    exfalso. unfold bind in Hp. by destruct (respond _ h). }
  pose proof (on_message_eq p t h Hf) as Hs. rewrite Hp in Hs.
  pose proof (fun h2 (Hn : kafka_producer h2 <> None) => cancel_eq body h2 payload Hl Hn Hc) as Hcan.
  cbv zeta in Hcan. fold cancel in Hcan.
  assert (phase1 items h = Ok [(cid, Pending o response); (cid', Immediate (accept_response (field_at 8 8 body)))]
    (set_outlets (disk h1) (flushes h1) (push [cancel] (kafka_producer h1)) h1)) as Hphase.
  { unfold items. cbn [phase1 req_payload req_clock correlation_id]. unfold bind at 1. rewrite Hp.
    unfold process_no_flush. rewrite parse_build. cbn [handle_other]. unfold bind, ret.
    by rewrite Hcan by by rewrite Hk1. }
  do 3 eexists. split; [|split; [|split]].
  - unfold process_batch. rewrite (bind_ok _ _ _ _ _ Hphase). cbn [existsb is_pending snd orb].
    erewrite bind_ok by by apply flush_ok. by rewrite phase3_eq.
  - cbn. rewrite Hk1. unfold push. cbn. by rewrite <- app_assoc.
  - unfold items. cbn [serve req_payload req_clock correlation_id]. rewrite (bind_ok _ _ _ _ _ Hs).
    unfold on_message. rewrite parse_build. cbn [handle_other]. rewrite bind_assoc.
    erewrite bind_ok by (apply Hcan; cbn; rewrite Hk1; done). done.
  - cbn. rewrite Hk1. unfold push. cbn. by rewrite <- app_assoc.
Qed.
End cancels.

(** ** One order, from the client's bytes to its verdict *)

Section orders.
Context {bp : BuildProfile} `{Crc32Laws} {codec : OrderCodec} `{PaddingLaws} `{CancelCodec}.

Definition order_message (o : InternalOrder) : list Z :=
  build_message MsgType.Order (order_to_bytes (from_order o)).

(** The log has room for the order's entry. *)
Definition log_room (o : InternalOrder) (h : Handler) : bool :=
  cursor (mmap_wal h) + zlen (record_of (entry_of o)) <=? zlen (mmap (mmap_wal h)).

Definition held_fits (c : UBSCore) : Prop := forall u a, held (bal_of (accounts c) u a) <= u64_max.

(** Every step of accepting an order that was sent in its encoding. *)
Lemma accept_order_eq o clock h :
  order_in_range o -> order_fits o -> held_fits (ubs_core h) ->
  accept_order (order_to_bytes (from_order o)) clock h =
  match validate_order o clock (ubs_core h) with
  | Ok _ c =>
      let h1 := mkHandler c (mmap_wal h) (disk h) (flushes h) (kafka_producer h) in
      if log_room o h then
        Ok o (mkHandler c
                (mkMmap (overwrite (Z.to_nat (cursor (mmap_wal h))) (record_of (entry_of o)) (mmap (mmap_wal h)))
                   (cursor (mmap_wal h) + zlen (record_of (entry_of o))) (mmap_entries (mmap_wal h) + 1))
                (disk h) (flushes h) (kafka_producer h))
      else Err (reject_response (io_order_id o) INTERNAL_ERROR) h1
  | Err reason c =>
      Err (reject_response (io_order_id o) (reason_code_of reason))
        (mkHandler c (mmap_wal h) (disk h) (flushes h) (kafka_producer h))
  | Panic => Panic
  end.
Proof.
  intros Hr Hfits Hheld. pose proof (order_entry_fits o Hfits) as He.
  destruct Hfits as (p & Hp & _). unfold accept_order. rewrite (order_bytes_roundtrip o Hr).
  unfold ok_or. rewrite bind_ret, to_from_order. unfold bind at 1, map_err at 1, on_core, zoom.
  destruct (validate_order o clock (ubs_core h)) as [[] c|e c|]; [|done|done].
  rewrite Hp. unfold bind, map_err, on_mmap, zoom. rewrite mmap_append_eq.
  assert (mkEntry WalEntryType.OrderLock p = entry_of o) as -> by (unfold entry_of; by rewrite Hp).
  rewrite (record_of_Some _ He). cbn [mmap_wal]. unfold log_room. rewrite Z.leb_antisym.
  by destruct (zlen (mmap (mmap_wal h)) <? _).
Qed.

Lemma response_read m :
  is_u64 (Wire.resp_order_id m) -> 0 <= Wire.accepted m < 256 -> 0 <= Wire.reason_code m < 256 ->
  exists body, parse_message (build_message MsgType.Response (response_to_bytes m)) = Some (MsgType.Response, body) /\
    response_from_bytes body = Some m.
Proof. intros Hi Ha Hr. eexists. by split; [apply parse_build|apply response_bytes_roundtrip]. Qed.

(** C18: the order a client encodes is the order that is judged, and the verdict
    it decodes is about that order.  With what every user holds below the 64-bit
    ceiling, a message built from an order is answered
    with a response message whose order identifier is the order's; [accepted]
    means that validation succeeded on exactly this order, that its entry is
    in the log and that its record went to the matching engine; a refusal
    leaves the log and the producer alone, and means that validation refused
    the order or that the log is full. *)
Theorem order_over_the_wire o clock h :
  order_in_range o -> order_fits o -> held_fits (ubs_core h) ->
  exists reply h' body r,
    on_message (order_message o) clock h = Ok reply h' /\
    parse_message reply = Some (MsgType.Response, body) /\ response_from_bytes body = Some r /\
    Wire.resp_order_id r = io_order_id o /\
    if is_accepted r then
      validate_order o clock (ubs_core h) = Ok tt (ubs_core h') /\
      mmap_append (entry_of o) (mmap_wal h) = Ok tt (mmap_wal h') /\
      kafka_producer h' = push [record_of_order o] (kafka_producer h)
    else
      mmap_wal h' = mmap_wal h /\ kafka_producer h' = kafka_producer h /\
      is_ok (validate_order o clock (ubs_core h)) && log_room o h = false.
Proof.
  intros Hr Hfits Hheld. pose proof (accept_order_eq o clock h Hr Hfits Hheld) as Hacc.
  pose proof (validate_order_cases o clock (ubs_core h) Hheld) as Hv.
  pose proof (range_order_id _ Hr) as Hid.
  unfold on_message, order_message. rewrite parse_build. unfold respond, handle_order. unfold bind at 1.
  rewrite Hacc. destruct (validate_order o clock (ubs_core h)) as [[] c|e c|]; [| |done].
  - cbv zeta. destruct (log_room o h) eqn:Hroom.
    + destruct (response_read (response_accept (io_order_id o))) as (body & Hb & Hm); [done..|].
      do 4 eexists. split; [done|]. split; [exact Hb|]. split; [exact Hm|]. split; [done|]. cbn.
      destruct (match flushes h with [] => _ | _ => _ end). cbn. split_and!; [done| |done].
      rewrite mmap_append_eq, (record_of_Some _ (order_entry_fits o Hfits)).
      unfold log_room in Hroom. destruct (Z.leb_spec (cursor (mmap_wal h) + zlen (record_of (entry_of o))) (zlen (mmap (mmap_wal h)))); [|done].
      destruct (Z.ltb_spec (zlen (mmap (mmap_wal h))) (cursor (mmap_wal h) + zlen (record_of (entry_of o)))); [lia|done].
    + destruct (response_read (response_reject (io_order_id o) INTERNAL_ERROR)) as (body & Hb & Hm); [done..|].
      do 4 eexists. split; [done|]. split; [exact Hb|]. split; [exact Hm|]. split; [done|]. done.
  - destruct (response_read (response_reject (io_order_id o) (reason_code_of e))) as (body & Hb & Hm);
      [done|done|destruct e; simpl; lia|].
    do 4 eexists. split; [done|]. split; [exact Hb|]. split; [exact Hm|]. split; [done|]. done.
Qed.

(** An order is acknowledged although its log entry is not on the disk.
    When the flush fails, the handler only logs the error: the client is
    answered [accepted] and the order goes to the matching engine, while what
    a power loss would leave of the log is what it was before. *)
Theorem acknowledged_without_disk o clock h c fs :
  order_in_range o -> order_fits o -> held_fits (ubs_core h) ->
  validate_order o clock (ubs_core h) = Ok tt c -> log_room o h = true -> flushes h = false :: fs ->
  exists h', on_message (order_message o) clock h = Ok (accept_response (io_order_id o)) h' /\
    kafka_producer h' = push [record_of_order o] (kafka_producer h) /\ disk h' = disk h.
Proof.
  intros Hr Hfits Hheld Hv Hroom Hf. unfold on_message, order_message. rewrite parse_build.
  unfold respond, handle_order. unfold bind at 1. rewrite (accept_order_eq o clock h Hr Hfits Hheld), Hv, Hroom.
  cbn. rewrite Hf. cbn. eexists. split; [done|]. by split.
Qed.

(** A full log strands the funds of the orders it refuses.  An order that
    validates when the log has no room is answered with an internal error, but
    its cost stays locked ([ubs_core] is as after the validation), and sending
    the order again, at any time, is refused. *)
Theorem full_log_strands_funds o clock h c :
  order_in_range o -> order_fits o -> held_fits (ubs_core h) ->
  validate_order o clock (ubs_core h) = Ok tt c -> log_room o h = false ->
  exists h', on_message (order_message o) clock h = Ok (reject_response (io_order_id o) INTERNAL_ERROR) h' /\
    ubs_core h' = c /\ mmap_wal h' = mmap_wal h /\
    forall clock', is_ok (validate_order o clock' (ubs_core h')) = false.
Proof.
  intros Hr Hfits Hheld Hv Hroom. unfold on_message, order_message. rewrite parse_build.
  unfold respond, handle_order. unfold bind at 1. rewrite (accept_order_eq o clock h Hr Hfits Hheld), Hv, Hroom.
  eexists. split; [done|]. split; [done|]. split; [done|]. intros clock'. apply validate_recorded.
  pose proof (validate_order_cases o clock (ubs_core h) Hheld) as Hcases. rewrite Hv in Hcases.
  by destruct Hcases as (? & ? & _ & _ & _ & _ & _ & _ & Hin & _).
Qed.
End orders.

(** ** Deposits *)

Section deposits.
Context {bp : BuildProfile} `{Crc32} {codec : OrderCodec} `{PaddingLaws} `{CancelCodec}.

Definition deposit_message (m : Wire.FundsMessage) : list Z :=
  build_message MsgType.Deposit (funds_to_bytes m).

Definition funds_in_range (m : Wire.FundsMessage) : Prop :=
  is_u64 (Wire.tx_id m) /\ is_u64 (Wire.funds_user_id m) /\ 0 <= Wire.asset_id m < 256 ^ 4 /\
  is_u64 (Wire.amount m).

Lemma deposit_message_eq m clock h :
  funds_in_range m ->
  on_message (deposit_message m) clock h =
  match on_deposit (E := list Z) (Wire.funds_user_id m) (Wire.asset_id m) (Wire.amount m) (Wire.tx_id m) (ubs_core h) with
  | Ok _ c =>
      Ok (accept_response (Wire.funds_user_id m)) (mkHandler c (mmap_wal h) (disk h) (flushes h) (kafka_producer h))
  | Err e c => Ok e (mkHandler c (mmap_wal h) (disk h) (flushes h) (kafka_producer h))
  | Panic => Panic
  end.
Proof.
  intros (Ht & Hu & Ha & Hx). unfold on_message, deposit_message. rewrite parse_build.
  cbn [handle_other]. unfold respond, handle_deposit. rewrite funds_bytes_roundtrip by done.
  unfold ok_or. rewrite bind_ret. unfold bind, on_core, zoom. by destruct (on_deposit _ _ _ _ _).
Qed.

(** The deposit request is not idempotent.  The same message - the same
    transaction identifier - handled twice is acknowledged twice and credited
    twice, and neither delivery is logged: a client that repeats a deposit
    after a lost answer, as the transfer coordinator does, creates funds. *)
Theorem deposit_applied_twice m clock clock' h :
  funds_in_range m ->
  map_Forall (fun _ r => 0 < debt_amount r) (debt_ledger (ubs_core h)) ->
  avail (bal_of (accounts (ubs_core h)) (Wire.funds_user_id m) (Wire.asset_id m)) + 2 * Wire.amount m <= u64_max ->
  exists h1 h2,
    on_message (deposit_message m) clock h = Ok (accept_response (Wire.funds_user_id m)) h1 /\
    on_message (deposit_message m) clock' h1 = Ok (accept_response (Wire.funds_user_id m)) h2 /\
    net_position (ubs_core h2) (Wire.funds_user_id m) (Wire.asset_id m) =
      net_position (ubs_core h) (Wire.funds_user_id m) (Wire.asset_id m) + 2 * Wire.amount m /\
    mmap_wal h2 = mmap_wal h.
Proof.
  intros Hm Hd Hmax. set (u := Wire.funds_user_id m) in *. set (a := Wire.asset_id m) in *.
  set (x := Wire.amount m) in *. pose proof Hm as (_ & _ & _ & Hx). fold x in Hx. unfold is_u64 in Hx.
  assert (0 <= debt_of (ubs_core h) u a) as Hdebt0 by by apply debt_of_nonneg.
  destruct (on_deposit_exact (E := list Z) u a x (Wire.tx_id m) (ubs_core h)) as (c1 & Hc1 & Hd1 & Hdebt1 & Hn1);
    [lia|done|lia|].
  pose proof (Hn1 u a) as Hnet1. rewrite !Z.eqb_refl in Hnet1. simpl in Hnet1.
  destruct (on_deposit_exact (E := list Z) u a x (Wire.tx_id m) c1) as (c2 & Hc2 & _ & _ & Hn2);
    [lia|done|unfold net_position in *; lia|].
  pose proof (Hn2 u a) as Hnet2. rewrite !Z.eqb_refl in Hnet2. simpl in Hnet2.
  do 2 eexists. rewrite (deposit_message_eq m clock h Hm). fold u a x. rewrite Hc1. split; [done|].
  rewrite (deposit_message_eq m clock' _ Hm). fold u a x. cbn [ubs_core]. rewrite Hc2. split; [done|].
  cbn [ubs_core]. split; [lia|done].
Qed.
End deposits.

(** ** The theorems at a concrete handler *)

Module Concrete.
Import UbsCoreProofs.Concrete.
#[local] Existing Instances sum_crc sum_crc_laws id_codec profile.

#[local] Instance zero_padding : Padding := zeros.

#[local] Instance zero_padding_laws : PaddingLaws.
Proof. intros n. apply length_replicate. Defined.

#[local] Instance pair_codec : CancelCodec := fun u o => Some (le_bytes 8 u ++ le_bytes 8 o).

(** The core of [UbsCoreProofs], a log of [n] bytes, a producer. *)
Definition handler (n : nat) (flushes : list bool) : Handler :=
  mkHandler demo (mkMmap (zeros n) 0 0) (zeros n) flushes (Some []).

Definition second_order : InternalOrder := mkInternal 5242880001 1 7 UbsBuy 10 30 UbsLimit.

Definition demo_deposit : Wire.FundsMessage := Wire.mkFunds 77 1 2 100.

Definition cancel_body : list Z := le_bytes 8 1 ++ le_bytes 8 5242880000.

Lemma demo_range : order_in_range demo_order.
Proof. split; unfold is_u64, u64_max; simpl; lia. Defined.

Lemma demo_fits : held_fits demo.
Proof. exact (demo_held None). Defined.

Lemma demo_deposit_range : funds_in_range demo_deposit.
Proof. unfold funds_in_range, is_u64, u64_max. simpl. lia. Defined.

Lemma batch_serves_each_witness :
  let items := [mkReq 1 (order_message demo_order) 5000; mkReq 2 (deposit_message demo_deposit) 5001;
                mkReq 3 (order_message second_order) 5002; mkReq 4 [9; 9] 5003] in
  process_batch items (handler 64 []) = serve items (handler 64 []) /\
  exists replies h', process_batch items (handler 64 []) = Ok replies h' /\
    kafka_producer h' = Some [record_of_order demo_order; record_of_order second_order].
Proof.
  intros items. split.
  - apply (batch_serves_each items (handler 64 [])); [|reflexivity].
    unfold no_cancel, items. rewrite !Forall_cons. split_and!; try reflexivity. by apply Forall_nil.
  - destruct (process_batch items (handler 64 [])) as [replies h'|e h'|] eqn:Hr; vm_compute in Hr; [|done|done].
    exists replies, h'. split; [reflexivity|]. injection Hr as _ <-. vm_compute. reflexivity.
Defined.

Lemma batch_cancel_overtakes_witness :
  let order := record_of_order demo_order in
  let cancel := mkRecord "5242880000" (le_bytes 8 1 ++ le_bytes 8 5242880000) in
  let items := [mkReq 1 (order_message demo_order) 5000; mkReq 2 (build_message MsgType.Cancel cancel_body) 5001] in
  exists hb hs replies,
    process_batch items (handler 64 []) = Ok replies hb /\ kafka_producer hb = Some [cancel; order] /\
    serve items (handler 64 []) = Ok replies hs /\ kafka_producer hs = Some [order; cancel].
Proof.
  intros order cancel items.
  destruct (process_no_flush (order_message demo_order) 5000 (handler 64 [])) as [[o r|r] h1|e h1|] eqn:Hr;
    try (vm_compute in Hr; discriminate Hr).
  destruct (batch_cancel_overtakes (order_message demo_order) 5000 1 cancel_body 5001 2 (handler 64 []) h1 o r []
    (le_bytes 8 1 ++ le_bytes 8 5242880000) eq_refl eq_refl Hr) as (hb & hs & replies & Hb & Hkb & Hs & Hks);
    [by vm_compute|by vm_compute|].
  assert (o = demo_order) as -> by (vm_compute in Hr; by injection Hr as <-).
  exists hb, hs, replies. split; [exact Hb|]. split; [exact Hkb|]. split; [exact Hs|exact Hks].
Defined.

Lemma order_over_the_wire_witness :
  exists reply h' body r,
    on_message (order_message demo_order) 5000 (handler 64 []) = Ok reply h' /\
    parse_message reply = Some (MsgType.Response, body) /\ response_from_bytes body = Some r /\
    Wire.resp_order_id r = 5242880000 /\ is_accepted r = true /\
    kafka_producer h' = Some [record_of_order demo_order].
Proof.
  destruct (order_over_the_wire demo_order 5000 (handler 64 []) demo_range demo_order_fits demo_fits)
    as (reply & h' & body & r & Hr & Hp & Hb & Hid & Hverdict).
  exists reply, h', body, r. split; [exact Hr|]. split; [exact Hp|]. split; [exact Hb|]. split; [exact Hid|].
  destruct (is_accepted r) eqn:Ha; [by destruct Hverdict as (_ & _ & ->)|].
  destruct Hverdict as (_ & _ & Hno). vm_compute in Hno. discriminate Hno.
Defined.

Lemma acknowledged_without_disk_witness :
  exists h', on_message (order_message demo_order) 5000 (handler 64 [false]) = Ok (accept_response 5242880000) h' /\
    kafka_producer h' = Some [record_of_order demo_order] /\ disk h' = zeros 64.
Proof.
  destruct (validate_order demo_order 5000 demo) as [[] c|e c|] eqn:Hv;
    [|vm_compute in Hv; discriminate Hv|vm_compute in Hv; discriminate Hv].
  apply (acknowledged_without_disk demo_order 5000 (handler 64 [false]) c [] demo_range demo_order_fits demo_fits Hv);
    reflexivity.
Defined.

Lemma full_log_strands_funds_witness :
  exists h', on_message (order_message demo_order) 5000 (handler 16 []) =
      Ok (reject_response 5242880000 INTERNAL_ERROR) h' /\
    avail (bal_of (accounts (ubs_core h')) 1 2) = 7800 /\
    forall clock', is_ok (validate_order demo_order clock' (ubs_core h')) = false.
Proof.
  destruct (validate_order demo_order 5000 demo) as [[] c|e c|] eqn:Hv;
    [|vm_compute in Hv; discriminate Hv|vm_compute in Hv; discriminate Hv].
  destruct (full_log_strands_funds demo_order 5000 (handler 16 []) c demo_range demo_order_fits demo_fits Hv)
    as (h' & Hr & Hc & _ & Hagain); [reflexivity|].
  exists h'. split; [exact Hr|]. split; [|exact Hagain]. rewrite Hc. vm_compute in Hv. injection Hv as <-.
  vm_compute. reflexivity.
Defined.

Lemma deposit_applied_twice_witness :
  exists h1 h2,
    on_message (deposit_message demo_deposit) 1 (handler 64 []) = Ok (accept_response 1) h1 /\
    on_message (deposit_message demo_deposit) 2 h1 = Ok (accept_response 1) h2 /\
    net_position (ubs_core h2) 1 2 = net_position demo 1 2 + 200 /\ mmap_wal h2 = mkMmap (zeros 64) 0 0.
Proof.
  apply (deposit_applied_twice demo_deposit 1 2 (handler 64 []) demo_deposit_range).
  - exact demo_debts.
  - by vm_compute.
Defined.
End Concrete.
