(* ===== verification/UbsTypes.v ===== *)
(** * Typing of the balance authority

    Whatever is asked of the authority, by its callers with arguments of their
    types or from the network with any bytes at all, every amount it keeps
    stays a 64-bit integer and the log's cursor stays inside the log. *)

From S2P Require Import Prelude Balance UserAccount Ledger UbsParts Bytes WalRecord UbsWal UbsCore UbsComm.
From S2P Require Import UbsCoreProofs UbsCommProofs.

#[local] Open Scope string_scope.
#[local] Open Scope list_scope.
#[local] Open Scope Z_scope.
#[local] Open Scope rust_scope.

(** Ranges of arguments are found among the hypotheses. *)
Existing Class is_u64.

(** ** Balances and accounts *)

#[export] Instance preserves_run_op op : args_u64 op -> Preserves wf_balance (run_op op).
Proof. intros Ha b b' Hb Hs. by eapply run_op_wf. Qed.

#[export] Instance preserves_borrow {E A} a (m : M Balance E A) :
  Preserves wf_balance m -> Preserves wf_account (borrow a m).
Proof.
  intros Hm acc acc' Hacc. rewrite borrow_eq. pose proof (Hm (bal acc a)) as Hp.
  destruct (m (bal acc a)) as [x b|e b|]; simpl in *; [| |done]; intros [= <-];
    (apply wf_upd; [done|apply Hp; [apply Hacc|done]]).
Qed.

(** The methods by name, for amounts in range. *)
Lemma preserves_deposit x : is_u64 x -> Preserves wf_balance (deposit x).
Proof. apply (preserves_run_op (OpDeposit x)). Qed.
Lemma preserves_withdraw x : is_u64 x -> Preserves wf_balance (withdraw x).
Proof. apply (preserves_run_op (OpWithdraw x)). Qed.
Lemma preserves_lock x : is_u64 x -> Preserves wf_balance (lock x).
Proof. apply (preserves_run_op (OpLock x)). Qed.
Lemma preserves_unlock x : is_u64 x -> Preserves wf_balance (unlock x).
Proof. apply (preserves_run_op (OpUnlock x)). Qed.
Lemma preserves_spend x : is_u64 x -> Preserves wf_balance (spend_frozen x).
Proof. apply (preserves_run_op (OpSpendFrozen x)). Qed.

#[export] Hint Resolve preserves_deposit preserves_withdraw preserves_lock preserves_unlock preserves_spend
  : typeclass_instances.

(** ** The core *)

Record core_typed (c : UBSCore) : Prop := {
  typed_accounts : map_Forall (fun _ acc => wf_account acc) (accounts c);
  typed_debts : map_Forall (fun _ r => is_u64 (debt_amount r)) (debt_ledger c)
}.

Lemma typed_frame c c' :
  accounts c' = accounts c -> debt_ledger c' = debt_ledger c -> core_typed c -> core_typed c'.
Proof. intros Ha Hd [H1 H2]. split; [by rewrite Ha|by rewrite Hd]. Qed.

Lemma typed_insert c user acc :
  wf_account acc -> core_typed c -> core_typed (set_accounts (<[user := acc]> (accounts c)) c).
Proof. intros Hacc [Ha Hd]. split; [by apply map_Forall_insert_2|done]. Qed.

#[export] Instance preserves_emit_event {E} event : Preserves (E := E) core_typed (emit_event event).
Proof.
  apply preserves_modify. intros c. apply typed_frame; destruct (event_tx c) as [ch|]; try done;
    by destruct (listener_alive ch).
Qed.

#[export] Instance preserves_with_account {A} user (m : M UserAccount RejectReason A) :
  Preserves wf_account m -> Preserves core_typed (with_account user m).
Proof.
  intros Hm c c' Hc. rewrite with_account_eq. destruct (accounts c !! user) as [acc|] eqn:Hu; [|by intros [= <-]].
  pose proof (Hm acc) as Hp. pose proof (typed_accounts c Hc user acc Hu) as Hacc.
  destruct (m acc); simpl in *; [| |done]; intros [= <-]; apply typed_insert; eauto.
Qed.

#[export] Instance preserves_on_accounts {E A} user (m : M UserAccount E A) :
  Preserves wf_account m -> Preserves core_typed (on_accounts (on_existing user m)).
Proof.
  intros Hm. unfold on_accounts.
  apply (preserves_zoom _ (map_Forall (fun _ acc => wf_account acc))).
  - intros c t [Ha _] [= <-]. exact Ha.
  - intros c t t' [_ Hd] _ Ht. by split.
  - apply (preserves_zoom _ wf_account).
    + intros accts acc Ha Hu. by apply (Ha user).
    + intros accts acc acc' Ha _ Hacc. by apply map_Forall_insert_2.
    + done.
Qed.

#[export] Instance preserves_ensure_account {E} user : Preserves (E := E) core_typed (ensure_account user).
Proof.
  apply preserves_bind_get. intros c Hc. destruct (accounts c !! user); [apply _|].
  apply preserves_bind; [|apply _]. apply preserves_put, typed_insert; [apply wf_new_account|done].
Qed.

#[export] Instance preserves_on_guard {E A} (m : M DeduplicationGuard E A) : Preserves core_typed (on_guard m).
Proof.
  apply (preserves_zoom _ (fun _ => True)); [done| |by intros ? ? _ _].
  intros c g g' Hc _ _. by apply (typed_frame c).
Qed.

Lemma calculate_cost_u64 o : is_u64 (io_price o) -> is_u64 (io_qty o) -> is_u64 (calculate_cost o).
Proof.
  intros Hp Hq. unfold calculate_cost. destruct (io_side o); [|done].
  unfold checked_mul. destruct (Z.leb_spec (io_price o * io_qty o) u64_max); simpl; [|ulia].
  unfold is_u64 in *. split; [nia|done].
Qed.

#[export] Instance preserves_lock_funds user asset amount oid :
  is_u64 amount -> Preserves core_typed (lock_funds user asset amount oid).
Proof. intros Hx. unfold lock_funds. apply _. Qed.

#[export] Instance preserves_unlock_funds user asset amount oid :
  is_u64 amount -> Preserves core_typed (unlock_funds user asset amount oid).
Proof. intros Hx. unfold unlock_funds. apply _. Qed.

#[export] Instance preserves_settle_trade mid buyer seller base quote bq qa refund boid soid bfee sfee :
  is_u64 bq -> is_u64 qa -> is_u64 refund ->
  Preserves core_typed (settle_trade mid buyer seller base quote bq qa refund boid soid bfee sfee).
Proof.
  intros Hb Hq Hr. unfold settle_trade. apply preserves_bind; [|apply _].
  apply preserves_with_account. destruct (0 <? refund); apply _.
Qed.

Section profile.
Context {bp : BuildProfile}.

#[export] Instance as_u64_range x : is_u64 (as_u64 x).
Proof. unfold as_u64, is_u64. pose proof (Z.mod_pos_bound x u64_mod). ulia. Qed.

#[export] Instance preserves_on_debts {E A} (m : M DebtLedger E A) :
  Preserves (map_Forall (fun _ r => is_u64 (debt_amount r))) m -> Preserves core_typed (on_debts m).
Proof.
  intros Hm. apply (preserves_zoom _ (map_Forall (fun _ r => is_u64 (debt_amount r)))); [| |done].
  - intros c d [_ Hd] [= <-]. exact Hd.
  - intros c d d' [Ha _] _ Hd. by split.
Qed.

#[export] Instance preserves_add_debt {E} user asset r :
  is_u64 (debt_amount r) ->
  Preserves (map_Forall (fun _ r => is_u64 (debt_amount r))) (add_debt (E := E) user asset r).
Proof.
  intros Hr. apply preserves_bind_get. intros d Hd. destruct (d !! (user, asset)) as [old|].
  - apply preserves_bind_unwrap. intros t Ht. apply preserves_put, map_Forall_insert_2; [|done].
    by apply u64_op_u64 in Ht.
  - by apply preserves_put, map_Forall_insert_2.
Qed.

#[export] Instance preserves_pay_debt {E} user asset amount :
  is_u64 amount -> Preserves (map_Forall (fun _ r => is_u64 (debt_amount r))) (pay_debt (E := E) user asset amount).
Proof.
  intros Hx. apply preserves_bind_get. intros d Hd.
  destruct (d !! (user, asset)) as [old|] eqn:Hold; [|apply _]. pose proof (Hd _ _ Hold) as Ho. cbn beta in Ho.
  apply preserves_bind; [|apply _]. apply preserves_put. case_match.
  - by apply map_Forall_delete.
  - apply map_Forall_insert_2; [|done]. simpl. ulia.
Qed.

(** What is left of a deposit is part of it. *)
Lemma pay_debt_yields {E} user asset amount :
  is_u64 amount ->
  yields (map_Forall (fun _ r => is_u64 (debt_amount r))) is_u64 (pay_debt (E := E) user asset amount).
Proof.
  intros Hx d x d' Hd. unfold pay_debt, bind, get, put, ret.
  destruct (d !! (user, asset)) as [old|] eqn:Hold; [|by intros [= <- _]].
  pose proof (Hd _ _ Hold) as Ho. cbn beta in Ho. intros [= <- _]. ulia.
Qed.

#[export] Instance preserves_on_deposit {E} user asset amount tx :
  is_u64 amount -> Preserves core_typed (on_deposit (E := E) user asset amount tx).
Proof.
  intros Hx. apply (preserves_bind_yields _ is_u64); [apply _| |].
  - eapply yields_zoom; [|by apply pay_debt_yields]. intros c d [_ Hd] [= <-]. exact Hd.
  - intros x Hrange. destruct (0 <? x); apply _.
Qed.

#[export] Instance preserves_on_withdraw {E} user asset amount tx :
  is_u64 amount -> Preserves core_typed (on_withdraw (E := E) user asset amount tx).
Proof.
  intros Hx. apply preserves_bind_get. intros c Hc. destruct (accounts c !! user); [|apply _].
  apply preserves_bind; [|intros [|]; apply _]. apply preserves_on_accounts, preserves_borrow.
  intros b b' Hb. pose proof (preserves_withdraw amount Hx b) as Hw.
  destruct (withdraw amount b); simpl in *; [| |done]; intros [= <-]; by apply Hw.
Qed.

#[export] Instance preserves_delta {E} delta : Preserves wf_balance (apply_delta_to_balance (E := E) delta).
Proof.
  apply preserves_bind; [apply _|]. intros b. apply preserves_bind; [apply _|]. intros e.
  destruct (0 <=? e); [|apply _]. apply preserves_bind; [|apply _]. destruct (0 <=? delta); apply _.
Qed.

Definition shortfall_typed (r : Z + Z) : Prop := match r with inl _ => True | inr s => is_u64 s end.

Lemma delta_yields {E} delta :
  yields wf_balance shortfall_typed (apply_delta_to_balance (E := E) delta).
Proof.
  intros b r b' _. unfold apply_delta_to_balance.
  intros (b1 & s1 & _ & (e & s2 & _ & Hr)%bind_inv_ok)%bind_inv_ok. destruct (0 <=? e).
  - by apply bind_inv_ok in Hr as (? & ? & _ & (b2 & s4 & _ & [= <- _])%bind_inv_ok).
  - apply bind_inv_ok in Hr as (? & ? & _ & (sf & s4 & _ & [= <- _])%bind_inv_ok). apply as_u64_range.
Qed.

#[export] Instance preserves_balance_delta {E} user asset delta ev clock :
  Preserves core_typed (apply_balance_delta (E := E) user asset delta ev clock).
Proof.
  unfold apply_balance_delta. apply preserves_bind; [apply _|]. intros _.
  apply (preserves_bind_yields _ shortfall_typed); [apply _| |].
  - apply (yields_zoom _ (map_Forall (fun _ acc => wf_account acc))); [by intros c accts [Ha _] [= <-]|].
    apply (yields_zoom _ wf_account); [by intros accts acc Ha; apply Ha|].
    intros acc r acc' Hacc. rewrite borrow_eq.
    destruct (apply_delta_to_balance delta (bal acc asset)) as [x b|e b|] eqn:Hr; [|done|done].
    intros [= <- _]. by eapply delta_yields; [apply (Hacc asset)|].
  - intros [x|s] Hs; [apply _|]. cbn [shortfall_typed] in Hs. apply preserves_bind; [|apply _].
    by apply preserves_on_debts, preserves_add_debt.
Qed.

#[export] Instance preserves_validate_order o clock :
  is_u64 (io_price o) -> is_u64 (io_qty o) -> Preserves core_typed (validate_order o clock).
Proof.
  intros Hp Hq. pose proof (calculate_cost_u64 o Hp Hq) as Hcost.
  apply preserves_bind_get. intros c _. destruct (_ <? _); [apply _|].
  apply preserves_bind; [apply _|]. intros _. apply preserves_bind_get. intros c1 _.
  apply preserves_bind; [apply _|]. intros acc. cbv zeta.
  destruct (calculate_cost o =? u64_max); [apply _|].
  destruct (asset_map c1 !! io_symbol_id o) as [[base quote]|]; apply _.
Qed.

(** ** Histories *)

(** What the processes around the core ask of it. *)
Inductive CoreOp :=
  | RegisterSymbol (symbol_id base quote : Z)
  | GetOrCreateAccount (user : Z)
  | LockFunds (user asset amount order_id : Z)
  | UnlockFunds (user asset amount order_id : Z)
  | SettleTrade (match_id buyer_id seller_id base_asset quote_asset base_qty quote_amt buyer_refund
                 buyer_order_id seller_order_id buyer_fee seller_fee : Z)
  | OnDeposit (user asset amount tx_id : Z)
  | OnWithdraw (user asset amount tx_id : Z)
  | ApplyBalanceDelta (user asset delta : Z) (event_type : EventType) (clock : Z)
  | ValidateOrder (order : InternalOrder) (clock : Z).

Definition run_core_op (op : CoreOp) : M UBSCore RejectReason unit :=
  match op with
  | RegisterSymbol s b q => modify (register_symbol s b q)
  | GetOrCreateAccount u => modify (get_or_create_account u)
  | LockFunds u a x o => let* _ := lock_funds u a x o in ret tt
  | UnlockFunds u a x o => let* _ := unlock_funds u a x o in ret tt
  | SettleTrade m b s ba qa bq qq r bo so bf sf => settle_trade m b s ba qa bq qq r bo so bf sf
  | OnDeposit u a x t => on_deposit u a x t
  | OnWithdraw u a x t => let* _ := on_withdraw u a x t in ret tt
  | ApplyBalanceDelta u a d e t => let* _ := apply_balance_delta u a d e t in ret tt
  | ValidateOrder o t => validate_order o t
  end.

(** Unsigned arguments fit their type; nothing is asked of a signed delta. *)
Definition op_typed (op : CoreOp) : Prop :=
  match op with
  | LockFunds _ _ x _ | UnlockFunds _ _ x _ | OnDeposit _ _ x _ | OnWithdraw _ _ x _ => is_u64 x
  | SettleTrade _ _ _ _ _ bq qq r _ _ _ _ => is_u64 bq /\ is_u64 qq /\ is_u64 r
  | ValidateOrder o _ => is_u64 (io_price o) /\ is_u64 (io_qty o)
  | _ => True
  end.

(** Requests one after the other, refusals included, until a panic. *)
Fixpoint run_core (ops : list CoreOp) (c : UBSCore) : UBSCore :=
  match ops with
  | [] => c
  | op :: ops' =>
      match state_of (run_core_op op c) with
      | Some c' => run_core ops' c'
      | None => c
      end
  end.

Lemma run_core_op_typed op : op_typed op -> Preserves core_typed (run_core_op op).
Proof.
  destruct op; simpl; intros Ht;
    repeat match goal with Ht : _ /\ _ |- _ => destruct Ht end; try apply _.
  - apply preserves_modify. intros c. by apply typed_frame.
  - apply preserves_modify. intros c Hc. apply typed_insert; [|done]. unfold entry_or_new.
    destruct (accounts c !! user) as [acc|] eqn:Hu; [by apply (typed_accounts c Hc user)|apply wf_new_account].
Qed.

(** Every amount stays a 64-bit integer.  Whatever is asked of the core and
    in whatever order - locks, settlements, deposits, withdrawals, signed
    deltas of any size, orders - with overflow checks or without, every
    available and frozen amount, every version and every debt it keeps is in
    the range of its type, after refused requests too. *)
Theorem core_history_typed ops c :
  Forall op_typed ops -> core_typed c -> core_typed (run_core ops c).
Proof.
  intros Hops. revert c. induction Hops as [|op ops Hop _ IH]; intros c Hc; simpl; [done|].
  destruct (state_of (run_core_op op c)) as [c'|] eqn:Hr; [|done].
  apply IH. by eapply run_core_op_typed.
Qed.
End profile.

(** ** Requests from the network *)

Section handler.
Context {bp : BuildProfile} `{Crc32} {codec : OrderCodec} `{Padding} `{CancelCodec}.

(** The log's size does not change; its cursor is inside. *)
Record handler_typed (size : Z) (h : Handler) : Prop := {
  typed_core : core_typed (ubs_core h);
  typed_cursor : 0 <= cursor (mmap_wal h) <= size;
  typed_size : zlen (mmap (mmap_wal h)) = size
}.

Variable size : Z.

#[local] Instance preserves_on_core {E A} (m : M UBSCore E A) :
  Preserves core_typed m -> Preserves (handler_typed size) (on_core m).
Proof.
  intros Hm. apply (preserves_zoom _ core_typed); [by intros h c [Hc _ _] [= <-]| |done].
  intros h c c' [_ Hcur Hs] _ Hc. by split.
Qed.

Lemma overwrite_length off data l :
  (off + length data <= length l)%nat -> length (overwrite off data l) = length l.
Proof.
  intros Hl. unfold overwrite.
  rewrite !length_app, length_take, length_drop, length_app. unfold zeros. rewrite length_replicate. lia.
Qed.

#[local] Instance preserves_append entry :
  Preserves (handler_typed size) (on_mmap (mmap_append entry)).
Proof.
  apply (preserves_zoom _ (fun w => 0 <= cursor w <= size /\ zlen (mmap w) = size)).
  - by intros h w [_ Hcur Hs] [= <-].
  - intros h w w' [Hc _ _] _ [Hcur Hs]. by split.
  - apply preserves_bind_unwrap. intros l _. apply preserves_bind_get. intros w [Hcur Hs].
    destruct (Z.ltb_spec (zlen (mmap w)) (cursor w + zlen l)) as [|Hroom]; [apply _|].
    apply preserves_put. cbn [cursor mmap]. pose proof (zlen_nonneg l). split; [lia|].
    rewrite !zlen_eq in *. rewrite overwrite_length; [done|lia].
Qed.

#[local] Instance preserves_flush {E} : Preserves (E := E) (handler_typed size) flush_or_log.
Proof.
  apply preserves_modify. intros h [Hc Hcur Hs]. by destruct (flushes h) as [|b fs]; split.
Qed.

#[local] Instance preserves_produce {E} r : Preserves (E := E) (handler_typed size) (produce r).
Proof. apply preserves_modify. intros h [Hc Hcur Hs]. by split. Qed.

#[local] Instance preserves_respond (m : Handle (list Z)) :
  Preserves (handler_typed size) m -> Preserves (handler_typed size) (respond m).
Proof. intros Hm h h' Hh. unfold respond. pose proof (Hm h) as Hp. destruct (m h); simpl in *; eauto. Qed.

(** Fields of a byte string. *)
Lemma field_at_range off n l : Forall is_byte l -> 0 <= field_at off n l < 256 ^ Z.of_nat n.
Proof.
  intros Hl. unfold field_at.
  assert (Forall is_byte (take n (drop off l))) as Hb by (by apply Forall_take, Forall_drop).
  apply le_value_bound in Hb. rewrite length_take in Hb.
  assert (256 ^ Z.of_nat (n `min` length (drop off l)) <= 256 ^ Z.of_nat n) by (apply Z.pow_le_mono_r; lia).
  lia.
Qed.

#[local] Instance field_at_u64 off l : Forall is_byte l -> is_u64 (field_at off 8 l).
Proof. intros Hl. pose proof (field_at_range off 8 l Hl) as Hf. unfold is_u64. change (256 ^ Z.of_nat 8) with (u64_max + 1) in Hf. lia. Qed.

Lemma preserves_accept_order body clock :
  Forall is_byte body -> Preserves (handler_typed size) (accept_order body clock).
Proof.
  intros Hb. apply preserves_bind_ok_or. intros m Hm. unfold order_from_bytes in Hm.
  destruct (zlen body <? 40); [done|]. injection Hm as <-. unfold to_internal_order.
  destruct (ubs_side_from_u8 _) as [side|]; [|apply _].
  destruct (ubs_order_type_from_u8 _) as [ty|]; [|apply _].
  apply preserves_bind; [|intros _; case_match; apply _].
  apply preserves_map_err, preserves_on_core, preserves_validate_order; by apply field_at_u64.
Qed.

(** A message of the funds. *)
Lemma funds_amount_u64 body m : Forall is_byte body -> funds_from_bytes body = Some m -> is_u64 (Wire.amount m).
Proof.
  intros Hb. unfold funds_from_bytes. destruct (zlen body <? 32); [done|]. intros [= <-]. by apply field_at_u64.
Qed.

Lemma preserves_handle_other t body :
  Forall is_byte body -> Preserves (handler_typed size) (handle_other t body).
Proof.
  intros Hb. unfold handle_other. destruct t; try apply _.
  - unfold handle_cancel. destruct (zlen body <? 16); [apply _|]. cbv zeta.
    apply preserves_bind; [apply _|]. intros h.
    destruct (kafka_producer h); [|apply _]. destruct (bincode_cancel _ _); apply _.
  - apply preserves_bind_ok_or. intros m Hm%funds_amount_u64; [|done]. apply _.
  - apply preserves_bind_ok_or. intros m Hm%funds_amount_u64; [|done]. apply _.
Qed.

Lemma parse_bytes payload t body :
  Forall is_byte payload -> parse_message payload = Some (t, body) -> Forall is_byte body.
Proof.
  intros Hp. unfold parse_message. destruct payload as [|b l]; [done|].
  apply Forall_cons in Hp as [_ Hl]. destruct (MsgType.try_from b); [|done]. by intros [= _ <-].
Qed.

Lemma preserves_on_message payload clock :
  Forall is_byte payload -> Preserves (handler_typed size) (on_message payload clock).
Proof.
  intros Hp. unfold on_message. destruct (parse_message payload) as [[t body]|] eqn:Hm; [|apply _].
  pose proof (parse_bytes _ _ _ Hp Hm) as Hb. pose proof (preserves_handle_other t body Hb).
  pose proof (preserves_accept_order body clock Hb).
  destruct t; apply _.
Qed.

Lemma preserves_no_flush payload clock :
  Forall is_byte payload -> Preserves (handler_typed size) (process_no_flush payload clock).
Proof.
  intros Hp. unfold process_no_flush. destruct (parse_message payload) as [[t body]|] eqn:Hm; [|apply _].
  pose proof (parse_bytes _ _ _ Hp Hm) as Hb. pose proof (preserves_handle_other t body Hb).
  destruct t; try apply _. intros h h' Hh. unfold handle_order_no_flush.
  pose proof (preserves_accept_order body clock Hb h) as Ha. destruct (accept_order body clock h); simpl in *; eauto.
Qed.

Lemma preserves_phase3 results : Preserves (handler_typed size) (phase3 results).
Proof.
  induction results as [|[i r] rs IH]; simpl; [apply _|]. unfold forward_to_kafka. destruct r; apply _.
Qed.

Lemma preserves_phase1 items :
  Forall (fun r => Forall is_byte (req_payload r)) items -> Preserves (handler_typed size) (phase1 items).
Proof.
  induction 1 as [|r items Hr _ IH]; simpl; [apply _|].
  pose proof (preserves_no_flush _ (req_clock r) Hr). apply _.
Qed.

(** The model keeps to the machine's types.  In the source an amount is a [u64]
    by its type, and a panic ends the process; here it is a [Z], and this says
    that it never leaves the range.  No bytes from the network break the types:
    for every batch of byte strings - truncated, of unknown kinds, with any field
    values - and every single message, with overflow checks or without, the
    handler leaves every amount in the range of its type, the log at its size and
    the log's cursor inside it. *)
Theorem network_bytes_typed items h h' rs :
  Forall (fun r => Forall is_byte (req_payload r)) items -> handler_typed size h ->
  (process_batch items h = Ok rs h' \/
   exists r reply, r ∈ items /\ on_message (req_payload r) (req_clock r) h = Ok reply h') ->
  handler_typed size h'.
Proof.
  intros Hitems Hh [Hr|(r & reply & Hin & Hr)].
  - pose proof (preserves_phase1 items Hitems). assert (Preserves (handler_typed size) (process_batch items)) as Hp.
    { unfold process_batch. apply preserves_bind; [done|]. intros results. pose proof (preserves_phase3 results).
      destruct (existsb is_pending results); apply _. }
    apply (Hp h h' Hh). by rewrite Hr.
  - rewrite Forall_forall in Hitems. eapply preserves_on_message; [by apply (Hitems r)|exact Hh|by rewrite Hr].
Qed.
End handler.

(** ** The theorems at concrete states *)

Module Concrete.
Import UbsCommProofs.Concrete.
#[local] Existing Instances UbsCoreProofs.Concrete.sum_crc UbsCoreProofs.Concrete.id_codec
  UbsCoreProofs.Concrete.profile zero_padding pair_codec.

Lemma demo_typed : core_typed UbsCoreProofs.Concrete.demo.
Proof.
  split.
  - unfold UbsCoreProofs.Concrete.demo. cbn [accounts register_symbol set_asset_map set_debts set_accounts].
    apply map_Forall_insert_2; [|apply map_Forall_singleton];
      apply wf_account_entries; apply Forall_cons; (split; [|by apply Forall_nil]);
      repeat split; by vm_compute.
  - apply map_Forall_singleton. split; by vm_compute.
Defined.

Lemma core_history_typed_witness :
  let ops := [OnDeposit 1 2 u64_max 5; ApplyBalanceDelta 1 2 (-9223372036854775808) EvTradeSettle 6;
              SettleTrade 9 1 2 1 2 5 1500 500 21 22 0 0] in
  core_typed (run_core ops UbsCoreProofs.Concrete.demo).
Proof.
  intros ops. apply (core_history_typed ops UbsCoreProofs.Concrete.demo); [|exact demo_typed].
  unfold ops. rewrite !Forall_cons. split_and!; [..|by apply Forall_nil]; simpl;
    unfold is_u64, u64_max; repeat split; lia.
Defined.

Lemma network_bytes_typed_witness :
  let items := [mkReq 1 [1; 255; 255] 0; mkReq 2 (3 :: 255 :: zeros 15) 0; mkReq 3 (4 :: replicate 32 255) 0; mkReq 4 [] 0] in
  exists rs h', process_batch items (handler 64 []) = Ok rs h' /\ handler_typed 64 h'.
Proof.
  intros items.
  destruct (process_batch items (handler 64 [])) as [rs h'|e h'|] eqn:Hr;
    [|vm_compute in Hr; discriminate Hr|vm_compute in Hr; discriminate Hr].
  exists rs, h'. split; [reflexivity|].
  apply (network_bytes_typed 64 items (handler 64 []) h' rs).
  - apply (bool_decide_unpack _). vm_compute. exact I.
  - split; [exact demo_typed|by vm_compute|by vm_compute].
  - left. exact Hr.
Defined.
End Concrete.
