(* ===== verification/Transfer.v ===== *)
(** * Internal transfers ([src/src/transfer/])

    The state machine ([state.rs]), the records ([types.rs]), the coordinator
    ([coordinator.rs]) and the worker ([worker.rs]).  The coordinator's methods
    are asynchronous: every [await] on the database or on a service is a point
    at which other workers run.  They are therefore programs over the
    operations they await; an execution interleaves any number of them. *)

From S2P Require Import Prelude FastUlid.

#[local] Open Scope string_scope.
#[local] Open Scope list_scope.
#[local] Open Scope Z_scope.

(** ** The state machine *)

Module TransferState.
Inductive t :=
  | Init | SourcePending | SourceDone | TargetPending | Compensating
  | Committed | RolledBack | Failed.

#[global] Instance eq_dec : EqDecision t.
Proof. solve_decision. Defined.

Definition is_terminal (s : t) : bool :=
  match s with Committed | RolledBack | Failed => true | _ => false end.

Definition needs_processing (s : t) : bool := negb (is_terminal s).

(** [as_ref()], the strum names in snake case. *)
Definition as_ref (s : t) : string :=
  match s with
  | Init => "init" | SourcePending => "source_pending" | SourceDone => "source_done"
  | TargetPending => "target_pending" | Compensating => "compensating"
  | Committed => "committed" | RolledBack => "rolled_back" | Failed => "failed"
  end.

Definition from_str (x : string) : option t :=
  if (x =? "init")%string then Some Init
  else if (x =? "source_pending")%string then Some SourcePending
  else if (x =? "source_done")%string then Some SourceDone
  else if (x =? "target_pending")%string then Some TargetPending
  else if (x =? "compensating")%string then Some Compensating
  else if (x =? "committed")%string then Some Committed
  else if (x =? "rolled_back")%string then Some RolledBack
  else if (x =? "failed")%string then Some Failed
  else None.
End TransferState.

Module TransferEvent.
Inductive t :=
  | SourceCall | SourceOk | SourceFail | TargetCall | TargetOk | TargetFail
  | RollbackOk | RollbackFail.
End TransferEvent.

Definition transition (current : TransferState.t) (event : TransferEvent.t) : TransferState.t :=
  match current, event with
  | TransferState.Init, TransferEvent.SourceCall => TransferState.SourcePending
  | TransferState.Init, TransferEvent.SourceOk => TransferState.SourceDone
  | TransferState.Init, TransferEvent.SourceFail => TransferState.Failed
  | TransferState.SourcePending, TransferEvent.SourceOk => TransferState.SourceDone
  | TransferState.SourcePending, TransferEvent.SourceFail => TransferState.Failed
  | TransferState.SourceDone, TransferEvent.TargetCall => TransferState.TargetPending
  | TransferState.SourceDone, TransferEvent.TargetOk => TransferState.Committed
  | TransferState.SourceDone, TransferEvent.TargetFail => TransferState.Compensating
  | TransferState.TargetPending, TransferEvent.TargetOk => TransferState.Committed
  | TransferState.TargetPending, TransferEvent.TargetFail => TransferState.Compensating
  | TransferState.Compensating, TransferEvent.RollbackOk => TransferState.RolledBack
  | TransferState.Compensating, TransferEvent.RollbackFail => TransferState.Compensating
  | _, _ => current
  end.

(** ** Records *)

Inductive ServiceId := Funding | Trading.

#[export] Instance ServiceId_eq_dec : EqDecision ServiceId.
Proof. solve_decision. Defined.

Module OpResult.
Inductive t := Success | Failed (e : string) | Pending.
End OpResult.

Record TransferRecord := mkTransfer {
  req_id : Z; source : ServiceId; target : ServiceId; t_user_id : Z; t_asset_id : Z; t_amount : Z;
  t_state : TransferState.t; created_at : Z; updated_at : Z; t_error : option string; retry_count : Z
}.

Record TransferRequest := mkRequest {
  tr_from : ServiceId; tr_to : ServiceId; tr_user_id : Z; tr_asset_id : Z; tr_amount : Z
}.

(** ** Rows of the database

    [create] binds the record's fields as signed integers and strings;
    [parse_row] reads them back and rejects a row it cannot decode. *)

Definition service_as_ref (s : ServiceId) : string :=
  match s with Funding => "funding" | Trading => "trading" end.

Definition service_from_str (x : string) : option ServiceId :=
  if (x =? "funding")%string then Some Funding
  else if (x =? "trading")%string then Some Trading
  else None.

Definition TransferRow : Type :=
  Z * string * string * Z * Z * Z * string * Z * Z * option string * Z.

Definition create_row (record : TransferRecord) : TransferRow :=
  (as_i64 (req_id record), service_as_ref (source record), service_as_ref (target record),
   as_i64 (t_user_id record), as_i32 (t_asset_id record), as_i64 (t_amount record),
   TransferState.as_ref (t_state record), created_at record, updated_at record, t_error record,
   as_i32 (retry_count record)).

(** [None] is the [Err] of corrupt data. *)
Definition parse_row (row : TransferRow) : option TransferRecord :=
  let '(id, src, tgt, user, asset, amount, state, created, updated, err, retries) := row in
  match service_from_str src with
  | None => None
  | Some s =>
      match service_from_str tgt with
      | None => None
      | Some t =>
          match TransferState.from_str state with
          | None => None
          | Some st =>
              Some (mkTransfer (as_u64 id) s t (as_u64 user) (as_u32 asset) (as_u64 amount) st
                      created updated err (as_u32 retries))
          end
      end
  end.

(** ** Programs over awaited operations

    [TransferDb]'s methods, the [ServiceAdapter] methods and the clock.  The
    answer of a database call is an error or a value. *)

Inductive op : Type -> Type :=
  | DbCreate (r : TransferRecord) : op (string + unit)
  | DbGet (id : Z) : op (string + option TransferRecord)
  | DbUpdateStateIf (id : Z) (expected new_state : TransferState.t) : op (string + bool)
  | DbUpdateStateWithError (id : Z) (expected new_state : TransferState.t) (error : string) : op (string + bool)
  | DbIncrementRetry (id : Z) : op (string + unit)
  | Withdraw (s : ServiceId) (id user asset amount : Z) : op OpResult.t
  | Deposit (s : ServiceId) (id user asset amount : Z) : op OpResult.t
  | Commit (s : ServiceId) (id : Z) : op OpResult.t
  | Rollback (s : ServiceId) (id : Z) : op OpResult.t
  | Now : op Z.

(** What [increment_retry] reports.  [INCREMENT_RETRY_CQL] adds one to
    [retry_count], which the schema declares as an [int]: the database takes
    such an update for counter columns only, and refuses this one. *)
Definition retry_refused : string := "Failed to increment retry count".

Inductive prog (A : Type) : Type :=
  | Ret (a : A)
  | Fail (e : string)
  | Do (X : Type) (o : op X) (k : X -> prog A).
Arguments Ret {A} a.
Arguments Fail {A} e.
Arguments Do {A X} o k.

Fixpoint pbind {A B} (p : prog A) (f : A -> prog B) : prog B :=
  match p with
  | Ret a => f a
  | Fail e => Fail e
  | Do o k => Do o (fun x => pbind (k x) f)
  end.

(** [.await?] on a database call. *)
Definition try_db {X} (o : op (string + X)) : prog X :=
  Do o (fun r => match r with inl e => Fail e | inr x => Ret x end).

Declare Scope prog_scope.
Notation "'await' x ':=' c 'in' k" := (pbind c (fun x => k))
  (at level 10, x binder, c at level 100, k at level 200,
   format "'[v' 'await'  x  ':='  c  'in' '/' k ']'") : prog_scope.
#[local] Open Scope prog_scope.

(** ** The coordinator *)

(** The two validations of [create], the record it stores under the
    identifier the Snowflake generator issued. *)
Definition create (req : TransferRequest) (new_id : Z) : prog Z :=
  if tr_amount req =? 0 then Fail "Amount must be greater than 0"
  else if decide (tr_from req = tr_to req) then Fail "Source and target cannot be the same"
  else
    await now := Do Now Ret in
    await _ := try_db (DbCreate (mkTransfer new_id (tr_from req) (tr_to req) (tr_user_id req)
                 (tr_asset_id req) (tr_amount req) TransferState.Init now now None 0)) in
    Ret new_id.

(** The current state after a compare-and-set that another worker won. *)
Definition state_after_cas_failure (id : Z) : prog TransferState.t :=
  await found := try_db (DbGet id) in
  match found with
  | Some r => Ret (t_state r)
  | None => Fail "Transfer not found after CAS failure"
  end.

(** A failure is logged; the transfer goes on. *)
Definition finalize_source_commit (r : TransferRecord) : prog unit :=
  Do (Commit (source r) (req_id r)) (fun _ => Ret tt).

Definition call_withdraw (r : TransferRecord) : prog OpResult.t :=
  Do (Withdraw (source r) (req_id r) (t_user_id r) (t_asset_id r) (t_amount r)) Ret.

Definition call_deposit (r : TransferRecord) : prog OpResult.t :=
  Do (Deposit (target r) (req_id r) (t_user_id r) (t_asset_id r) (t_amount r)) Ret.

Definition step_source_pending (r : TransferRecord) : prog TransferState.t :=
  await result := call_withdraw r in
  match result with
  | OpResult.Success =>
      await _ := try_db (DbUpdateStateIf (req_id r) TransferState.SourcePending TransferState.SourceDone) in
      Ret TransferState.SourceDone
  | OpResult.Failed e =>
      await _ := try_db (DbUpdateStateWithError (req_id r) TransferState.SourcePending TransferState.Failed e) in
      Ret TransferState.Failed
  | OpResult.Pending => Ret TransferState.SourcePending
  end.

(** After the compare-and-set the body is that of [step_source_pending]. *)
Definition step_init (r : TransferRecord) : prog TransferState.t :=
  await applied := try_db (DbUpdateStateIf (req_id r) TransferState.Init TransferState.SourcePending) in
  if negb applied then state_after_cas_failure (req_id r)
  else step_source_pending r.

Definition deposit_succeeded (r : TransferRecord) : prog TransferState.t :=
  await _ := finalize_source_commit r in
  await _ := try_db (DbUpdateStateIf (req_id r) TransferState.TargetPending TransferState.Committed) in
  Ret TransferState.Committed.

Definition deposit_failed (r : TransferRecord) (e : string) : prog TransferState.t :=
  await _ := try_db (DbUpdateStateWithError (req_id r) TransferState.TargetPending TransferState.Compensating e) in
  Ret TransferState.Compensating.

Definition step_source_done (r : TransferRecord) : prog TransferState.t :=
  await applied := try_db (DbUpdateStateIf (req_id r) TransferState.SourceDone TransferState.TargetPending) in
  if negb applied then state_after_cas_failure (req_id r)
  else
    await result := call_deposit r in
    match result with
    | OpResult.Success => deposit_succeeded r
    | OpResult.Failed e => deposit_failed r e
    | OpResult.Pending => Ret TransferState.TargetPending
    end.

Definition step_target_pending (r : TransferRecord) : prog TransferState.t :=
  await result := call_deposit r in
  match result with
  | OpResult.Success => deposit_succeeded r
  | OpResult.Failed e =>
      if decide (source r = Trading) then Ret TransferState.TargetPending
      else deposit_failed r e
  | OpResult.Pending => Ret TransferState.TargetPending
  end.

Definition step_compensating (r : TransferRecord) : prog TransferState.t :=
  await result := Do (Rollback (source r) (req_id r)) Ret in
  match result with
  | OpResult.Success =>
      await _ := try_db (DbUpdateStateIf (req_id r) TransferState.Compensating TransferState.RolledBack) in
      Ret TransferState.RolledBack
  | OpResult.Failed _ | OpResult.Pending => Ret TransferState.Compensating
  end.

Definition step_state (r : TransferRecord) : prog TransferState.t :=
  match t_state r with
  | TransferState.Init => step_init r
  | TransferState.SourcePending => step_source_pending r
  | TransferState.SourceDone => step_source_done r
  | TransferState.TargetPending => step_target_pending r
  | TransferState.Compensating => step_compensating r
  | _ => Ret (t_state r)
  end.

Definition step (id : Z) : prog TransferState.t :=
  await found := try_db (DbGet id) in
  match found with
  | None => Fail "Transfer not found"
  | Some r =>
      if TransferState.is_terminal (t_state r) then Ret (t_state r)
      else
        await new_state := step_state r in
        await _ := (if negb (TransferState.is_terminal new_state) && bool_decide (new_state = t_state r)
                    then try_db (DbIncrementRetry id) else Ret tt) in
        Ret new_state
  end.

Definition get_state (id : Z) : prog (option TransferState.t) :=
  await found := try_db (DbGet id) in
  Ret (t_state <$> found).

(** ** The worker *)

Record WorkerConfig := mkWorkerConfig {
  scan_interval_ms : Z; process_timeout_ms : Z; stale_after_ms : Z; alert_threshold : Z;
  queue_capacity : Z
}.

Definition default_worker_config : WorkerConfig := mkWorkerConfig 5000 2000 30000 10 10000.

(** [ArrayQueue]: a bounded queue. *)
Record TransferQueue := mkTransferQueue { ring : list Z; ring_capacity : Z }.

Definition try_push (id : Z) (q : TransferQueue) : bool * TransferQueue :=
  if Z.of_nat (length (ring q)) <? ring_capacity q
  then (true, mkTransferQueue (ring q ++ [id]) (ring_capacity q))
  else (false, q).

Definition try_pop (q : TransferQueue) : option Z * TransferQueue :=
  match ring q with
  | [] => (None, q)
  | id :: rest => (Some id, mkTransferQueue rest (ring_capacity q))
  end.

(** What the caller of [process_now] is told when [step] fails. *)
Definition state_after_error (id : Z) : prog TransferState.t :=
  Do (DbGet id) (fun found =>
    match found with
    | inr (Some r) => Ret (t_state r)
    | inr None => Ret TransferState.Failed
    | inl _ => Ret TransferState.Failed
    end).

(** [match p.await { Ok(x) => f(x), Err(_) => g }] *)
Fixpoint pcatch {A B} (p : prog A) (f : A -> prog B) (g : prog B) : prog B :=
  match p with
  | Ret a => f a
  | Fail _ => g
  | Do o k => Do o (fun x => pcatch (k x) f g)
  end.

(** The loop of [process_now]; [None] when the fuel is used up. *)
Fixpoint process_now_loop (fuel : nat) (id deadline : Z) : prog (option TransferState.t) :=
  match fuel with
  | O => Ret None
  | S fuel' =>
      pcatch (step id)
        (fun state =>
           if TransferState.is_terminal state then Ret (Some state)
           else
             await now := Do Now Ret in
             if deadline <=? now then Ret (Some state) else process_now_loop fuel' id deadline)
        (await state := state_after_error id in Ret (Some state))
  end.

Definition process_now (fuel : nat) (cfg : WorkerConfig) (id : Z) : prog (option TransferState.t) :=
  await now := Do Now Ret in
  process_now_loop fuel id (now + process_timeout_ms cfg).

(** [process_transfer]: the same loop without a deadline; an error ends it. *)
Fixpoint process_transfer (fuel : nat) (id : Z) : prog (option unit) :=
  match fuel with
  | O => Ret None
  | S fuel' =>
      pcatch (step id)
        (fun state => if TransferState.is_terminal state then Ret (Some tt) else process_transfer fuel' id)
        (Ret (Some tt))
  end.

Definition saturating_pow2 (n : Z) : Z := Z.min (2 ^ n) u64_max.

(** The pause after a stale transfer: [min(10 * 2^retries, 5000)]. *)
Definition backoff_ms {bp : BuildProfile} (retries : Z) : option Z :=
  (fun x => Z.min x 5000) <$> op_mul 10 (saturating_pow2 retries).
