(* ===== verification/TransferProofs.v ===== *)
(** * Internal transfers are safe

    What a database with lightweight transactions and two idempotent services
    may do, executions that interleave any number of workers, and what holds
    of them: the state machine is followed, no transfer is both credited and
    rolled back, and a terminal state tells the truth about both services. *)

From S2P Require Import Prelude Transfer.

#[local] Open Scope string_scope.
#[local] Open Scope list_scope.
#[local] Open Scope Z_scope.
#[local] Open Scope prog_scope.

(** ** The world of one transfer *)

(** What a service is asked to move. *)
Record Move := mkMove { m_service : ServiceId; m_user : Z; m_asset : Z; m_amount : Z }.

#[export] Instance Move_eq_dec : EqDecision Move.
Proof. solve_decision. Defined.

(** What the source service has done for the request. *)
Inductive debit := Untouched | Held (m : Move) | Finalized (m : Move) | Restored (m : Move) | Refused.

(** What the target service has done for the request. *)
Inductive credit := NotCredited | Credited (m : Move) | CreditRefused.

(** The row of the transfer, and the two services' records of it. *)
Record World := mkWorld { row : option TransferRecord; debited : debit; credited : credit }.

Definition set_row (x : option TransferRecord) (w : World) : World := mkWorld x (debited w) (credited w).
Definition set_debited (x : debit) (w : World) : World := mkWorld (row w) x (credited w).
Definition set_credited (x : credit) (w : World) : World := mkWorld (row w) (debited w) x.

Definition with_state (s : TransferState.t) (err : option string) (now : Z) (r : TransferRecord)
  : TransferRecord :=
  mkTransfer (req_id r) (source r) (target r) (t_user_id r) (t_asset_id r) (t_amount r) s
    (created_at r) now err (retry_count r).

Definition with_retry (now : Z) (r : TransferRecord) : TransferRecord :=
  mkTransfer (req_id r) (source r) (target r) (t_user_id r) (t_asset_id r) (t_amount r) (t_state r)
    (created_at r) now (t_error r) (retry_count r + 1).

(** *** The database

    Reads are current, conditional updates are atomic, a call that reports an
    error may have been carried out, and an answer that cannot be decoded is
    taken for [applied] ([db.rs], [update_state_if]). *)

Inductive db_get (w : World) : string + option TransferRecord -> World -> Prop :=
  | get_row : db_get w (inr (row w)) w
  | get_error e : db_get w (inl e) w.

Section update.
Context (expected new_state : TransferState.t) (err : option string -> option string) (w : World).

(** [UPDATE ... IF state = expected] was applied, or could not be. *)
Inductive cas_done : World -> Prop :=
  | cas_applied r now :
      row w = Some r -> t_state r = expected ->
      cas_done (set_row (Some (with_state new_state (err (t_error r)) now r)) w).

Definition cas_refused : Prop := forall r, row w = Some r -> t_state r <> expected.

Inductive db_update : string + bool -> World -> Prop :=
  | update_applied w' : cas_done w' -> db_update (inr true) w'
  | update_refused : cas_refused -> db_update (inr false) w
  | update_misread : cas_refused -> db_update (inr true) w
  | update_error e : db_update (inl e) w
  | update_lost e w' : cas_done w' -> db_update (inl e) w'.
End update.

(** The statement of the repository is always refused ([retry_error]); the other
    outcomes are those of a statement that adds to the column. *)
Inductive db_retry (w : World) : string + unit -> World -> Prop :=
  | retry_done r now : row w = Some r -> db_retry w (inr tt) (set_row (Some (with_retry now r)) w)
  | retry_lost r now e : row w = Some r -> db_retry w (inl e) (set_row (Some (with_retry now r)) w)
  | retry_error e : db_retry w (inl e) w.

(** *** The services

    The contract of [traits.rs]: calls are idempotent per request (a repeated
    call answers as the first one did and does nothing), a failure is
    definite, and [Pending] says nothing about what was done. *)

Inductive svc_withdraw (m : Move) (w : World) : OpResult.t -> World -> Prop :=
  | withdraw_ok : debited w = Untouched -> svc_withdraw m w OpResult.Success (set_debited (Held m) w)
  | withdraw_no e : debited w = Untouched -> svc_withdraw m w (OpResult.Failed e) (set_debited Refused w)
  | withdraw_lost d :
      debited w = Untouched -> d = Held m \/ d = Refused -> svc_withdraw m w OpResult.Pending (set_debited d w)
  | withdraw_again : debited w <> Untouched -> debited w <> Refused -> svc_withdraw m w OpResult.Success w
  | withdraw_refused e : debited w = Refused -> svc_withdraw m w (OpResult.Failed e) w
  | withdraw_pending : svc_withdraw m w OpResult.Pending w.

Inductive svc_deposit (m : Move) (w : World) : OpResult.t -> World -> Prop :=
  | deposit_ok : credited w = NotCredited -> svc_deposit m w OpResult.Success (set_credited (Credited m) w)
  | deposit_no e :
      credited w = NotCredited -> svc_deposit m w (OpResult.Failed e) (set_credited CreditRefused w)
  | deposit_lost c :
      credited w = NotCredited -> c = Credited m \/ c = CreditRefused ->
      svc_deposit m w OpResult.Pending (set_credited c w)
  | deposit_again m' : credited w = Credited m' -> svc_deposit m w OpResult.Success w
  | deposit_refused e : credited w = CreditRefused -> svc_deposit m w (OpResult.Failed e) w
  | deposit_pending : svc_deposit m w OpResult.Pending w.

Inductive svc_commit (w : World) : OpResult.t -> World -> Prop :=
  | commit_ok m : debited w = Held m -> svc_commit w OpResult.Success (set_debited (Finalized m) w)
  | commit_lost m : debited w = Held m -> svc_commit w OpResult.Pending (set_debited (Finalized m) w)
  | commit_again m : debited w = Finalized m -> svc_commit w OpResult.Success w
  | commit_other x : x <> OpResult.Success -> svc_commit w x w.

Inductive svc_rollback (w : World) : OpResult.t -> World -> Prop :=
  | rollback_ok m : debited w = Held m -> svc_rollback w OpResult.Success (set_debited (Restored m) w)
  | rollback_lost m : debited w = Held m -> svc_rollback w OpResult.Pending (set_debited (Restored m) w)
  | rollback_again m : debited w = Restored m -> svc_rollback w OpResult.Success w
  | rollback_other x : x <> OpResult.Success -> svc_rollback w x w.

(** What an awaited operation on the transfer [id] may do, when both services
    keep the contract.  Of the adapters of the repository the funding one does
    ([AdapterProofs]); the trading one repeats a deposit whose answer was lost
    ([UbsClientProofs]), so that a transfer into the trading account is
    described only while no answer of the balance authority is lost. *)
Definition exec (id : Z) {X : Type} (o : op X) (w : World) : X -> World -> Prop :=
  match o in op X return X -> World -> Prop with
  | DbCreate _ => fun _ _ => False
  | DbGet i => fun x w' => i = id /\ db_get w x w'
  | DbUpdateStateIf i old new => fun x w' => i = id /\ db_update old new (fun err => err) w x w'
  | DbUpdateStateWithError i old new e => fun x w' => i = id /\ db_update old new (fun _ => Some e) w x w'
  | DbIncrementRetry i => fun x w' => i = id /\ db_retry w x w'
  | Withdraw s i u a m => fun x w' => i = id /\ svc_withdraw (mkMove s u a m) w x w'
  | Deposit s i u a m => fun x w' => i = id /\ svc_deposit (mkMove s u a m) w x w'
  | Commit _ i => fun x w' => i = id /\ svc_commit w x w'
  | Rollback _ i => fun x w' => i = id /\ svc_rollback w x w'
  | Now => fun _ w' => w' = w
  end.

(** ** Executions *)

(** One worker performs its next operation; new workers appear at any time,
    each about to run one [step]; a worker may die anywhere (it is never
    scheduled again). *)
Inductive sched (id : Z) : World * list (prog TransferState.t) -> World * list (prog TransferState.t) -> Prop :=
  | sched_spawn w ps : sched id (w, ps) (w, ps ++ [step id])
  | sched_step w w' ps i (X : Type) (o : op X) k x :
      ps !! i = Some (Do o k) -> exec id o w x w' -> sched id (w, ps) (w', <[i := k x]> ps).

(** A transfer just created, and no worker. *)
Definition initial (w : World) : Prop :=
  debited w = Untouched /\ credited w = NotCredited /\
  exists r, row w = Some r /\ t_state r = TransferState.Init.

Definition reachable (id : Z) (c : World * list (prog TransferState.t)) : Prop :=
  exists w0, initial w0 /\ (forall r, row w0 = Some r -> req_id r = id) /\ rtc (sched id) (w0, []) c.

(** ** The invariant *)

Definition debit_of (r : TransferRecord) : Move := mkMove (source r) (t_user_id r) (t_asset_id r) (t_amount r).
Definition credit_of (r : TransferRecord) : Move := mkMove (target r) (t_user_id r) (t_asset_id r) (t_amount r).

(** What the state in the row says about the services. *)
Definition consistent (r : TransferRecord) (d : debit) (c : credit) : Prop :=
  let held := Held (debit_of r) in
  let finalized := Finalized (debit_of r) in
  let restored := Restored (debit_of r) in
  let paid := Credited (credit_of r) in
  match t_state r with
  | TransferState.Init => d = Untouched /\ c = NotCredited
  | TransferState.SourcePending => (d = Untouched \/ d = held \/ d = Refused) /\ c = NotCredited
  | TransferState.SourceDone => d = held /\ c = NotCredited
  | TransferState.TargetPending =>
      (d = held /\ (c = NotCredited \/ c = paid \/ c = CreditRefused)) \/ (d = finalized /\ c = paid)
  | TransferState.Compensating => (d = held \/ d = restored) /\ c = CreditRefused
  | TransferState.Committed => (d = held \/ d = finalized) /\ c = paid
  | TransferState.RolledBack => d = restored /\ c = CreditRefused
  | TransferState.Failed => d = Refused /\ c = NotCredited
  end.

Definition inv (id : Z) (w : World) : Prop :=
  exists r, row w = Some r /\ req_id r = id /\ consistent r (debited w) (credited w).

(** One edge of the state machine, or none. *)
Definition edge (s s' : TransferState.t) : Prop := s' = s \/ exists ev, transition s ev = s'.

Definition leads : relation TransferState.t := rtc edge.

(** What no update changes. *)
Definition terms (r : TransferRecord) : Z * Move * Move := (req_id r, debit_of r, credit_of r).

Definition taken (d : debit) : Prop := match d with Untouched | Refused => False | _ => True end.

Definition restored (d : debit) : Prop := match d with Restored _ => True | _ => False end.

(** What may happen between two looks of a worker at the world. *)
Record rely (w w' : World) : Prop := {
  rely_row : forall r, row w = Some r ->
    exists r', row w' = Some r' /\ terms r' = terms r /\ leads (t_state r) (t_state r');
  rely_refused : debited w = Refused -> debited w' = Refused;
  rely_taken : taken (debited w) -> taken (debited w');
  rely_restored : restored (debited w) -> debited w' = debited w;
  rely_credit : credited w <> NotCredited -> credited w' = credited w
}.

#[export] Instance rely_preorder : PreOrder rely.
Proof.
  split.
  - intros w. split; try done. intros r Hr. exists r. split; [done|]. split; [done|apply rtc_refl].
  - intros w1 w2 w3 [R1 F1 T1 V1 C1] [R2 F2 T2 V2 C2]. split; try by eauto.
    + intros r (r2 & Hr2 & E1 & L1)%R1. apply R2 in Hr2 as (r3 & ? & E2 & L2). exists r3.
      split; [done|]. split; [congruence|by etrans].
    + intros Hv. rewrite V2; [by apply V1|by rewrite (V1 Hv)].
    + intros Hc. rewrite C2; [by apply C1|by rewrite (C1 Hc)].
Qed.

(** The state machine, as the states reachable from each state. *)
Definition after (s : TransferState.t) : list TransferState.t :=
  match s with
  | TransferState.Init =>
      [TransferState.Init; TransferState.SourcePending; TransferState.SourceDone;
       TransferState.TargetPending; TransferState.Compensating; TransferState.Committed;
       TransferState.RolledBack; TransferState.Failed]
  | TransferState.SourcePending =>
      [TransferState.SourcePending; TransferState.SourceDone; TransferState.TargetPending;
       TransferState.Compensating; TransferState.Committed; TransferState.RolledBack;
       TransferState.Failed]
  | TransferState.SourceDone =>
      [TransferState.SourceDone; TransferState.TargetPending; TransferState.Compensating;
       TransferState.Committed; TransferState.RolledBack]
  | TransferState.TargetPending =>
      [TransferState.TargetPending; TransferState.Compensating; TransferState.Committed;
       TransferState.RolledBack]
  | TransferState.Compensating => [TransferState.Compensating; TransferState.RolledBack]
  | s => [s]
  end.

Lemma edge_after s0 s s' : s ∈ after s0 -> edge s s' -> s' ∈ after s0.
Proof.
  intros Hin [->|(ev & <-)]; [done|].
  apply (bool_decide_unpack _). apply (bool_decide_pack _) in Hin.
  destruct s0, s, ev; done || exact I.
Qed.

(** ** Verifying a worker against the others *)

Section workers.
Context (id : Z).

Definition edge_row (w w' : World) : Prop :=
  forall r r', row w = Some r -> row w' = Some r' -> edge (t_state r) (t_state r').

(** Every operation keeps the invariant and the rely condition whatever the
    other workers did since the last look, and [Q] holds at the end. *)
Fixpoint wp {A} (p : prog A) (Q : A -> World -> Prop) (w : World) : Prop :=
  match p with
  | Ret a => Q a w
  | Fail _ => True
  | Do o k =>
      forall w1, rely w w1 -> inv id w1 -> forall x w2, exec id o w1 x w2 ->
        (inv id w2 /\ rely w1 w2 /\ edge_row w1 w2) /\ wp (k x) Q w2
  end.

Lemma wp_bind {A B} (p : prog A) (f : A -> prog B) Q w :
  wp p (fun a w' => wp (f a) Q w') w -> wp (pbind p f) Q w.
Proof.
  revert w. induction p as [a|e|X o k IH]; intros w; simpl; [done..|].
  intros H w1 Hr Hi x w2 He. destruct (H w1 Hr Hi x w2 He) as [? ?]. split; [done|by apply IH].
Qed.

Lemma wp_mono {A} (p : prog A) (Q Q' : A -> World -> Prop) w :
  (forall a w, Q a w -> Q' a w) -> wp p Q w -> wp p Q' w.
Proof.
  intros HQ. revert w. induction p as [a|e|X o k IH]; intros w; simpl; [by apply HQ|done|].
  intros H w1 Hr Hi x w2 He. destruct (H w1 Hr Hi x w2 He) as [? ?]. split; [done|by apply IH].
Qed.

Lemma wp_rely {A} (p : prog A) (Q : A -> World -> Prop) w w' :
  (forall a w w', rely w w' -> Q a w -> Q a w') -> rely w w' -> wp p Q w -> wp p Q w'.
Proof.
  intros HQ Hrel. destruct p as [a|e|X o k]; simpl; [by apply HQ|done|].
  intros H w1 Hr. apply H. by etrans.
Qed.

(** The row is that of [r0], and the state [s] has been reached. *)
Definition knows (r0 : TransferRecord) (s : TransferState.t) (w : World) : Prop :=
  exists r, row w = Some r /\ terms r = terms r0 /\ t_state r ∈ after s.

Lemma leads_in s0 s s' : s ∈ after s0 -> leads s s' -> s' ∈ after s0.
Proof. intros Hs Hl. induction Hl as [|s1 s2 s3 He _ IH]; [done|]. by eapply IH, edge_after. Qed.

Lemma knows_rely r0 s w w' : rely w w' -> knows r0 s w -> knows r0 s w'.
Proof.
  intros Hrel (r & Hr & Ht & Hs). destruct (rely_row _ _ Hrel _ Hr) as (r' & Hr' & Ht' & Hl).
  exists r'. split; [done|]. split; [congruence|by eapply leads_in].
Qed.

(** What every operation of every worker owes to the others. *)
Definition ok (w w' : World) : Prop := inv id w' /\ rely w w' /\ edge_row w w'.

Lemma ok_refl w : inv id w -> ok w w.
Proof. intros. split; [done|]. split; [done|]. intros r r' ??. simplify_eq. by left. Qed.

Lemma ok_same_row w w' :
  inv id w -> row w' = row w ->
  (forall r, row w = Some r -> consistent r (debited w) (credited w) -> consistent r (debited w') (credited w')) ->
  (debited w = Refused -> debited w' = Refused) ->
  (taken (debited w) -> taken (debited w')) ->
  (restored (debited w) -> debited w' = debited w) ->
  (credited w <> NotCredited -> credited w' = credited w) -> ok w w'.
Proof.
  intros (r & Hr & Hid & Hc) Hrow Hcons Hf Ht Hv Hcr. split; [|split].
  - exists r. rewrite Hrow. eauto.
  - split; try done. intros r1 H1. exists r1. rewrite Hrow. split; [done|]. split; [done|apply rtc_refl].
  - intros r1 r2 H1 H2. left. congruence.
Qed.

Lemma terms_inv r r0 :
  terms r = terms r0 -> req_id r = req_id r0 /\ debit_of r = debit_of r0 /\ credit_of r = credit_of r0.
Proof. unfold terms. by intros [[??]%pair_eq ?]%pair_eq. Qed.

Lemma ok_cas old new err w w' ev :
  inv id w -> transition old ev = new ->
  (forall r e now, row w = Some r -> t_state r = old -> consistent r (debited w) (credited w) ->
     consistent (with_state new e now r) (debited w) (credited w)) ->
  cas_done old new err w w' -> ok w w' /\ forall r0, knows r0 old w -> knows r0 new w'.
Proof.
  intros (r & Hr & Hid & Hc) Hev Hcons H. destruct H as [r1 now Hr1 Hs]. simplify_eq.
  assert (He : edge (t_state r) (transition (t_state r) ev)) by (right; by exists ev).
  split; [split; [|split]|].
  - eexists. split; [done|]. split; [done|]. by apply Hcons.
  - split; try done. intros ? ?. simplify_eq. eexists. split; [done|]. split; [done|by apply rtc_once].
  - intros r1 r2 ? H2. simpl in H2. by simplify_eq.
  - intros r0 (r1 & ? & Ht & _). assert (r1 = r) as -> by congruence. eexists. split; [done|]. split; [exact Ht|]. simpl.
    destruct (transition (t_state r) ev); apply (bool_decide_unpack _); exact I.
Qed.

Lemma ok_update old new err w x w' ev :
  inv id w -> transition old ev = new ->
  (forall r e now, row w = Some r -> t_state r = old -> consistent r (debited w) (credited w) ->
     consistent (with_state new e now r) (debited w) (credited w)) ->
  db_update old new err w x w' ->
  ok w w' /\ forall r0 b, x = inr b -> knows r0 old w ->
    (forall r, row w = Some r -> t_state r ∈ after old -> t_state r <> old ->
       consistent r (debited w) (credited w) -> t_state r ∈ after new) -> knows r0 new w'.
Proof.
  intros Hi Hev Hcons. destruct 1 as [w' Hd|Hno|Hno|e|e w' Hd].
  1,5: destruct (ok_cas _ _ _ _ _ ev Hi Hev Hcons Hd); split; [done|]; by eauto.
  all: split; [by apply ok_refl|]; intros r0 b [=] (r & Hr & Ht & Hin) Hafter.
  all: exists r; split; [done|]; split; [done|]; destruct Hi as (r' & ? & _ & ?).
  all: apply Hafter; [done|done|by apply Hno|by simplify_eq].
Qed.

Lemma ok_retry w x w' : inv id w -> db_retry w x w' -> ok w w'.
Proof.
  intros (r & Hr & Hid & Hc) H.
  assert (forall now, ok w (set_row (Some (with_retry now r)) w)) as Hok.
  { intros now. split; [by eexists|]. split.
    - split; try done. intros ??. simplify_eq. eexists. split; [done|]. split; [done|apply rtc_refl].
    - intros r1 r2 ? H2. simpl in H2. simplify_eq. by left. }
  destruct H as [? ? Hr'|? ? ? Hr'|]; [simplify_eq; by apply Hok..|].
  apply ok_refl. by exists r.
Qed.

(** Case analysis on the state of the row, which the knowledge limits. *)
Ltac row_cases :=
  match goal with
  | Hk : knows _ _ ?w, Hi : inv id ?w |- _ =>
      let r1 := fresh "r" in
      destruct Hk as (? & ? & Ht & Hin), Hi as (r1 & Hrow & ? & Hcons);
      repeat match goal with
             | Hx : row w = Some ?r2 |- _ => first [constr_eq Hx Hrow; fail 1 | assert (r2 = r1) by congruence; clear Hx; subst r2]
             end;
      apply terms_inv in Ht as (? & ? & ?);
      unfold consistent in *;
      destruct (t_state r1) eqn:?; simpl in Hin;
      try (exfalso; apply (bool_decide_pack _) in Hin; exact Hin);
      clear Hin
  end.

Lemma ok_withdraw r0 w x w' :
  inv id w -> knows r0 TransferState.SourcePending w -> svc_withdraw (debit_of r0) w x w' ->
  ok w w' /\ (x = OpResult.Success -> taken (debited w')) /\
  (forall e, x = OpResult.Failed e -> debited w' = Refused).
Proof.
  intros Hi Hk H.
  assert (Hset : forall d, debited w = Untouched -> d = Held (debit_of r0) \/ d = Refused ->
    ok w (set_debited d w)).
  { intros d Hd Hor. apply ok_same_row; simpl; [done|done| |by rewrite ?Hd..].
    intros r Hr _. revert Hor. row_cases; simpl; rewrite Hd in Hcons; intuition congruence. }
  destruct H; (split; [eauto using ok_refl|]); split; simpl; naive_solver
    || (intros; by destruct (debited w)).
Qed.

Lemma ok_deposit r0 w x w' :
  inv id w -> knows r0 TransferState.TargetPending w -> svc_deposit (credit_of r0) w x w' ->
  ok w w' /\ (x = OpResult.Success -> credited w' = Credited (credit_of r0)) /\
  (forall e, x = OpResult.Failed e -> credited w' = CreditRefused).
Proof.
  intros Hi Hk H.
  assert (Hset : forall c, credited w = NotCredited -> c = Credited (credit_of r0) \/ c = CreditRefused ->
    ok w (set_credited c w)).
  { intros c Hd Hor. apply ok_same_row; simpl; [done|done| |by rewrite ?Hd..].
    intros r Hr _. revert Hor. row_cases; simpl; rewrite Hd in Hcons; intuition congruence. }
  assert (Hpaid : forall m, credited w = Credited m -> m = credit_of r0).
  { intros m Hm. row_cases; rewrite Hm in Hcons; intuition congruence. }
  destruct H; (split; [eauto using ok_refl|]); split; simpl; naive_solver.
Qed.

Lemma ok_commit m w x w' :
  inv id w -> credited w = Credited m -> svc_commit w x w' -> ok w w'.
Proof.
  intros Hi Hc H.
  assert (Hset : forall m', debited w = Held m' -> ok w (set_debited (Finalized m') w)).
  { intros m' Hd. apply ok_same_row; simpl; [done|done| |by rewrite ?Hd..].
    intros r Hr. unfold consistent. rewrite Hc, Hd. destruct (t_state r); naive_solver. }
  destruct H; eauto using ok_refl.
Qed.

Lemma ok_rollback r0 w x w' :
  inv id w -> knows r0 TransferState.Compensating w -> svc_rollback w x w' ->
  ok w w' /\ (x = OpResult.Success -> restored (debited w')).
Proof.
  intros Hi Hk H.
  assert (Hset : forall m, debited w = Held m -> ok w (set_debited (Restored m) w)).
  { intros m Hd. apply ok_same_row; simpl; [done|done| |by rewrite ?Hd..].
    intros r Hr _. row_cases; rewrite Hd in Hcons; intuition congruence. }
  destruct H as [m Hd|m Hd|m Hd|]; (split; [eauto using ok_refl|]); simpl; try done.
  by rewrite Hd.
Qed.

(** *** Rules for the awaited operations *)

Lemma wp_try {X A} (o : op (string + X)) (k : X -> prog A) Q w :
  (forall w1, rely w w1 -> inv id w1 -> forall x w2, exec id o w1 x w2 ->
     ok w1 w2 /\ forall a, x = inr a -> wp (k a) Q w2) ->
  wp (pbind (try_db o) k) Q w.
Proof.
  intros H w1 Hrel Hi x w2 He. destruct (H w1 Hrel Hi x w2 He) as [? Hk]. split; [done|].
  destruct x; [done|by apply Hk].
Qed.

Lemma wp_get {A} r0 s (k : option TransferRecord -> prog A) Q w :
  knows r0 s w ->
  (forall r w2, knows r0 (t_state r) w2 -> wp (k (Some r)) Q w2) ->
  wp (pbind (try_db (DbGet id)) k) Q w.
Proof.
  intros Hk HQ. apply wp_try. intros w1 Hrel Hi x w2 [_ [|]]; (split; [by apply ok_refl|]); [|done].
  intros a [= <-]. apply (knows_rely _ _ _ _ Hrel) in Hk as (r & Hr & Ht & _). rewrite Hr.
  apply HQ. exists r. split; [done|]. split; [done|]. by destruct (t_state r); left.
Qed.

Lemma wp_update {A} r0 (o : op (string + bool)) old new err ev (k : bool -> prog A) Q w :
  (forall w x w', exec id o w x w' -> db_update old new err w x w') ->
  transition old ev = new -> knows r0 old w ->
  (forall w1, rely w w1 -> inv id w1 -> forall r, row w1 = Some r -> t_state r ∈ after old ->
     consistent r (debited w1) (credited w1) ->
     if decide (t_state r = old)
     then forall e now, consistent (with_state new e now r) (debited w1) (credited w1)
     else t_state r ∈ after new) ->
  (forall b w2, knows r0 new w2 -> rely w w2 -> wp (k b) Q w2) ->
  wp (pbind (try_db o) k) Q w.
Proof.
  intros Ho Hev Hk Hc HQ. apply wp_try. intros w1 Hrel Hi x w2 He%Ho.
  pose proof (knows_rely _ _ _ _ Hrel Hk) as Hk1. specialize (Hc w1 Hrel Hi).
  assert (Hold : old ∈ after old) by (by destruct old; left).
  edestruct (ok_update old new err) as [Hok Hknows]; [done..| |done|].
  - intros r e now Hr Hs Hcons. assert (Hin : t_state r ∈ after old) by by rewrite Hs.
    specialize (Hc r Hr Hin Hcons). rewrite decide_True in Hc by done. by apply Hc.
  - split; [done|]. intros b Hb. apply HQ; [|by etrans; [|apply Hok]].
    apply (Hknows r0 b Hb Hk1). intros r Hr Hin Hne Hcons. specialize (Hc r Hr Hin Hcons).
    by rewrite decide_False in Hc.
Qed.

Lemma wp_commit {A} r0 m (k : unit -> prog A) Q w :
  req_id r0 = id -> credited w = Credited m ->
  (forall w2, rely w w2 -> wp (k tt) Q w2) -> wp (pbind (finalize_source_commit r0) k) Q w.
Proof.
  intros Hid Hc HQ w1 Hrel Hi x w2 [_ He]. assert (Hok : ok w1 w2).
  { eapply ok_commit; [done| |done]. rewrite (rely_credit _ _ Hrel); [done|by rewrite Hc]. }
  split; [done|]. apply HQ. etrans; [done|apply Hok].
Qed.

Lemma wp_withdraw {A} r0 (k : OpResult.t -> prog A) Q w :
  knows r0 TransferState.SourcePending w ->
  (forall w2, knows r0 TransferState.SourcePending w2 ->
     (taken (debited w2) -> wp (k OpResult.Success) Q w2) /\
     (debited w2 = Refused -> forall e, wp (k (OpResult.Failed e)) Q w2) /\
     wp (k OpResult.Pending) Q w2) ->
  wp (pbind (call_withdraw r0) k) Q w.
Proof.
  intros Hk HQ w1 Hrel Hi x w2 [_ He]. pose proof (knows_rely _ _ _ _ Hrel Hk) as Hk1.
  destruct (ok_withdraw r0 w1 x w2 Hi Hk1 He) as (Hok & Hyes & Hno). split; [done|].
  destruct (HQ w2) as (H1 & H2 & H3); [by eapply knows_rely, Hk1; apply Hok|].
  destruct x; simpl; [by apply H1, Hyes|by eapply H2, Hno|done].
Qed.

Lemma wp_deposit {A} r0 (k : OpResult.t -> prog A) Q w :
  knows r0 TransferState.TargetPending w ->
  (forall w2, knows r0 TransferState.TargetPending w2 ->
     (credited w2 = Credited (credit_of r0) -> wp (k OpResult.Success) Q w2) /\
     (credited w2 = CreditRefused -> forall e, wp (k (OpResult.Failed e)) Q w2) /\
     wp (k OpResult.Pending) Q w2) ->
  wp (pbind (call_deposit r0) k) Q w.
Proof.
  intros Hk HQ w1 Hrel Hi x w2 [_ He]. pose proof (knows_rely _ _ _ _ Hrel Hk) as Hk1.
  destruct (ok_deposit r0 w1 x w2 Hi Hk1 He) as (Hok & Hyes & Hno). split; [done|].
  destruct (HQ w2) as (H1 & H2 & H3); [by eapply knows_rely, Hk1; apply Hok|].
  destruct x; simpl; [by apply H1, Hyes|by eapply H2, Hno|done].
Qed.

Lemma wp_rollback {A} r0 (k : OpResult.t -> prog A) Q w :
  knows r0 TransferState.Compensating w ->
  (forall w2, knows r0 TransferState.Compensating w2 ->
     (restored (debited w2) -> wp (k OpResult.Success) Q w2) /\
     (forall x, x <> OpResult.Success -> wp (k x) Q w2)) ->
  wp (pbind (Do (Rollback (source r0) (req_id r0)) Ret) k) Q w.
Proof.
  intros Hk HQ w1 Hrel Hi x w2 [_ He]. pose proof (knows_rely _ _ _ _ Hrel Hk) as Hk1.
  destruct (ok_rollback r0 w1 x w2 Hi Hk1 He) as (Hok & Hyes). split; [done|].
  destruct (HQ w2) as (H1 & H2); [by eapply knows_rely, Hk1; apply Hok|].
  destruct x; simpl; [by apply H1, Hyes|by apply H2..].
Qed.

(** *** The coordinator's steps *)

(** What is known of the services is not forgotten. *)
Lemma rely_facts w w1 :
  rely w w1 ->
  (debited w = Refused -> debited w1 = Refused) /\ (taken (debited w) -> taken (debited w1)) /\
  (restored (debited w) -> restored (debited w1)) /\
  (forall m, credited w = Credited m -> credited w1 = Credited m) /\
  (credited w = CreditRefused -> credited w1 = CreditRefused).
Proof.
  intros [_ H1 H2 H3 H4]. split; [done|]. split; [done|]. split; [by intros Hr; rewrite H3|].
  split; intros; rewrite H4; congruence.
Qed.

(** The consistency of the row after an update, by cases on its state. *)
Ltac update_cases :=
  let w1 := fresh "w" in let Hin := fresh "Hin" in let Hcons := fresh "Hcons" in
  let r := fresh "r" in let Hrel := fresh "Hrel" in
  intros w1 Hrel _ r _ Hin Hcons; apply rely_facts in Hrel as (? & ? & ? & ? & ?);
  unfold consistent in *;
  destruct (t_state r) eqn:?;
  try (exfalso; apply (bool_decide_pack _) in Hin; exact Hin); clear Hin;
  case_decide; simplify_eq;
  try (apply (bool_decide_unpack _); exact I);
  try (intros e now; simpl; change (debit_of (with_state _ e now r)) with (debit_of r);
       change (credit_of (with_state _ e now r)) with (credit_of r));
  try match goal with
      | Hall : forall m, credited ?w2 = Credited m -> _, Hc : credited ?w2 = Credited _ |- _ =>
          pose proof (Hall _ Hc)
      end;
  destruct (debited w1), (credited w1); simpl in *; intuition (discriminate || congruence || eauto).

Section step.
Context (r0 : TransferRecord) (Q : TransferState.t -> World -> Prop).
Context (HQ : forall s w, knows r0 s w -> Q s w).

(** A conditional update whose answer is not looked at. *)
Lemma last_update_ok (o : op (string + bool)) old new err ev w :
  (forall w x w', exec id o w x w' -> db_update old new err w x w') ->
  transition old ev = new -> knows r0 old w ->
  (forall w1, rely w w1 -> inv id w1 -> forall r, row w1 = Some r -> t_state r ∈ after old ->
     consistent r (debited w1) (credited w1) ->
     if decide (t_state r = old)
     then forall e now, consistent (with_state new e now r) (debited w1) (credited w1)
     else t_state r ∈ after new) ->
  wp (pbind (try_db o) (fun _ => Ret new)) Q w.
Proof. intros. eapply (wp_update r0); [done..|]. intros _ w2 Hk2 _. by apply HQ. Qed.

Ltac last_update e := eapply (last_update_ok _ _ _ _ e); [by intros ??? []|done|done|update_cases].

Lemma source_pending_ok w :
  knows r0 TransferState.SourcePending w -> wp (step_source_pending r0) Q w.
Proof.
  intros Hk. apply wp_withdraw; [done|]. clear w Hk. intros w Hk. split; [|split].
  - intros Ht. last_update TransferEvent.SourceOk.
  - intros Hr e. last_update TransferEvent.SourceFail.
  - by apply HQ.
Qed.

Lemma cas_failure_ok s w : knows r0 s w -> wp (state_after_cas_failure id) Q w.
Proof. intros Hk. eapply wp_get; [done|]. intros r w2 Hk2. by apply HQ. Qed.

Lemma init_ok w : req_id r0 = id -> knows r0 TransferState.Init w -> wp (step_init r0) Q w.
Proof.
  intros Hid Hk. eapply (wp_update r0) with (ev := TransferEvent.SourceCall);
    [by intros ??? []|done|done|update_cases|].
  intros [] w2 Hk2 _; simpl; [by apply source_pending_ok|]. rewrite Hid. by eapply cas_failure_ok.
Qed.

Lemma deposit_succeeded_ok w :
  req_id r0 = id -> knows r0 TransferState.TargetPending w -> credited w = Credited (credit_of r0) ->
  wp (deposit_succeeded r0) Q w.
Proof.
  intros Hid Hk Hc. eapply wp_commit; [done..|]. intros w2 Hrel.
  pose proof (knows_rely _ _ _ _ Hrel Hk) as Hk2. clear Hk. apply rely_facts in Hrel as (_ & _ & _ & Hp & _).
  apply Hp in Hc. clear Hp. last_update TransferEvent.TargetOk.
Qed.

Lemma deposit_failed_ok e w :
  knows r0 TransferState.TargetPending w -> credited w = CreditRefused -> wp (deposit_failed r0 e) Q w.
Proof. intros Hk Hc. last_update TransferEvent.TargetFail. Qed.

Lemma target_pending_ok w :
  req_id r0 = id -> knows r0 TransferState.TargetPending w -> wp (step_target_pending r0) Q w.
Proof.
  intros Hid Hk. apply wp_deposit; [done|]. clear w Hk. intros w Hk. split; [|split].
  - by apply deposit_succeeded_ok.
  - intros Hc e. case_decide; [by apply HQ|by apply deposit_failed_ok].
  - by apply HQ.
Qed.

Lemma source_done_ok w :
  req_id r0 = id -> knows r0 TransferState.SourceDone w -> wp (step_source_done r0) Q w.
Proof.
  intros Hid Hk. eapply (wp_update r0) with (ev := TransferEvent.TargetCall);
    [by intros ??? []|done|done|update_cases|].
  intros [] w2 Hk2 _; simpl; [|rewrite Hid; by eapply cas_failure_ok].
  apply wp_deposit; [done|]. clear w w2 Hk Hk2. intros w Hk. split; [|split].
  - by apply deposit_succeeded_ok.
  - intros Hc e. by apply deposit_failed_ok.
  - by apply HQ.
Qed.

Lemma compensating_ok w : knows r0 TransferState.Compensating w -> wp (step_compensating r0) Q w.
Proof.
  intros Hk. apply wp_rollback; [done|]. clear w Hk. intros w Hk. split.
  - intros Hr. last_update TransferEvent.RollbackOk.
  - intros [] ?; by apply HQ || done.
Qed.

Lemma step_state_ok w : req_id r0 = id -> knows r0 (t_state r0) w -> wp (step_state r0) Q w.
Proof.
  intros Hid Hk. unfold step_state.
  destruct (t_state r0); [by apply init_ok|by apply source_pending_ok|by apply source_done_ok|
    by apply target_pending_ok|by apply compensating_ok|by apply HQ..].
Qed.
End step.

(** The state [s] has been reached. *)
Definition reached (s : TransferState.t) (w : World) : Prop :=
  exists r, row w = Some r /\ t_state r ∈ after s.

Lemma reached_rely s w w' : rely w w' -> reached s w -> reached s w'.
Proof.
  intros Hrel (r & Hr & Hs). destruct (rely_row _ _ Hrel _ Hr) as (r' & ? & _ & ?).
  exists r'. split; [done|by eapply leads_in].
Qed.

(** A step keeps the invariant, and its answer is a state that was reached. *)
Lemma step_ok w : wp (step id) reached w.
Proof.
  apply wp_try. intros w1 _ Hi x w2 [_ He]. assert (w2 = w1) as -> by by destruct He.
  split; [by apply ok_refl|]. intros found ->. inversion He; subst.
  destruct Hi as (r & Hr & Hid & _). rewrite Hr.
  assert (Hk : knows r (t_state r) w1) by (exists r; split; [done|]; split; [done|by destruct (t_state r); left]).
  destruct (TransferState.is_terminal (t_state r)).
  { destruct Hk as (r' & ? & _ & ?). by exists r'. }
  apply wp_bind. apply (step_state_ok r); [|done|done].
  intros s w2 Hk2. assert (Hs : reached s w2) by (destruct Hk2 as (r' & ? & _ & ?); by exists r').
  destruct (_ && _); [|done].
  apply wp_try. intros w3 Hrel Hi x w4 [_ Hretry]. assert (Hok : ok w3 w4) by by eapply ok_retry.
  split; [done|]. intros _ _. simpl. eapply reached_rely, Hs. etrans; [done|apply Hok].
Qed.

(** ** Interleavings *)

Definition config_ok (c : World * list (prog TransferState.t)) : Prop :=
  inv id c.1 /\ Forall (fun p => wp p reached c.1) c.2.

(** Whatever the schedule, the invariant holds, every update is an edge of the
    state machine, and the other workers are not disturbed. *)
Lemma config_step c c' : config_ok c -> sched id c c' -> config_ok c' /\ rely c.1 c'.1 /\ edge_row c.1 c'.1.
Proof.
  intros [Hi Hps] Hstep. destruct Hstep as [w ps|w w' ps i X o k x Hp He]; simpl in *.
  - split; [|by apply ok_refl]. split; [done|]. apply Forall_app. split; [done|].
    apply Forall_singleton, step_ok.
  - assert (Hwp : wp (Do o k) reached w) by by eapply Forall_lookup_1 in Hps.
    destruct (Hwp w ltac:(done) Hi x w' He) as [(Hi' & Hrel & Hedge) Hk].
    split; [|done]. split; [done|]. apply Forall_insert; [|done].
    eapply Forall_impl; [exact Hps|]. intros p. apply wp_rely; [|done].
    intros s w1 w2. by apply reached_rely.
Qed.

Lemma initial_ok w : initial w -> (forall r, row w = Some r -> req_id r = id) -> config_ok (w, []).
Proof.
  intros (Hd & Hc & r & Hr & Hs) Hid. split; [|by apply Forall_nil].
  exists r. split; [done|]. split; [by apply Hid|]. unfold consistent. by rewrite Hs.
Qed.

Lemma reachable_ok c : reachable id c -> config_ok c.
Proof.
  intros (w0 & Hinit & Hid & Hsteps). pose proof (initial_ok _ Hinit Hid) as Hok. revert Hok.
  induction Hsteps as [c|c c1 c2 Hstep _ IH]; [done|]. intros Hok. by apply IH, (config_step c).
Qed.
End workers.
