(* ===== verification/TransferRuns.v ===== *)
(** * What transfers guarantee

    The properties of the coordinator ([coordinator.rs]), the worker
    ([worker.rs]) and the database rows ([db.rs]): safety for every
    interleaving, from the invariant of [TransferProofs]; progress, by running
    a worker against services that give definite answers; and what happens to
    a transfer whose source cannot be rolled back. *)

From S2P Require Import Prelude Transfer TransferProofs.

#[local] Open Scope string_scope.
#[local] Open Scope list_scope.
#[local] Open Scope Z_scope.
#[local] Open Scope prog_scope.

(** ** Running one worker *)

(** How the environment answers when every answer is definite: whether the
    source takes the debit, whether the target takes the credit, and whether
    the source can give the money back. *)
Record Services := mkServices { takes_debit : bool; takes_credit : bool; gives_back : bool; wall : Z }.

Section run.
Context (sv : Services) (id : Z).

Definition cas_answer (old new : TransferState.t) (err : option string -> option string) (w : World)
  : (string + bool) * World :=
  match row w with
  | Some r =>
      if decide (t_state r = old)
      then (inr true, set_row (Some (with_state new (err (t_error r)) (wall sv) r)) w)
      else (inr false, w)
  | None => (inr false, w)
  end.

Definition withdraw_answer (m : Move) (w : World) : OpResult.t * World :=
  match debited w with
  | Untouched =>
      if takes_debit sv then (OpResult.Success, set_debited (Held m) w)
      else (OpResult.Failed "refused", set_debited Refused w)
  | Refused => (OpResult.Failed "refused", w)
  | _ => (OpResult.Success, w)
  end.

Definition deposit_answer (m : Move) (w : World) : OpResult.t * World :=
  match credited w with
  | NotCredited =>
      if takes_credit sv then (OpResult.Success, set_credited (Credited m) w)
      else (OpResult.Failed "refused", set_credited CreditRefused w)
  | CreditRefused => (OpResult.Failed "refused", w)
  | Credited _ => (OpResult.Success, w)
  end.

Definition commit_answer (w : World) : OpResult.t * World :=
  match debited w with
  | Held m => (OpResult.Success, set_debited (Finalized m) w)
  | Finalized _ => (OpResult.Success, w)
  | _ => (OpResult.Failed "nothing held", w)
  end.

Definition rollback_answer (w : World) : OpResult.t * World :=
  match debited w with
  | Held m =>
      if gives_back sv then (OpResult.Success, set_debited (Restored m) w)
      else (OpResult.Failed "final", w)
  | Restored _ => (OpResult.Success, w)
  | _ => (OpResult.Failed "nothing held", w)
  end.

(** [None] when the operation is not about the transfer [id]. *)
Definition answer {X} (o : op X) (w : World) : option (X * World) :=
  match o in op X return option (X * World) with
  | DbCreate _ => None
  | DbGet i => if i =? id then Some (inr (row w), w) else None
  | DbUpdateStateIf i old new => if i =? id then Some (cas_answer old new (fun e => e) w) else None
  | DbUpdateStateWithError i old new e =>
      if i =? id then Some (cas_answer old new (fun _ => Some e) w) else None
  | DbIncrementRetry i => if i =? id then Some (inl retry_refused, w) else None
  | Withdraw s i u a m => if i =? id then Some (withdraw_answer (mkMove s u a m) w) else None
  | Deposit s i u a m => if i =? id then Some (deposit_answer (mkMove s u a m) w) else None
  | Commit _ i => if i =? id then Some (commit_answer w) else None
  | Rollback _ i => if i =? id then Some (rollback_answer w) else None
  | Now => Some (wall sv, w)
  end.

(** The outcome of a program, and the world it leaves. *)
Fixpoint run {A} (p : prog A) (w : World) : option (option A * World) :=
  match p with
  | Ret a => Some (Some a, w)
  | Fail _ => Some (None, w)
  | Do o k => match answer o w with Some (x, w') => run (k x) w' | None => None end
  end.

(** Definite answers are answers the environment may give. *)
Lemma answer_exec {X} (o : op X) w x w' : answer o w = Some (x, w') -> exec id o w x w'.
Proof.
  assert (Hcas : forall old new err b w1, cas_answer old new err w = (b, w1) -> db_update old new err w b w1).
  { intros old new err b w1. unfold cas_answer. destruct (row w) as [r|] eqn:Hr.
    - case_decide as Hs; intros [= <- <-]; [by apply update_applied, cas_applied|].
      apply update_refused. intros r' Hr'. by simplify_eq.
    - intros [= <- <-]. apply update_refused. intros r' Hr'. by simplify_eq. }
  destruct o as [r|i|i old new|i old new e|i|s i u a m|s i u a m|s i|s i|]; simpl; [done|..|by intros [= <- <-]];
    (destruct (Z.eqb_spec i id); [|done]).
  - intros [= <- <-]. split; [done|constructor].
  - intros [= H]. split; [done|by apply Hcas].
  - intros [= H]. split; [done|by apply Hcas].
  - intros [= <- <-]. split; [done|apply retry_error].
  - unfold withdraw_answer. destruct (debited w) eqn:Hd, (takes_debit sv); intros [= <- <-];
      (split; [done|]); constructor; by rewrite ?Hd.
  - unfold deposit_answer. destruct (credited w) eqn:Hd, (takes_credit sv); intros [= <- <-];
      (split; [done|]); by (constructor || econstructor).
  - unfold commit_answer. destruct (debited w) eqn:Hd; intros [= <- <-]; (split; [done|]);
      by econstructor.
  - unfold rollback_answer. destruct (debited w) eqn:Hd, (gives_back sv); intros [= <- <-];
      (split; [done|]); by econstructor.
Qed.

Lemma run_do {X A} (p : prog A) (o : op X) k w x w1 res :
  p = Do o k -> answer o w = Some (x, w1) -> run (k x) w1 = res -> run p w = res.
Proof. intros -> Ha. simpl. by rewrite Ha. Qed.

Lemma run_sched (p : prog TransferState.t) w o w' ps :
  run p w = Some (o, w') ->
  exists p', rtc (sched id) (w, ps ++ [p]) (w', ps ++ [p']) /\ forall s, o = Some s -> p' = Ret s.
Proof.
  revert w. induction p as [a|e|X op k IH]; intros w; simpl.
  - intros [= <- <-]. exists (Ret a). split; [apply rtc_refl|]. by intros s [= ->].
  - intros [= <- <-]. exists (Fail e). split; [apply rtc_refl|done].
  - destruct (answer op w) as [[x w1]|] eqn:Ha; [|done]. intros Hrun.
    destruct (IH x w1 Hrun) as (p' & Hsteps & Hp'). exists p'. split; [|done].
    eapply rtc_l; [|exact Hsteps].
    replace (ps ++ [k x]) with (<[length ps := k x]> (ps ++ [Do op k]))
      by by rewrite insert_app_r_alt, Nat.sub_diag.
    eapply sched_step; [by apply list_lookup_middle|by apply answer_exec].
Qed.

(** A run of [step] is part of an execution, also when it fails. *)
Lemma step_reachable w ps o w' :
  reachable id (w, ps) -> run (step id) w = Some (o, w') -> exists ps', reachable id (w', ps').
Proof.
  intros (w0 & Hi & Hid & Hsteps) Hrun. destruct (run_sched (step id) w o w' ps Hrun) as (p' & Hmore & _).
  exists (ps ++ [p']), w0. split; [done|]. split; [done|]. etrans; [exact Hsteps|].
  eapply rtc_l; [apply sched_spawn|exact Hmore].
Qed.

Lemma run_pcatch {A B} (p : prog A) (f : A -> prog B) g w :
  run (pcatch p f g) w =
  match run p w with
  | Some (Some a, w1) => run (f a) w1
  | Some (None, w1) => run g w1
  | None => None
  end.
Proof.
  revert w. induction p as [a|e|X o k IH]; intros w; simpl; [done|done|].
  destruct (answer o w) as [[x w1]|]; [apply IH|done].
Qed.

Lemma process_transfer_reachable n w ps o w' :
  reachable id (w, ps) -> run (process_transfer n id) w = Some (o, w') -> exists ps', reachable id (w', ps').
Proof.
  revert w ps. induction n as [|n IH]; intros w ps Hr; cbn [process_transfer]; [intros [= <- <-]; by exists ps|].
  rewrite run_pcatch. destruct (run (step id) w) as [[[s|] w1]|] eqn:Hstep; [| |done];
    destruct (step_reachable _ _ _ _ Hr Hstep) as (ps1 & Hr1).
  - destruct (TransferState.is_terminal s); [intros [= <- <-]; by exists ps1|by apply (IH w1 ps1)].
  - intros [= <- <-]. by exists ps1.
Qed.
End run.

(** Executes a program on a row whose identifier may be a variable. *)
Ltac run_op := eapply run_do; [reflexivity|cbn; rewrite Z.eqb_refl; cbn; reflexivity|].
Ltac run_prog := repeat run_op; reflexivity.

(** ** Safety *)

(** C25: For two services that keep the contract of the [ServiceAdapter] trait
    (a call repeated for the same request answers as the first did and does
    nothing more, a failure is definite): whatever the interleaving of workers,
    retries, lost answers and crashes, the row of a transfer agrees with what the two services did: a
    committed transfer took the money from the source and gave the same amount
    to the target, a rolled-back one gave it back and credited nobody, a failed
    one moved nothing; nobody is ever credited while the source keeps or gets
    back the money; and every answer a worker has given to its caller is a
    state the transfer did reach. *)
Theorem transfer_safe id c :
  reachable id c ->
  exists r, row c.1 = Some r /\ req_id r = id /\ consistent r (debited c.1) (credited c.1) /\
    (forall m, credited c.1 = Credited m ->
       m = credit_of r /\ (debited c.1 = Held (debit_of r) \/ debited c.1 = Finalized (debit_of r))) /\
    (forall i s, c.2 !! i = Some (Ret s) -> t_state r ∈ after s).
Proof.
  intros [(r & Hr & Hid & Hcons) Hps]%reachable_ok. exists r. split; [done|]. split; [done|].
  split; [done|]. split.
  - intros m Hm. unfold consistent in Hcons. rewrite Hm in Hcons.
    destruct (t_state r); intuition congruence.
  - intros i s Hi. eapply Forall_lookup_1 in Hps; [|done]. destruct Hps as (r' & ? & ?). by simplify_eq.
Qed.

(** The coordinator refines the state machine of [state.rs]: no operation
    of any worker changes the state of a transfer except along [transition],
    nor any of its terms, so that a terminal state is never left. *)
Theorem coordinator_refines_fsm id c c' :
  reachable id c -> sched id c c' ->
  exists r r', row c.1 = Some r /\ row c'.1 = Some r' /\ terms r' = terms r /\
    (t_state r' = t_state r \/ exists ev, transition (t_state r) ev = t_state r') /\
    (TransferState.is_terminal (t_state r) = true -> t_state r' = t_state r).
Proof.
  intros Hreach Hstep. pose proof (reachable_ok id c Hreach) as Hok.
  destruct (config_step id c c' Hok Hstep) as (_ & Hrely & Hedge).
  destruct Hok as [(r & Hr & _) _]. destruct (rely_row _ _ Hrely r Hr) as (r' & Hr' & Hterms & _).
  assert (He : edge (t_state r) (t_state r')) by by apply Hedge.
  exists r, r'. split; [done|]. split; [done|]. split; [done|]. split.
  - destruct He as [->|[ev <-]]; [by left|right; by exists ev].
  - intros Hterm. destruct He as [->|[ev <-]]; [done|]. by destruct (t_state r), ev.
Qed.

(** ** Progress *)

(** The source can be rolled back, or will not have to be. *)
Definition can_finish (sv : Services) (w : World) : Prop :=
  (takes_credit sv = true /\ credited w <> CreditRefused) \/
  (gives_back sv = true /\ forall r, row w = Some r -> source r <> Trading).

(** The money has left the source, the target has refused it, and it is not
    given back. *)
Definition stranded (id : Z) (w : World) : Prop :=
  exists r, row w = Some r /\ req_id r = id /\
    (t_state r = TransferState.Compensating \/ t_state r = TransferState.TargetPending) /\
    debited w = Held (debit_of r) /\ credited w = CreditRefused.

(** However a transfer was left - by crashes, lost answers or any number of
    workers - one worker whose services answer definitely is done with it
    within three turns of the loop of [process_transfer]: the loop returns,
    since a turn without progress fails on the retry counter, and the row is in
    a terminal state, or the transfer could not be finished and is stranded. *)
Theorem process_transfer_terminates sv id c :
  reachable id c ->
  exists w', run sv id (process_transfer 3 id) c.1 = Some (Some (Some tt), w') /\
    ((exists r, row w' = Some r /\ TransferState.is_terminal (t_state r) = true) \/
     ~ can_finish sv c.1 /\ stranded id w').
Proof.
  intros [(r & Hr & Hid & Hcons) _]%reachable_ok. destruct c as [[w_row d cr] ps].
  cbn [fst row debited credited] in *.
  destruct r as [i src tgt u a m s t1 t2 e rc], sv as [td tc gb wall0].
  cbn [req_id] in Hid. subst.
  assert (Hstuck : forall tc gb src d cr s, tc = false \/ cr = CreditRefused -> gb = false \/ src = Trading ->
    ~ can_finish (mkServices td tc gb wall0)
        (mkWorld (Some (mkTransfer id src tgt u a m s t1 t2 e rc)) d cr)).
  { clear. intros tc gb src d cr s H1 H2 [[Htc Hcr]|[Hgb Hsrc]]; simpl in *.
    - destruct H1; congruence.
    - specialize (Hsrc _ eq_refl). simpl in Hsrc. destruct H2; congruence. }
  unfold consistent in Hcons. simpl in Hcons.
  destruct s; repeat destruct Hcons as [Hcons|Hcons]; destruct_and?; destruct_or?; subst.
  all: destruct td, tc, gb, src; eexists; (split; [run_prog|]).
  all: first [left; by eexists
             |right; split; [apply Hstuck; auto|]; eexists; split; [done|]; simpl; auto].
Qed.

(** ** A source that cannot be rolled back *)

(** Nothing moves a transfer out of there as long as the source does not give
    the money back and the target does not change its mind. *)
Lemma stranded_stays sv id n w :
  gives_back sv = false -> stranded id w ->
  exists w', run sv id (process_transfer (S (S n)) id) w = Some (Some (Some tt), w') /\ stranded id w'.
Proof.
  intros Hgb (r & Hr & Hid & Hs & Hd & Hc). destruct w as [w_row d cr], r as [i src tgt u a m s t1 t2 e rc].
  destruct sv as [td tc gb wall0]. cbn [row debited credited req_id t_state gives_back] in *. subst.
  destruct Hs as [->| ->]; [|destruct src]; eexists; (split; [run_prog|]); eexists; simpl; auto.
Qed.

(** [step_target_pending] keeps a transfer whose source is the trading
    service in [TargetPending] when the target refuses the money, because
    [UbsTradingAdapter::rollback] always fails; [step_source_done] does not.
    A refusal of the very first deposit therefore strands the money: the
    transfer goes to [Compensating], and stays there however often it is taken
    up again. *)
Theorem trading_source_strands_funds sv id w n :
  initial w -> (exists r, row w = Some r /\ req_id r = id /\ source r = Trading) ->
  takes_debit sv = true -> takes_credit sv = false -> gives_back sv = false -> (3 <= n)%nat ->
  exists w', run sv id (process_transfer n id) w = Some (Some (Some tt), w') /\ stranded id w'.
Proof.
  intros (Hd & Hc & r & Hr & Hs) (r' & Hr' & Hid & Hsrc) Htd Htc Hgb Hn. assert (r' = r) as -> by congruence.
  destruct n as [|[|[|n]]]; [lia..|]. clear Hr' Hn.
  destruct w as [w_row d cr], r as [i src tgt u a m s t1 t2 e rc], sv as [td tc gb wall0].
  cbn [row debited credited req_id t_state source takes_debit takes_credit gives_back] in *. subst.
  eexists. split; [run_prog|]. eexists. simpl. auto.
Qed.

(** ** Rows *)

Definition well_typed (r : TransferRecord) : Prop :=
  is_u64 (req_id r) /\ is_u64 (t_user_id r) /\ 0 <= t_asset_id r < 4294967296 /\ is_u64 (t_amount r) /\
  0 <= retry_count r < 4294967296.

(** A transfer read back from the database is the one that was stored,
    amounts and identifiers beyond [i64::MAX] included. *)
Theorem transfer_row_roundtrip r : well_typed r -> parse_row (create_row r) = Some r.
Proof.
  intros (H1 & H2 & H3 & H4 & H5). unfold parse_row, create_row.
  replace (service_from_str (service_as_ref (source r))) with (Some (source r)) by by destruct (source r).
  replace (service_from_str (service_as_ref (target r))) with (Some (target r)) by by destruct (target r).
  replace (TransferState.from_str (TransferState.as_ref (t_state r))) with (Some (t_state r))
    by by destruct (t_state r).
  rewrite !as_u64_i64, !as_u32_i32 by done. by destruct r.
Qed.

(** ** The pause between retries *)

(** The plain multiplication of [scan_stale_transfers]: with overflow checks
    the worker panics on a transfer retried 61 times; without them the pause
    of one retried 63 times is zero. *)
Lemma backoff_small {bp : BuildProfile} n : 0 <= n <= 60 -> backoff_ms n = Some (Z.min (10 * 2 ^ n) 5000).
Proof.
  intros Hn. unfold backoff_ms, op_mul, saturating_pow2.
  assert (0 < 2 ^ n <= 2 ^ 60) by (split; [lia|apply Z.pow_le_mono_r; lia]).
  rewrite Z.min_l by ulia. rewrite u64_op_exact by ulia. done.
Qed.

Lemma backoff_panics n : 61 <= n -> backoff_ms (bp := debug_profile) n = None.
Proof.
  intros Hn. unfold backoff_ms, op_mul, saturating_pow2, u64_op, in_range.
  assert (2 ^ 61 <= 2 ^ n) by (apply Z.pow_le_mono_r; lia).
  destruct (Z.leb_spec (10 * Z.min (2 ^ n) u64_max) u64_max); [ulia|]. by rewrite andb_false_r.
Qed.

Lemma backoff_wraps : backoff_ms (bp := release_profile) 63 = Some 0.
Proof. by vm_compute. Qed.

(** ** Concrete transfers *)

Module Concrete.
(** 500 units of asset 1 from the funding account to the trading account. *)
Definition row0 : TransferRecord :=
  mkTransfer 7 Funding Trading 1001 1 500 TransferState.Init 0 0 None 0.

Definition world0 : World := mkWorld (Some row0) Untouched NotCredited.

Definition willing : Services := mkServices true true true 5.

Lemma world0_reachable : reachable 7 (world0, []).
Proof.
  exists world0. split; [|split].
  - split; [done|]. split; [done|]. by exists row0.
  - by intros r [= <-].
  - apply rtc_refl.
Qed.

Lemma reachable_run sv w ps s w' :
  reachable 7 (w, ps) -> run sv 7 (step 7) w = Some (Some s, w') -> reachable 7 (w', ps ++ [Ret s]).
Proof.
  intros (w0 & Hi & Hid & Hsteps) Hrun. exists w0. split; [done|]. split; [done|].
  etrans; [exact Hsteps|]. eapply rtc_l; [apply sched_spawn|].
  destruct (run_sched sv 7 _ _ _ _ ps Hrun) as (p' & Hmore & Hp'). by rewrite (Hp' s eq_refl) in Hmore.
Qed.

Definition moved : World :=
  mkWorld (Some (mkTransfer 7 Funding Trading 1001 1 500 TransferState.Committed 0 5 None 0))
    (Finalized (mkMove Funding 1001 1 500)) (Credited (mkMove Trading 1001 1 500)).

Lemma moved_reachable : reachable 7 (moved, [Ret TransferState.SourceDone; Ret TransferState.Committed]).
Proof.
  apply (reachable_run willing
    (mkWorld (Some (mkTransfer 7 Funding Trading 1001 1 500 TransferState.SourceDone 0 5 None 0))
       (Held (mkMove Funding 1001 1 500)) NotCredited) [Ret TransferState.SourceDone]); [|by vm_compute].
  apply (reachable_run willing world0 []); [apply world0_reachable|by vm_compute].
Qed.

(** The first conditional update of the first worker. *)
Definition about_to_update : prog TransferState.t :=
  await new_state := step_state row0 in
  await _ := (if negb (TransferState.is_terminal new_state) && bool_decide (new_state = t_state row0)
              then try_db (DbIncrementRetry 7) else Ret tt) in
  Ret new_state.

Lemma about_to_update_reachable : reachable 7 (world0, [about_to_update]).
Proof.
  destruct world0_reachable as (w0 & Hi & Hid & Hsteps). exists w0. split; [done|]. split; [done|].
  etrans; [exact Hsteps|]. eapply rtc_l; [apply sched_spawn|]. apply rtc_once.
  assert (exists k, step 7 = Do (DbGet 7) k /\ k (inr (Some row0)) = about_to_update) as (k & Hk & <-)
    by (eexists; split; reflexivity).
  apply (sched_step 7 world0 world0 [step 7] 0 _ (DbGet 7) k (inr (Some row0))); [by rewrite <- Hk|].
  split; [done|apply get_row].
Qed.

Lemma about_to_update_step :
  exists p, sched 7 (world0, [about_to_update])
    (set_row (Some (with_state TransferState.SourcePending None 5 row0)) world0, [p]).
Proof.
  eexists. eapply (sched_step 7 world0 _ [about_to_update] 0 _
    (DbUpdateStateIf 7 TransferState.Init TransferState.SourcePending) _ (inr true)); [reflexivity|].
  split; [done|]. apply update_applied. by refine (cas_applied _ _ (fun e => e) world0 row0 5 _ _).
Qed.
End Concrete.

Lemma transfer_safe_witness :
  reachable 7 (Concrete.moved, [Ret TransferState.SourceDone; Ret TransferState.Committed]) /\
  exists r, row Concrete.moved = Some r /\ req_id r = 7 /\
    consistent r (debited Concrete.moved) (credited Concrete.moved).
Proof.
  split; [apply Concrete.moved_reachable|].
  destruct (transfer_safe 7 _ Concrete.moved_reachable) as (r & Hr & Hid & Hc & _).
  exists r. split; [exact Hr|]. split; [exact Hid|exact Hc].
Defined.

Lemma coordinator_refines_fsm_witness :
  exists c', sched 7 (Concrete.world0, [Concrete.about_to_update]) c' /\
    exists r', row c'.1 = Some r' /\ terms r' = terms Concrete.row0.
Proof.
  destruct Concrete.about_to_update_step as (p & Hp). eexists. split; [exact Hp|].
  destruct (coordinator_refines_fsm 7 _ _ Concrete.about_to_update_reachable Hp)
    as (r & r' & Hr & Hr' & Ht & _).
  exists r'. split; [exact Hr'|]. rewrite Ht. f_equal. injection Hr as <-. reflexivity.
Defined.

Lemma process_transfer_terminates_witness :
  exists w', run Concrete.willing 7 (process_transfer 3 7) Concrete.world0 = Some (Some (Some tt), w') /\
    ((exists r, row w' = Some r /\ TransferState.is_terminal (t_state r) = true) \/
     ~ can_finish Concrete.willing Concrete.world0 /\ stranded 7 w').
Proof. exact (process_transfer_terminates Concrete.willing 7 _ Concrete.world0_reachable). Defined.

Lemma trading_source_strands_funds_witness :
  exists w', run (mkServices true false false 5) 7 (process_transfer 40 7)
    (mkWorld (Some (mkTransfer 7 Trading Funding 1001 1 500 TransferState.Init 0 0 None 0)) Untouched NotCredited)
    = Some (Some (Some tt), w') /\ stranded 7 w'.
Proof.
  apply trading_source_strands_funds; try reflexivity; [| |lia].
  - split; [reflexivity|]. split; [reflexivity|]. eexists. split; reflexivity.
  - eexists. repeat split; reflexivity.
Defined.

Lemma transfer_row_roundtrip_witness :
  let r := mkTransfer 7 Funding Trading u64_max 4294967295 u64_max TransferState.Compensating 1 2
             (Some "refused") 4294967295 in
  well_typed r /\ parse_row (create_row r) = Some r.
Proof.
  intros r. assert (H : well_typed r) by (unfold well_typed, r; simpl; ulia).
  split; [exact H|exact (transfer_row_roundtrip r H)].
Defined.
