(* ===== verification/SettlementDb.v ===== *)
(** * The settlement database ([src/src/db/settlement_db.rs])

    The tables the settlement service writes, by their primary keys
    ([src/schema/settlement_unified.cql]), and the client's statements on them.
    A statement may be lost: the client sees an error, and some of the rows may
    have been written all the same. *)

From S2P Require Import Prelude Ledger EngineOutput.

#[local] Open Scope string_scope.
#[local] Open Scope list_scope.
#[local] Open Scope Z_scope.
#[local] Open Scope rust_scope.

(** ** Tables *)

Record LedgerRow := mkLedgerRow {
  row_delta_avail : Z; row_delta_frozen : Z; row_avail : Z; row_frozen : Z;
  row_event_type : string; row_ref_id : Z; row_created_at : Z
}.

Record LogRow := mkLogRow { log_hash : Z; log_prev_hash : Z; log_data : list Z; log_created_at : Z }.

(** Side, type, price, quantity and filled quantity are null in a row that an
    update created. *)
Record ActiveOrder := mkActive {
  ao_order : option (Z * Z * Z * Z * Z); ao_status : Z; ao_updated_at : Z
}.

Record UserTrade := mkUserTrade {
  ut_role : Z; ut_order_id : Z; ut_counterparty_user_id : Z; ut_counterparty_order_id : Z;
  ut_price : Z; ut_quantity : Z; ut_base_asset_id : Z; ut_quote_asset_id : Z;
  ut_output_sequence : Z; ut_match_seq : Z
}.

Record SettledTrade := mkSettled {
  st_trade_date : Z; st_output_sequence : Z; st_match_seq : Z; st_buy_order_id : Z; st_sell_order_id : Z;
  st_buyer_user_id : Z; st_seller_user_id : Z; st_price : Z; st_quantity : Z; st_base_asset_id : Z;
  st_quote_asset_id : Z; st_buyer_refund : Z; st_seller_refund : Z; st_settled_at : Z
}.

(** What becomes of a request: answered, or lost, with the rows that were
    written all the same (none where the list ends). *)
Inductive Answer := Answered | Lost (written : list bool).

(** The answers to come; when they run out every request is answered. *)
Record SettlementDb := mkDb {
  balance_ledger : gmap (Z * Z * Z) LedgerRow;
  engine_output_log : gmap (Z * Z) LogRow;
  active_orders : gmap (Z * Z * Z * Z) ActiveOrder;
  order_lookup : gmap Z (Z * Z * Z);
  user_trades : gmap (Z * Z * Z * Z) UserTrade;
  settled_trades : gmap Z SettledTrade;
  answers : list Answer
}.

Definition set_ledger (x : gmap (Z * Z * Z) LedgerRow) (d : SettlementDb) : SettlementDb :=
  mkDb x (engine_output_log d) (active_orders d) (order_lookup d) (user_trades d) (settled_trades d) (answers d).
Definition set_log (x : gmap (Z * Z) LogRow) (d : SettlementDb) : SettlementDb :=
  mkDb (balance_ledger d) x (active_orders d) (order_lookup d) (user_trades d) (settled_trades d) (answers d).
Definition set_active (x : gmap (Z * Z * Z * Z) ActiveOrder) (d : SettlementDb) : SettlementDb :=
  mkDb (balance_ledger d) (engine_output_log d) x (order_lookup d) (user_trades d) (settled_trades d) (answers d).
Definition set_lookup (x : gmap Z (Z * Z * Z)) (d : SettlementDb) : SettlementDb :=
  mkDb (balance_ledger d) (engine_output_log d) (active_orders d) x (user_trades d) (settled_trades d) (answers d).
Definition set_user_trades (x : gmap (Z * Z * Z * Z) UserTrade) (d : SettlementDb) : SettlementDb :=
  mkDb (balance_ledger d) (engine_output_log d) (active_orders d) (order_lookup d) x (settled_trades d) (answers d).
Definition set_settled (x : gmap Z SettledTrade) (d : SettlementDb) : SettlementDb :=
  mkDb (balance_ledger d) (engine_output_log d) (active_orders d) (order_lookup d) (user_trades d) x (answers d).
Definition set_answers (x : list Answer) (d : SettlementDb) : SettlementDb :=
  mkDb (balance_ledger d) (engine_output_log d) (active_orders d) (order_lookup d) (user_trades d) (settled_trades d) x.

Abbreviation Db A := (M SettlementDb string A).

Fixpoint masked {A} (mask : list bool) (l : list A) : list A :=
  match mask, l with
  | b :: mask', x :: l' => (if (b : bool) then [x] else []) ++ masked mask' l'
  | _, _ => []
  end.

(** A statement, or the statements of an unlogged batch. *)
Definition execute (context : string) (rows : list (SettlementDb -> SettlementDb)) : Db unit :=
  let* d := get in
  let apply := fold_left (fun d f => f d) in
  match answers d with
  | Lost mask :: rest => put (apply (masked mask rows) (set_answers rest d)) ;;; throw context
  | Answered :: rest => put (apply rows (set_answers rest d))
  | [] => put (apply rows d)
  end.

Definition select (context : string) : Db SettlementDb :=
  execute context [] ;;; get.

(** ** The balance ledger *)

Record CurrentBalance := mkCurrent { cb_seq : Z; cb_avail : Z; cb_frozen : Z; cb_updated_at : Z }.

(** [LIMIT 1] of a partition in descending order of the clustering column:
    [column] gives its value for the keys of the partition. *)
Definition newest {K V} `{Countable K} (column : K -> option Z) (t : gmap K V) : option (Z * V) :=
  map_fold (fun k v e =>
    match column k, e with
    | None, _ => e
    | Some s, Some (s0, _) => if s0 <? s then Some (s, v) else e
    | Some s, None => Some (s, v)
    end) None t.

Definition seq_of (user asset : Z) (k : Z * Z * Z) : option Z :=
  if (k.1.1 =? user) && (k.1.2 =? asset) then Some k.2 else None.

Definition latest_row (user asset : Z) (t : gmap (Z * Z * Z) LedgerRow) : option (Z * LedgerRow) :=
  newest (seq_of user asset) t.

Definition get_current_balance (user_id asset_id : Z) : Db (option CurrentBalance) :=
  let* d := select "" in
  ret ((fun e => mkCurrent e.1 (row_avail e.2) (row_frozen e.2) (row_created_at e.2))
         <$> latest_row (as_i64 user_id) (as_i32 asset_id) (balance_ledger d)).

(** [IF NOT EXISTS]: nothing happens to a row that is there. *)
Definition insert_balance_event (k : Z * Z * Z) (r : LedgerRow) (d : SettlementDb) : SettlementDb :=
  match balance_ledger d !! k with
  | Some _ => d
  | None => set_ledger (<[k := r]> (balance_ledger d)) d
  end.

(** The plain [INSERT] of the batch replaces the row. *)
Definition upsert_balance_event (k : Z * Z * Z) (r : LedgerRow) (d : SettlementDb) : SettlementDb :=
  set_ledger (<[k := r]> (balance_ledger d)) d.

Definition append_balance_event (user_id asset_id seq delta_avail delta_frozen avail frozen : Z)
    (event_type : string) (ref_id now : Z) : Db unit :=
  execute "Failed to insert balance event"
    [insert_balance_event (as_i64 user_id, as_i32 asset_id, as_i64 seq)
       (mkLedgerRow delta_avail delta_frozen avail frozen event_type (as_i64 ref_id) now)].

Definition event_key (e : BalanceEvent) : Z * Z * Z :=
  (as_i64 (be_user_id e), as_i32 (be_asset_id e), as_i64 (be_seq e)).

(** A balance the event does not carry is stored as -1. *)
Definition event_row (now : Z) (e : BalanceEvent) : LedgerRow :=
  mkLedgerRow (be_delta_avail e) (be_delta_frozen e) (default (-1) (as_i64 <$> be_avail e))
    (default (-1) (as_i64 <$> be_frozen e)) (be_event_type e) (as_i64 (be_ref_id e)) now.

Definition append_balance_events_batch (events : list BalanceEvent) (now : Z) : Db unit :=
  match events with
  | [] => ret tt
  | _ =>
      execute "Failed to batch insert balance_ledger"
        (map (fun e => upsert_balance_event (event_key e) (event_row now e)) events)
  end.

Section profile.
Context {bp : BuildProfile}.

Definition i64_add (x y : Z) : Db Z := unwrap (i64_op (x + y)).
Definition i64_sub (x y : Z) : Db Z := unwrap (i64_op (x - y)).
Definition i64_neg (x : Z) : Db Z := unwrap (i64_op (- x)).

(** What the four single-account operations share: the check on the sequence
    number and the append of the new balances. *)
Definition append_change (user_id asset_id new_seq delta_avail delta_frozen new_avail new_frozen : Z)
    (event_type : string) (ref_id now : Z) : Db CurrentBalance :=
  append_balance_event user_id asset_id new_seq delta_avail delta_frozen new_avail new_frozen
    event_type ref_id now ;;;
  ret (mkCurrent (as_i64 new_seq) new_avail new_frozen now).

Definition db_deposit (user_id asset_id amount new_seq ref_id now : Z) : Db CurrentBalance :=
  let* found := get_current_balance user_id asset_id in
  let current := default (mkCurrent 0 0 0 0) found in
  if new_seq <=? as_u64 (cb_seq current) then ret current
  else
    let delta_avail := as_i64 amount in
    let* new_avail := i64_add (cb_avail current) delta_avail in
    append_change user_id asset_id new_seq delta_avail 0 new_avail (cb_frozen current) "deposit" ref_id now.

Definition existing_balance (user_id asset_id : Z) : Db CurrentBalance :=
  let* found := get_current_balance user_id asset_id in
  ok_or found "No balance - deposit required first".

Definition db_lock (user_id asset_id amount new_seq ref_id now : Z) : Db CurrentBalance :=
  let* current := existing_balance user_id asset_id in
  if new_seq <=? as_u64 (cb_seq current) then ret current
  else
    let* delta_avail := i64_neg (as_i64 amount) in
    let delta_frozen := as_i64 amount in
    let* new_avail := i64_add (cb_avail current) delta_avail in
    let* new_frozen := i64_add (cb_frozen current) delta_frozen in
    append_change user_id asset_id new_seq delta_avail delta_frozen new_avail new_frozen "lock" ref_id now.

Definition db_unlock (user_id asset_id amount new_seq ref_id now : Z) : Db CurrentBalance :=
  let* current := existing_balance user_id asset_id in
  if new_seq <=? as_u64 (cb_seq current) then ret current
  else
    let delta_avail := as_i64 amount in
    let* delta_frozen := i64_neg (as_i64 amount) in
    let* new_avail := i64_add (cb_avail current) delta_avail in
    let* new_frozen := i64_add (cb_frozen current) delta_frozen in
    append_change user_id asset_id new_seq delta_avail delta_frozen new_avail new_frozen "unlock" ref_id now.

Definition db_withdraw (user_id asset_id amount new_seq ref_id now : Z) : Db CurrentBalance :=
  let* current := existing_balance user_id asset_id in
  if new_seq <=? as_u64 (cb_seq current) then ret current
  else
    let* delta_avail := i64_neg (as_i64 amount) in
    let* new_avail := i64_add (cb_avail current) delta_avail in
    append_change user_id asset_id new_seq delta_avail 0 new_avail (cb_frozen current) "withdraw" ref_id now.

(** ** Settlement of a trade *)

(** The loop re-reads until the row is as new as expected, four more times at most;
    the waiting between the reads is not modelled. *)
Fixpoint get_consistent_balance (attempts : nat) (user_id asset_id expected_ver : Z) : Db CurrentBalance :=
  let* current := existing_balance user_id asset_id in
  if expected_ver <=? cb_seq current then ret current
  else
    match attempts with
    | O => ret current
    | S n => get_consistent_balance n user_id asset_id expected_ver
    end.

(** The stored version is the expected one or the one before it. *)
Definition check_version (stored expected : Z) : Db unit :=
  if expected <=? stored then
    (if stored =? expected then ret tt else throw "Version mismatch")
  else
    let* before := i64_sub expected 1 in
    if stored =? before then ret tt else throw "Version gap".

Definition insert_settled (trade_date : Z) (t : MatchExecData) (d : SettlementDb) : SettlementDb :=
  set_settled (<[as_i64 (trade_id t) :=
    mkSettled trade_date (as_i64 (output_sequence t)) (as_i64 (match_seq t)) (as_i64 (buy_order_id t))
      (as_i64 (sell_order_id t)) (as_i64 (buyer_user_id t)) (as_i64 (seller_user_id t)) (as_i64 (price t))
      (as_i64 (quantity t)) (as_i32 (base_asset_id t)) (as_i32 (quote_asset_id t)) (as_i64 (buyer_refund t))
      (as_i64 (seller_refund t)) (as_i64 (settled_at t))]> (settled_trades d)) d.

(** The check whether the trade is there already looks for the date as well;
    an error of the query is taken for "no". *)
Definition trade_is_settled (trade_date trade_id : Z) : Db bool :=
  fun d =>
    match select "" d with
    | Ok d' _ =>
        Ok (match settled_trades d' !! as_i64 trade_id with
            | Some row => st_trade_date row =? trade_date
            | None => false
            end) d'
    | Err _ d' => Ok false d'
    | Panic => Panic
    end.

Definition settle_trade_atomically (t : MatchExecData) (trade_date now : Z) : Db unit :=
  let* settled := trade_is_settled trade_date (trade_id t) in
  if (settled : bool) then ret tt
  else
    let* bb := get_consistent_balance 4 (buyer_user_id t) (base_asset_id t) (as_i64 (buyer_base_version t)) in
    let* bq := get_consistent_balance 4 (buyer_user_id t) (quote_asset_id t) (as_i64 (buyer_quote_version t)) in
    let* sb := get_consistent_balance 4 (seller_user_id t) (base_asset_id t) (as_i64 (seller_base_version t)) in
    let* sq := get_consistent_balance 4 (seller_user_id t) (quote_asset_id t) (as_i64 (seller_quote_version t)) in
    let* cost := unwrap (op_mul (price t) (quantity t)) in
    let quote_amount := as_i64 cost in
    let qty := as_i64 (quantity t) in
    let* new_buyer_base := i64_add (cb_avail bb) qty in
    let* new_buyer_quote := i64_sub (cb_avail bq) quote_amount in
    let* new_seller_base := i64_sub (cb_avail sb) qty in
    let* new_seller_quote := i64_add (cb_avail sq) quote_amount in
    check_version (cb_seq bb) (as_i64 (buyer_base_version t)) ;;;
    check_version (cb_seq bq) (as_i64 (buyer_quote_version t)) ;;;
    check_version (cb_seq sb) (as_i64 (seller_base_version t)) ;;;
    check_version (cb_seq sq) (as_i64 (seller_quote_version t)) ;;;
    let buyer_quote_inc := if 0 <? buyer_refund t then 2 else 1 in
    let seller_base_inc := if 0 <? seller_refund t then 2 else 1 in
    let* bb_ver := i64_add (cb_seq bb) 1 in
    let* bq_ver := i64_add (cb_seq bq) buyer_quote_inc in
    let* sb_ver := i64_add (cb_seq sb) seller_base_inc in
    let* sq_ver := i64_add (cb_seq sq) 1 in
    execute "Failed to insert trade" [insert_settled trade_date t] ;;;
    append_balance_event (buyer_user_id t) (base_asset_id t) (as_u64 bb_ver) qty 0
      new_buyer_base (cb_frozen bb) "trade_credit" (trade_id t) now ;;;
    let* spent_quote := i64_neg quote_amount in
    let* bq_frozen := i64_sub (cb_frozen bq) quote_amount in
    append_balance_event (buyer_user_id t) (quote_asset_id t) (as_u64 bq_ver) 0 spent_quote
      new_buyer_quote bq_frozen "trade_debit" (trade_id t) now ;;;
    let* spent_base := i64_neg qty in
    let* sb_frozen := i64_sub (cb_frozen sb) qty in
    append_balance_event (seller_user_id t) (base_asset_id t) (as_u64 sb_ver) 0 spent_base
      new_seller_base sb_frozen "trade_debit" (trade_id t) now ;;;
    append_balance_event (seller_user_id t) (quote_asset_id t) (as_u64 sq_ver) quote_amount 0
      new_seller_quote (cb_frozen sq) "trade_credit" (trade_id t) now.
End profile.

(** ** Orders and trades of a user *)

Definition insert_active_order (p : OrderPlacement) : Db unit :=
  let created := as_i64 (pl_created_at p) in
  let user := as_i64 (pl_user_id p) in
  let symbol := as_i32 (pl_symbol_id p) in
  let order := as_i64 (pl_order_id p) in
  execute "Failed to insert active_order"
    [fun d => set_active (<[(user, symbol, created, order) :=
       mkActive (Some (pl_side p, pl_order_type p, as_i64 (pl_price p), as_i64 (pl_quantity p), 0)) 0 created]>
         (active_orders d)) d] ;;;
  execute "Failed to insert order_lookup"
    [fun d => set_lookup (<[order := (user, symbol, created)]> (order_lookup d)) d].

Definition completion_status (r : CompletionReason) : Z :=
  match r with CompletedFilled => 2 | CompletedCancelled => 3 end.

(** [UPDATE] writes the row whether it is there or not. *)
Definition update_status (status completed_at : Z) (old : option ActiveOrder) : option ActiveOrder :=
  Some (mkActive (old ≫= ao_order) status completed_at).

Definition mark_order_complete (order_id : Z) (reason : CompletionReason) (completed_at : Z) : Db unit :=
  let* d := select "Failed to lookup order partition key" in
  match order_lookup d !! as_i64 order_id with
  | None => ret tt
  | Some (user, symbol, created) =>
      execute "Failed to update order status"
        [fun d => set_active (partial_alter (update_status (completion_status reason) (as_i64 completed_at))
           (user, symbol, created, as_i64 order_id) (active_orders d)) d]
  end.

Definition get_symbol_id_from_assets (base quote : Z) : Z :=
  if (base =? 1) && (quote =? 2) then 1 else 0.

Definition insert_user_trade (user symbol settled_at role order counterparty counterparty_order : Z)
    (t : TradeOutput) (d : SettlementDb) : SettlementDb :=
  set_user_trades (<[(as_i64 user, as_i32 symbol, settled_at, as_i64 (to_trade_id t)) :=
    mkUserTrade role (as_i64 order) (as_i64 counterparty) (as_i64 counterparty_order) (as_i64 (to_price t))
      (as_i64 (to_quantity t)) (as_i32 (to_base_asset_id t)) (as_i32 (to_quote_asset_id t)) 0
      (as_i64 (to_match_seq t))]> (user_trades d)) d.

Definition write_user_trades (t : TradeOutput) (settled_at : Z) : Db unit :=
  let symbol := get_symbol_id_from_assets (to_base_asset_id t) (to_quote_asset_id t) in
  execute "Failed to insert buyer user_trade"
    [insert_user_trade (to_buyer_user_id t) symbol settled_at 0 (to_buy_order_id t) (to_seller_user_id t)
       (to_sell_order_id t) t] ;;;
  execute "Failed to insert seller user_trade"
    [insert_user_trade (to_seller_user_id t) symbol settled_at 1 (to_sell_order_id t) (to_buyer_user_id t)
       (to_buy_order_id t) t].

(** ** The log of engine outputs *)

(** [bincode::serialize] and [lz4_flex::compress_prepend_size]. *)
Class OutputCodec := { bincode_output : EngineOutput -> option (list Z); lz4 : list Z -> list Z }.

Section output_log.
Context `{OutputCodec}.

Definition log_key (o : EngineOutput) : Z * Z := (as_i32 (out_symbol_id o), as_i64 (out_seq o)).

Definition log_row (now : Z) (o : EngineOutput) (data : list Z) : LogRow :=
  mkLogRow (as_i64 (hash o)) (as_i64 (prev_hash o)) (lz4 data) now.

Definition insert_output (now : Z) (o : EngineOutput) (data : list Z) (d : SettlementDb) : SettlementDb :=
  set_log (<[log_key o := log_row now o data]> (engine_output_log d)) d.

Definition write_engine_outputs_batch (outputs : list EngineOutput) (now : Z) : Db unit :=
  match outputs with
  | [] => ret tt
  | _ =>
      let* rows := ok_or (mapM (fun o => insert_output now o <$> bincode_output o) outputs)
                     "Failed to serialize EngineOutput" in
      execute "Failed to batch write engine_output_log" rows
  end.
End output_log.

(** The newest row of the partition of a symbol. *)
Definition newest_log_row (symbol : Z) (t : gmap (Z * Z) LogRow) : option (Z * LogRow) :=
  newest (fun k => if k.1 =? symbol then Some k.2 else None) t.

Definition get_chain_state : Db (Z * Z) :=
  let* d := select "Failed to query engine_output_log for chain state" in
  ret (match newest_log_row 0 (engine_output_log d) with
       | Some (seq, r) => (as_u64 seq, as_u64 (log_hash r))
       | None => (0, 0)
       end).
