(* ===== verification/SettlementDbProofs.v ===== *)
(** * What the settlement database keeps

    The single-account operations of the balance ledger keep its running
    balances equal to the sums of its deltas, whichever requests are lost, and
    ignore a request that comes again; the settlement of a trade and the batch
    writer do not. *)

From S2P Require Import Prelude Ledger EngineOutput SettlementDb.

#[local] Open Scope string_scope.
#[local] Open Scope list_scope.
#[local] Open Scope Z_scope.
#[local] Open Scope rust_scope.

(** ** Signed wrap-around *)

Lemma as_i64_eq x : exists k, as_i64 x = x + k * u64_mod.
Proof.
  unfold as_i64. pose proof (Z.div_mod x u64_mod ltac:(done)) as Hx.
  destruct (_ <? _); [exists (- (x / u64_mod))|exists (- (x / u64_mod) - 1)]; lia.
Qed.

Lemma as_i64_range x : -9223372036854775808 <= as_i64 x <= 9223372036854775807.
Proof.
  unfold as_i64. pose proof (Z.mod_pos_bound x u64_mod ltac:(done)).
  destruct (Z.ltb_spec (x mod u64_mod) 9223372036854775808); unfold u64_mod in *; lia.
Qed.

Lemma as_i64_shift x k : as_i64 (x + k * u64_mod) = as_i64 x.
Proof. unfold as_i64. by rewrite Z.mod_add by done. Qed.

Lemma as_i64_add_l x y : as_i64 (as_i64 x + y) = as_i64 (x + y).
Proof.
  destruct (as_i64_eq x) as [k ->]. replace (x + k * u64_mod + y) with (x + y + k * u64_mod) by lia.
  apply as_i64_shift.
Qed.

Lemma as_i64_unique x y k :
  -9223372036854775808 <= y <= 9223372036854775807 -> y = x + k * u64_mod -> as_i64 x = y.
Proof.
  intros Hy ->. pose proof (as_i64_range x). destruct (as_i64_eq x) as [k' Hk]. rewrite Hk in *.
  unfold u64_mod in *. lia.
Qed.

(** Both profiles: an operator that returns has wrapped. *)
Lemma i64_op_wraps {bp : BuildProfile} x y : i64_op x = Some y -> y = as_i64 x.
Proof.
  unfold i64_op, in_range. set (lo := -9223372036854775808).
  assert (exists k, (x - lo) mod u64_mod + lo = x + k * u64_mod) as [k Hk].
  { exists (- ((x - lo) / u64_mod)). pose proof (Z.div_mod (x - lo) u64_mod ltac:(done)). lia. }
  pose proof (Z.mod_pos_bound (x - lo) u64_mod ltac:(done)) as Hr.
  assert (as_i64 x = (x - lo) mod u64_mod + lo) as Hwrap.
  { apply (as_i64_unique x _ k); [|done]. unfold lo, u64_mod in *. lia. }
  destruct (Z.leb_spec lo x), (Z.leb_spec x 9223372036854775807); simpl;
    [|destruct overflow_checks; [done|]; by intros [= <-]..].
  intros [= <-]. symmetry. apply (as_i64_unique x x 0); unfold lo in *; lia.
Qed.

(** ** The newest row of a partition *)

Section newest.
Context {K V : Type} `{Countable K} (column : K -> option Z).

Lemma newest_spec (t : gmap K V) :
  match newest column t with
  | Some (s, v) => (exists k, column k = Some s /\ t !! k = Some v) /\
      forall k s', column k = Some s' -> is_Some (t !! k) -> s' <= s
  | None => forall k s, column k = Some s -> t !! k = None
  end.
Proof.
  unfold newest. apply (map_fold_weak_ind (fun e (t : gmap K V) => match e with
    | Some (s, v) => (exists k, column k = Some s /\ t !! k = Some v) /\
        forall k s', column k = Some s' -> is_Some (t !! k) -> s' <= s
    | None => forall k s, column k = Some s -> t !! k = None end)); [intros k s _; apply lookup_empty|].
  intros k v m e Hnew IH. destruct (column k) as [s|] eqn:Hk.
  - destruct e as [[s0 v0]|].
    + destruct IH as [(k0 & Hk0 & Hv0) IH2]. destruct (Z.ltb_spec s0 s).
      * split; [exists k; by rewrite lookup_insert_eq|]. intros k' s' Hk' Hin.
        destruct (decide (k' = k)) as [->|]; [rewrite Hk in Hk'; injection Hk' as <-; lia|].
        rewrite lookup_insert_ne in Hin by done. specialize (IH2 k' s' Hk' Hin). lia.
      * split; [exists k0; rewrite lookup_insert_ne by (intros ->; congruence); done|]. intros k' s' Hk' Hin.
        destruct (decide (k' = k)) as [->|]; [rewrite Hk in Hk'; injection Hk' as <-; lia|].
        rewrite lookup_insert_ne in Hin by done. by apply (IH2 k').
    + split; [exists k; by rewrite lookup_insert_eq|]. intros k' s' Hk' Hin.
      destruct (decide (k' = k)) as [->|]; [rewrite Hk in Hk'; injection Hk' as <-; lia|].
      rewrite lookup_insert_ne in Hin by done. rewrite (IH k' s' Hk') in Hin. by destruct Hin.
  - destruct e as [[s0 v0]|].
    + destruct IH as [(k0 & Hk0 & Hv0) IH2].
      split; [exists k0; rewrite lookup_insert_ne by (intros ->; congruence); done|]. intros k' s' Hk' Hin.
      rewrite lookup_insert_ne in Hin by (intros ->; congruence). by apply (IH2 k').
    + intros k' s' Hk'. rewrite lookup_insert_ne by (intros ->; congruence). by apply (IH k' s').
Qed.

(** Keys of one partition differ in the column. *)
Hypothesis column_inj : forall k1 k2 s, column k1 = Some s -> column k2 = Some s -> k1 = k2.

Lemma newest_unique (t : gmap K V) k s v :
  column k = Some s -> t !! k = Some v -> (forall k' s', column k' = Some s' -> is_Some (t !! k') -> s' <= s) ->
  newest column t = Some (s, v).
Proof.
  intros Hk Hv Hmax. pose proof (newest_spec t) as Hl. destruct (newest column t) as [[s0 v0]|].
  - destruct Hl as [(k0 & Hk0 & Hv0) H2].
    assert (s0 = s) as ->.
    { pose proof (Hmax k0 s0 Hk0 (mk_is_Some _ _ Hv0)). pose proof (H2 k s Hk (mk_is_Some _ _ Hv)). lia. }
    rewrite (column_inj k0 k s Hk0 Hk) in Hv0. congruence.
  - by rewrite (Hl k s Hk) in Hv.
Qed.

(** The answer depends on the rows of the partition only. *)
Lemma newest_ext (t1 t2 : gmap K V) :
  (forall k, is_Some (column k) -> t1 !! k = t2 !! k) -> newest column t1 = newest column t2.
Proof.
  intros Heq. pose proof (newest_spec t2) as Hl. destruct (newest column t2) as [[s v]|].
  - destruct Hl as [(k & Hk & Hv) H2]. apply (newest_unique t1 k); [done|by rewrite Heq|].
    intros k' s' Hk'. rewrite Heq by done. by apply H2.
  - pose proof (newest_spec t1) as Hl1. destruct (newest column t1) as [[s v]|]; [|done].
    destruct Hl1 as [(k & Hk & Hv) _]. by rewrite Heq, (Hl k s Hk) in Hv by done.
Qed.
End newest.

Lemma seq_of_Some user asset k s : seq_of user asset k = Some s <-> k = (user, asset, s).
Proof.
  destruct k as [[u a] x]. unfold seq_of. simpl.
  destruct (Z.eqb_spec u user), (Z.eqb_spec a asset); simpl; naive_solver.
Qed.

Lemma seq_of_inj user asset k1 k2 s :
  seq_of user asset k1 = Some s -> seq_of user asset k2 = Some s -> k1 = k2.
Proof. by intros ->%seq_of_Some ->%seq_of_Some. Qed.

Lemma latest_row_spec user asset t :
  match latest_row user asset t with
  | Some (s, r) => t !! (user, asset, s) = Some r /\
      forall s' r', t !! (user, asset, s') = Some r' -> s' <= s
  | None => forall s', t !! (user, asset, s') = None
  end.
Proof.
  pose proof (newest_spec (seq_of user asset) t) as Hl. unfold latest_row.
  destruct (newest (seq_of user asset) t) as [[s r]|].
  - destruct Hl as [(k & ->%seq_of_Some & Hv) H2]. split; [done|]. intros s' r' Hl'.
    apply (H2 (user, asset, s')); [by apply seq_of_Some|by rewrite Hl'].
  - intros s'. by apply (Hl (user, asset, s') s'), seq_of_Some.
Qed.

Lemma latest_row_unique user asset t s r :
  t !! (user, asset, s) = Some r -> (forall s' r', t !! (user, asset, s') = Some r' -> s' <= s) ->
  latest_row user asset t = Some (s, r).
Proof.
  intros Hs Hmax. apply (newest_unique _ (seq_of_inj user asset) t (user, asset, s));
    [by apply seq_of_Some|done|]. intros k' s' ->%seq_of_Some [r' Hr']. by apply (Hmax s' r').
Qed.

Lemma latest_row_ext user asset t1 t2 :
  (forall s, t1 !! (user, asset, s) = t2 !! (user, asset, s)) -> latest_row user asset t1 = latest_row user asset t2.
Proof.
  intros Heq. apply newest_ext; [apply seq_of_inj|].
  intros k [s ->%seq_of_Some]. apply Heq.
Qed.

(** A new newest row. *)
Lemma latest_row_insert user asset seq r t u a :
  (forall s' r', t !! (user, asset, s') = Some r' -> s' <= seq) ->
  latest_row u a (<[(user, asset, seq) := r]> t) =
  if (user =? u) && (asset =? a) then Some (seq, r) else latest_row u a t.
Proof.
  intros Hmax. destruct (Z.eqb_spec user u) as [->|Hu], (Z.eqb_spec asset a) as [->|Ha]; simpl;
    [|apply latest_row_ext; intros s; by rewrite lookup_insert_ne by congruence..].
  apply latest_row_unique; [by rewrite lookup_insert_eq|]. intros s' r'.
  destruct (decide (s' = seq)) as [->|]; [lia|]. rewrite lookup_insert_ne by congruence. apply Hmax.
Qed.

(** ** Running balances *)

(** The sum of a column over the rows of a partition. *)
Definition column_sum (f : LedgerRow -> Z) (user asset : Z) (t : gmap (Z * Z * Z) LedgerRow) : Z :=
  map_fold (fun k r z => if (k.1.1 =? user) && (k.1.2 =? asset) then f r + z else z) 0 t.

Lemma column_sum_insert f user asset seq r t u a :
  t !! (user, asset, seq) = None ->
  column_sum f u a (<[(user, asset, seq) := r]> t) =
  (if (user =? u) && (asset =? a) then f r else 0) + column_sum f u a t.
Proof.
  intros Hnew. unfold column_sum. rewrite map_fold_insert_L; [|intros; repeat case_match; lia|done].
  simpl. by destruct (_ && _).
Qed.

Definition latest_of (f : LedgerRow -> Z) (user asset : Z) (t : gmap (Z * Z * Z) LedgerRow) : Z :=
  default 0 ((fun e => f e.2) <$> latest_row user asset t).

(** The balances of the newest row are the sums of the changes of all rows, in
    64 bits; sequence numbers are not negative. *)
Record ledger_adds_up (t : gmap (Z * Z * Z) LedgerRow) : Prop := {
  avail_adds_up u a : latest_of row_avail u a t = as_i64 (column_sum row_delta_avail u a t);
  frozen_adds_up u a : latest_of row_frozen u a t = as_i64 (column_sum row_delta_frozen u a t);
  seqs_range : map_Forall (fun k _ => 0 <= k.2 <= 9223372036854775807) t
}.

(** ** The statements *)

(** Only the answers to come change. *)
Definition same_tables (d d' : SettlementDb) : Prop := exists l, d' = set_answers l d.

Lemma get_current_balance_eq user asset d :
  exists d', same_tables d d' /\
    (get_current_balance user asset d =
       Ok ((fun e => mkCurrent e.1 (row_avail e.2) (row_frozen e.2) (row_created_at e.2))
             <$> latest_row (as_i64 user) (as_i32 asset) (balance_ledger d)) d' \/
     exists err, get_current_balance user asset d = Err err d').
Proof.
  unfold get_current_balance, select, execute, bind, get, put, throw, ret.
  destruct (answers d) as [|[|mask] rest].
  - exists d. split; [exists (answers d); by destruct d|]. left. done.
  - exists (set_answers rest d). split; [by eexists|]. by left.
  - exists (set_answers rest d). assert (masked (A := SettlementDb -> SettlementDb) mask [] = []) as -> by by destruct mask.
    split; [by eexists|]. right. by eexists.
Qed.

(** One row, written or not, whatever is answered. *)
Lemma execute_one context f d :
  (forall l d, set_answers l (f d) = f (set_answers l d)) ->
  exists d', (same_tables d d' \/ same_tables (f d) d') /\
    (execute context [f] d = Ok tt d' /\ same_tables (f d) d' \/ execute context [f] d = Err context d').
Proof.
  intros Hf. unfold execute, bind, get, put, throw, ret. destruct (answers d) as [|[|mask] rest] eqn:Ha.
  - exists (f d). assert (same_tables (f d) (f d)) by (exists (answers (f d)); by destruct (f d)). auto.
  - exists (f (set_answers rest d)).
    assert (same_tables (f d) (f (set_answers rest d))) by (exists rest; by rewrite Hf). auto.
  - destruct mask as [|[] mask]; simpl.
    + exists (set_answers rest d). split; [left; by eexists|by right].
    + assert (masked mask ([] : list (SettlementDb -> SettlementDb)) = []) as -> by by destruct mask.
      exists (f (set_answers rest d)). split; [right; exists rest; by rewrite Hf|by right].
    + assert (masked mask ([] : list (SettlementDb -> SettlementDb)) = []) as -> by by destruct mask.
      exists (set_answers rest d). split; [left; by eexists|by right].
Qed.

(** ** One more row *)

Lemma adds_up_insert user asset seq r t :
  ledger_adds_up t -> 0 <= seq <= 9223372036854775807 ->
  (forall s' r', t !! (user, asset, s') = Some r' -> s' < seq) ->
  row_avail r = as_i64 (latest_of row_avail user asset t + row_delta_avail r) ->
  row_frozen r = as_i64 (latest_of row_frozen user asset t + row_delta_frozen r) ->
  ledger_adds_up (<[(user, asset, seq) := r]> t).
Proof.
  intros [Ha Hf Hs] Hseq Hnew Hra Hrf.
  assert (t !! (user, asset, seq) = None) as Hnone.
  { destruct (t !! (user, asset, seq)) eqn:Hl; [|done]. apply Hnew in Hl. lia. }
  assert (forall s' r', t !! (user, asset, s') = Some r' -> s' <= seq) as Hle
    by (intros s' r' Hl%Hnew; lia).
  split; [| |by apply map_Forall_insert_2]; intros u a; rewrite column_sum_insert by done;
    unfold latest_of; rewrite latest_row_insert by done;
    (destruct (Z.eqb_spec user u) as [->|], (Z.eqb_spec asset a) as [->|]; simpl; [|apply Ha || apply Hf..]).
  - rewrite Hra, Ha, as_i64_add_l. f_equal. lia.
  - rewrite Hrf, Hf, as_i64_add_l. f_equal. lia.
Qed.

Lemma adds_up_tables d d' : same_tables d d' -> balance_ledger d' = balance_ledger d.
Proof. by intros [l ->]. Qed.

(** What the client read is the newest row. *)
Definition current_of (d : SettlementDb) (user asset : Z) (c : CurrentBalance) : Prop :=
  cb_avail c = latest_of row_avail user asset (balance_ledger d) /\
  cb_frozen c = latest_of row_frozen user asset (balance_ledger d) /\
  0 <= cb_seq c <= 9223372036854775807 /\
  (forall s r, balance_ledger d !! (user, asset, s) = Some r -> s <= cb_seq c).

Lemma current_latest d user asset e :
  ledger_adds_up (balance_ledger d) -> latest_row user asset (balance_ledger d) = Some e ->
  current_of d user asset (mkCurrent e.1 (row_avail e.2) (row_frozen e.2) (row_created_at e.2)).
Proof.
  intros [_ _ Hs] He. pose proof (latest_row_spec user asset (balance_ledger d)) as Hl.
  unfold current_of, latest_of. rewrite He in *. destruct e as [s r]. destruct Hl as [Hl1 Hl2].
  pose proof (Hs _ _ Hl1) as Hr. simpl in *. split_and!; try done; lia.
Qed.

Lemma current_none d user asset :
  latest_row user asset (balance_ledger d) = None -> current_of d user asset (mkCurrent 0 0 0 0).
Proof.
  intros He. pose proof (latest_row_spec user asset (balance_ledger d)) as Hl.
  unfold current_of, latest_of. rewrite He in *. split_and!; try done. intros s r. by rewrite Hl.
Qed.

Definition tables_add_up (d : SettlementDb) : Prop := ledger_adds_up (balance_ledger d).

Lemma current_frozen d user asset c :
  tables_add_up d -> current_of d user asset c -> cb_frozen c = as_i64 (cb_frozen c + 0).
Proof.
  intros [_ Hf _] (_ & -> & _). rewrite (Hf user asset), as_i64_add_l. f_equal. lia.
Qed.

Lemma append_adds_up user asset seq da df na nf ev ref now d c :
  tables_add_up d -> current_of d (as_i64 user) (as_i32 asset) c -> 0 <= seq <= 9223372036854775807 ->
  cb_seq c < seq -> na = as_i64 (cb_avail c + da) -> nf = as_i64 (cb_frozen c + df) ->
  forall d', state_of (append_change user asset seq da df na nf ev ref now d) = Some d' -> tables_add_up d'.
Proof.
  intros Hd (Hca & Hcf & _ & Hmax) Hseq Hlt -> -> d'.
  assert (as_i64 seq = seq) as Hkey by (apply as_i64_id; lia).
  unfold append_change, append_balance_event. rewrite Hkey.
  set (f := insert_balance_event (as_i64 user, as_i32 asset, seq) _).
  assert (tables_add_up (f d)) as Hf.
  { unfold tables_add_up, f, insert_balance_event. destruct (balance_ledger d !! _) eqn:Hl; [done|].
    simpl. apply adds_up_insert; simpl; [done|lia| |by rewrite Hca|by rewrite Hcf].
    intros s' r' Hl'%Hmax. lia. }
  destruct (execute_one "Failed to insert balance event" f d) as (d1 & Htab & Hrun).
  { intros l d0. unfold f, insert_balance_event. simpl. by destruct (balance_ledger d0 !! _). }
  assert (tables_add_up d1) as Hd1.
  { unfold tables_add_up. destruct Htab as [->%adds_up_tables| ->%adds_up_tables]; done. }
  unfold bind, ret. destruct Hrun as [[-> _]| ->]; by intros [= <-].
Qed.

(** ** The operations *)

Section ops.
Context {bp : BuildProfile}.

Inductive LedgerOpKind := LedgerDeposit | LedgerLock | LedgerUnlock | LedgerWithdraw.

Record LedgerOp := mkLedgerOp {
  lo_kind : LedgerOpKind; lo_user : Z; lo_asset : Z; lo_amount : Z; lo_seq : Z; lo_ref : Z; lo_now : Z
}.

Definition run_ledger_op (o : LedgerOp) : M SettlementDb string CurrentBalance :=
  (match lo_kind o with
   | LedgerDeposit => db_deposit
   | LedgerLock => db_lock
   | LedgerUnlock => db_unlock
   | LedgerWithdraw => db_withdraw
   end) (lo_user o) (lo_asset o) (lo_amount o) (lo_seq o) (lo_ref o) (lo_now o).

Fixpoint run_ledger_ops (os : list LedgerOp) (d : SettlementDb) : SettlementDb :=
  match os with
  | [] => d
  | o :: os' =>
      match state_of (run_ledger_op o d) with
      | Some d' => run_ledger_ops os' d'
      | None => d
      end
  end.

(** Destructs the operator at the head of what is left to run. *)
Ltac op_step :=
  match goal with
  | |- context [unwrap (i64_op ?x) _] =>
      let H := fresh "Hop" in
      destruct (i64_op x) eqn:H; cbn [unwrap]; cbv beta iota delta [ret panic];
      [apply i64_op_wraps in H; subst|by intros [=]]
  end.

Lemma ledger_op_adds_up o :
  0 <= lo_seq o <= 9223372036854775807 -> Preserves tables_add_up (run_ledger_op o).
Proof.
  intros Hseq d d' Hd. destruct o as [kind user asset amount seq ref now]. unfold run_ledger_op.
  cbn [lo_kind lo_user lo_asset lo_amount lo_seq lo_ref lo_now] in *.
  destruct (get_current_balance_eq user asset d) as (d1 & Htab & Hget).
  apply adds_up_tables in Htab. assert (tables_add_up d1) as Hd1 by (unfold tables_add_up; by rewrite Htab).
  destruct Hget as [Hget|[err Hget]].
  2:{ destruct kind; unfold db_deposit, db_lock, db_unlock, db_withdraw, existing_balance;
        unfold bind at 1; try (unfold bind at 1); rewrite Hget; by intros [= <-]. }
  rewrite <- Htab in Hget. destruct (latest_row (as_i64 user) (as_i32 asset) (balance_ledger d1)) as [e|] eqn:He.
  - pose proof (current_latest d1 _ _ e Hd1 He) as Hc. simpl in Hget. set (c := mkCurrent _ _ _ _) in *.
    assert (as_u64 (cb_seq c) = cb_seq c) as Hu by (destruct Hc as (_ & _ & ? & _); apply as_u64_id; ulia).
    pose proof (current_frozen d1 _ _ c Hd1 Hc) as Hfz.
    destruct kind; unfold db_deposit, db_lock, db_unlock, db_withdraw, existing_balance;
      unfold bind at 1; try (unfold bind at 1); rewrite Hget; cbv beta iota delta [ok_or from_option id ret]; rewrite ?Hu;
      (destruct (Z.leb_spec seq (cb_seq c)); [by intros [= <-]|]);
      unfold i64_add, i64_neg; repeat (try (unfold bind at 1); op_step);
      by apply (append_adds_up _ _ _ _ _ _ _ _ _ _ _ c).
  - pose proof (current_none d1 _ _ He) as Hc. simpl in Hget.
    destruct kind; unfold db_deposit, db_lock, db_unlock, db_withdraw, existing_balance;
      unfold bind at 1; try (unfold bind at 1); rewrite Hget;
      cbv beta iota delta [from_option id ok_or throw]; [|by intros [= <-]..].
    cbn [cb_seq]. change (as_u64 0) with 0.
    destruct (Z.leb_spec seq 0); [by intros [= <-]|].
    unfold i64_add; repeat (try (unfold bind at 1); op_step).
    by apply (append_adds_up _ _ _ _ _ _ _ _ _ _ _ (mkCurrent 0 0 0 0)).
Qed.

(** C21: The balance ledger adds up.  Whatever deposits, locks, unlocks and
    withdrawals are asked for, with whatever amounts and whatever sequence
    numbers an [i64] holds, with overflow checks or without, and whichever of their requests are lost -
    written or not - the newest balances of every user and asset are the sums
    of all recorded changes, in 64 bits. *)
Theorem ledger_history_adds_up os d :
  Forall (fun o => 0 <= lo_seq o <= 9223372036854775807) os ->
  ledger_adds_up (balance_ledger d) -> ledger_adds_up (balance_ledger (run_ledger_ops os d)).
Proof.
  intros Hos. revert d. induction Hos as [|o os Ho _ IH]; intros d Hd; simpl; [done|].
  destruct (state_of (run_ledger_op o d)) as [d'|] eqn:Hr; [|done].
  apply IH. by apply (ledger_op_adds_up o Ho d d' Hd).
Qed.

End ops.

(** ** Examples *)

Module Concrete.

Definition empty_db : SettlementDb := mkDb ∅ ∅ ∅ ∅ ∅ ∅ [].

(** A deposit whose row is written although the answer is lost, the deposit
    again, and a lock. *)
Definition sample_ops : list LedgerOp := [
  mkLedgerOp LedgerDeposit 7 1 10 1 500 1000; mkLedgerOp LedgerDeposit 7 1 10 1 500 1001;
  mkLedgerOp LedgerLock 7 1 4 2 501 1002].

Definition sample_db : SettlementDb := set_answers [Answered; Lost [true]] empty_db.

Lemma ledger_history_adds_up_witness :
  let t := balance_ledger (run_ledger_ops (bp := debug_profile) sample_ops sample_db) in
  ledger_adds_up t /\ latest_of row_avail 7 1 t = 6 /\ latest_of row_frozen 7 1 t = 4.
Proof.
  split; [|split; reflexivity].
  apply (ledger_history_adds_up (bp := debug_profile)).
  - repeat (apply Forall_cons; split; [vm_compute; split; discriminate|]). by apply Forall_nil.
  - split; [reflexivity..|apply map_Forall_empty].
Defined.
End Concrete.
