(* ===== verification/Settlement.v ===== *)
(** * The settlement service ([src/src/bin/settlement_service.rs])

    The check of the hash chain over the batches that the queue delivers, the
    write of the log that is the source of truth, and the dispatch of what an
    output carries to the writers of the derived tables.  The writers' channels
    are bounded and the senders wait, so that nothing is dropped on the way;
    the channels are the lists of what was sent and not yet taken. *)

From S2P Require Import Prelude Ledger EngineOutput SettlementDb.

#[local] Open Scope string_scope.
#[local] Open Scope list_scope.
#[local] Open Scope Z_scope.
#[local] Open Scope rust_scope.

Definition MAX_DRAIN_BATCH : nat := 200.
Definition NUM_BALANCE_WRITERS : Z := 4.
Definition DERIVED_WRITER_BUFFER : nat := Z.to_nat 10000.

(** ** The chain *)

Record ChainState := mkChain { last_seq : Z; last_hash : Z }.

Definition load_chain_state : M SettlementDb Empty_set ChainState :=
  fun d =>
    match get_chain_state d with
    | Ok (seq, h) d' => Ok (mkChain seq h) d'
    | Err _ d' => Ok (mkChain 0 GENESIS_HASH) d'
    | Panic => Panic
    end.

Section verification.
Context {bp : BuildProfile} `{Digests}.

(** One round of the loop of [verify_batch]: [true] when the output is kept.
    After a gap the state is reset, even if the output is then refused. *)
Definition verify_one (o : EngineOutput) : M ChainState Empty_set bool :=
  let* cs := get in
  let* expected := unwrap (op_add (last_seq cs) 1) in
  if out_seq o <? expected then ret false
  else
    (if expected <? out_seq o then put (mkChain (out_seq o - 1) (prev_hash o)) else ret tt) ;;;
    let* cs := get in
    if (out_seq o =? expected) && negb (verify_prev_hash o (last_hash cs)) then ret false
    else if negb (verify o) then ret false
    else
      put (mkChain (out_seq o) (hash o)) ;;;
      ret true.

Fixpoint verify_batch (batch : list EngineOutput) : M ChainState Empty_set (list EngineOutput) :=
  match batch with
  | [] => ret []
  | o :: rest =>
      let* kept := verify_one o in
      let* verified := verify_batch rest in
      ret (if (kept : bool) then o :: verified else verified)
  end.
End verification.

(** ** The service *)

Record Service := mkService {
  chain : ChainState;
  db : SettlementDb;
  balance_channels : list (list (list BalanceEvent));
  trades_channel : list (list TradeOutput * Z);
  orders_channel : list (list EngineOutput)
}.

Definition service_start (cs : ChainState) (d : SettlementDb) : Service :=
  mkService cs d (replicate 4 []) [] [].

Definition set_chain (cs : ChainState) (s : Service) : Service :=
  mkService cs (db s) (balance_channels s) (trades_channel s) (orders_channel s).
Definition set_db (d : SettlementDb) (s : Service) : Service :=
  mkService (chain s) d (balance_channels s) (trades_channel s) (orders_channel s).
Definition set_channels (b : list (list (list BalanceEvent))) (s : Service) : Service :=
  mkService (chain s) (db s) b (trades_channel s) (orders_channel s).
Definition set_trades (t : list (list TradeOutput * Z)) (s : Service) : Service :=
  mkService (chain s) (db s) (balance_channels s) t (orders_channel s).
Definition set_orders (o : list (list EngineOutput)) (s : Service) : Service :=
  mkService (chain s) (db s) (balance_channels s) (trades_channel s) o.

Definition on_chain {E A} (m : M ChainState E A) : M Service E A := zoom (fun s => Some (chain s)) set_chain m.
Definition on_db {E A} (m : M SettlementDb E A) : M Service E A := zoom (fun s => Some (db s)) set_db m.

(** [write_sot_parallel]: one batch for every symbol; all are awaited, and the
    answer is an error if one of them is. *)
Definition symbols_of (outputs : list EngineOutput) : list Z := remove_dups (map out_symbol_id outputs).

Definition shard_outputs (symbol : Z) (outputs : list EngineOutput) : list EngineOutput :=
  List.filter (fun o => out_symbol_id o =? symbol) outputs.

Section service.
Context {bp : BuildProfile} `{Digests} `{OutputCodec}.

Fixpoint write_shards (symbols : list Z) (outputs : list EngineOutput) (now : Z) : M Service Empty_set bool :=
  match symbols with
  | [] => ret true
  | symbol :: rest =>
      let* done :=
        on_db (fun d =>
          match write_engine_outputs_batch (shard_outputs symbol outputs) now d with
          | Ok _ d' => Ok true d'
          | Err _ d' => Ok false d'
          | Panic => Panic
          end) in
      let* all := write_shards rest outputs now in
      ret ((done : bool) && (all : bool))
  end.

Definition write_sot_parallel (outputs : list EngineOutput) (now : Z) : M Service Empty_set bool :=
  write_shards (symbols_of outputs) outputs now.

(** Events of the shard [user_id % NUM_BALANCE_WRITERS]. *)
Definition shard_of (e : BalanceEvent) : Z := be_user_id e mod NUM_BALANCE_WRITERS.

Definition shard_events (shard : Z) (events : list BalanceEvent) : list BalanceEvent :=
  List.filter (fun e => shard_of e =? shard) events.

Definition send_events (events : list BalanceEvent) (i : nat) (channel : list (list BalanceEvent))
  : list (list BalanceEvent) :=
  match shard_events (Z.of_nat i) events with
  | [] => channel
  | es => channel ++ [es]
  end.

Definition dispatch_output (o : EngineOutput) : M Service Empty_set unit :=
  modify (fun s => set_channels (imap (send_events (balance_events o)) (balance_channels s)) s) ;;;
  match trades o with
  | [] => ret tt
  | ts => modify (fun s => set_trades (trades_channel s ++ [(ts, out_seq o)]) s)
  end.

Definition dispatch_to_writers (outputs : list EngineOutput) : M Service Empty_set unit :=
  iter dispatch_output outputs ;;;
  modify (fun s => set_orders (orders_channel s ++ [outputs]) s).

(** An event of the balance authority, on its own queue, is sent without
    waiting: [try_send] on a full channel drops it. *)
Definition forward_balance_event (e : BalanceEvent) : M Service Empty_set unit :=
  modify (fun s =>
    set_channels (alter (fun channel => if Nat.ltb (length channel) DERIVED_WRITER_BUFFER
                                        then channel ++ [[e]] else channel)
                    (Z.to_nat (shard_of e)) (balance_channels s)) s).

(** One turn of [run_processing_loop] on a received batch.  The log write and
    the dispatch run in parallel, on different parts of the state. *)
Definition process_kafka_batch (batch : list EngineOutput) (now : Z) : M Service Empty_set unit :=
  let* verified := on_chain (verify_batch batch) in
  match verified with
  | [] => ret tt
  | _ =>
      let* _written := write_sot_parallel verified now in
      dispatch_to_writers verified
  end.

Fixpoint process_kafka_batches (batches : list (list EngineOutput * Z)) : M Service Empty_set unit :=
  match batches with
  | [] => ret tt
  | (batch, now) :: rest => process_kafka_batch batch now ;;; process_kafka_batches rest
  end.

(** ** The derived writers *)

(** A balance writer takes what waits in its channel, [MAX_DRAIN_BATCH]
    messages at most, and writes it in one batch; an error is logged. *)
Definition balance_writer (i : nat) (now : Z) : M Service Empty_set unit :=
  let* s := get in
  match balance_channels s !! i with
  | Some (_ :: _ as waiting) =>
      modify (fun s => set_channels (<[i := drop MAX_DRAIN_BATCH waiting]> (balance_channels s)) s) ;;;
      on_db (ignore (append_balance_events_batch (concat (take MAX_DRAIN_BATCH waiting)) now))
  | _ => ret tt
  end.

Definition trades_writer (settled_at : Z) : M Service Empty_set unit :=
  let* s := get in
  match trades_channel s with
  | [] => ret tt
  | waiting =>
      modify (set_trades (drop MAX_DRAIN_BATCH waiting)) ;;;
      on_db (iter (fun t => ignore (write_user_trades t settled_at))
               (concat (map fst (take MAX_DRAIN_BATCH waiting))))
  end.

(** Placements and completions of one output. *)
Definition track_orders (o : EngineOutput) : M SettlementDb Empty_set unit :=
  iter (fun p => ignore (insert_active_order p)) (order_placements o) ;;;
  iter (fun c => ignore (mark_order_complete (cp_order_id c) (cp_reason c) (cp_completed_at c)))
    (order_completions o).

Definition orders_writer : M Service Empty_set unit :=
  let* s := get in
  match orders_channel s with
  | [] => ret tt
  | outputs :: rest => modify (set_orders rest) ;;; on_db (iter track_orders outputs)
  end.
End service.
