(* ===== verification/SettlementProofs.v ===== *)
(** * What the settlement service guarantees

    Over any way of cutting the deliveries into batches and of delivering
    outputs again, every output of the engine is settled once and in order. *)

From S2P Require Import Prelude Ledger EngineOutput FastUlid OrderModels OrderBook MatchingEngine EngineProofs.
From S2P Require Import SettlementDb SettlementDbProofs Settlement.

#[local] Open Scope string_scope.
#[local] Open Scope list_scope.
#[local] Open Scope Z_scope.
#[local] Open Scope rust_scope.

(** ** Deliveries *)

(** [delivered outs k ds k']: the queue, having delivered the first [k]
    outputs, delivers [ds], each either the next one or one delivered before,
    and has then delivered the first [k']. *)
Inductive delivered (outs : list EngineOutput) : nat -> list EngineOutput -> nat -> Prop :=
  | delivered_nothing k : delivered outs k [] k
  | delivered_again k k' i o ds :
      (i < k)%nat -> outs !! i = Some o -> delivered outs k ds k' -> delivered outs k (o :: ds) k'
  | delivered_next k k' o ds :
      outs !! k = Some o -> delivered outs (S k) ds k' -> delivered outs k (o :: ds) k'.

Lemma delivered_le outs k ds k' : delivered outs k ds k' -> (k <= k')%nat.
Proof. induction 1; lia. Qed.

Lemma delivered_app outs k ds1 ds2 k' :
  delivered outs k (ds1 ++ ds2) k' -> exists m, delivered outs k ds1 m /\ delivered outs m ds2 k'.
Proof.
  revert k. induction ds1 as [|o ds1 IH]; intros k Hd; [exists k; split; [constructor|done]|].
  simpl in Hd. inversion Hd as [|? ? i ? ? Hi Ho Hrest|? ? ? ? Ho Hrest]; subst.
  - destruct (IH _ Hrest) as (m & H1 & H2). exists m. split; [by eapply delivered_again|done].
  - destruct (IH _ Hrest) as (m & H1 & H2). exists m. split; [by eapply delivered_next|done].
Qed.

(** ** The chain state after the first outputs *)

Definition after (cs : ChainState) (outs : list EngineOutput) : ChainState :=
  fold_left (fun _ o => mkChain (out_seq o) (hash o)) outs cs.

Lemma after_app cs l1 l2 : after cs (l1 ++ l2) = after (after cs l1) l2.
Proof. apply fold_left_app. Qed.

Section chain.
Context {bp : BuildProfile} `{Digests}.

Lemma linked_lookup outs cs i o :
  linked_from (last_seq cs) (last_hash cs) outs -> outs !! i = Some o ->
  verify o = true /\ last_seq (after cs (take i outs)) < out_seq o /\
  prev_hash o = last_hash (after cs (take i outs)).
Proof.
  revert cs i. induction outs as [|o' outs IH]; intros cs i Hl Ho; [done|].
  destruct Hl as (Hv & Hs & Hp & Hl). destruct i as [|i]; [by injection Ho as <-|].
  apply (IH (mkChain (out_seq o') (hash o')) i Hl Ho).
Qed.

Lemma take_next {A} (l : list A) k x : l !! k = Some x -> take (S k) l = take k l ++ [x].
Proof. apply take_S_r. Qed.

Lemma after_next outs cs k o :
  outs !! k = Some o -> after cs (take (S k) outs) = mkChain (out_seq o) (hash o).
Proof. intros Ho. by rewrite (take_next _ _ _ Ho), after_app. Qed.

Lemma linked_before outs cs i k o :
  linked_from (last_seq cs) (last_hash cs) outs -> (i < k)%nat -> (k <= length outs)%nat -> outs !! i = Some o ->
  out_seq o <= last_seq (after cs (take k outs)).
Proof.
  intros Hl Hi Hk Ho. induction Hi as [|k Hi IH]; [by rewrite (after_next _ _ _ _ Ho)|].
  destruct (lookup_lt_is_Some_2 outs k ltac:(lia)) as [x Hx]. rewrite (after_next _ _ _ _ Hx).
  destruct (linked_lookup outs cs k x Hl Hx) as (_ & Hlt & _). simpl. specialize (IH ltac:(lia)). lia.
Qed.

(** An output ahead of the chain state is kept when it links to it. *)
Lemma verify_one_ahead o cs :
  0 <= last_seq cs < out_seq o -> out_seq o <= u64_max -> verify o = true ->
  (out_seq o = last_seq cs + 1 -> prev_hash o = last_hash cs) ->
  verify_one o cs = Ok true (mkChain (out_seq o) (hash o)).
Proof.
  intros Hs Hmax Hv Hlink. unfold verify_one, bind, get. unfold op_add. rewrite u64_op_exact by ulia.
  cbn [unwrap]. unfold ret. destruct (Z.ltb_spec (out_seq o) (last_seq cs + 1)); [lia|].
  destruct (Z.ltb_spec (last_seq cs + 1) (out_seq o)).
  - unfold put. destruct (Z.eqb_spec (out_seq o) (last_seq cs + 1)); [lia|]. cbn [andb]. by rewrite Hv.
  - assert (out_seq o = last_seq cs + 1) as He by lia. unfold verify_prev_hash. rewrite (Hlink He).
    by rewrite Z.eqb_refl, andb_false_r, Hv.
Qed.

(** What is not ahead of it is skipped. *)
Lemma verify_one_old o cs :
  0 <= last_seq cs -> last_seq cs < u64_max -> out_seq o <= last_seq cs -> verify_one o cs = Ok false cs.
Proof.
  intros Hz Hmax Ho. unfold verify_one, bind, get, op_add. rewrite u64_op_exact by ulia. cbn [unwrap]. unfold ret.
  destruct (Z.ltb_spec (out_seq o) (last_seq cs + 1)); [done|lia].
Qed.

Lemma chained_bound n h outs : chained n h outs -> Forall (fun o => out_seq o <= n + Z.of_nat (length outs)) outs.
Proof.
  revert n h. induction outs as [|o outs IH]; intros n h; [intros; by apply Forall_nil|].
  intros (_ & Hs & _ & Hch). cbn [length]. apply Forall_cons. split; [lia|].
  eapply Forall_impl; [by eapply IH|]. intros x Hx. simpl in *. lia.
Qed.

(** The outputs fit behind the chain state. *)
Record settles (cs : ChainState) (outs : list EngineOutput) : Prop := {
  settles_linked : linked_from (last_seq cs) (last_hash cs) outs;
  settles_pos : 0 <= last_seq cs < u64_max;
  settles_max : Forall (fun o => out_seq o < u64_max) outs
}.

Lemma settles_after cs outs k :
  settles cs outs -> (k <= length outs)%nat -> 0 <= last_seq (after cs (take k outs)) < u64_max.
Proof.
  intros [Hl Hz Hmax] Hk. induction k as [|k IH]; [done|].
  destruct (lookup_lt_is_Some_2 outs k ltac:(lia)) as [x Hx]. rewrite (after_next _ _ _ _ Hx).
  destruct (linked_lookup outs cs k x Hl Hx) as (_ & Hlt & _). specialize (IH ltac:(lia)).
  rewrite Forall_lookup in Hmax. specialize (Hmax _ _ Hx). simpl in *. lia.
Qed.

(** One delivery: seen before, or next. *)
Lemma verify_one_again outs cs k i o :
  settles cs outs -> (k <= length outs)%nat -> (i < k)%nat -> outs !! i = Some o ->
  verify_one o (after cs (take k outs)) = Ok false (after cs (take k outs)).
Proof.
  intros Hs Hk Hi Ho. destruct (settles_after cs outs k Hs Hk).
  apply verify_one_old; [lia..|]. by eapply linked_before; [apply Hs| | |].
Qed.

Lemma verify_one_next outs cs k o :
  settles cs outs -> outs !! k = Some o ->
  verify_one o (after cs (take k outs)) = Ok true (after cs (take (S k) outs)).
Proof.
  intros Hs Ho. pose proof (lookup_lt_Some _ _ _ Ho) as Hlt.
  destruct (settles_after cs outs k Hs ltac:(lia)). destruct Hs as [Hl _ Hmax].
  destruct (linked_lookup outs cs k o Hl Ho) as (Hv & Hseq & Hp). rewrite Forall_lookup in Hmax.
  specialize (Hmax _ _ Ho). simpl in Hmax. rewrite (after_next _ _ _ _ Ho). by apply verify_one_ahead; (done || lia).
Qed.

(** The batch keeps exactly what is new. *)
Lemma verify_delivered outs cs k ds k' :
  settles cs outs -> (k <= length outs)%nat -> delivered outs k ds k' ->
  verify_batch ds (after cs (take k outs)) = Ok (take (k' - k) (drop k outs)) (after cs (take k' outs)) /\
  (k' <= length outs)%nat.
Proof.
  intros Hs Hk Hd. induction Hd as [k|k k' i o ds Hi Ho Hd IH|k k' o ds Ho Hd IH]; simpl.
  - rewrite Nat.sub_diag. done.
  - unfold bind at 1. rewrite (verify_one_again outs cs k i o Hs Hk Hi Ho).
    destruct (IH Hk) as [IH1 IH2]. by rewrite (bind_ok _ _ _ _ _ IH1).
  - unfold bind at 1. rewrite (verify_one_next outs cs k o Hs Ho).
    apply lookup_lt_Some in Ho as Hlt. destruct (IH ltac:(lia)) as [IH1 IH2].
    rewrite (bind_ok _ _ _ _ _ IH1). split; [|done]. unfold ret. f_equal.
    apply delivered_le in Hd. rewrite (drop_S outs o k Ho). replace (k' - k)%nat with (S (k' - S k)) by lia. done.
Qed.
End chain.

(** ** Dispatch *)

(** What waits in a channel, and what of it concerns a user. *)
Definition queued (i : nat) (s : Service) : list BalanceEvent := concat (default [] (balance_channels s !! i)).

Definition user_events (user : Z) (es : list BalanceEvent) : list BalanceEvent :=
  List.filter (fun e => be_user_id e =? user) es.

Definition user_shard (user : Z) : nat := Z.to_nat (user mod NUM_BALANCE_WRITERS).

Lemma user_events_app u l1 l2 : user_events u (l1 ++ l2) = user_events u l1 ++ user_events u l2.
Proof. apply List.filter_app. Qed.

Lemma user_events_shard u es : user_events u (shard_events (Z.of_nat (user_shard u)) es) = user_events u es.
Proof.
  unfold user_shard, NUM_BALANCE_WRITERS. rewrite Z2Nat.id by (apply Z.mod_pos_bound; lia).
  induction es as [|e es IH]; [done|]. simpl. unfold shard_of at 1, NUM_BALANCE_WRITERS.
  destruct (Z.eqb_spec (be_user_id e) u) as [<-|Hne].
  - rewrite Z.eqb_refl. simpl. rewrite Z.eqb_refl. by f_equal.
  - destruct (_ =? _); simpl; [|done]. destruct (Z.eqb_spec (be_user_id e) u); done.
Qed.

Section service.
Context {bp : BuildProfile} `{Digests} `{OutputCodec}.

(** What the dispatch of outputs adds to the channels, on a service with its
    four balance writers. *)
Record dispatched (outs : list EngineOutput) (s s' : Service) : Prop := {
  dispatched_events i : (i < length (balance_channels s))%nat ->
    queued i s' = queued i s ++ shard_events (Z.of_nat i) (concat (map balance_events outs));
  dispatched_trades :
    concat (map fst (trades_channel s')) = concat (map fst (trades_channel s)) ++ concat (map trades outs);
  dispatched_length : length (balance_channels s') = length (balance_channels s)
}.

Lemma dispatched_refl s s' :
  balance_channels s' = balance_channels s -> trades_channel s' = trades_channel s -> dispatched [] s s'.
Proof. intros Hb Ht. split; unfold queued; rewrite ?Hb, ?Ht; simpl; intros; by rewrite ?app_nil_r. Qed.

Lemma dispatched_trans l1 l2 s s1 s2 : dispatched l1 s s1 -> dispatched l2 s1 s2 -> dispatched (l1 ++ l2) s s2.
Proof.
  intros [H1 H2 H3] [G1 G2 G3]. split.
  - intros i Hi. rewrite G1 by lia. rewrite H1 by done. unfold shard_events.
    by rewrite <- app_assoc, map_app, concat_app, List.filter_app.
  - by rewrite G2, H2, map_app, concat_app, app_assoc.
  - lia.
Qed.

Lemma dispatch_output_eq o s :
  exists s', dispatch_output o s = Ok tt s' /\ dispatched [o] s s' /\ chain s' = chain s /\ db s' = db s /\
    orders_channel s' = orders_channel s.
Proof.
  unfold dispatch_output. unfold bind, modify. set (s1 := set_channels _ s).
  assert (forall i, (i < length (balance_channels s))%nat ->
    queued i s1 = queued i s ++ shard_events (Z.of_nat i) (concat (map balance_events [o]))) as Hq.
  { intros i Hi. unfold queued, s1. cbn [balance_channels set_channels]. rewrite list_lookup_imap.
    destruct (lookup_lt_is_Some_2 (balance_channels s) i Hi) as [ch Hch]. rewrite Hch. simpl. unfold id, send_events.
    rewrite app_nil_r. destruct (shard_events (Z.of_nat i) (balance_events o)); [by rewrite app_nil_r|].
    rewrite concat_app. simpl. by rewrite app_nil_r. }
  assert (length (balance_channels s1) = length (balance_channels s)) as Hlen
    by (unfold s1; cbn [balance_channels set_channels]; apply length_imap).
  destruct (trades o) as [|t ts] eqn:Ht.
  - exists s1. split; [done|]. split; [|done]. split; [done| |done]. simpl. by rewrite Ht, app_nil_r.
  - eexists. split; [done|]. split; [|done]. split; [done| |done]. simpl.
    rewrite map_app, concat_app. simpl. by rewrite Ht, !app_nil_r.
Qed.

Lemma dispatch_iter outs s :
  exists s', iter dispatch_output outs s = Ok tt s' /\ dispatched outs s s' /\ chain s' = chain s /\ db s' = db s /\
    orders_channel s' = orders_channel s.
Proof.
  revert s. induction outs as [|o outs IH]; intros s; simpl.
  - exists s. split; [done|]. by split; [apply dispatched_refl|].
  - destruct (dispatch_output_eq o s) as (s1 & H1 & H2 & H3 & H4 & H5). rewrite (bind_ok _ _ _ _ _ H1).
    destruct (IH s1) as (s2 & G1 & G2 & G3 & G4 & G5). exists s2.
    split_and!; [done|by apply (dispatched_trans [o] outs s s1 s2)|congruence..].
Qed.

Lemma dispatch_eq outs s :
  exists s', dispatch_to_writers outs s = Ok tt s' /\ dispatched outs s s' /\ chain s' = chain s /\ db s' = db s /\
    orders_channel s' = orders_channel s ++ [outs].
Proof.
  unfold dispatch_to_writers. destruct (dispatch_iter outs s) as (s1 & H1 & [H21 H22 H23] & H3 & H4 & H5).
  rewrite (bind_ok _ _ _ _ _ H1). eexists. split; [done|]. split; [by split|]. cbn. by rewrite H3, H4, H5.
Qed.

(** The log write touches the database only, whatever is answered. *)
Lemma write_shards_eq symbols outs now s :
  exists done d, write_shards symbols outs now s = Ok done (set_db d s).
Proof.
  revert s. induction symbols as [|symbol symbols IH]; intros s; simpl.
  - exists true, (db s). by destruct s.
  - assert (exists b d, on_db (E := Empty_set) (fun d => match write_engine_outputs_batch (shard_outputs symbol outs) now d with
      | Ok _ d' => Ok true d' | Err _ d' => Ok false d' | Panic => Panic end) s = Ok b (set_db d s)) as (b & d & Hb).
    { unfold on_db, zoom, write_engine_outputs_batch.
      destruct (shard_outputs symbol outs); [by do 2 eexists|].
      unfold bind, ok_or. destruct (mapM _ _) as [rows|]; [|by do 2 eexists].
      unfold ret, execute, bind, get, put, throw. destruct (answers (db s)) as [|[|mask] rest]; by do 2 eexists. }
    rewrite (bind_ok _ _ _ _ _ Hb). destruct (IH (set_db d s)) as (b' & d' & Hb').
    rewrite (bind_ok _ _ _ _ _ Hb'). by do 2 eexists.
Qed.

Lemma process_batch_ok outs cs k ds k' now s :
  settles cs outs -> (k <= length outs)%nat -> delivered outs k ds k' -> chain s = after cs (take k outs) ->
  exists s', process_kafka_batch ds now s = Ok tt s' /\ dispatched (take (k' - k) (drop k outs)) s s' /\
    chain s' = after cs (take k' outs) /\ (k' <= length outs)%nat /\
    concat (orders_channel s') = concat (orders_channel s) ++ take (k' - k) (drop k outs).
Proof.
  intros Hset Hk Hd Hs. unfold process_kafka_batch.
  destruct (verify_delivered outs cs k ds k' Hset Hk Hd) as [Hv Hk'].
  set (new := take (k' - k) (drop k outs)) in *.
  assert (on_chain (verify_batch ds) s = Ok new (set_chain (after cs (take k' outs)) s)) as Hon
    by (unfold on_chain, zoom; rewrite Hs, Hv; done).
  rewrite (bind_ok _ _ _ _ _ Hon). destruct new as [|o l] eqn:Hnew.
  - eexists. split; [done|]. split; [by apply dispatched_refl|]. split; [done|]. split; [done|]. by rewrite app_nil_r.
  - unfold write_sot_parallel.
    destruct (write_shards_eq (symbols_of (o :: l)) (o :: l) now (set_chain (after cs (take k' outs)) s)) as (b & d & Hb).
    rewrite (bind_ok _ _ _ _ _ Hb). set (s1 := set_db d _).
    destruct (dispatch_eq (o :: l) s1) as (s2 & H1 & H2 & H3 & H4 & H5). exists s2. split; [done|].
    split; [by destruct H2; split|]. split; [by rewrite H3|]. split; [done|]. rewrite H5, concat_app. simpl. by rewrite app_nil_r.
Qed.

Lemma process_batches_ok outs cs batches j k s :
  settles cs outs -> (j <= length outs)%nat -> chain s = after cs (take j outs) ->
  delivered outs j (concat (map fst batches)) k ->
  exists s', process_kafka_batches batches s = Ok tt s' /\ dispatched (take (k - j) (drop j outs)) s s' /\
    concat (orders_channel s') = concat (orders_channel s) ++ take (k - j) (drop j outs).
Proof.
  intros Hset. revert j s. induction batches as [|[ds now] batches IH]; intros j s Hj Hc Hd; simpl in *.
  - inversion Hd; subst. exists s. rewrite Nat.sub_diag. simpl. rewrite app_nil_r.
    by split; [|split; [apply dispatched_refl|]].
  - apply delivered_app in Hd as (m & Hd1 & Hd2).
    destruct (process_batch_ok outs cs j ds m now s Hset Hj Hd1 Hc) as (s2 & H1 & H2 & H3 & H4 & H5).
    rewrite (bind_ok _ _ _ _ _ H1). destruct (IH m s2 H4 H3 Hd2) as (s3 & G1 & G2 & G3).
    apply delivered_le in Hd1 as Hle1. apply delivered_le in Hd2 as Hle2.
    assert (take (k - j) (drop j outs) = take (m - j) (drop j outs) ++ take (k - m) (drop m outs)) as Hsplit.
    { replace (k - j)%nat with ((m - j) + (k - m))%nat by lia. rewrite <- take_take_drop, drop_drop.
      by replace (j + (m - j))%nat with m by lia. }
    exists s3. split; [done|]. rewrite Hsplit. split; [by eapply dispatched_trans|]. by rewrite G3, H5, app_assoc.
Qed.

(** The channel of a user's shard, with four shards. *)
Lemma dispatched_user user outs s s' :
  dispatched outs s s' -> length (balance_channels s) = 4%nat ->
  user_events user (queued (user_shard user) s') =
  user_events user (queued (user_shard user) s) ++ user_events user (concat (map balance_events outs)).
Proof.
  intros [He _ _] Hlen. rewrite He.
  - by rewrite user_events_app, user_events_shard.
  - rewrite Hlen. unfold user_shard, NUM_BALANCE_WRITERS. pose proof (Z.mod_pos_bound user 4 ltac:(lia)). lia.
Qed.

(** C20: Within one run of the engine and one of the service every output is
    settled once and in order.  Let the engine's outputs be linked by their
    hashes behind the chain at which the service stands, with or without numbers
    left out, and let the queue deliver them at least once, their first
    deliveries in order, in any batches, with any outputs delivered again; the
    log writes may succeed or fail.  (What a restart of either side breaks is in
    [SettlementFaults].)  Then the service does not stop, what it
    sends to the order writer and to the trade writer are the outputs and
    their trades once each and in the engine's order, and for every user the
    channel of the user's shard gets the user's balance events, once each and
    in the engine's order. *)
Theorem settlement_exactly_once outs batches k s :
  settles (chain s) outs -> length (balance_channels s) = 4%nat ->
  delivered outs 0 (concat (map fst batches)) k ->
  exists s', process_kafka_batches batches s = Ok tt s' /\
    concat (orders_channel s') = concat (orders_channel s) ++ take k outs /\
    concat (map fst (trades_channel s')) =
      concat (map fst (trades_channel s)) ++ concat (map trades (take k outs)) /\
    (forall user, user_events user (queued (user_shard user) s') =
       user_events user (queued (user_shard user) s) ++
       user_events user (concat (map balance_events (take k outs)))).
Proof.
  intros Hset Hlen Hd.
  destruct (process_batches_ok outs (chain s) batches 0 k s Hset ltac:(lia) eq_refl Hd) as (s' & H1 & H2 & H3).
  rewrite Nat.sub_0_r, drop_0 in *. exists s'. split; [done|]. split; [done|].
  split; [apply H2|]. intros user. by apply dispatched_user.
Qed.
End service.

(** ** Examples *)

Module Concrete.

#[export] Instance sample_codec : OutputCodec :=
  {| bincode_output o := Some [out_seq o]; lz4 l := l |}.

(** The first write of the log is lost. *)
Definition sample_service : Service :=
  service_start (mkChain 5 77) (set_answers [Lost []] SettlementDbProofs.Concrete.empty_db).

(** The two bundles of the engine's sample run, the first delivered three
    times and the second once, in three batches. *)
Lemma settlement_exactly_once_witness :
  exists o1 o2 e' s', collect (bp := debug_profile) sample_inputs sample_engine = Ok [o1; o2] e' /\
    process_kafka_batches (bp := debug_profile) [([o1], 100); ([o1; o2], 101); ([o1], 102)] sample_service = Ok tt s' /\
    concat (orders_channel s') = [o1; o2] /\
    user_events 90 (queued (user_shard 90) s') = user_events 90 (balance_events o1 ++ balance_events o2).
Proof.
  pose proof (collect_chained (bp := debug_profile) sample_inputs sample_engine
    ltac:(vm_compute; discriminate) ltac:(vm_compute; discriminate)) as Hc.
  destruct (collect sample_inputs sample_engine) as [outs e'|er e'|] eqn:Hr;
    [|vm_compute in Hr; discriminate..].
  destruct Hc as [Hlen Hch]. destruct outs as [|o1 [|o2 []]]; try discriminate Hlen.
  destruct (settlement_exactly_once (bp := debug_profile) [o1; o2] [([o1], 100); ([o1; o2], 101); ([o1], 102)] 2
    sample_service) as (s' & H1 & H2 & _ & H4).
  - apply chained_bound in Hch as Hb. split; [by apply chained_linked|split; [discriminate|reflexivity]|].
    eapply Forall_impl; [exact Hb|]. intros o Ho. cbn [length Z.of_nat] in Ho. eapply Z.le_lt_trans; [exact Ho|reflexivity].
  - reflexivity.
  - apply (delivered_next _ 0 _ o1); [reflexivity|]. apply (delivered_again _ 1 _ 0 o1); [lia|reflexivity|].
    apply (delivered_next _ 1 _ o2); [reflexivity|]. apply (delivered_again _ 2 _ 0 o1); [lia|reflexivity|].
    apply delivered_nothing.
  - exists o1, o2, e', s'. split; [reflexivity|]. split; [exact H1|]. split; [exact H2|].
    rewrite H4. simpl. by rewrite app_nil_r.
Defined.
End Concrete.
