(* ===== verification/SettlementFaults.v ===== *)
(** * Where the settlement service falls short

    The chain check does not stop the service from settling past a lost
    output; a failed write of the log is not repeated; outputs are settled
    again after a restart of the service, and not at all after a restart of the
    engine; and the rows of the engine's balance events replace each other. *)

From S2P Require Import Prelude Ledger EngineOutput FastUlid OrderModels OrderBook MatchingEngine EngineProofs.
From S2P Require Import SettlementDb SettlementDbProofs Settlement SettlementProofs.

#[local] Open Scope string_scope.
#[local] Open Scope list_scope.
#[local] Open Scope Z_scope.
#[local] Open Scope rust_scope.

(** ** Where the chain check does not help *)

Section limits.
Context {bp : BuildProfile} `{Digests} `{OutputCodec}.

(** Lost outputs go unnoticed.  Take any outputs of a chain away: the
    service keeps and settles all the others, in order, as if nothing were
    missing; a gap only leaves a warning in the log. *)
Theorem lost_outputs_unnoticed outs ds cs :
  chained (last_seq cs) (last_hash cs) outs -> 0 <= last_seq cs ->
  last_seq cs + Z.of_nat (length outs) <= u64_max -> sublist ds outs ->
  exists cs', verify_batch ds cs = Ok ds cs'.
Proof.
  intros Hch Hz Hmax Hsub.
  assert (forall n h c, chained n h outs -> 0 <= last_seq c <= n -> n + Z.of_nat (length outs) <= u64_max ->
    (last_seq c = n -> last_hash c = h) -> exists c', verify_batch ds c = Ok ds c') as Hgen.
  { clear Hch Hz Hmax cs. induction Hsub as [|o ds outs Hsub IH|o ds outs Hsub IH]; intros n h c Hch Hn Hmax Hlink.
    - by exists c.
    - destruct Hch as (Hv & Hs & Hp & Hch). cbn [length] in Hmax. simpl. unfold bind at 1.
      rewrite verify_one_ahead; [|lia|lia|done|intros; rewrite Hp; symmetry; apply Hlink; lia].
      destruct (IH (out_seq o) (hash o) (mkChain (out_seq o) (hash o))) as [c' Hc']; [done|simpl; lia|lia|done|].
      rewrite (bind_ok _ _ _ _ _ Hc'). by eexists.
    - destruct Hch as (Hv & Hs & Hp & Hch). cbn [length] in Hmax.
      apply (IH (out_seq o) (hash o) c Hch); lia. }
  by apply (Hgen (last_seq cs) (last_hash cs) cs).
Qed.

(** What is not after the chain state is skipped. *)
Lemma verify_batch_old ds cs :
  last_seq cs + 1 <= u64_max -> 0 <= last_seq cs -> Forall (fun o => out_seq o <= last_seq cs) ds ->
  verify_batch ds cs = Ok [] cs.
Proof.
  intros Hmax Hz. induction 1 as [|o ds Ho _ IH]; [done|]. simpl. unfold bind at 1.
  rewrite verify_one_old by (done || lia). by rewrite (bind_ok _ _ _ _ _ IH).
Qed.

Context `{OrderLog W}.

Definition register_all (symbols : list (Z * Z * Z)) : M (MatchingEngine W) Empty_set unit :=
  iter (fun x => ignore (register_symbol x.1.1 x.1.2 x.2)) symbols.

Lemma register_symbol_core i base quote (e : MatchingEngine W) :
  exists e', ignore (E' := Empty_set) (register_symbol i base quote) e = Ok tt e' /\
    output_seq (core e') = output_seq (core e).
Proof.
  unfold ignore, register_symbol, bind, get, ret, throw, modify.
  destruct (Nat.leb _ _); [by eexists|]. destruct (engine_books e !! _) as [[bk|]|]; by eexists.
Qed.

Lemma register_all_core symbols (e : MatchingEngine W) :
  exists e', register_all symbols e = Ok tt e' /\ output_seq (core e') = output_seq (core e).
Proof.
  revert e. induction symbols as [|[[i base] quote] symbols IH]; intros e; [by exists e|].
  unfold register_all in *. cbn [iter fst snd].
  destruct (register_symbol_core i base quote e) as (e1 & He1 & Hs1). rewrite (bind_ok _ _ _ _ _ He1).
  destruct (IH e1) as (e2 & He2 & Hs2). exists e2. by rewrite Hs2, Hs1.
Qed.

(** A restarted engine is not settled.  A matching engine started without
    a snapshot numbers its outputs from 1; the settlement service goes on from
    the last number it has settled, and skips the restarted engine's outputs,
    valid as they are, until the engine has produced as many again. *)
Theorem restarted_engine_skipped snap_wal symbols inputs outs e e' batches s :
  register_all symbols (engine_new (W := W) None snap_wal) = Ok tt e ->
  collect inputs e = Ok outs e' ->
  Z.of_nat (length inputs) <= last_seq (chain s) -> last_seq (chain s) + 1 <= u64_max ->
  Forall (fun o => o ∈ outs) (concat (map fst batches)) ->
  Forall (fun o => verify o = true) outs /\ process_kafka_batches batches s = Ok tt s.
Proof.
  intros Hreg Hcol Hlen Hmax Hall.
  destruct (register_all_core symbols (engine_new None snap_wal)) as (e1 & He1 & Hseq).
  rewrite Hreg in He1. injection He1 as <-. simpl in Hseq.
  pose proof (collect_chained inputs e ltac:(lia) ltac:(lia)) as Hc.
  rewrite Hcol in Hc. destruct Hc as [Hl Hch]. split; [by eapply chained_verify|].
  apply chained_bound in Hch. rewrite Hl, Hseq in Hch. rewrite Forall_forall in Hch.
  induction batches as [|[ds now] batches IH]; [done|]. simpl in *. apply Forall_app in Hall as [Hds Hrest].
  unfold bind at 1, process_kafka_batch. unfold bind at 1, on_chain, zoom.
  rewrite verify_batch_old; [|lia|lia|].
  - unfold ret. replace (set_chain (chain s) s) with s by by destruct s. by apply IH.
  - eapply Forall_impl; [exact Hds|]. intros o Ho%Hch. simpl in *. lia.
Qed.

(** The step on one output that comes next. *)
Lemma process_one o now s :
  0 <= last_seq (chain s) -> out_seq o = last_seq (chain s) + 1 -> out_seq o <= u64_max ->
  prev_hash o = last_hash (chain s) -> verify o = true ->
  exists b d s', write_sot_parallel [o] now (set_chain (mkChain (out_seq o) (hash o)) s) =
      Ok b (set_db d (set_chain (mkChain (out_seq o) (hash o)) s)) /\
    process_kafka_batch [o] now s = Ok tt s' /\ chain s' = mkChain (out_seq o) (hash o) /\ db s' = d /\
    orders_channel s' = orders_channel s ++ [[o]].
Proof.
  intros Hz Hs Hmax Hp Hv. unfold process_kafka_batch. unfold bind at 1, on_chain, zoom. simpl. unfold bind at 1.
  rewrite (verify_one_ahead o (chain s)) by (done || lia). unfold bind at 1, ret. unfold bind at 1.
  destruct (write_shards_eq (symbols_of [o]) [o] now (set_chain (mkChain (out_seq o) (hash o)) s)) as (b & d & Hb).
  unfold write_sot_parallel. rewrite Hb.
  destruct (dispatch_eq [o] (set_db d (set_chain (mkChain (out_seq o) (hash o)) s))) as (s' & H1' & _ & H3 & H4 & H5).
  exists b, d, s'. split; [done|]. split; [exact H1'|]. by rewrite H3, H4, H5.
Qed.

Lemma write_one o now s :
  write_sot_parallel [o] now s =
  on_db (fun d => match write_engine_outputs_batch [o] now d with
                  | Ok _ d' => Ok true d' | Err _ d' => Ok false d' | Panic => Panic end) s.
Proof.
  unfold write_sot_parallel. assert (symbols_of [o] = [out_symbol_id o]) as -> by done.
  cbn [write_shards]. assert (shard_outputs (out_symbol_id o) [o] = [o]) as ->
    by (unfold shard_outputs; simpl; by rewrite Z.eqb_refl).
  unfold bind, ret. destruct (on_db _ s) as [b d|err d|]; [|done..]. by rewrite andb_true_r.
Qed.

(** A failed write of the log is not repeated.  When the log write of an
    output fails, its events are dispatched all the same, and the service has
    moved on: delivered again, the output is skipped, and it never reaches the
    log that is called the source of truth. *)
Theorem failed_log_write_final o now now' s data rest :
  0 <= last_seq (chain s) -> out_seq o = last_seq (chain s) + 1 -> out_seq o < u64_max ->
  prev_hash o = last_hash (chain s) -> verify o = true ->
  bincode_output o = Some data -> answers (db s) = Lost [] :: rest ->
  exists s', process_kafka_batch [o] now s = Ok tt s' /\
    orders_channel s' = orders_channel s ++ [[o]] /\
    engine_output_log (db s') = engine_output_log (db s) /\
    process_kafka_batch [o] now' s' = Ok tt s'.
Proof.
  intros Hz Hs Hmax Hp Hv Hdata Hans.
  destruct (process_one o now s Hz Hs ltac:(lia) Hp Hv) as (b & d & s' & Hw & Hr & Hc & Hd & Ho).
  exists s'. split; [done|]. split; [done|]. split.
  - rewrite write_one in Hw. unfold on_db, zoom in Hw. cbn [db set_chain] in Hw.
    assert (write_engine_outputs_batch [o] now (db s) =
      Err "Failed to batch write engine_output_log" (set_answers rest (db s))) as Hlost.
    { unfold write_engine_outputs_batch. simpl. rewrite Hdata. simpl.
      unfold bind, ret, execute, bind, get, put, throw. by rewrite Hans. }
    rewrite Hlost in Hw. injection Hw as _ Hd'. rewrite Hd, <- Hd'. done.
  - unfold process_kafka_batch. unfold bind at 1, on_chain, zoom.
    rewrite verify_batch_old; [|rewrite Hc; simpl; lia|rewrite Hc; simpl; lia|
      apply Forall_cons; split; [rewrite Hc; simpl; lia|by apply Forall_nil]].
    unfold ret. f_equal. by destruct s'.
Qed.
End limits.

(** ** Restarts *)

Section restart.
Context {bp : BuildProfile} `{Digests} `{OutputCodec}.

Lemma log_column_inj (symbol : Z) (k1 k2 : Z * Z) s :
  (if k1.1 =? symbol then Some k1.2 else None) = Some s ->
  (if k2.1 =? symbol then Some k2.2 else None) = Some s -> k1 = k2.
Proof.
  destruct k1 as [a1 b1], k2 as [a2 b2]. simpl.
  destruct (Z.eqb_spec a1 symbol), (Z.eqb_spec a2 symbol); naive_solver.
Qed.

Lemma newest_log_other symbol k r t :
  k.1 <> symbol -> newest_log_row symbol (<[k := r]> t) = newest_log_row symbol t.
Proof.
  intros Hk. apply newest_ext; [intros; by eapply log_column_inj|].
  intros k' [s Hs]. apply lookup_insert_ne. intros <-. by destruct (Z.eqb_spec k.1 symbol).
Qed.

(** With every request answered, the chain state is read off the table. *)
Lemma load_chain_state_eq d :
  answers d = [] ->
  load_chain_state d = Ok (match newest_log_row 0 (engine_output_log d) with
                           | Some (seq, r) => mkChain (as_u64 seq) (as_u64 (log_hash r))
                           | None => mkChain 0 0
                           end) d.
Proof.
  intros Ha. unfold load_chain_state, get_chain_state, select, execute, bind, get, put, ret. rewrite Ha. simpl.
  by destruct (newest_log_row 0 (engine_output_log d)) as [[seq r]|].
Qed.

Lemma write_output_answered o now d data :
  answers d = [] -> bincode_output o = Some data ->
  write_engine_outputs_batch [o] now d = Ok tt (insert_output now o data d).
Proof.
  intros Ha Hdata. unfold write_engine_outputs_batch. simpl. rewrite Hdata. simpl.
  unfold bind, ret, execute, bind, get, put, throw. by rewrite Ha.
Qed.

(** Outputs are settled again after a restart.  The service resumes from
    the newest row of symbol 0 only.  An output of any other symbol that has
    been settled, and whose row is in the log, leaves no trace in the state
    that the next start loads: delivered again, it is kept, and its events go
    to the writers a second time. *)
Theorem restart_settles_again o now now' d data cs :
  answers d = [] -> load_chain_state d = Ok cs d -> as_i32 (out_symbol_id o) <> 0 ->
  0 <= last_seq cs -> out_seq o = last_seq cs + 1 -> out_seq o <= u64_max -> prev_hash o = last_hash cs ->
  verify o = true -> bincode_output o = Some data ->
  exists s, process_kafka_batch [o] now (service_start cs d) = Ok tt s /\
    last_seq (chain s) = out_seq o /\
    engine_output_log (db s) !! log_key o = Some (log_row now o data) /\
    load_chain_state (db s) = Ok cs (db s) /\
    exists s', process_kafka_batch [o] now' (service_start cs (db s)) = Ok tt s' /\
      orders_channel s' = [[o]] /\ orders_channel s' = orders_channel s.
Proof.
  intros Ha Hload Hsym Hz Hs Hmax Hp Hv Hdata.
  destruct (process_one o now (service_start cs d) Hz Hs Hmax Hp Hv) as (b & d1 & s & Hw & Hr & Hc & Hd & Ho).
  exists s. split; [done|]. split; [by rewrite Hc|].
  rewrite write_one in Hw. unfold on_db, zoom in Hw. cbn [db set_chain service_start] in Hw.
  rewrite (write_output_answered o now d data Ha Hdata) in Hw. injection Hw as _ Hw. rewrite Hd, <- Hw.
  split; [apply lookup_insert_eq|]. split.
  - rewrite load_chain_state_eq in Hload |- * by done. injection Hload as <-. unfold insert_output, set_log, log_key.
    cbn [engine_output_log]. by rewrite newest_log_other.
  - destruct (process_one o now' (service_start cs (insert_output now o data d)) Hz Hs Hmax Hp Hv)
      as (b' & d2 & s' & _ & Hr' & _ & _ & Ho').
    exists s'. split; [done|]. by rewrite Ho, Ho'.
Qed.
End restart.

(** ** The rows of the engine's balance events *)

Section rows.
Context {bp : BuildProfile}.

Definition write_rows (now : Z) (es : list BalanceEvent) (d : SettlementDb) : SettlementDb :=
  fold_left (fun d f => f d) (map (fun e => upsert_balance_event (event_key e) (event_row now e)) es) d.

Lemma append_batch_answered es now d :
  answers d = [] -> append_balance_events_batch es now d = Ok tt (write_rows now es d).
Proof.
  intros Ha. unfold append_balance_events_batch, write_rows. destruct es as [|e es]; [done|].
  unfold execute, bind, get, put, throw. by rewrite Ha.
Qed.

Lemma write_rows_answers now es d : answers (write_rows now es d) = answers d.
Proof. unfold write_rows. revert d. induction es as [|e es IH]; intros d; simpl; [done|]. by rewrite IH. Qed.

(** The row of a key is that of the last event with it. *)
Lemma write_rows_lookup now es d k :
  (exists e, e ∈ es /\ event_key e = k /\ balance_ledger (write_rows now es d) !! k = Some (event_row now e)) \/
  (forall e, e ∈ es -> event_key e <> k) /\ balance_ledger (write_rows now es d) !! k = balance_ledger d !! k.
Proof.
  unfold write_rows. revert d. induction es as [|e es IH]; intros d; simpl.
  - right. split; [|done]. intros e He. by apply not_elem_of_nil in He.
  - destruct (IH (upsert_balance_event (event_key e) (event_row now e) d)) as [(e' & He' & Hk & Hr)|[Hno Hr]].
    + left. exists e'. split; [by apply list_elem_of_further|done].
    + destruct (decide (event_key e = k)) as [Hk|Hk].
      * left. exists e. split; [apply list_elem_of_here|]. split; [done|]. rewrite Hr. simpl.
        by rewrite Hk, lookup_insert_eq.
      * right. split.
        -- intros e'' [->|He'']%elem_of_cons; [done|by apply Hno].
        -- rewrite Hr. simpl. by rewrite lookup_insert_ne.
Qed.

Context `{Digests} `{OrderLog W}.

(** The engine's lock rows overwrite each other.  Every bundle numbers its
    balance events from 1.  When two orders of one user lock the same asset,
    the lock of the second has the primary key of the first, and the batch
    insert of the second bundle replaces the row of the first: the record that
    is called immutable is gone. *)
Theorem engine_rows_overwritten r1 r2 in1 in2 cid1 cid2 e1 e2 b1 b2 base quote base' quote' now1 now2 d :
  ready (W := W) e1 r1 b1 base quote -> ready e2 r2 b2 base' quote' ->
  rq_user_id r1 = rq_user_id r2 -> lock_asset base quote r1 = lock_asset base' quote' r2 ->
  answers d = [] ->
  exists o1 o2 e1' e2' d1 d2,
    add_order_and_build_output in1 r1 cid1 e1 = Ok (rq_order_id r1, o1) e1' /\
    add_order_and_build_output in2 r2 cid2 e2 = Ok (rq_order_id r2, o2) e2' /\
    append_balance_events_batch (balance_events o1) now1 d = Ok tt d1 /\
    append_balance_events_batch (balance_events o2) now2 d1 = Ok tt d2 /\
    exists lock e, lock ∈ balance_events o1 /\ be_event_type lock = "lock" /\ be_ref_id lock = rq_order_id r1 /\
      e ∈ balance_events o2 /\ event_key e = event_key lock /\
      balance_ledger d2 !! event_key lock = Some (event_row now2 e).
Proof.
  intros Hr1 Hr2 Hu Ha Hans.
  destruct (entry_accepted in1 r1 cid1 e1 b1 base quote Hr1)
    as (_ & _ & _ & o1 & e1' & _ & Ho1 & _ & _ & _ & _ & _ & l1 & es1 & He1 & Hu1 & Ha1 & Hs1 & Ht1 & Hf1).
  destruct (entry_accepted in2 r2 cid2 e2 b2 base' quote' Hr2)
    as (_ & _ & _ & o2 & e2' & _ & Ho2 & _ & _ & _ & _ & _ & l2 & es2 & He2 & Hu2 & Ha2 & Hs2 & Ht2 & Hf2).
  assert (event_key l2 = event_key l1) as Hkey by (unfold event_key; congruence).
  exists o1, o2, e1', e2', (write_rows now1 (balance_events o1) d),
    (write_rows now2 (balance_events o2) (write_rows now1 (balance_events o1) d)).
  split; [done|]. split; [done|]. split; [by apply append_batch_answered|].
  split; [apply append_batch_answered; by rewrite write_rows_answers|].
  assert (l2 ∈ balance_events o2) as Hl2 by (rewrite He2; apply list_elem_of_here).
  destruct (write_rows_lookup now2 (balance_events o2) (write_rows now1 (balance_events o1) d) (event_key l1))
    as [(e & He & Hk & Hrow)|[Hno _]]; [|by destruct (Hno l2)].
  exists l1, e. split_and!; try done. rewrite He1. apply list_elem_of_here.
Qed.
End rows.

(** ** Examples *)

Module Concrete.
Import SettlementProofs.Concrete.

(** A first order on a fresh engine; ten outputs are settled already. *)
Definition fresh_request : OrderRequest := mkRequest 1 9 Buy Limit 102 20 90 1000.

Definition settled_service : Service := service_start (mkChain 10 77) SettlementDbProofs.Concrete.empty_db.

Lemma restarted_engine_skipped_witness :
  exists e e' o, register_all [(1, 1, 2)] (engine_new (W := unit) None None) = Ok tt e /\
    collect (bp := debug_profile) [(1, fresh_request, "a")] e = Ok [o] e' /\ verify o = true /\
    process_kafka_batches (bp := debug_profile) [([o; o], 100)] settled_service = Ok tt settled_service.
Proof.
  destruct (register_all [(1, 1, 2)] (engine_new (W := unit) None None)) as [[] e|er e|] eqn:He;
    [|vm_compute in He; discriminate..].
  destruct (collect (bp := debug_profile) [(1, fresh_request, "a")] e) as [outs e'|er e'|] eqn:Hr;
    [|vm_compute in He; injection He as <-; vm_compute in Hr; discriminate..].
  assert (exists o, outs = [o]) as [o ->].
  { cbn [collect] in Hr. unfold bind in Hr. destruct (add_order_and_build_output _ _ _ _); [|discriminate..].
    injection Hr as <- <-. by eexists. }
  destruct (restarted_engine_skipped (bp := debug_profile) None [(1, 1, 2)] [(1, fresh_request, "a")] [o] e e'
    [([o; o], 100)] settled_service He Hr) as [Hv Hp].
  - vm_compute. discriminate.
  - vm_compute. discriminate.
  - repeat (apply Forall_cons; split; [apply list_elem_of_here|]). by apply Forall_nil.
  - exists e, e', o. split; [reflexivity|]. split; [exact Hr|].
    split; [by apply Forall_cons in Hv as [Hv _]|exact Hp].
Defined.

(** An output with a trade of symbol 1. *)
Definition traded_output : EngineOutput :=
  output_new 1 GENESIS_HASH (input_new 1 (order_input fresh_request "a")) None
    [mkTradeOutput 5 1 1 9 3 90 20 101 4 1 2 4 0 1000] [].

Lemma restart_settles_again_witness :
  let cs := mkChain 0 GENESIS_HASH in
  let d := SettlementDbProofs.Concrete.empty_db in
  exists s, process_kafka_batch (bp := debug_profile) [traded_output] 100 (service_start cs d) = Ok tt s /\
    last_seq (chain s) = 1 /\ load_chain_state (db s) = Ok cs (db s) /\
    exists s', process_kafka_batch (bp := debug_profile) [traded_output] 200 (service_start cs (db s)) = Ok tt s' /\
      orders_channel s' = [[traded_output]].
Proof.
  intros cs d.
  destruct (restart_settles_again (bp := debug_profile) traded_output 100 200 d [1] cs)
    as (s & H1 & H2 & _ & H4 & s' & H5 & H6 & _).
  - reflexivity.
  - reflexivity.
  - vm_compute. discriminate.
  - vm_compute. discriminate.
  - reflexivity.
  - vm_compute. discriminate.
  - reflexivity.
  - vm_compute. reflexivity.
  - reflexivity.
  - exists s. split; [exact H1|]. split; [exact H2|]. split; [exact H4|]. exists s'. split; [exact H5|exact H6].
Defined.
End Concrete.
