(* ===== verification/SymbolManager.v ===== *)
(** * Symbols and assets ([src/src/symbol_manager.rs])

    The two maps between names and identifiers, and what is known of a symbol
    and of an asset. *)

From S2P Require Import Prelude.

#[local] Open Scope string_scope.
#[local] Open Scope list_scope.
#[local] Open Scope Z_scope.

Record SymbolInfo := mkSymbolInfo {
  si_symbol : string; si_symbol_id : Z; si_base_asset_id : Z; si_quote_asset_id : Z;
  si_price_decimal : Z; si_price_display_decimal : Z
}.

Record AssetInfo := mkAssetInfo {
  ai_asset_id : Z; ai_decimals : Z; ai_display_decimals : Z; ai_name : string
}.

Record SymbolManager := mkSymbols {
  symbol_to_id : gmap string Z;
  id_to_symbol : gmap Z string;
  symbol_info : gmap Z SymbolInfo;
  assets : gmap Z AssetInfo
}.

Definition symbols_new : SymbolManager := mkSymbols ∅ ∅ ∅ ∅.

Definition insert_symbol (symbol : string) (id base quote price_decimal price_display_decimal : Z)
    (m : SymbolManager) : SymbolManager :=
  mkSymbols (<[symbol := id]> (symbol_to_id m)) (<[id := symbol]> (id_to_symbol m))
    (<[id := mkSymbolInfo symbol id base quote price_decimal price_display_decimal]> (symbol_info m))
    (assets m).

Definition symbols_insert (symbol : string) (id base quote : Z) (m : SymbolManager) : SymbolManager :=
  insert_symbol symbol id base quote 2 2 m.

Definition get_symbol_id (m : SymbolManager) (symbol : string) : option Z := symbol_to_id m !! symbol.

Definition get_symbol (m : SymbolManager) (id : Z) : option string := id_to_symbol m !! id.

Definition get_symbol_info_by_id (m : SymbolManager) (id : Z) : option SymbolInfo := symbol_info m !! id.

Definition get_symbol_info (m : SymbolManager) (symbol : string) : option SymbolInfo :=
  get_symbol_id m symbol ≫= get_symbol_info_by_id m.

Definition add_asset (asset_id decimals display_decimals : Z) (name : string) (m : SymbolManager)
  : SymbolManager :=
  mkSymbols (symbol_to_id m) (id_to_symbol m) (symbol_info m)
    (<[asset_id := mkAssetInfo asset_id decimals display_decimals name]> (assets m)).

Definition get_asset_name (m : SymbolManager) (asset_id : Z) : option string := ai_name <$> assets m !! asset_id.

Definition get_asset_decimal (m : SymbolManager) (asset_id : Z) : option Z := ai_decimals <$> assets m !! asset_id.

Definition get_asset_display_decimals (m : SymbolManager) (asset_id : Z) : option Z :=
  ai_display_decimals <$> assets m !! asset_id.

(** [values().find(..)]: the first in the order of the map, which here is that
    of [map_to_list]; no claim depends on it. *)
Definition get_asset_id (m : SymbolManager) (name : string) : option Z :=
  ai_asset_id ∘ snd <$> List.find (fun x => bool_decide (ai_name x.2 = name)) (map_to_list (assets m)).

Definition load_from_db : SymbolManager :=
  insert_symbol "ETH_USDT" 1 3 2 2 2
    (insert_symbol "BTC_USDT" 0 1 2 2 2
      (add_asset 3 8 4 "ETH" (add_asset 2 8 2 "USDT" (add_asset 1 8 3 "BTC" symbols_new)))).

(** ** What is looked up

    The maps agree as long as no name and no identifier is given twice. *)

Record wf_symbols (m : SymbolManager) : Prop := {
  names_match : forall symbol id, symbol_to_id m !! symbol = Some id <-> id_to_symbol m !! id = Some symbol;
  infos_match : forall id i, symbol_info m !! id = Some i ->
    si_symbol_id i = id /\ id_to_symbol m !! id = Some (si_symbol i);
  infos_there : forall id, is_Some (id_to_symbol m !! id) -> is_Some (symbol_info m !! id);
  assets_match : forall id a, assets m !! id = Some a -> ai_asset_id a = id
}.

Lemma wf_symbols_new : wf_symbols symbols_new.
Proof. split; simpl; setoid_rewrite lookup_empty; naive_solver. Qed.

Lemma insert_symbol_wf symbol id base quote pd pdd m :
  symbol_to_id m !! symbol = None -> id_to_symbol m !! id = None ->
  wf_symbols m -> wf_symbols (insert_symbol symbol id base quote pd pdd m).
Proof.
  intros Hs Hi [Hn Hf Ht Ha]. split; simpl.
  - intros s i. rewrite !lookup_insert_Some. specialize (Hn s i). naive_solver congruence.
  - intros i x. rewrite !lookup_insert_Some. specialize (Hf i x). naive_solver.
  - intros i. rewrite !lookup_insert_is_Some'. specialize (Ht i). naive_solver.
  - done.
Qed.

Lemma add_asset_wf id d dd name m : wf_symbols m -> wf_symbols (add_asset id d dd name m).
Proof.
  intros [Hn Hf Ht Ha]. split; simpl; try done.
  intros i a. rewrite lookup_insert_Some. specialize (Ha i a). naive_solver.
Qed.

(** A symbol that is found has the information stored under its identifier. *)
Lemma get_symbol_info_found m symbol id :
  wf_symbols m -> get_symbol_id m symbol = Some id ->
  exists i, get_symbol_info m symbol = Some i /\ si_symbol i = symbol /\ si_symbol_id i = id /\
    get_symbol m id = Some symbol.
Proof.
  intros [Hn Hf Ht _] Hid. unfold get_symbol_info, get_symbol_id, get_symbol in *. rewrite Hid. simpl.
  apply Hn in Hid as Hsym. destruct (Ht id (mk_is_Some _ _ Hsym)) as [i Hi].
  destruct (Hf id i Hi) as [H1 H2]. exists i. split; [done|]. rewrite Hsym in H2. by injection H2 as <-.
Qed.

Lemma load_from_db_wf : wf_symbols load_from_db.
Proof.
  apply insert_symbol_wf; [done..|]. apply insert_symbol_wf; [done..|].
  repeat apply add_asset_wf. apply wf_symbols_new.
Qed.
