(* ===== verification/EngineServer.v ===== *)
(** * The matching engine's process ([src/src/bin/matching_engine_server.rs])

    Messages from the queue of validated orders are turned into commands; the
    commands go through a ring buffer with two consumers, the matcher and,
    behind it, the publisher.  The three parts run as threads of their own; what
    they share is the ring, a slot of which is reused when all have passed it.
    Timing and the metrics are not modelled. *)

From stdpp Require Import pretty.
From S2P Require Import Prelude OrderModels OrderBook Bytes EngineOutput MatchingEngine UbsParts SymbolManager.

#[local] Open Scope string_scope.
#[local] Open Scope list_scope.
#[local] Open Scope Z_scope.
#[local] Open Scope rust_scope.

(** ** Commands *)

(** [models/order_requests.rs] *)
Module ClientRequest.
Inductive t :=
  | PlaceOrder (order_id user_id symbol_id : Z) (side : Side) (price quantity : Z) (order_type : OrderType)
      (checksum : Z)
  | CancelOrder (order_id user_id symbol_id checksum : Z).
End ClientRequest.

(** An order of a batch is the tuple of the engine's arguments; a request about
    balances carries nothing that is looked at. *)
Module EngineCommand.
Inductive t :=
  | PlaceOrderBatch (batch : list OrderRequest)
  | CancelOrder (symbol_id order_id : Z)
  | BalanceRequest.
End EngineCommand.

Definition KafkaOffset : Type := string * Z * Z.

Record OrderEvent := mkEvent {
  command : option EngineCommand.t;
  engine_outputs : option (list EngineOutput);
  kafka_offset : option KafkaOffset;
  timestamp : Z
}.

Definition empty_event : OrderEvent := mkEvent None None None 0.

(** ** The guard against repeated messages *)

Definition MAX_TRACKED_OFFSETS : Z := 100000.

Record MessageDeduplicator := mkTracker {
  recent_offsets : gset Z;
  offset_queue : list (Z * Z);
  oldest_tracked_ts : Z
}.

Definition tracker_new : MessageDeduplicator := mkTracker ∅ [] 0.

Definition is_duplicate (offset : Z) (m : MessageDeduplicator) : bool := bool_decide (offset ∈ recent_offsets m).

Definition is_outside_tracked_window (msg_ts : Z) (m : MessageDeduplicator) : bool :=
  if zlen (offset_queue m) <? MAX_TRACKED_OFFSETS then false
  else if (msg_ts =? 0) || (oldest_tracked_ts m =? 0) then false
  else msg_ts <? oldest_tracked_ts m.

Fixpoint evict (queue : list (Z * Z)) (recent : gset Z) : list (Z * Z) * gset Z :=
  match queue with
  | [] => ([], recent)
  | (oldest, _) :: rest =>
      if MAX_TRACKED_OFFSETS <? zlen queue then evict rest (recent ∖ {[oldest]}) else (queue, recent)
  end.

Definition mark_processed (offset ts : Z) (m : MessageDeduplicator) : MessageDeduplicator :=
  if is_duplicate offset m then m
  else
    let '(queue, recent) := evict (offset_queue m ++ [(offset, ts)]) ({[offset]} ∪ recent_offsets m) in
    mkTracker recent queue (default 0 (snd <$> head queue)).

(** ** Matcher *)

Section server.
Context {bp : BuildProfile} `{OrderLog W} `{Digests}.
Context (xxh3_64_with_seed : list Z -> Z -> Z).

Record Matcher := mkMatcher { engine : MatchingEngine W; msg_dedup : MessageDeduplicator }.

Abbreviation Match A := (M Matcher Empty_set A).

Definition on_tracker (f : MessageDeduplicator -> MessageDeduplicator) : Match unit :=
  modify (fun m => mkMatcher (engine m) (f (msg_dedup m))).

Definition on_engine {A} (c : M (MatchingEngine W) Empty_set A) : Match A :=
  zoom (fun m => Some (engine m)) (fun e m => mkMatcher e (msg_dedup m)) c.

(** A refused order is dropped. *)
Definition place (input_seq : Z) (r : OrderRequest) : M (MatchingEngine W) Empty_set (list EngineOutput) :=
  fun e =>
    match add_order_and_build_output input_seq r ("kafka_" +:+ pretty (rq_order_id r)) e with
    | Ok (_, output) e' => Ok [output] e'
    | Err _ e' => Ok [] e'
    | Panic => Panic
    end.

Fixpoint place_batch (msg_ts input_seq : Z) (batch : list OrderRequest) : Match (list EngineOutput) :=
  match batch with
  | [] => ret []
  | r :: rest =>
      let msg_id := as_i64 (rq_order_id r) in
      let* m := get in
      if is_duplicate msg_id (msg_dedup m) then place_batch msg_ts input_seq rest
      else
        on_tracker (mark_processed msg_id msg_ts) ;;;
        let* input_seq := unwrap (op_add input_seq 1) in
        let* placed := on_engine (place input_seq r) in
        let* more := place_batch msg_ts input_seq rest in
        ret (placed ++ more)
  end.

(** The outputs that the event is given; none leaves the event as it is. *)
Definition match_event (event : OrderEvent) : Match (list EngineOutput) :=
  let msg_ts := timestamp event in
  let* m := get in
  if is_outside_tracked_window msg_ts (msg_dedup m) then ret []
  else
    match command event with
    | Some (EngineCommand.PlaceOrderBatch batch) => place_batch msg_ts (output_seq (core (engine m))) batch
    | Some (EngineCommand.CancelOrder symbol_id order_id) =>
        let msg_id := as_i64 order_id in
        if is_duplicate msg_id (msg_dedup m) then ret []
        else
          on_tracker (mark_processed msg_id msg_ts) ;;;
          on_engine (ignore (cancel_order xxh3_64_with_seed symbol_id order_id)) ;;;
          ret []
    | Some EngineCommand.BalanceRequest | None => ret []
    end.

Definition set_outputs (outs : list EngineOutput) (event : OrderEvent) : OrderEvent :=
  match outs with
  | [] => event
  | _ => mkEvent (command event) (Some outs) (kafka_offset event) (timestamp event)
  end.

(** ** The ring

    [produced], [matched] and [done_with] are the numbers of events the
    producer has put into the ring and the two consumers have handled.  The
    queue [engine.outputs] gets the outputs whose sending succeeds; an output
    that cannot be encoded counts as one whose sending fails. *)

Record Pipeline := mkPipeline {
  ring : list OrderEvent;
  produced : nat; matched : nat; done_with : nat;
  matcher : Matcher;
  topic : list EngineOutput;
  stored_offset : option KafkaOffset;
  sends : list bool
}.

(** Failing sends are reported and forgotten. *)
Fixpoint send_outputs (outs : list EngineOutput) (script : list bool) : list EngineOutput * list bool :=
  match outs with
  | [] => ([], script)
  | o :: outs' =>
      let '(rest, script') := send_outputs outs' (tail script) in
      ((if default true (head script) then [o] else []) ++ rest, script')
  end.

Definition RING_SIZE : nat := Z.to_nat 8192.
Definition batch_poll_count : nat := Z.to_nat 1000.

Definition pipeline_new (size : nat) (m : Matcher) (script : list bool) : Pipeline :=
  mkPipeline (replicate size empty_event) 0 0 0 m [] None script.

Definition slot_of (k : nat) (p : Pipeline) : nat := (k mod length (ring p))%nat.

(** [producer.publish] writes three fields of the slot and not the fourth. *)
Definition fill_slot (ev event : OrderEvent) : OrderEvent :=
  mkEvent (command ev) (engine_outputs event) (kafka_offset ev) (timestamp ev).

Inductive pipeline_step : Pipeline -> option OrderEvent -> Pipeline -> Prop :=
  | producer_publishes p ev :
      (produced p < done_with p + length (ring p))%nat ->
      pipeline_step p (Some ev)
        (mkPipeline (alter (fill_slot ev) (slot_of (produced p) p) (ring p)) (S (produced p)) (matched p)
           (done_with p) (matcher p) (topic p) (stored_offset p) (sends p))
  | matcher_handles p event outs m' :
      (matched p < produced p)%nat -> ring p !! slot_of (matched p) p = Some event ->
      match_event event (matcher p) = Ok outs m' ->
      pipeline_step p None
        (mkPipeline (alter (set_outputs outs) (slot_of (matched p) p) (ring p)) (produced p) (S (matched p))
           (done_with p) m' (topic p) (stored_offset p) (sends p))
  | publisher_handles p event sent script' (end_of_batch : bool) :
      (done_with p < matched p)%nat -> ring p !! slot_of (done_with p) p = Some event ->
      send_outputs (default [] (engine_outputs event)) (sends p) = (sent, script') ->
      pipeline_step p None
        (mkPipeline (ring p) (produced p) (matched p) (S (done_with p)) (matcher p) (topic p ++ sent)
           (if end_of_batch then match kafka_offset event with Some o => Some o | None => stored_offset p end
            else stored_offset p)
           script').

(** The events the producer has published so far, over any interleaving. *)
Inductive pipeline_runs (p0 : Pipeline) : list OrderEvent -> Pipeline -> Prop :=
  | pipeline_starts : pipeline_runs p0 [] p0
  | pipeline_goes_on evs p ev p' :
      pipeline_runs p0 evs p -> pipeline_step p ev p' -> pipeline_runs p0 (evs ++ from_option (fun e => [e]) [] ev) p'.
End server.

(** ** The poll loop *)

(** The timestamp is that of the queue in milliseconds, 0 when it has none. *)
Record KafkaMessage := mkMessage {
  km_topic : string; km_partition : Z; km_offset : Z; km_timestamp : Z; km_payload : option (list Z)
}.

(** [bincode::deserialize] and [serde_json::from_slice]. *)
Class MessageCodec := {
  decode_internal_order : list Z -> option InternalOrder;
  decode_client_request : list Z -> option ClientRequest.t
}.

(** [models/client_order.rs] *)
Definition calculate_checksum `{Digests} (order_id user_id symbol_id side price qty type_id : Z) : Z :=
  crc32 (le_bytes 8 order_id ++ le_bytes 8 user_id ++ le_bytes 4 symbol_id ++ [side] ++ le_bytes 8 price ++
         le_bytes 8 qty ++ [type_id]).

Section poll.
Context `{Digests} `{MessageCodec}.
Context (orders_topic : string) (symbol_manager : SymbolManager).

Record Poll := mkPoll {
  place_orders : list OrderRequest;
  pending_batch_offset : option KafkaOffset;
  events : list OrderEvent
}.

Definition convert_side (s : UbsSide) : Side := match s with UbsBuy => Buy | UbsSell => Sell end.
Definition convert_type (t : UbsOrderType) : OrderType := match t with UbsLimit => Limit | UbsMarket => Market end.

Definition offset_of (m : KafkaMessage) : KafkaOffset := (km_topic m, km_partition m, km_offset m).

Definition message_ts (m : KafkaMessage) : Z := as_u64 (km_timestamp m).

(** An order of a symbol that is known joins the batch. *)
Definition collect_order (r : OrderRequest) (m : KafkaMessage) (p : Poll) : Poll :=
  match get_symbol symbol_manager (rq_symbol_id r) with
  | Some _ => mkPoll (place_orders p ++ [r]) (Some (offset_of m)) (events p)
  | None => p
  end.

Definition collect_internal (payload : list Z) (m : KafkaMessage) (p : Poll) : Poll :=
  match decode_internal_order payload with
  | Some o =>
      collect_order (mkRequest (io_symbol_id o) (io_order_id o) (convert_side (io_side o))
        (convert_type (io_order_type o)) (io_price o) (io_qty o) (io_user_id o) (message_ts m)) m p
  | None => p
  end.

(** Collected orders are published before a cancellation. *)
Definition publish_collected (ts : Z) (p : Poll) : Poll :=
  match place_orders p with
  | [] => p
  | os =>
      mkPoll [] None
        (events p ++ [mkEvent (Some (EngineCommand.PlaceOrderBatch os)) None (pending_batch_offset p) ts])
  end.

Definition collect_request (payload : list Z) (m : KafkaMessage) (p : Poll) : Poll :=
  match decode_client_request payload with
  | Some (ClientRequest.PlaceOrder order_id user_id symbol_id side price quantity order_type checksum) =>
      if calculate_checksum order_id user_id symbol_id (side_as_u8 side) price quantity
           (order_type_as_u8 order_type) =? checksum
      then collect_order (mkRequest symbol_id order_id side order_type price quantity user_id (message_ts m)) m p
      else p
  | Some (ClientRequest.CancelOrder order_id _ symbol_id _) =>
      match get_symbol symbol_manager symbol_id with
      | Some _ =>
          let p := publish_collected (message_ts m) p in
          mkPoll (place_orders p) (pending_batch_offset p)
            (events p ++ [mkEvent (Some (EngineCommand.CancelOrder symbol_id order_id)) None
                            (Some (offset_of m)) (message_ts m)])
      | None => p
      end
  | None => p
  end.

(** Both branches ask for the same topic. *)
Definition prepare_message (p : Poll) (m : KafkaMessage) : Poll :=
  match km_payload m with
  | None => p
  | Some payload =>
      if String.eqb (km_topic m) orders_topic then collect_internal payload m p
      else if String.eqb (km_topic m) orders_topic then collect_request payload m p
      else p
  end.

(** One turn of the loop: the messages received, and what is published. *)
Definition prepare_batch (batch : list KafkaMessage) : list OrderEvent :=
  events (publish_collected 0 (fold_left prepare_message batch (mkPoll [] None []))).
End poll.
