(* ===== verification/EngineServerProofs.v ===== *)
(** * What the matching engine's process guarantees

    The threads around the ring publish what one sequential engine would, with
    the outputs of reused slots sent again in between; that engine is given
    every order identifier once; and behind the queue the settlement service
    settles each of its outputs exactly once. *)

From stdpp Require Import pretty.
From S2P Require Import Prelude Ledger OrderModels OrderBook Bytes EngineOutput MatchingEngine EngineProofs.
From S2P Require Import UbsParts SymbolManager EngineServer SettlementDb Settlement SettlementProofs.

#[local] Open Scope string_scope.
#[local] Open Scope list_scope.
#[local] Open Scope Z_scope.
#[local] Open Scope rust_scope.

(** ** The requests that reach the engine *)

(** A set and a queue of the same identifiers, at most as many as are tracked. *)
Record wf_tracker (t : MessageDeduplicator) : Prop := {
  tracker_set : forall x, x ∈ recent_offsets t <-> x ∈ map fst (offset_queue t);
  tracker_nodup : NoDup (map fst (offset_queue t));
  tracker_size : zlen (offset_queue t) <= MAX_TRACKED_OFFSETS
}.

Lemma tracker_new_wf : wf_tracker tracker_new.
Proof.
  split; [|apply NoDup_nil_2|done]. intros x. simpl. split; intros Hx; [by apply not_elem_of_empty in Hx|].
  by apply not_elem_of_nil in Hx.
Qed.

(** Nothing is evicted as long as there is room. *)
Lemma evict_room queue recent : zlen queue <= MAX_TRACKED_OFFSETS -> evict queue recent = (queue, recent).
Proof.
  intros Hlen. destruct queue as [|[x ts] queue]; [done|]. simpl in *.
  destruct (Z.ltb_spec MAX_TRACKED_OFFSETS (zlen ((x, ts) :: queue))); [lia|done].
Qed.

Lemma evict_full x ts queue recent :
  zlen queue = MAX_TRACKED_OFFSETS -> evict ((x, ts) :: queue) recent = (queue, recent ∖ {[x]}).
Proof.
  intros Hlen. change (evict ((x, ts) :: queue) recent) with
    (if MAX_TRACKED_OFFSETS <? zlen ((x, ts) :: queue) then evict queue (recent ∖ {[x]}) else ((x, ts) :: queue, recent)).
  destruct (Z.ltb_spec MAX_TRACKED_OFFSETS (zlen ((x, ts) :: queue))) as [|Hle]; [by apply evict_room; lia|].
  rewrite !zlen_eq in *. simpl in Hle. lia.
Qed.

(** What is marked is the newest entry; the oldest goes when there is no room. *)
Lemma mark_processed_queue x ts t :
  wf_tracker t -> is_duplicate x t = false ->
  offset_queue (mark_processed x ts t) =
    (if zlen (offset_queue t) <? MAX_TRACKED_OFFSETS then offset_queue t else tail (offset_queue t)) ++ [(x, ts)] /\
  wf_tracker (mark_processed x ts t).
Proof.
  intros [Hset Hnd Hsize] Hdup. unfold mark_processed. rewrite Hdup.
  unfold is_duplicate in Hdup. apply bool_decide_eq_false in Hdup.
  assert (x ∉ map fst (offset_queue t)) as Hx by by rewrite <- Hset.
  rewrite !zlen_eq in *.
  destruct (Z.ltb_spec (Z.of_nat (length (offset_queue t))) MAX_TRACKED_OFFSETS).
  - rewrite evict_room by (rewrite zlen_eq, length_app; simpl; lia). simpl. split; [done|].
    split; simpl; rewrite ?map_app; simpl.
    + intros y. rewrite elem_of_union, elem_of_singleton, elem_of_app, list_elem_of_singleton, Hset. tauto.
    + apply NoDup_app. split_and!; [done| |apply NoDup_singleton].
      intros y Hy ->%list_elem_of_singleton. done.
    + rewrite zlen_eq, length_app. simpl. lia.
  - destruct (offset_queue t) as [|[y yts] queue] eqn:Hq; [unfold MAX_TRACKED_OFFSETS in *; simpl in *; lia|].
    cbn [app]. rewrite evict_full by (rewrite zlen_eq, length_app; simpl in *; lia). cbn [offset_queue tail].
    split; [done|]. simpl in *. apply NoDup_cons in Hnd as [Hy Hnd].
    apply not_elem_of_cons in Hx as [Hxy Hx].
    split; cbn [offset_queue recent_offsets]; rewrite ?map_app; simpl.
    + intros z. rewrite elem_of_difference, elem_of_union, !elem_of_singleton, elem_of_app, list_elem_of_singleton, Hset,
        elem_of_cons. split; [naive_solver|]. intros [Hz| ->]; [|naive_solver].
      split; [by right; right|]. by intros ->.
    + apply NoDup_app. split_and!; [done| |apply NoDup_singleton].
      intros z Hz ->%list_elem_of_singleton. done.
    + rewrite zlen_eq, length_app. simpl in *. lia.
Qed.

(** ** One sequential engine *)

Module Request.
Inductive t := Place (r : OrderRequest) | Cancel (symbol_id order_id : Z).
End Request.

(** The orders of a batch that have not been seen. *)
Fixpoint fresh_orders (ts : Z) (batch : list OrderRequest) (t : MessageDeduplicator)
  : list Request.t * MessageDeduplicator :=
  match batch with
  | [] => ([], t)
  | r :: rest =>
      let id := as_i64 (rq_order_id r) in
      if is_duplicate id t then fresh_orders ts rest t
      else
        let '(fresh, t') := fresh_orders ts rest (mark_processed id ts t) in
        (Request.Place r :: fresh, t')
  end.

Definition fresh_requests (ev : OrderEvent) (t : MessageDeduplicator) : list Request.t * MessageDeduplicator :=
  if is_outside_tracked_window (timestamp ev) t then ([], t)
  else
    match command ev with
    | Some (EngineCommand.PlaceOrderBatch batch) => fresh_orders (timestamp ev) batch t
    | Some (EngineCommand.CancelOrder symbol_id order_id) =>
        if is_duplicate (as_i64 order_id) t then ([], t)
        else ([Request.Cancel symbol_id order_id], mark_processed (as_i64 order_id) (timestamp ev) t)
    | Some EngineCommand.BalanceRequest | None => ([], t)
    end.

Fixpoint fresh_of (evs : list OrderEvent) (t : MessageDeduplicator) : list Request.t * MessageDeduplicator :=
  match evs with
  | [] => ([], t)
  | ev :: evs' =>
      let '(l1, t1) := fresh_requests ev t in
      let '(l2, t2) := fresh_of evs' t1 in
      (l1 ++ l2, t2)
  end.

Definition request_id (q : Request.t) : Z :=
  match q with Request.Place r => rq_order_id r | Request.Cancel _ id => id end.

(** The requests an event carries, seen or not. *)
Definition requests_in (ev : OrderEvent) : list Request.t :=
  match command ev with
  | Some (EngineCommand.PlaceOrderBatch batch) => map Request.Place batch
  | Some (EngineCommand.CancelOrder symbol_id order_id) => [Request.Cancel symbol_id order_id]
  | Some EngineCommand.BalanceRequest | None => []
  end.

Section serve.
Context {bp : BuildProfile} `{Digests} `{OrderLog W}.
Context (h : list Z -> Z -> Z).
Implicit Types e : MatchingEngine W.

Definition serve_one (q : Request.t) : M (MatchingEngine W) Empty_set (list EngineOutput) :=
  match q with
  | Request.Place r =>
      let* e := get in
      let* seq := unwrap (op_add (output_seq (core e)) 1) in
      place seq r
  | Request.Cancel symbol_id order_id => ignore (cancel_order h symbol_id order_id) ;;; ret []
  end.

Fixpoint serve (qs : list Request.t) : M (MatchingEngine W) Empty_set (list EngineOutput) :=
  match qs with
  | [] => ret []
  | q :: qs' =>
      let* outs := serve_one q in
      let* more := serve qs' in
      ret (outs ++ more)
  end.

Lemma serve_app l1 l2 e :
  serve (l1 ++ l2) e = bind (serve l1) (fun o1 => bind (serve l2) (fun o2 => ret (o1 ++ o2))) e.
Proof.
  revert e. induction l1 as [|q l1 IH]; intros e; simpl.
  - unfold bind, ret. by destruct (serve l2 e).
  - unfold bind in *. destruct (serve_one q e) as [o e1|[]|]; [|done]. rewrite IH.
    unfold ret. destruct (serve l1 e1) as [o1 e2|[]|]; [|done]. destruct (serve l2 e2) as [o2 e3|[]|]; [|done].
    by rewrite app_assoc.
Qed.

(** ** The header of the chain along the requests *)

(** No order log is open, and the symbols are [am]. *)
Record steady (am : gmap Z (Z * Z)) (e : MatchingEngine W) : Prop := {
  steady_wal : order_wal e = None;
  steady_symbols : asset_map e = am
}.

Lemma build_steady am s r c : Preserves (steady am) (add_order_and_build_output s r c).
Proof.
  intros e e' [Hw Ha]. unfold add_order_and_build_output, wal_place. unfold bind at 1, get at 1.
  case_bool_decide; [|by intros [= <-]]. unfold bind at 1. rewrite (no_wal _ e Hw).
  unfold bind at 1, engine_of_core, zoom.
  destruct (process_order_with_output _ _ _ _ _) as [x st|er st|]; [|by intros [= <-]|done].
  unfold bind. rewrite no_wal by done. by intros [= <-].
Qed.

(** A state without an order log, and with the header [hd]. *)
Definition steady_at (am : gmap Z (Z * Z)) (hd : Z * Z) (e : MatchingEngine W) : Prop :=
  steady am e /\ header (core e) = hd.

Lemma with_wal_steady am hd m : Preserves (steady_at am hd) (with_wal m).
Proof. intros e e' [Hs Hh]. rewrite no_wal by apply Hs. by intros [= <-]. Qed.

Lemma unlock_of_steady am hd base quote o : Preserves (steady_at am hd) (unlock_of base quote o).
Proof. unfold unlock_of. destruct (side o); apply _. Qed.

Lemma process_cancel_steady am hd symbol_id order_id : Preserves (steady_at am hd) (process_cancel symbol_id order_id).
Proof.
  unfold process_cancel. apply preserves_bind_get. intros e He.
  destruct (engine_books e !! Z.to_nat symbol_id) as [[b|]|]; [|apply _..].
  apply preserves_bind.
  - apply (preserves_zoom _ (fun _ => True)); [done| |by intros ? ? ? ?].
    intros e1 b1 b2 [[Hw Ha] Hh] _ _. split; [by split|done].
  - intros o. apply preserves_bind; [apply _|]. intros [base quote].
    apply preserves_bind; [apply unlock_of_steady|]. intros [asset amount]. apply _.
Qed.

Lemma cancel_steady am hd symbol_id order_id : Preserves (steady_at am hd) (cancel_order h symbol_id order_id).
Proof.
  unfold cancel_order. apply preserves_bind_get. intros e He. apply preserves_bind.
  { destruct (symbol_id =? 0); apply _. }
  intros actual. apply preserves_bind; [apply with_wal_steady|]. intros _.
  apply preserves_bind; [apply process_cancel_steady|]. intros cmds.
  apply preserves_bind; [|apply _]. apply preserves_modify. intros e1 [[Hw Ha] Hh]. split; [by split|done].
Qed.

Definition registered (am : gmap Z (Z * Z)) (q : Request.t) : Prop :=
  match q with Request.Place r => is_Some (am !! rq_symbol_id r) | Request.Cancel _ _ => True end.

(** What a request does to the header: the number goes up by one for an order,
    and the outputs, one or none, link the old header to the new one. *)
Lemma place_header am n lh s r e outs e' :
  steady_at am (n, lh) e -> is_Some (am !! rq_symbol_id r) -> 0 <= n < u64_max ->
  place s r e = Ok outs e' ->
  exists lh', steady_at am (n + 1, lh') e' /\
    (outs = [] /\ lh' = lh \/ exists o, outs = [o] /\ verify o = true /\ out_seq o = n + 1 /\ prev_hash o = lh /\ lh' = hash o).
Proof.
  intros [Hs Hh] Hr Hn. injection Hh as Hseq Hlast. unfold place.
  assert (op_add (output_seq (core e)) 1 = Some (n + 1)) as Hadd by (rewrite Hseq; apply u64_op_exact; ulia).
  set (c := "kafka_" +:+ _). pose proof (add_order_and_build_output_linked s r c e (n + 1) Hadd) as Hl.
  pose proof (build_steady am s r c e) as Hk. pose proof (error_advances s r c e (n + 1)) as Her.
  destruct (add_order_and_build_output s r c e) as [[oid o] e1|er e1|]; [| |done]; intros [= <- <-].
  - destruct Hl as (Hv & Ho & Hp & Hh1 & _). exists (hash o). split; [split; [by apply Hk|exact Hh1]|].
    right. exists o. simpl in *. by rewrite Hlast in Hp.
  - destruct (Her er e1 Hadd ltac:(apply Hs) ltac:(by rewrite (steady_symbols _ _ Hs)) eq_refl) as [Hh1 _].
    exists lh. split; [split; [by apply Hk|by rewrite Hh1, Hlast]|by left].
Qed.

Lemma serve_one_header am n lh q e outs e' :
  steady_at am (n, lh) e -> registered am q -> 0 <= n < u64_max -> serve_one q e = Ok outs e' ->
  exists n' lh', n <= n' <= n + 1 /\ steady_at am (n', lh') e' /\
    (outs = [] /\ lh' = lh \/
     exists o, outs = [o] /\ verify o = true /\ out_seq o = n' /\ n < n' /\ prev_hash o = lh /\ lh' = hash o).
Proof.
  intros He Hr Hn. destruct q as [r|symbol_id order_id]; simpl.
  - unfold bind, get. destruct (op_add (output_seq (core e)) 1) as [s|]; [|done]. intros Hp.
    destruct (place_header am n lh s r e outs e' He Hr Hn Hp) as (lh' & H1 & H2).
    exists (n + 1), lh'. split; [lia|]. split; [done|]. destruct H2 as [|(o & -> & Hv & Ho & Hq)]; [by left|].
    right. exists o. split_and!; try done; [lia|by destruct Hq..].
  - unfold bind, ignore. pose proof (cancel_steady am (n, lh) symbol_id order_id e) as Hk.
    destruct (cancel_order h symbol_id order_id e) as [x e1|er e1|]; [| |done]; intros [= <- <-];
      (exists n, lh; split; [lia|]; split; [by apply Hk|by left]).
Qed.

(** The outputs of the requests are linked from the header on. *)
Lemma serve_linked am qs n lh e outs e' :
  steady_at am (n, lh) e -> Forall (registered am) qs -> 0 <= n -> n + Z.of_nat (length qs) <= u64_max ->
  serve qs e = Ok outs e' ->
  linked_from n lh outs /\ Forall (fun o => out_seq o <= n + Z.of_nat (length qs)) outs /\
  exists n' lh', n <= n' <= n + Z.of_nat (length qs) /\ steady_at am (n', lh') e'.
Proof.
  revert n lh e outs. induction qs as [|q qs IH]; intros n lh e outs He Hreg Hz Hmax.
  - intros [= <- <-]. split_and!; [done|by apply Forall_nil|]. exists n, lh. split; [lia|done].
  - apply Forall_cons in Hreg as [Hq Hreg]. cbn [length] in Hmax. cbn [serve].
    intros (o1 & e1 & H1 & (o2 & e2 & H2 & Hret)%bind_inv_ok)%bind_inv_ok. injection Hret as <- <-.
    destruct (serve_one_header am n lh q e o1 e1 He Hq ltac:(lia) H1) as (n1 & lh1 & Hn1 & He1 & Ho1).
    destruct (IH n1 lh1 e1 o2 He1 Hreg ltac:(lia) ltac:(lia) H2) as (Hl & Hb & n' & lh' & Hn' & He').
    assert (Forall (fun o => out_seq o <= n + Z.of_nat (length (q :: qs))) o2) as Hb2.
    { eapply Forall_impl; [exact Hb|]. intros o Ho. cbn [length]. simpl in *. lia. }
    split_and!.
    + destruct Ho1 as [[-> ->]|(o & -> & Hv & Ho & Hlt & Hp & ->)]; [by apply (linked_from_weaken n n1); [lia|]|].
      simpl. rewrite Ho. split_and!; (done || lia).
    + destruct Ho1 as [[-> ->]|(o & -> & Hv & Ho & Hlt & Hp & ->)]; [done|].
      apply Forall_cons. split; [|done]. cbn [length]. lia.
    + exists n', lh'. cbn [length]. split; [lia|done].
Qed.
End serve.

(** ** The matcher is that engine *)

Section matcher.
Context {bp : BuildProfile} `{Digests} `{OrderLog W}.
Context (h : list Z -> Z -> Z).

Abbreviation Match A := (M (Matcher (W := W)) Empty_set A).

Fixpoint match_events (evs : list OrderEvent) : Match (list (list EngineOutput)) :=
  match evs with
  | [] => ret []
  | ev :: evs' =>
      let* outs := match_event h ev in
      let* more := match_events evs' in
      ret (outs :: more)
  end.

Lemma match_events_app l1 l2 m :
  match_events (l1 ++ l2) m =
  bind (match_events l1) (fun o1 => bind (match_events l2) (fun o2 => ret (o1 ++ o2))) m.
Proof.
  revert m. induction l1 as [|ev l1 IH]; intros m; simpl.
  - unfold bind, ret. by destruct (match_events l2 m).
  - unfold bind in *. destruct (match_event h ev m) as [o m1|[]|]; [|done]. rewrite IH.
    unfold ret. destruct (match_events l1 m1) as [o1 m2|[]|]; [|done]. by destruct (match_events l2 m2) as [o2 m3|[]|].
Qed.

Lemma match_events_length evs m outs m' : match_events evs m = Ok outs m' -> length outs = length evs.
Proof.
  revert m outs. induction evs as [|ev evs IH]; intros m outs; [by intros [= <- <-]|]. cbn [match_events].
  intros (o & m1 & _ & (os & m2 & H2 & Hret)%bind_inv_ok)%bind_inv_ok. injection Hret as <- <-.
  simpl. by rewrite (IH _ _ H2).
Qed.

(** The run of a computation of the engine, beside the tracker [t]. *)
Definition with_tracker {A} (t : MessageDeduplicator) (r : res (MatchingEngine W) Empty_set A) : res Matcher Empty_set A :=
  res_map (fun e => mkMatcher e t) r.

Lemma place_batch_serves am ts batch n lh e t :
  steady_at am (n, lh) e -> Forall (registered am) (fresh_orders ts batch t).1 -> 0 <= n ->
  n + Z.of_nat (length (fresh_orders ts batch t).1) <= u64_max ->
  place_batch ts n batch (mkMatcher e t) =
  with_tracker (fresh_orders ts batch t).2 (serve h (fresh_orders ts batch t).1 e).
Proof.
  revert n lh e t. induction batch as [|r batch IH]; intros n lh e t He Hreg Hz Hmax; [done|].
  cbn [place_batch fresh_orders] in *. unfold bind at 1, get. cbn [msg_dedup].
  destruct (is_duplicate (as_i64 (rq_order_id r)) t); [by eapply IH|].
  set (t1 := mark_processed _ _ t) in *. specialize (IH (n + 1)).
  destruct (fresh_orders ts batch t1) as [fresh t2] eqn:Hf. cbn [fst snd length] in *.
  apply Forall_cons in Hreg as [Hr Hreg].
  assert (serve_one h (Request.Place r) e = place (n + 1) r e) as Hone.
  { cbn [serve_one]. unfold bind, get. injection (proj2 He) as -> _. unfold op_add. by rewrite u64_op_exact by ulia. }
  unfold bind at 1, on_tracker, modify. cbn [engine msg_dedup]. fold t1.
  unfold bind at 1, op_add. rewrite u64_op_exact by ulia. cbn [unwrap]. unfold ret at 1.
  cbn [serve]. unfold bind at 1, on_engine, zoom. cbn [engine msg_dedup]. unfold bind at 2. rewrite Hone.
  destruct (place (n + 1) r e) as [o e1|[]|] eqn:Hp; [|done].
  destruct (place_header am n lh _ r e o e1 He Hr ltac:(lia) Hp) as (lh1 & He1 & _).
  unfold bind at 1. rewrite (IH lh1 e1 t1 He1) by (rewrite ?Hf; cbn [fst]; done || lia). rewrite Hf. cbn [fst snd].
  unfold bind. by destruct (serve h fresh e1) as [o2 e2|[]|].
Qed.

Lemma match_event_serves am ev n lh e t :
  steady_at am (n, lh) e -> Forall (registered am) (fresh_requests ev t).1 -> 0 <= n ->
  n + Z.of_nat (length (fresh_requests ev t).1) <= u64_max ->
  match_event h ev (mkMatcher e t) =
  with_tracker (fresh_requests ev t).2 (serve h (fresh_requests ev t).1 e).
Proof.
  intros He Hreg Hz Hmax. unfold match_event, fresh_requests in *. unfold bind at 1, get. cbn [msg_dedup engine].
  destruct (is_outside_tracked_window (timestamp ev) t); [done|].
  destruct (command ev) as [[batch|symbol_id order_id|]|]; [| |done..].
  - injection (proj2 He) as Hseq _. rewrite Hseq. by eapply place_batch_serves.
  - destruct (is_duplicate (as_i64 order_id) t); [done|]. cbn [fst snd serve serve_one].
    unfold on_tracker, on_engine, modify, zoom, bind, ret. cbn [engine msg_dedup].
    by destruct (ignore (cancel_order h symbol_id order_id) e) as [[] e1|[]|].
Qed.

(** The matcher is one sequential engine.  Let the messages arrive in any
    batches, with orders repeated and cancellations between them.  Then the
    outputs that the matcher gives to all events together are those of an
    engine that is asked, one by one, for the requests that were not seen
    before; the cuts between batches leave no trace, not even in the sequence
    numbers and the hashes; and the matcher stops exactly when that engine
    does. *)
Lemma matcher_is_sequential am evs n lh e t :
  steady_at am (n, lh) e -> Forall (registered am) (fresh_of evs t).1 -> 0 <= n ->
  n + Z.of_nat (length (fresh_of evs t).1) <= u64_max ->
  match match_events evs (mkMatcher e t) with
  | Ok outs m' =>
      serve h (fresh_of evs t).1 e = Ok (concat outs) (engine m') /\ msg_dedup m' = (fresh_of evs t).2
  | Err _ _ => False
  | Panic => serve h (fresh_of evs t).1 e = Panic
  end.
Proof.
  revert n lh e t. induction evs as [|ev evs IH]; intros n lh e t He Hreg Hz Hmax; [by split|].
  cbn [match_events fresh_of] in *. pose proof (match_event_serves am ev n lh e t He) as Hev.
  destruct (fresh_requests ev t) as [l1 t1]. specialize (IH).
  destruct (fresh_of evs t1) as [l2 t2] eqn:Hf. cbn [fst snd] in *.
  apply Forall_app in Hreg as [Hr1 Hr2]. rewrite length_app in Hmax. specialize (Hev Hr1 Hz ltac:(lia)).
  unfold bind at 1. rewrite Hev, serve_app. unfold bind at 2 4.
  destruct (serve h l1 e) as [o1 e1|[]|] eqn:H1; [|done]. cbn [with_tracker res_map].
  destruct (serve_linked h am l1 n lh e o1 e1 He Hr1 Hz ltac:(lia) H1) as (_ & _ & n1 & lh1 & Hn1 & He1).
  specialize (IH n1 lh1 e1 t1 He1). rewrite Hf in IH. specialize (IH Hr2 ltac:(lia) ltac:(cbn [fst]; lia)). cbn [fst snd] in IH.
  unfold bind. destruct (match_events evs (mkMatcher e1 t1)) as [o2 m2|[]|]; [|by rewrite IH].
  destruct IH as [Hs Ht]. unfold ret. rewrite Hs. by split.
Qed.
End matcher.

(** ** Requests are served once *)

Definition request_key (q : Request.t) : Z := as_i64 (request_id q).

(** The first request with each identifier, and none that was seen before. *)
Fixpoint first_seen (seen : gset Z) (qs : list Request.t) : list Request.t :=
  match qs with
  | [] => []
  | q :: qs' =>
      if bool_decide (request_key q ∈ seen) then first_seen seen qs'
      else q :: first_seen ({[request_key q]} ∪ seen) qs'
  end.

Lemma first_seen_keys seen qs :
  NoDup (map request_key (first_seen seen qs)) /\
  forall q, q ∈ first_seen seen qs -> q ∈ qs /\ request_key q ∉ seen.
Proof.
  revert seen. induction qs as [|q qs IH]; intros seen; simpl.
  - split; [apply NoDup_nil_2|]. by intros q Hq%not_elem_of_nil.
  - case_bool_decide as Hq.
    + destruct (IH seen) as [H1 H2]. split; [done|]. intros x Hx. destruct (H2 x Hx). split; [by right|done].
    + destruct (IH ({[request_key q]} ∪ seen)) as [H1 H2]. simpl. split.
      * apply NoDup_cons. split; [|done]. intros Hin. apply list_elem_of_fmap in Hin as (x & He & Hx).
        destruct (H2 x Hx) as [_ Hns]. apply Hns. rewrite <- He. set_solver.
      * intros x [->|Hx]%elem_of_cons; [split; [left|done]|]. destruct (H2 x Hx) as [H3 H4].
        split; [by right|set_solver].
Qed.

(** Every identifier that arrives is served, or was seen before. *)
Lemma first_seen_complete seen qs q :
  q ∈ qs -> request_key q ∈ seen \/ request_key q ∈ map request_key (first_seen seen qs).
Proof.
  revert seen. induction qs as [|x qs IH]; intros seen Hq; [by apply not_elem_of_nil in Hq|]. simpl.
  apply elem_of_cons in Hq as [->|Hq].
  - case_bool_decide; [by left|]. right. by left.
  - case_bool_decide; [by apply IH|]. destruct (IH ({[request_key x]} ∪ seen) Hq) as [Hs|Hs]; [|by right; right].
    apply elem_of_union in Hs as [->%elem_of_singleton|Hs]; [right; by left|by left].
Qed.

Lemma first_seen_bound qs seen :
  (forall q, q ∈ first_seen seen qs -> q ∈ qs) /\ (length (first_seen seen qs) <= length qs)%nat.
Proof.
  split; [intros q Hq; by apply (proj2 (first_seen_keys seen qs))|].
  revert seen. induction qs as [|q qs IH]; intros seen; simpl; [done|].
  case_bool_decide; simpl; [specialize (IH seen)|specialize (IH ({[request_key q]} ∪ seen))]; lia.
Qed.

Lemma first_seen_app seen l1 l2 :
  first_seen seen (l1 ++ l2) =
  first_seen seen l1 ++ first_seen (list_to_set (map request_key l1) ∪ seen) l2.
Proof.
  revert seen. induction l1 as [|q l1 IH]; intros seen; simpl; [f_equal; set_solver|].
  case_bool_decide as Hq; rewrite IH; simpl.
  - f_equal. f_equal. set_solver.
  - do 2 f_equal. f_equal. set_solver.
Qed.

(** The tracker has room for [n] more. *)
Definition has_room (n : nat) (t : MessageDeduplicator) : Prop :=
  wf_tracker t /\ zlen (offset_queue t) + Z.of_nat n < MAX_TRACKED_OFFSETS.

Lemma has_room_le n n' t : (n' <= n)%nat -> has_room n t -> has_room n' t.
Proof. intros Hn [Hw Hr]. split; [done|lia]. Qed.

Lemma mark_room n q ts t :
  has_room (S n) t -> is_duplicate (request_key q) t = false ->
  has_room n (mark_processed (request_key q) ts t) /\
  recent_offsets (mark_processed (request_key q) ts t) = {[request_key q]} ∪ recent_offsets t.
Proof.
  intros [Hw Hr] Hd. destruct (mark_processed_queue (request_key q) ts t Hw Hd) as [Hq Hw'].
  rewrite (proj2 (Z.ltb_lt _ _)) in Hq by lia. split; [split; [done|]|].
  - rewrite Hq. rewrite !zlen_eq in *. rewrite length_app. simpl. lia.
  - unfold mark_processed. rewrite Hd. rewrite evict_room; [done|]. rewrite !zlen_eq in *. rewrite length_app. simpl. lia.
Qed.

Lemma fresh_orders_first ts batch t n :
  has_room (length batch + n) t ->
  (fresh_orders ts batch t).1 = first_seen (recent_offsets t) (map Request.Place batch) /\
  has_room n (fresh_orders ts batch t).2 /\
  recent_offsets (fresh_orders ts batch t).2 =
    list_to_set (map request_key (map Request.Place batch)) ∪ recent_offsets t.
Proof.
  revert t. induction batch as [|r batch IH]; intros t Hroom.
  - split_and!; [done|done|]. simpl. by rewrite (left_id_L ∅ (∪)).
  - cbn [fresh_orders map first_seen]. change (as_i64 (rq_order_id r)) with (request_key (Request.Place r)).
    fold (is_duplicate (request_key (Request.Place r)) t).
    destruct (is_duplicate (request_key (Request.Place r)) t) eqn:Hd.
    + destruct (IH t ltac:(eapply has_room_le; [|exact Hroom]; simpl; lia)) as (H1 & H2 & H3). split_and!; [done|done|].
      rewrite H3. unfold is_duplicate in Hd. apply bool_decide_eq_true in Hd. set_solver.
    + destruct (mark_room _ (Request.Place r) ts t Hroom Hd) as [Hroom' Hrec].
      destruct (IH _ Hroom') as (H1 & H2 & H3). destruct (fresh_orders ts batch _) as [l t']. cbn [fst snd] in *.
      rewrite H1, Hrec. split_and!; [done|done|]. rewrite H3, Hrec. simpl. set_solver.
Qed.

Lemma fresh_requests_first ev t n :
  has_room (length (requests_in ev) + n) t ->
  (fresh_requests ev t).1 = first_seen (recent_offsets t) (requests_in ev) /\
  has_room n (fresh_requests ev t).2 /\
  recent_offsets (fresh_requests ev t).2 = list_to_set (map request_key (requests_in ev)) ∪ recent_offsets t.
Proof.
  intros Hroom. unfold fresh_requests, requests_in in *. unfold is_outside_tracked_window.
  destruct (Z.ltb_spec (zlen (offset_queue t)) MAX_TRACKED_OFFSETS) as [|Hfull]; [|destruct Hroom; lia].
  destruct (command ev) as [[batch|symbol_id order_id|]|]; simpl in *.
  - rewrite length_map in Hroom. by apply fresh_orders_first.
  - set (q := Request.Cancel symbol_id order_id) in *. change (as_i64 order_id) with (request_key q).
    fold (is_duplicate (request_key q) t). destruct (is_duplicate (request_key q) t) eqn:Hd; simpl.
    + split_and!; [done|by eapply has_room_le; [|exact Hroom]; lia|]. unfold is_duplicate in Hd.
      apply bool_decide_eq_true in Hd. set_solver.
    + destruct (mark_room n q (timestamp ev) t Hroom Hd) as [H1 H2]. split_and!; [done|done|]. rewrite H2. set_solver.
  - split_and!; [done|done|set_solver].
  - split_and!; [done|done|set_solver].
Qed.

Lemma fresh_of_first evs t n :
  has_room (length (concat (map requests_in evs)) + n) t ->
  (fresh_of evs t).1 = first_seen (recent_offsets t) (concat (map requests_in evs)) /\
  has_room n (fresh_of evs t).2 /\
  recent_offsets (fresh_of evs t).2 =
    list_to_set (map request_key (concat (map requests_in evs))) ∪ recent_offsets t.
Proof.
  revert t. induction evs as [|ev evs IH]; intros t Hroom.
  - split_and!; [done|done|set_solver].
  - cbn [map concat fresh_of] in *. rewrite length_app, <- Nat.add_assoc in Hroom.
    destruct (fresh_requests_first ev t _ Hroom) as (H1 & H2 & H3).
    destruct (fresh_requests ev t) as [l1 t1]. cbn [fst snd] in *.
    destruct (IH t1 H2) as (G1 & G2 & G3). destruct (fresh_of evs t1) as [l2 t2]. cbn [fst snd] in *.
    rewrite first_seen_app, H1, G1, H3. split_and!; [done|done|]. rewrite G3, H3, map_app, list_to_set_app_L. set_solver.
Qed.

Section once.
Context {bp : BuildProfile} `{Digests} `{OrderLog W}.
Context (h : list Z -> Z -> Z).

Lemma first_seen_served am evs n lh e :
  let qs := concat (map requests_in evs) in
  steady_at (W := W) am (n, lh) e -> Forall (registered am) qs -> 0 <= n ->
  n + Z.of_nat (length qs) <= u64_max -> Z.of_nat (length qs) < MAX_TRACKED_OFFSETS ->
  match match_events h evs (mkMatcher e tracker_new) with
  | Ok outs m' => serve h (first_seen ∅ qs) e = Ok (concat outs) (engine m')
  | Err _ _ => False
  | Panic => serve h (first_seen ∅ qs) e = Panic
  end.
Proof.
  intros qs He Hreg Hz Hmax Hroom.
  destruct (fresh_of_first evs tracker_new 0) as (Hf & _ & _).
  { split; [apply tracker_new_wf|]. rewrite Nat.add_0_r. change (zlen (offset_queue tracker_new)) with 0. fold qs. lia. }
  change (recent_offsets tracker_new) with (∅ : gset Z) in Hf. fold qs in Hf.
  destruct (first_seen_bound qs ∅) as [Hsub Hlen].
  pose proof (matcher_is_sequential h am evs n lh e tracker_new He) as Hseq. rewrite Hf in Hseq.
  specialize (Hseq ltac:(apply Forall_forall; intros q Hq; eapply Forall_forall; [exact Hreg|]; by apply Hsub)
    Hz ltac:(lia)).
  destruct (match_events h evs (mkMatcher e tracker_new)); [by destruct Hseq|done|done].
Qed.

(** C24: every identifier is served once.  As long as fewer than the 100,000
    requests arrive that the tracker holds - an identifier that has been evicted
    is served again - and their symbols are registered, the matcher's outputs
    are those of a sequential engine
    that serves the first request with each identifier, whatever is delivered
    again and however the deliveries are batched; and it stops exactly when
    that engine does. *)
Theorem matcher_serves_once am evs n lh e :
  let qs := concat (map requests_in evs) in
  steady_at (W := W) am (n, lh) e -> Forall (registered am) qs -> 0 <= n ->
  n + Z.of_nat (length qs) <= u64_max -> Z.of_nat (length qs) < MAX_TRACKED_OFFSETS ->
  NoDup (map request_key (first_seen ∅ qs)) /\
  match match_events h evs (mkMatcher e tracker_new) with
  | Ok outs m' => serve h (first_seen ∅ qs) e = Ok (concat outs) (engine m')
  | Err _ _ => False
  | Panic => serve h (first_seen ∅ qs) e = Panic
  end.
Proof.
  intros qs He Hreg Hz Hmax Hroom. split; [apply first_seen_keys|]. by eapply first_seen_served.
Qed.

(** The tracker does not depend on the engine. *)
Lemma place_batch_tracker ts seq batch (m : Matcher (W := W)) outs m' :
  place_batch ts seq batch m = Ok outs m' -> msg_dedup m' = (fresh_orders ts batch (msg_dedup m)).2.
Proof.
  revert seq m outs. induction batch as [|r batch IH]; intros seq m outs; [by intros [= _ <-]|].
  cbn [place_batch fresh_orders]. intros (m1 & m2 & [= <- <-] & Hrun)%bind_inv_ok.
  destruct (is_duplicate (as_i64 (rq_order_id r)) (msg_dedup m)); [by eapply IH|].
  apply bind_inv_ok in Hrun as ([] & m3 & [= <-] & Hrun).
  apply bind_inv_ok in Hrun as (s & m4 & Hs & Hrun).
  destruct (op_add seq 1) as [s'|]; [|done]. injection Hs as <- <-.
  apply bind_inv_ok in Hrun as (o & m5 & Ho & Hrun). unfold on_engine, zoom in Ho. cbn [engine msg_dedup] in Ho.
  destruct (place s' r (engine m)) as [o' e'|[]|]; [|done]. injection Ho as <- <-.
  apply bind_inv_ok in Hrun as (os & m6 & Hos & [= <- <-]). apply IH in Hos. cbn [msg_dedup] in Hos.
  rewrite Hos. by destruct (fresh_orders ts batch _).
Qed.

Lemma match_event_tracker ev (m : Matcher (W := W)) outs m' :
  match_event h ev m = Ok outs m' -> msg_dedup m' = (fresh_requests ev (msg_dedup m)).2.
Proof.
  unfold match_event, fresh_requests. intros (m1 & m2 & [= <- <-] & Hrun)%bind_inv_ok.
  destruct (is_outside_tracked_window (timestamp ev) (msg_dedup m)); [by injection Hrun as <- <-|].
  destruct (command ev) as [[batch|symbol_id order_id|]|]; [|destruct (is_duplicate _ _)|..].
  - by eapply place_batch_tracker.
  - by injection Hrun as <- <-.
  - apply bind_inv_ok in Hrun as ([] & m3 & [= <-] & Hrun). apply bind_inv_ok in Hrun as ([] & m4 & Hc & [= <- <-]).
    unfold on_engine, zoom in Hc. cbn [engine msg_dedup] in Hc.
    by destruct (ignore _ _) as [[] e1|[]|]; [injection Hc as <-|].
  - by injection Hrun as <- <-.
  - by injection Hrun as <- <-.
Qed.

Lemma match_events_tracker evs (m : Matcher (W := W)) outs m' :
  match_events h evs m = Ok outs m' -> msg_dedup m' = (fresh_of evs (msg_dedup m)).2.
Proof.
  revert m outs. induction evs as [|ev evs IH]; intros m outs; [by intros [= _ <-]|]. cbn [match_events fresh_of].
  intros (o & m1 & H1 & (os & m2 & H2 & [= <- <-])%bind_inv_ok)%bind_inv_ok.
  apply match_event_tracker in H1. apply IH in H2. rewrite H1 in H2.
  destruct (fresh_requests ev (msg_dedup m)) as [l1 t1]. cbn [snd] in *. rewrite H2. by destruct (fresh_of evs t1).
Qed.

(** ** Cancellations *)

Context `{MessageCodec} (orders_topic : string) (symbol_manager : SymbolManager).

(** One turn of the poll loop publishes nothing, or all its orders at once. *)
Definition is_place_batch (ev : OrderEvent) : Prop :=
  exists batch, command ev = Some (EngineCommand.PlaceOrderBatch batch) /\ timestamp ev = 0.

Lemma prepare_message_events p m : events (prepare_message orders_topic symbol_manager p m) = events p.
Proof.
  unfold prepare_message. destruct (km_payload m) as [payload|]; [|done].
  destruct (String.eqb (km_topic m) orders_topic); [|done].
  unfold collect_internal, collect_order. destruct (decode_internal_order payload); [|done].
  by destruct (get_symbol symbol_manager _).
Qed.

Lemma prepare_batch_places ms : Forall is_place_batch (prepare_batch orders_topic symbol_manager ms).
Proof.
  assert (forall ms p, events (fold_left (prepare_message orders_topic symbol_manager) ms p) = events p) as Hfold.
  { clear ms. induction ms as [|m ms IH]; intros p; simpl; [done|]. by rewrite IH, prepare_message_events. }
  unfold prepare_batch, publish_collected. specialize (Hfold ms (mkPoll [] None [])).
  destruct (fold_left _ ms _) as [os off es]. simpl in *. subst es.
  destruct os; simpl; [by apply Forall_nil|]. apply Forall_cons. split; [by eexists|by apply Forall_nil].
Qed.

(** Orders cannot be cancelled.  Whatever messages are received, the poll
    loop publishes no cancellation: both of its branches ask for the same
    topic, and the first does not know cancellations.  And a cancellation that
    did reach the matcher would be taken for a repetition of the order it names,
    since both are tracked by the order's identifier. *)
Theorem orders_cannot_be_cancelled ms evs e outs m' r symbol_id offset ts :
  Z.of_nat (length (concat (map requests_in evs))) + 1 < MAX_TRACKED_OFFSETS ->
  match_events h evs (mkMatcher (W := W) e tracker_new) = Ok outs m' ->
  Request.Place r ∈ concat (map requests_in evs) ->
  Forall is_place_batch (prepare_batch orders_topic symbol_manager ms) /\
  match_event h (mkEvent (Some (EngineCommand.CancelOrder symbol_id (rq_order_id r))) None offset ts) m' = Ok [] m'.
Proof.
  intros Hroom Hrun Hr. split; [apply prepare_batch_places|].
  apply match_events_tracker in Hrun. cbn [msg_dedup] in Hrun.
  destruct (fresh_of_first evs tracker_new 1) as (_ & [_ Hroom'] & Hrec).
  { split; [apply tracker_new_wf|]. change (zlen (offset_queue tracker_new)) with 0. lia. }
  rewrite <- Hrun in Hroom', Hrec. unfold match_event, bind, get, is_outside_tracked_window. cbn [command timestamp].
  rewrite (proj2 (Z.ltb_lt _ _)) by lia. unfold is_duplicate. rewrite bool_decide_true; [done|].
  rewrite Hrec. apply elem_of_union_l, elem_of_list_to_set.
  change (as_i64 (rq_order_id r)) with (request_key (Request.Place r)). by apply list_elem_of_fmap_2.
Qed.
End once.

(** ** Examples *)

Module Concrete.

Definition no_hash : list Z -> Z -> Z := fun _ _ => 0.

(** An order and the same again, then one more. *)
Definition sample_events : list OrderEvent := [
  mkEvent (Some (EngineCommand.PlaceOrderBatch [sample_request; sample_request])) None None 0;
  mkEvent (Some (EngineCommand.PlaceOrderBatch [mkRequest 1 10 Sell Limit 5 5 91 1001; sample_request])) None None 0].

Lemma sample_steady : steady_at {[1 := (1, 2)]} (5, 77) sample_engine.
Proof. split; [by split|done]. Qed.

Lemma matcher_serves_once_witness :
  match match_events (bp := debug_profile) no_hash sample_events (mkMatcher sample_engine tracker_new) with
  | Ok outs m' =>
      serve (bp := debug_profile) no_hash
        [Request.Place sample_request; Request.Place (mkRequest 1 10 Sell Limit 5 5 91 1001)] sample_engine =
      Ok (concat outs) (engine m')
  | _ => False
  end.
Proof.
  destruct (matcher_serves_once (bp := debug_profile) no_hash {[1 := (1, 2)]} sample_events 5 77 sample_engine)
    as [_ Hserve].
  - exact sample_steady.
  - repeat (apply Forall_cons; split; [by eexists|]). by apply Forall_nil.
  - discriminate.
  - discriminate.
  - reflexivity.
  - destruct (match_events _ _ _) as [outs m'|[]|] eqn:Hm; [exact Hserve|].
    vm_compute in Hm. discriminate Hm.
Defined.

#[export] Instance sample_message_codec : MessageCodec :=
  {| decode_internal_order l := match l with [] => None | _ => Some (mkInternal 9 90 0 UbsBuy 102 20 UbsLimit) end;
     decode_client_request l := Some (ClientRequest.CancelOrder 9 90 0 0) |}.

Lemma orders_cannot_be_cancelled_witness :
  exists outs m', match_events (bp := debug_profile) no_hash sample_events (mkMatcher sample_engine tracker_new) = Ok outs m' /\
    Forall is_place_batch (prepare_batch "validated_orders" load_from_db [mkMessage "validated_orders" 0 7 5 (Some [1])]) /\
    match_event (bp := debug_profile) no_hash
      (mkEvent (Some (EngineCommand.CancelOrder 1 9)) None (Some ("validated_orders", 0, 43)) 6) m' = Ok [] m'.
Proof.
  destruct (match_events (bp := debug_profile) no_hash sample_events (mkMatcher sample_engine tracker_new))
    as [outs m'|[]|] eqn:Hm; [|vm_compute in Hm; discriminate Hm].
  exists outs, m'. split; [reflexivity|].
  apply (orders_cannot_be_cancelled (bp := debug_profile) no_hash "validated_orders" load_from_db
    [mkMessage "validated_orders" 0 7 5 (Some [1])] sample_events sample_engine outs m' sample_request 1
    (Some ("validated_orders", 0, 43)) 6).
  - reflexivity.
  - exact Hm.
  - apply list_elem_of_here.
Defined.
End Concrete.
