(* ===== verification/EnginePipeline.v ===== *)
(** * The ring of the matching engine's process

    The producer, the matcher and the publisher share the slots of a ring.
    Over every interleaving of the three the queue receives what a sequential
    run publishes, and behind the queue every output of the engine is settled
    exactly once. *)

From stdpp Require Import pretty.
From S2P Require Import Prelude Ledger OrderModels OrderBook Bytes EngineOutput MatchingEngine EngineProofs.
From S2P Require Import UbsParts SymbolManager EngineServer EngineServerProofs SettlementDb Settlement SettlementProofs.

#[local] Open Scope string_scope.
#[local] Open Scope list_scope.
#[local] Open Scope Z_scope.
#[local] Open Scope rust_scope.

(** ** Slots *)

Lemma mod_apart N j k : (j < k < j + N)%nat -> (j mod N <> k mod N)%nat.
Proof.
  intros [Hjk Hk] He. pose proof (Nat.div_mod_eq j N) as Hj. pose proof (Nat.div_mod_eq k N) as Hk'.
  rewrite He in Hj. assert (k - j = N * (k / N - j / N))%nat as Hd by nia. destruct (k / N - j / N)%nat; nia.
Qed.

Lemma mod_same N d j k :
  (d <= j < d + N)%nat -> (d <= k < d + N)%nat -> (j mod N = k mod N)%nat -> j = k.
Proof.
  intros Hj Hk He. destruct (Nat.lt_total j k) as [Hlt|[|Hlt]]; [|done|].
  - by destruct (mod_apart N j k); [lia|].
  - by destruct (mod_apart N k j); [lia|].
Qed.

(** The reference: event by event, a slot keeps its outputs until an event with
    outputs of its own comes to it, and every event publishes what its slot
    then holds. *)
Definition put_outputs (N k : nat) (f : list EngineOutput) (slots : list (list EngineOutput)) :=
  match f with [] => slots | _ => <[(k mod N)%nat := f]> slots end.

Fixpoint ring_outputs (N k : nat) (slots fresh : list (list EngineOutput))
  : list (list EngineOutput) * list (list EngineOutput) :=
  match fresh with
  | [] => ([], slots)
  | f :: fresh' =>
      let slots' := put_outputs N k f slots in
      let '(published, final) := ring_outputs N (S k) slots' fresh' in
      (default [] (slots' !! (k mod N)%nat) :: published, final)
  end.

Lemma put_outputs_length N k f slots : length (put_outputs N k f slots) = length slots.
Proof. destruct f; simpl; [done|apply length_insert]. Qed.

Lemma put_outputs_ne N k f slots j : (k mod N)%nat <> j -> put_outputs N k f slots !! j = slots !! j.
Proof. intros Hj. destruct f; simpl; [done|by apply list_lookup_insert_ne]. Qed.

Lemma ring_outputs_length N k slots fresh :
  length (ring_outputs N k slots fresh).1 = length fresh /\
  length (ring_outputs N k slots fresh).2 = length slots.
Proof.
  revert k slots. induction fresh as [|f fresh IH]; intros k slots; simpl; [done|].
  destruct (IH (S k) (put_outputs N k f slots)) as [H1 H2]. destruct (ring_outputs _ _ _ fresh). simpl in *.
  by rewrite H1, H2, put_outputs_length.
Qed.

Lemma ring_outputs_snoc N k slots fresh f :
  ring_outputs N k slots (fresh ++ [f]) =
  (let '(published, final) := ring_outputs N k slots fresh in
   let final' := put_outputs N (k + length fresh) f final in
   (published ++ [default [] (final' !! ((k + length fresh) mod N)%nat)], final')).
Proof.
  revert k slots. induction fresh as [|g fresh IH]; intros k slots.
  - simpl. by rewrite Nat.add_0_r.
  - cbn [app ring_outputs length]. rewrite IH. destruct (ring_outputs N (S k) _ fresh) as [p fin].
    replace (S k + length fresh)%nat with (k + S (length fresh))%nat by lia. done.
Qed.

Lemma ring_outputs_untouched N k slots fresh j :
  (forall i, (i < length fresh)%nat -> ((k + i) mod N)%nat <> j) -> (ring_outputs N k slots fresh).2 !! j = slots !! j.
Proof.
  revert k slots. induction fresh as [|f fresh IH]; intros k slots Hj; [done|]. simpl in *.
  specialize (IH (S k) (put_outputs N k f slots)). destruct (ring_outputs _ _ _ fresh) as [p fin]. simpl in *.
  rewrite IH.
  - apply put_outputs_ne. specialize (Hj 0%nat ltac:(lia)). by rewrite Nat.add_0_r in Hj.
  - intros i Hi. specialize (Hj (S i) ltac:(lia)). by replace (k + S i)%nat with (S (k + i)) in Hj by lia.
Qed.

(** A slot still holds what its event published until the ring comes round. *)
Lemma ring_outputs_kept N k slots fresh d :
  (d < length fresh <= d + N)%nat ->
  default [] ((ring_outputs N k slots fresh).2 !! ((k + d) mod N)%nat) =
  default [] ((ring_outputs N k slots fresh).1 !! d).
Proof.
  revert k slots d. induction fresh as [|f fresh IH]; intros k slots d Hd; simpl in Hd; [lia|].
  destruct d as [|d].
  - rewrite Nat.add_0_r. pose proof (ring_outputs_untouched N (S k) (put_outputs N k f slots) fresh (k mod N)%nat) as Hu.
    simpl. destruct (ring_outputs _ _ _ fresh) as [p fin]. simpl in *. rewrite Hu; [done|].
    intros i Hi He. by destruct (mod_apart N k (S (k + i))); [lia|].
  - specialize (IH (S k) (put_outputs N k f slots) d ltac:(lia)). simpl.
    destruct (ring_outputs _ _ _ fresh) as [p fin]. simpl in *.
    by replace (k + S d)%nat with (S (k + d)) by lia.
Qed.

(** An event without outputs of its own publishes again what the ring's
    previous round left in its slot. *)
Lemma quiet_event_resends N fresh d l :
  (d + N = length fresh)%nat -> (0 < N)%nat -> (ring_outputs N 0 (replicate N []) fresh).1 !! d = Some l ->
  (ring_outputs N 0 (replicate N []) (fresh ++ [[]])).1 !! (d + N)%nat = Some l.
Proof.
  intros Hd HN Hl. rewrite ring_outputs_snoc.
  pose proof (ring_outputs_kept N 0 (replicate N []) fresh d ltac:(lia)) as Hk. rewrite Hl in Hk.
  destruct (ring_outputs_length N 0 (replicate N []) fresh) as [Hl1 _].
  destruct (ring_outputs N 0 (replicate N []) fresh) as [q fin]. simpl in *. rewrite <- Hd in *.
  rewrite list_lookup_middle by lia. f_equal. replace ((d + N) mod N)%nat with (d mod N)%nat; [done|].
  replace (d + N)%nat with (d + 1 * N)%nat by lia. by rewrite Nat.Div0.mod_add.
Qed.

(** A slot holds nothing, or the outputs of an earlier event. *)
Definition recycled (earlier : list (list EngineOutput)) (l : list EngineOutput) : Prop :=
  l = [] \/ l ∈ earlier.

Lemma ring_outputs_recycled N fresh :
  (0 < N)%nat ->
  Forall (recycled fresh) (ring_outputs N 0 (replicate N []) fresh).2 /\
  forall d l f, (ring_outputs N 0 (replicate N []) fresh).1 !! d = Some l -> fresh !! d = Some f ->
    (f <> [] /\ l = f) \/ (f = [] /\ recycled (take d fresh) l).
Proof.
  intros HN. induction fresh as [|f fresh [IH1 IH2]] using rev_ind.
  { split; [|done]. apply Forall_replicate. by left. }
  rewrite ring_outputs_snoc. destruct (ring_outputs_length N 0 (replicate N []) fresh) as [Hl1 Hl2].
  rewrite length_replicate in Hl2. destruct (ring_outputs N 0 _ fresh) as [p fin]. simpl in *.
  assert (forall x, recycled fresh x -> recycled (fresh ++ [f]) x) as Hmono
    by (intros x [|]; [by left|right; apply elem_of_app; by left]).
  split.
  - destruct f as [|o f]; simpl; [by eapply Forall_impl|]. apply Forall_insert; [by eapply Forall_impl|].
    right. apply elem_of_app. right. by left.
  - intros d l g Hl Hg. apply lookup_app_Some in Hg as [Hg|[Hge Hg]].
    + assert (d < length fresh)%nat by by eapply lookup_lt_Some. rewrite lookup_app_l in Hl by lia.
      rewrite take_app_le by lia. by apply IH2.
    + apply list_lookup_singleton_Some in Hg as [Hg <-]. assert (d = length fresh) as -> by lia.
      rewrite <- Hl1, list_lookup_middle in Hl by done. injection Hl as <-. rewrite Hl1, take_app_length.
      destruct f as [|o f]; [right|left]; (split; [done|]); simpl.
      * destruct (fin !! _) as [x|] eqn:Hx; simpl; [|by left]. by eapply Forall_lookup_1.
      * rewrite list_lookup_insert_eq; [done|]. rewrite Hl2. apply Nat.mod_upper_bound. lia.
Qed.

(** ** Sending *)

Lemma send_outputs_app l1 l2 script :
  send_outputs (l1 ++ l2) script =
  (let '(a, s1) := send_outputs l1 script in let '(b, s2) := send_outputs l2 s1 in (a ++ b, s2)).
Proof.
  revert script. induction l1 as [|o l1 IH]; intros script; simpl; [by destruct (send_outputs l2 script)|].
  rewrite IH. destruct (send_outputs l1 (tail script)) as [a s1]. destruct (send_outputs l2 s1) as [b s2].
  by rewrite app_assoc.
Qed.

Lemma send_outputs_all l : send_outputs l [] = (l, []).
Proof. induction l as [|o l IH]; [done|]. simpl. by rewrite IH. Qed.

(** ** Every interleaving *)

Section pipeline.
Context {bp : BuildProfile} `{Digests} `{OrderLog W}.
Context (h : list Z -> Z -> Z).
Implicit Types p : Pipeline (W := W).

Lemma match_event_ext ev ev' (m : Matcher (W := W)) :
  command ev = command ev' -> timestamp ev = timestamp ev' -> match_event h ev m = match_event h ev' m.
Proof. intros Hc Ht. unfold match_event. by rewrite Hc, Ht. Qed.

(** The slot carries the event [ev]. *)
Definition carries (slot ev : OrderEvent) : Prop :=
  command slot = command ev /\ kafka_offset slot = kafka_offset ev /\ timestamp slot = timestamp ev.

Definition slot_outputs (slot : OrderEvent) : list EngineOutput := default [] (engine_outputs slot).

Record consistent (N : nat) (m0 : Matcher (W := W)) (script : list bool) (evs : list OrderEvent) p
    (fresh : list (list EngineOutput)) : Prop := {
  cons_ring : length (ring p) = N;
  cons_produced : length evs = produced p;
  cons_order : (done_with p <= matched p <= produced p)%nat /\ (produced p <= done_with p + N)%nat;
  cons_matcher : match_events h (take (matched p) evs) m0 = Ok fresh (matcher p);
  cons_outputs : map slot_outputs (ring p) = (ring_outputs N 0 (replicate N []) fresh).2;
  cons_slots : forall k ev, (done_with p <= k)%nat -> evs !! k = Some ev ->
    exists slot, ring p !! (k mod N)%nat = Some slot /\ carries slot ev;
  cons_topic : send_outputs (concat (take (done_with p) (ring_outputs N 0 (replicate N []) fresh).1)) script =
    (topic p, sends p);
  cons_stored : forall o, stored_offset p = Some o ->
    exists k ev, (k < done_with p)%nat /\ evs !! k = Some ev /\ kafka_offset ev = Some o
}.

Lemma map_slot_outputs_fill ev k (r : list OrderEvent) :
  map slot_outputs (alter (fill_slot ev) k r) = map slot_outputs r.
Proof.
  apply list_eq. intros i. rewrite !list_lookup_fmap. destruct (decide (i = k)) as [->|].
  - rewrite list_lookup_alter_eq. by destruct (r !! k).
  - by rewrite list_lookup_alter_ne.
Qed.

Lemma map_slot_outputs_set N k outs (r : list OrderEvent) :
  map slot_outputs (alter (set_outputs outs) (k mod N)%nat r) = put_outputs N k outs (map slot_outputs r).
Proof.
  destruct outs as [|o outs]; cbn [put_outputs].
  - f_equal. apply list_alter_id. by intros [].
  - apply list_eq. intros i. rewrite !list_lookup_fmap. destruct (decide (i = (k mod N)%nat)) as [->|].
    + rewrite list_lookup_alter_eq. destruct (r !! (k mod N)%nat) as [slot|] eqn:Hr; simpl.
      * rewrite list_lookup_insert_eq; [done|]. rewrite length_map. by eapply lookup_lt_Some.
      * symmetry. apply lookup_ge_None_2. rewrite length_insert, length_map. by apply lookup_ge_None.
    + by rewrite list_lookup_alter_ne, list_lookup_insert_ne, list_lookup_fmap by done.
Qed.

Lemma consistent_start N m0 script : consistent N m0 script [] (pipeline_new N m0 script) [].
Proof.
  split; simpl; try done.
  - by rewrite length_replicate.
  - lia.
  - induction N as [|N IH]; [done|]. simpl. by rewrite IH.
Qed.

Lemma carries_fill ev slot : carries (fill_slot ev slot) ev.
Proof. done. Qed.

Lemma consistent_produce N m0 script evs p fresh ev :
  consistent N m0 script evs p fresh -> (produced p < done_with p + length (ring p))%nat ->
  consistent N m0 script (evs ++ [ev])
    (mkPipeline (alter (fill_slot ev) (slot_of (produced p) p) (ring p)) (S (produced p)) (matched p)
       (done_with p) (matcher p) (topic p) (stored_offset p) (sends p)) fresh.
Proof.
  intros [Hr Hp [Ho1 Ho2] Hm Hout Hs Ht Hst] Hroom. unfold slot_of. split; simpl.
  - by rewrite length_alter.
  - rewrite length_app, Hp. simpl. lia.
  - lia.
  - by rewrite take_app_le by lia.
  - by rewrite map_slot_outputs_fill.
  - intros k e Hk He. rewrite Hr in *. apply lookup_app_Some in He as [He|[Hge He]].
    + destruct (Hs k e Hk He) as (slot & Hslot & Hc). exists slot. split; [|done].
      rewrite list_lookup_alter_ne; [done|]. intros Heq. apply lookup_lt_Some in He.
      assert (produced p = k); [|lia]. by apply (mod_same N (done_with p)); [lia..|].
    + apply list_lookup_singleton_Some in He as [Hz <-]. assert (k = produced p) as -> by lia.
      rewrite list_lookup_alter_eq.
      destruct (lookup_lt_is_Some_2 (ring p) (produced p mod N)%nat) as [slot Hslot].
      { rewrite Hr. apply Nat.mod_upper_bound. lia. }
      rewrite Hslot. eexists. split; [done|apply carries_fill].
  - done.
  - intros o Hso. destruct (Hst o Hso) as (k & e & Hk & He & Hoff). exists k, e.
    split; [done|]. split; [|done]. by apply lookup_app_l_Some.
Qed.

Lemma consistent_match N m0 script evs p fresh event outs m' :
  consistent N m0 script evs p fresh -> (matched p < produced p)%nat ->
  ring p !! slot_of (matched p) p = Some event -> match_event h event (matcher p) = Ok outs m' ->
  consistent N m0 script evs
    (mkPipeline (alter (set_outputs outs) (slot_of (matched p) p) (ring p)) (produced p) (S (matched p))
       (done_with p) m' (topic p) (stored_offset p) (sends p)) (fresh ++ [outs]).
Proof.
  intros [Hr Hp [Ho1 Ho2] Hm Hout Hs Ht Hst] Hlt Hev Hrun. unfold slot_of in *. rewrite Hr in *.
  destruct (lookup_lt_is_Some_2 evs (matched p) ltac:(lia)) as [ev Hevs].
  destruct (Hs (matched p) ev ltac:(lia) Hevs) as (slot & Hslot & Hc1 & _ & Hc2).
  rewrite Hslot in Hev. injection Hev as ->. rewrite (match_event_ext event ev) in Hrun by done.
  assert (length fresh = matched p) as Hlen.
  { apply match_events_length in Hm. rewrite Hm, length_take. lia. }
  split; simpl.
  - by rewrite length_alter.
  - done.
  - lia.
  - rewrite (take_S_r _ _ _ Hevs), match_events_app, (bind_ok _ _ _ _ _ Hm).
    cbn [match_events]. unfold bind. rewrite Hrun. done.
  - rewrite map_slot_outputs_set, Hout, ring_outputs_snoc. destruct (ring_outputs N 0 _ fresh) as [q fin].
    simpl. by rewrite Hlen.
  - intros k e Hk He. destruct (Hs k e Hk He) as (slot & Hsl & Hc).
    destruct (decide ((matched p mod N)%nat = (k mod N)%nat)) as [Heq|Hne].
    + rewrite <- Heq in *. rewrite list_lookup_alter_eq, Hsl. eexists. split; [done|].
      by destruct outs.
    + rewrite list_lookup_alter_ne by done. by exists slot.
  - rewrite ring_outputs_snoc. destruct (ring_outputs_length N 0 (replicate N []) fresh) as [Hl1 _].
    destruct (ring_outputs N 0 _ fresh) as [q fin]. simpl in *. by rewrite take_app_le by lia.
  - done.
Qed.

Lemma consistent_publish N m0 script evs p fresh event sent script' (end_of_batch : bool) :
  consistent N m0 script evs p fresh -> (done_with p < matched p)%nat ->
  ring p !! slot_of (done_with p) p = Some event ->
  send_outputs (default [] (engine_outputs event)) (sends p) = (sent, script') ->
  consistent N m0 script evs
    (mkPipeline (ring p) (produced p) (matched p) (S (done_with p)) (matcher p) (topic p ++ sent)
       (if end_of_batch then match kafka_offset event with Some o => Some o | None => stored_offset p end
        else stored_offset p)
       script') fresh.
Proof.
  intros [Hr Hp [Ho1 Ho2] Hm Hout Hs Ht Hst] Hlt Hev Hsend. unfold slot_of in *. rewrite Hr in *.
  assert (length fresh = matched p) as Hlen.
  { apply match_events_length in Hm. rewrite Hm, length_take. lia. }
  destruct (ring_outputs_length N 0 (replicate N []) fresh) as [Hl1 _].
  destruct (lookup_lt_is_Some_2 (ring_outputs N 0 (replicate N []) fresh).1 (done_with p) ltac:(lia)) as [l Hl].
  pose proof (ring_outputs_kept N 0 (replicate N []) fresh (done_with p) ltac:(lia)) as Hkept.
  rewrite Hl, <- Hout, list_lookup_fmap in Hkept. simpl in Hkept. rewrite Hev in Hkept. simpl in Hkept.
  split; simpl; try done.
  - lia.
  - intros k e Hk He. apply Hs; [lia|done].
  - rewrite (take_S_r _ _ _ Hl), concat_app, send_outputs_app, Ht. simpl. rewrite app_nil_r, <- Hkept.
    unfold slot_outputs. by rewrite Hsend.
  - intros o Hso.
    assert (stored_offset p = Some o \/ kafka_offset event = Some o) as [Hold|Hnew].
    { destruct end_of_batch; [|by left]. destruct (kafka_offset event); [by right|by left]. }
    + destruct (Hst o Hold) as (k & e & Hk & He & Hoff). exists k, e. split_and!; [lia|done|done].
    + destruct (lookup_lt_is_Some_2 evs (done_with p) ltac:(lia)) as [ev Hevs].
      destruct (Hs (done_with p) ev ltac:(lia) Hevs) as (slot & Hslot & _ & Hc & _).
      rewrite Hslot in Hev. injection Hev as ->. exists (done_with p), ev. split_and!; [lia|done|]. by rewrite <- Hc.
Qed.

Lemma runs_consistent N m0 script evs p :
  pipeline_runs h (pipeline_new N m0 script) evs p -> exists fresh, consistent N m0 script evs p fresh.
Proof.
  induction 1 as [|evs p ev p' _ [fresh IH] Hstep]; [exists []; apply consistent_start|].
  destruct Hstep; simpl; rewrite ?app_nil_r.
  - exists fresh. by apply consistent_produce.
  - exists (fresh ++ [outs]). by eapply consistent_match.
  - exists fresh. by eapply consistent_publish.
Qed.

(** C23: the threads publish what a sequential run would.  Over every
    interleaving of the producer, the matcher and the publisher around a ring
    of any size, the matcher has handled a prefix of the events in order; what
    has been sent for the first [done_with] events is, send failures apart,
    what the sequential reference publishes for them - each event's own
    outputs, or again those its slot was left with; and an offset is stored
    only of an event whose outputs have been through the publisher. *)
Theorem pipeline_refines_sequential N m0 script evs p :
  pipeline_runs h (pipeline_new N m0 script) evs p ->
  exists fresh, match_events h (take (matched p) evs) m0 = Ok fresh (matcher p) /\
    (done_with p <= matched p <= length evs)%nat /\
    (topic p, sends p) =
      send_outputs (concat (take (done_with p) (ring_outputs N 0 (replicate N []) fresh).1)) script /\
    (forall o, stored_offset p = Some o ->
       exists k ev, (k < done_with p)%nat /\ evs !! k = Some ev /\ kafka_offset ev = Some o).
Proof.
  intros [fresh [Hr Hp [Ho1 Ho2] Hm Hout Hs Ht Hst]]%runs_consistent. exists fresh.
  split; [done|]. split; [lia|]. by split.
Qed.
End pipeline.

(** ** The queue behind the ring *)

Lemma delivered_elem outs k ds k' x :
  delivered outs k ds k' -> x ∈ ds -> exists i, (i < k')%nat /\ outs !! i = Some x.
Proof.
  induction 1 as [k|k k' i o ds Hi Ho Hd IH|k k' o ds Ho Hd IH]; intros Hx.
  - by apply not_elem_of_nil in Hx.
  - apply elem_of_cons in Hx as [->|Hx]; [|by apply IH]. apply delivered_le in Hd. exists i. split; [lia|done].
  - apply elem_of_cons in Hx as [->|Hx]; [|by apply IH]. apply delivered_le in Hd. exists k. split; [lia|done].
Qed.

Lemma delivered_trans outs topic ds j q K k2 :
  delivered topic j ds k2 -> delivered outs q (drop j topic) K ->
  (forall x, x ∈ take j topic -> exists i, (i < q)%nat /\ outs !! i = Some x) ->
  exists k, delivered outs q ds k /\ delivered outs k (drop k2 topic) K.
Proof.
  intros Hds. revert q. induction Hds as [j|j k2 i o ds Hi Ho Hds IH|j k2 o ds Ho Hds IH]; intros q Hq Hseen.
  - exists q. by split; [constructor|].
  - destruct (IH q Hq Hseen) as (k & H1 & H2). exists k. split; [|done].
    destruct (Hseen o) as (x & Hx & Hox); [|by eapply delivered_again].
    apply list_elem_of_lookup. exists i. by rewrite lookup_take_lt.
  - rewrite (drop_S _ _ _ Ho) in Hq.
    assert (forall q' x, (q <= q')%nat -> (exists i, (i < q')%nat /\ outs !! i = Some o) -> x ∈ take (S j) topic ->
      exists i, (i < q')%nat /\ outs !! i = Some x) as Hnext.
    { intros q' x Hle Hxo Hx. rewrite (take_S_r _ _ _ Ho) in Hx. apply elem_of_app in Hx as [Hx|Hx].
      - destruct (Hseen x Hx) as (i & Hi & Hix). exists i. split; [lia|done].
      - apply list_elem_of_singleton in Hx as ->. done. }
    inversion Hq as [|? ? i ? ? Hi Hoi Hrest|? ? ? ? Hoq Hrest]; subst.
    + destruct (IH q Hrest) as (k & H1 & H2); [intros x; apply Hnext; [lia|by exists i]|].
      exists k. split; [by eapply delivered_again|done].
    + destruct (IH (S q) Hrest) as (k & H1 & H2); [intros x; apply Hnext; [lia|exists q; split; [lia|done]]|].
      exists k. split; [by eapply delivered_next|done].
Qed.

(** Runs of outputs: the next ones, or ones from before. *)
Lemma delivered_run outs k l ds k' :
  l = take (length l) (drop k outs) -> delivered outs (k + length l) ds k' -> delivered outs k (l ++ ds) k'.
Proof.
  revert k. induction l as [|o l IH]; intros k Hl Hd; simpl in *; [by rewrite Nat.add_0_r in Hd|].
  destruct (drop k outs) as [|o' rest] eqn:Hdrop; [done|]. simpl in Hl. injection Hl as <- Hl.
  assert (outs !! k = Some o) as Ho by (rewrite <- (Nat.add_0_r k), <- lookup_drop, Hdrop; done).
  apply (delivered_next _ _ _ _ _ Ho). apply IH; [|by replace (S k + length l)%nat with (k + S (length l))%nat by lia].
  rewrite (drop_S _ _ _ Ho) in Hdrop. by injection Hdrop as ->.
Qed.

Lemma delivered_old outs k l ds k' :
  (forall x, x ∈ l -> exists i, (i < k)%nat /\ outs !! i = Some x) -> delivered outs k ds k' -> delivered outs k (l ++ ds) k'.
Proof.
  intros Hl Hd. induction l as [|o l IH]; [done|]. simpl. destruct (Hl o) as (i & Hi & Ho); [by left|].
  eapply delivered_again; [done..|]. apply IH. intros x Hx. apply Hl. by right.
Qed.

Lemma concat_take_lookup {A} (ll : list (list A)) d l :
  ll !! d = Some l -> concat (take (S d) ll) = concat (take d ll) ++ l.
Proof. intros Hl. by rewrite (take_S_r _ _ _ Hl), concat_app, (app_nil_r l : concat [l] = l). Qed.

Lemma concat_take_prefix {A} (ll : list (list A)) d :
  concat (take d ll) = take (length (concat (take d ll))) (concat ll).
Proof. rewrite <- (take_drop d ll) at 3. by rewrite concat_app, take_app_length. Qed.

(** What the first [d] events publish are deliveries of the outputs. *)
Lemma published_delivered N fresh d :
  (0 < N)%nat -> (d <= length fresh)%nat ->
  delivered (concat fresh) 0 (concat (take d (ring_outputs N 0 (replicate N []) fresh).1))
    (length (concat (take d fresh))).
Proof.
  intros HN Hd. destruct (ring_outputs_recycled N fresh HN) as [_ Hrec].
  destruct (ring_outputs_length N 0 (replicate N []) fresh) as [Hlen _].
  set (pub := (ring_outputs N 0 (replicate N []) fresh).1) in *.
  assert (forall c, (c <= d)%nat -> forall ds k', delivered (concat fresh) (length (concat (take c fresh))) ds k' ->
    delivered (concat fresh) 0 (concat (take c pub) ++ ds) k') as Hgen.
  { induction c as [|c IH]; intros Hc ds k' Hds; [done|].
    destruct (lookup_lt_is_Some_2 pub c ltac:(lia)) as [l Hl].
    destruct (lookup_lt_is_Some_2 fresh c ltac:(lia)) as [f Hf].
    rewrite (concat_take_lookup _ _ _ Hl), <- app_assoc. apply IH; [lia|].
    rewrite (concat_take_lookup _ _ _ Hf) in Hds. destruct (Hrec c l f Hl Hf) as [[_ ->]|[-> Hold]].
    - rewrite length_app in Hds. apply delivered_run; [|done].
      assert (concat fresh = concat (take c fresh) ++ f ++ concat (drop (S c) fresh)) as ->.
      { rewrite <- (take_drop_middle _ _ _ Hf) at 1. by rewrite concat_app. }
      by rewrite drop_app_length, take_app_length.
    - rewrite app_nil_r in Hds. apply delivered_old; [|done]. intros x Hx.
      destruct Hold as [->|Hold]; [by apply not_elem_of_nil in Hx|].
      assert (x ∈ concat (take c fresh)) as Hin by (apply list_elem_of_In, in_concat; exists l; by rewrite <- !list_elem_of_In).
      apply list_elem_of_lookup in Hin as [i Hi]. exists i. apply lookup_lt_Some in Hi as Hlt. split; [done|].
      rewrite concat_take_prefix in Hi. by rewrite lookup_take_lt in Hi. }
  specialize (Hgen d ltac:(lia) [] _ (delivered_nothing _ _)). by rewrite app_nil_r in Hgen.
Qed.

(** ** From the queue of orders to settlement *)

Section end_to_end.
Context {bp : BuildProfile} `{Digests} `{OrderLog W} `{OutputCodec}.
Context (h : list Z -> Z -> Z).

Lemma requests_take evs k :
  exists rest, concat (map requests_in evs) = concat (map requests_in (take k evs)) ++ rest.
Proof.
  exists (concat (map requests_in (drop k evs))). by rewrite <- concat_app, <- map_app, take_drop.
Qed.

(** C22: from the queue of orders to settlement, once and in order.  In one run
    an engine process works through the events [evs], which hold fewer than the
    100,000 requests its tracker remembers, of registered symbols, whatever its
    threads' interleaving and however often orders are repeated in them; its
    sends do not fail.  The settlement service, whose chain stands where the
    engine starts, reads the queue of outputs at least once, first deliveries in
    order, in any batches, and its log writes may fail.  Then it goes on without stopping,
    and what it has settled are the first outputs of a sequential engine that
    is given the first request with each identifier: each once, in order, with
    every user's balance events in order; and when the publisher has caught up
    with the matcher and the service with the queue, these are all of them. *)
Theorem orders_settled_once am N evs p n lh e batches k s :
  let qs := concat (map requests_in evs) in
  (0 < N)%nat -> steady_at (W := W) am (n, lh) e -> Forall (registered am) qs -> 0 <= n ->
  n + Z.of_nat (length qs) < u64_max -> Z.of_nat (length qs) < MAX_TRACKED_OFFSETS ->
  pipeline_runs h (pipeline_new N (mkMatcher e tracker_new) []) evs p ->
  chain s = mkChain n lh -> length (balance_channels s) = 4%nat ->
  delivered (topic p) 0 (concat (map fst batches)) k ->
  exists outs s' j,
    serve h (first_seen ∅ (concat (map requests_in (take (matched p) evs)))) e = Ok outs (engine (matcher p)) /\
    process_kafka_batches batches s = Ok tt s' /\
    concat (orders_channel s') = concat (orders_channel s) ++ take j outs /\
    concat (map fst (trades_channel s')) =
      concat (map fst (trades_channel s)) ++ concat (map trades (take j outs)) /\
    (forall user, user_events user (queued (user_shard user) s') =
       user_events user (queued (user_shard user) s) ++
       user_events user (concat (map balance_events (take j outs)))) /\
    (done_with p = matched p -> k = length (topic p) -> take j outs = outs).
Proof.
  intros qs HN He Hreg Hz Hmax Hroom Hrun Hchain Hch Hdel.
  destruct (runs_consistent h N _ [] evs p Hrun) as [fresh [_ Hp [Ho1 _] Hm _ _ Ht _]].
  rewrite send_outputs_all in Ht. injection Ht as Ht _. symmetry in Ht.
  destruct (requests_take evs (matched p)) as [rest Hrest]. fold qs in Hrest.
  set (qm := concat (map requests_in (take (matched p) evs))) in *.
  rewrite Hrest, length_app in Hmax, Hroom. rewrite Hrest in Hreg. apply Forall_app in Hreg as [Hreg _].
  pose proof (first_seen_served h am (take (matched p) evs) n lh e He Hreg Hz ltac:(fold qm; lia) ltac:(fold qm; lia))
    as Hserve.
  rewrite Hm in Hserve. fold qm in Hserve. set (outs := concat fresh) in *.
  destruct (first_seen_bound qm ∅) as [Hsub Hlen].
  destruct (serve_linked h am (first_seen ∅ qm) n lh e outs (engine (matcher p)) He) as (Hlink & Hb & _); [|lia|lia|done|].
  { apply Forall_forall. intros q Hq. eapply Forall_forall; [exact Hreg|]. by apply Hsub. }
  assert (length fresh = matched p) as Hfl.
  { apply match_events_length in Hm. rewrite Hm, length_take. lia. }
  pose proof (published_delivered N fresh (done_with p) HN ltac:(lia)) as Hpub. rewrite <- Ht in Hpub.
  destruct (delivered_trans outs (topic p) (concat (map fst batches)) 0 0 _ k Hdel Hpub) as (j & Hj & Hrem).
  { intros x Hx. by apply not_elem_of_nil in Hx. }
  destruct (process_batches_ok outs (chain s) batches 0 j s) as (s' & Hok & Hdis & Hto); [|lia|done|done|].
  { rewrite Hchain. split; simpl; [done|lia|]. eapply Forall_impl; [exact Hb|]. intros o Ho. simpl in *. lia. }
  rewrite Nat.sub_0_r, drop_0 in *. exists outs, s', j. split_and!; [done..|apply Hdis| |].
  { intros user. by apply dispatched_user. }
  intros Hd ->.
  rewrite drop_ge in Hrem by lia. inversion Hrem; subst. apply take_ge.
  rewrite Hd, <- Hfl, (take_ge fresh) by lia. done.
Qed.
End end_to_end.

(** ** Examples *)

Module Concrete.
Import SettlementProofs.Concrete EngineServerProofs.Concrete.

(** An order, the same again, and another one. *)
Definition sample_batch : list OrderRequest :=
  [sample_request; sample_request; mkRequest 1 10 Sell Limit 5 5 91 1001].

Definition sample_event : OrderEvent :=
  mkEvent (Some (EngineCommand.PlaceOrderBatch sample_batch)) None (Some ("validated_orders", 0, 42)) 0.

Definition sample_matcher : Matcher := mkMatcher sample_engine tracker_new.

Definition sample_pipeline : Pipeline := pipeline_new 2 sample_matcher [].

(** Published, matched, sent. *)
Lemma one_event_run ev (m0 : Matcher (W := unit)) o outs m' :
  match_event (bp := debug_profile) no_hash ev m0 = Ok (o :: outs) m' ->
  exists p, pipeline_runs (bp := debug_profile) no_hash (pipeline_new 2 m0 []) [ev] p /\
    matched p = 1%nat /\ done_with p = 1%nat /\ topic p = o :: outs.
Proof.
  intros Hm. eexists. split.
  - eapply (pipeline_goes_on _ _ [ev] _ None).
    + eapply (pipeline_goes_on _ _ [ev] _ None).
      * eapply (pipeline_goes_on _ _ [] _ (Some ev)); [apply pipeline_starts|].
        apply producer_publishes. simpl. lia.
      * eapply matcher_handles; [simpl; lia|reflexivity|]. rewrite <- Hm. by apply match_event_ext.
    + eapply (publisher_handles _ _ _ _ _ true); [simpl; lia|reflexivity|apply send_outputs_all].
  - split_and!; reflexivity.
Qed.

Lemma sample_match : exists o1 o2 m',
  match_event (bp := debug_profile) no_hash sample_event sample_matcher = Ok [o1; o2] m'.
Proof.
  destruct (match_event (bp := debug_profile) no_hash sample_event sample_matcher) as [outs m'|[]|] eqn:Hm.
  - destruct outs as [|o1 [|o2 [|]]]; [vm_compute in Hm; discriminate Hm..| |vm_compute in Hm; discriminate Hm].
    by exists o1, o2, m'.
  - vm_compute in Hm. discriminate Hm.
Qed.

Lemma delivered_whole l : delivered l 0 l (length l).
Proof.
  pose proof (delivered_run l 0 l [] (length l)) as Hd. rewrite app_nil_r in Hd. apply Hd; [|apply delivered_nothing].
  by rewrite drop_0, firstn_all.
Qed.

Lemma pipeline_refines_sequential_witness :
  exists p o1 o2 fresh, pipeline_runs (bp := debug_profile) no_hash sample_pipeline [sample_event] p /\
    topic p = [o1; o2] /\ match_events (bp := debug_profile) no_hash [sample_event] sample_matcher = Ok fresh (matcher p).
Proof.
  destruct sample_match as (o1 & o2 & m' & Hm). destruct (one_event_run _ _ _ _ _ Hm) as (p & Hr & H1 & H2 & H3).
  destruct (pipeline_refines_sequential (bp := debug_profile) no_hash 2 sample_matcher [] [sample_event] p Hr)
    as (fresh & Hf & _). rewrite H1 in Hf.
  exists p, o1, o2, fresh. split; [exact Hr|]. split; [exact H3|exact Hf].
Defined.

Lemma sample_registered : Forall (registered {[1 := (1, 2)]}) (concat (map requests_in [sample_event])).
Proof. repeat (apply Forall_cons; split; [by eexists|]). by apply Forall_nil. Qed.

Lemma orders_settled_once_witness :
  exists p o1 o2 s', pipeline_runs (bp := debug_profile) no_hash sample_pipeline [sample_event] p /\
    topic p = [o1; o2] /\
    process_kafka_batches (bp := debug_profile) [([o1; o2], 100); ([o1], 101)] sample_service = Ok tt s' /\
    serve (bp := debug_profile) no_hash (first_seen ∅ (map Request.Place sample_batch)) sample_engine =
      Ok (concat (orders_channel s')) (engine (matcher p)).
Proof.
  destruct sample_match as (o1 & o2 & m' & Hm). destruct (one_event_run _ _ _ _ _ Hm) as (p & Hr & H1 & H2 & H3).
  destruct (orders_settled_once (bp := debug_profile) no_hash {[1 := (1, 2)]} 2 [sample_event] p 5 77 sample_engine
    [([o1; o2], 100); ([o1], 101)] 2 sample_service) as (outs & s' & j & Hs & Hok & Ho & _ & _ & Hall).
  - lia.
  - exact sample_steady.
  - exact sample_registered.
  - discriminate.
  - reflexivity.
  - reflexivity.
  - exact Hr.
  - reflexivity.
  - reflexivity.
  - rewrite H3. apply (delivered_next _ 0 _ o1); [reflexivity|]. apply (delivered_next _ 1 _ o2); [reflexivity|].
    apply (delivered_again _ 2 _ 0 o1); [lia|reflexivity|]. apply delivered_nothing.
  - exists p, o1, o2, s'. split; [exact Hr|]. split; [exact H3|]. split; [exact Hok|].
    rewrite H1 in Hs. rewrite Ho, Hall; [exact Hs|by rewrite H1, H2|by rewrite H3].
Defined.
End Concrete.
