(* ===== verification/TigerBeetle.v ===== *)
(** * The shadow ledger ([ubs_core/tigerbeetle.rs])

    The balance authority's events are copied to a TigerBeetle cluster: each
    becomes a batch of transfers.  The cluster is third-party code: the class
    [TbClient] is its client, [TbLaws] what its documentation promises. *)

From S2P Require Import Prelude UbsParts.

#[local] Open Scope string_scope.
#[local] Open Scope list_scope.
#[local] Open Scope Z_scope.

(** ** Accounts and transfers as the code builds them *)

Definition TRADING_LEDGER : Z := 1.

Definition EXCHANGE_OMNIBUS_ID_PREFIX : Z := u64_max.
Definition HOLDING_ACCOUNT_ID_PREFIX : Z := u64_max - 1.
Definition REVENUE_ACCOUNT_ID_PREFIX : Z := u64_max - 2.

Record TbAccount := mkTbAccount { account_id : Z; account_ledger : Z; account_code : Z }.

(** The bits of [TransferFlags] the code sets. *)
Record TransferFlags := mkFlags { PENDING : bool; POST_PENDING : bool; VOID_PENDING : bool; LINKED : bool }.

Record TbTransfer := mkTbTransfer {
  transfer_id : Z; debit_account_id : Z; credit_account_id : Z; tb_amount : Z;
  pending_id : Z; tb_ledger : Z; tb_code : Z; tb_flags : TransferFlags
}.

#[export] Instance TransferFlags_eq_dec : EqDecision TransferFlags.
Proof. solve_decision. Defined.
#[export] Instance TbTransfer_eq_dec : EqDecision TbTransfer.
Proof. solve_decision. Defined.

Definition no_flags : TransferFlags := mkFlags false false false false.
Definition pending_flag : TransferFlags := mkFlags true false false false.
Definition post_flag : TransferFlags := mkFlags false true false false.
Definition void_flag : TransferFlags := mkFlags false false true false.
Definition linked_flag : TransferFlags := mkFlags false false false true.
Definition linked_post : TransferFlags := mkFlags false true false true.

(** [Transfer::new(id)] with the two accounts, the amount, the ledger, the
    code and the flags set. *)
Definition two_account (id debit credit amount ledger code : Z) (fl : TransferFlags) : TbTransfer :=
  mkTbTransfer id debit credit amount 0 ledger code fl.

(** [Transfer::new(id)] with a reference to a pending transfer. *)
Definition resolving (id pending amount code : Z) (fl : TransferFlags) : TbTransfer :=
  mkTbTransfer id 0 0 amount pending 0 code fl.

(** ** Identifiers *)

Definition u128_mod : Z := 2 ^ 128.

Definition tb_account_id (user_id asset_id : Z) : Z := Z.lor (Z.shiftl user_id 64) asset_id.

Definition extract_user_id (account_id : Z) : Z := as_u64 (Z.shiftr account_id 64).

Definition extract_asset_id (account_id : Z) : Z := account_id mod 4294967296.

Definition tb_id (type_prefix id : Z) : Z := Z.lor (Z.shiftl type_prefix 64) id.

(** [generate_transfer_id]: [TRANSFER_SEQUENCE] is the number of identifiers
    drawn; the answer is the identifier and the new sequence. *)
Definition generate_transfer_id (timestamp_ms seq : Z) : Z * Z :=
  (Z.lor (Z.shiftl timestamp_ms 64) seq mod u128_mod, wrapping_add seq 1).

Definition wrapping_add_128 (x y : Z) : Z := (x + y) mod u128_mod.

(** ** The client *)

Inductive Resolution := Posted | Voided.

#[export] Instance Resolution_eq_dec : EqDecision Resolution.
Proof. solve_decision. Defined.

(** What a cluster remembers: the transfers it accepted, as they were
    submitted, and how the pending ones were resolved. *)
Record TbLedger := mkLedger { created : gmap Z TbTransfer; resolved : gmap Z Resolution }.

(** [S] is the cluster, the network in front of it and whatever they will do
    next; the answer [true] is [Ok]. *)
Class TbClient (S : Type) := {
  create_accounts : list TbAccount -> S -> bool * S;
  create_transfers : list TbTransfer -> S -> bool * S;
  ledger_of : S -> TbLedger
}.

(** A transfer the cluster may accept: its identifier is new; one that posts
    or voids names a pending transfer that is still open. *)
Definition admissible (t : TbTransfer) (l : TbLedger) : Prop :=
  created l !! transfer_id t = None /\
  (POST_PENDING (tb_flags t) || VOID_PENDING (tb_flags t) = true ->
   pending_id t <> 0 /\ resolved l !! pending_id t = None /\
   exists p, created l !! pending_id t = Some p /\ PENDING (tb_flags p) = true).

Definition record_transfer (t : TbTransfer) (l : TbLedger) : TbLedger :=
  mkLedger (<[transfer_id t := t]> (created l))
    (if POST_PENDING (tb_flags t) then <[pending_id t := Posted]> (resolved l)
     else if VOID_PENDING (tb_flags t) then <[pending_id t := Voided]> (resolved l)
     else resolved l).

(** The transfers of a batch, one after the other. *)
Inductive accepts : list TbTransfer -> TbLedger -> TbLedger -> Prop :=
  | accepts_nil l : accepts [] l l
  | accepts_cons t ts l l' :
      admissible t l -> accepts ts (record_transfer t l) l' -> accepts (t :: ts) l l'.

(** Every transfer of the batch but the last is linked to the next. *)
Fixpoint linked_chain (ts : list TbTransfer) : bool :=
  match ts with
  | [] => false
  | [t] => negb (LINKED (tb_flags t))
  | t :: ts' => LINKED (tb_flags t) && linked_chain ts'
  end.

(** What the documentation of the cluster promises and the code relies on:
    accounts leave the transfers alone; a linked chain is accepted as a whole,
    or the ledger stays as it is, and then the answer is [Ok] only when these
    very transfers were there before. *)
Class TbLaws (S : Type) `{TbClient S} : Prop := {
  accounts_frame accounts s : ledger_of (create_accounts accounts s).2 = ledger_of s;
  transfers_atomic ts s ok s' :
    create_transfers ts s = (ok, s') -> linked_chain ts = true ->
    accepts ts (ledger_of s) (ledger_of s') \/
    ledger_of s' = ledger_of s /\
      (ok = true -> Forall (fun t => created (ledger_of s) !! transfer_id t = Some t) ts)
}.

(** ** Calls that are one transfer *)

Section calls.
Context {S : Type} `{TbClient S}.

(** [Ok(())] whatever the client answers. *)
Definition ensure_account (account ledger code : Z) (s : S) : (string + unit) * S :=
  let '(_, s') := create_accounts [mkTbAccount account ledger code] s in
  (inr tt, s').

Definition answer_of (message : string) (r : bool * S) : (string + unit) * S :=
  let '(ok, s') := r in ((if ok then inr tt else inl message), s').

Definition atomic_transfer (id from to amount ledger code : Z) (s : S) : (string + unit) * S :=
  answer_of "Atomic transfer failed"
    (create_transfers [two_account id from to amount ledger code no_flags] s).

Definition create_pending_transfer (id from to amount ledger code : Z) (s : S) : (string + unit) * S :=
  answer_of "Failed to create pending transfer"
    (create_transfers [two_account id from to amount ledger code pending_flag] s).

Definition post_pending_transfer (pending : Z) (s : S) : (string + unit) * S :=
  answer_of "Failed to post pending transfer"
    (create_transfers [resolving (wrapping_add_128 pending 1) pending 0 0 post_flag] s).

Definition void_pending_transfer (pending : Z) (s : S) : (string + unit) * S :=
  answer_of "Failed to void pending transfer"
    (create_transfers [resolving (wrapping_add_128 pending 2) pending 0 0 void_flag] s).

(** ** The worker

    [clock n] is the time read when the [n]-th identifier is drawn. *)

Record Worker := mkWorker { client : S; TRANSFER_SEQUENCE : Z }.

Section worker.
Context {bp : BuildProfile} (clock : Z -> Z).

Definition next_id (seq : Z) : Z * Z := generate_transfer_id (clock seq) seq.

(** The six linked transfers of a trade; [None] is the panic of
    [quote_amt + buyer_fee]. *)
Definition settlement_batch (buyer_id seller_id base_asset quote_asset base_qty quote_amt
    buyer_fee seller_fee buyer_order_id seller_order_id seq : Z) : option (list TbTransfer * Z) :=
  let '(id1, q1) := next_id seq in
  match op_add quote_amt buyer_fee with
  | None => None
  | Some released =>
      let '(id2, q2) := next_id q1 in
      let '(id3, q3) := next_id q2 in
      let '(id4, q4) := next_id q3 in
      let '(id5, q5) := next_id q4 in
      let '(id6, q6) := next_id q5 in
      Some ([ resolving id1 (tb_id 2 buyer_order_id) released 1 linked_post;
              resolving id2 (tb_id 2 seller_order_id) base_qty 1 linked_post;
              two_account id3 (tb_account_id HOLDING_ACCOUNT_ID_PREFIX base_asset)
                (tb_account_id buyer_id base_asset) base_qty TRADING_LEDGER 2 linked_flag;
              two_account id4 (tb_account_id HOLDING_ACCOUNT_ID_PREFIX quote_asset)
                (tb_account_id seller_id quote_asset) quote_amt TRADING_LEDGER 2 linked_flag;
              two_account id5 (tb_account_id HOLDING_ACCOUNT_ID_PREFIX quote_asset)
                (tb_account_id REVENUE_ACCOUNT_ID_PREFIX quote_asset) buyer_fee TRADING_LEDGER 3 linked_flag;
              two_account id6 (tb_account_id seller_id quote_asset)
                (tb_account_id REVENUE_ACCOUNT_ID_PREFIX quote_asset) seller_fee TRADING_LEDGER 3 no_flags ], q6)
  end.

(** The batch of an event, and the sequence after it; no transfers stand both
    for [continue] and for the empty vector. *)
Definition event_transfers (event : BalanceEvent) (seq : Z) : option (list TbTransfer * Z) :=
  match event with
  | Deposited _ _ _ _ | Withdrawn _ _ _ _ | AccountCreated _ => Some ([], seq)
  | FundsLocked order_id user_id asset_id amount =>
      Some ([two_account (tb_id 2 order_id) (tb_account_id user_id asset_id)
               (tb_account_id HOLDING_ACCOUNT_ID_PREFIX asset_id) amount TRADING_LEDGER 1 pending_flag], seq)
  | FundsUnlocked order_id _ =>
      let '(id, seq') := next_id seq in
      Some ([resolving id (tb_id 2 order_id) 0 1 void_flag], seq')
  | TradeSettled _ buyer_id seller_id base_asset quote_asset base_qty quote_amt
      buyer_fee seller_fee buyer_order_id seller_order_id =>
      settlement_batch buyer_id seller_id base_asset quote_asset base_qty quote_amt
        buyer_fee seller_fee buyer_order_id seller_order_id seq
  end.

Definition default_accounts (user_id : Z) : list TbAccount :=
  (fun asset_id => mkTbAccount (tb_account_id user_id asset_id) TRADING_LEDGER 1) <$> [1; 2].

(** One turn of [worker_loop]: what the cluster answers is only logged. *)
Definition worker_step (event : BalanceEvent) (w : Worker) : option Worker :=
  let s := match event with
           | AccountCreated user_id => (create_accounts (default_accounts user_id) (client w)).2
           | _ => client w
           end in
  match event_transfers event (TRANSFER_SEQUENCE w) with
  | None => None
  | Some ([], seq) => Some (mkWorker s seq)
  | Some (transfers, seq) => Some (mkWorker (create_transfers transfers s).2 seq)
  end.

(** A panic ends the task: the events behind it are never read. *)
Fixpoint worker_loop (events : list BalanceEvent) (w : Worker) : Worker :=
  match events with
  | [] => w
  | event :: rest =>
      match worker_step event w with
      | None => w
      | Some w' => worker_loop rest w'
      end
  end.
End worker.
End calls.
Arguments Worker S : clear implicits.
