(* ===== verification/TigerBeetleProofs.v ===== *)
(** * What the shadow ledger remembers

    Account identifiers are read back exactly; an accepted transfer and a
    resolution are permanent; an order's lock is released once, so that every
    further fill of the order is missing from the shadow ledger. *)

From S2P Require Import Prelude FastUlid UbsParts TigerBeetle.

#[local] Open Scope string_scope.
#[local] Open Scope list_scope.
#[local] Open Scope Z_scope.

Definition is_u32 (x : Z) : Prop := 0 <= x < 4294967296.

(** ** Identifiers *)

Lemma tb_account_id_eq user asset :
  is_u32 asset -> tb_account_id user asset = user * 2 ^ 64 + asset.
Proof.
  unfold is_u32, tb_account_id. intros Ha. apply lor_shiftl_add; [lia|].
  assert (4294967296 <= 2 ^ 64) by done. lia.
Qed.

Lemma extract_user user asset : is_u64 user -> is_u32 asset -> extract_user_id (tb_account_id user asset) = user.
Proof.
  intros Hu Ha. rewrite tb_account_id_eq by done. unfold extract_user_id, as_u64.
  unfold is_u64, u64_max, is_u32 in *. rewrite Z.shiftr_div_pow2 by lia.
  rewrite Z.div_add_l by done. rewrite (Z.div_small asset); [|lia]. rewrite Z.add_0_r.
  apply Z.mod_small. unfold u64_mod. lia.
Qed.

Lemma extract_asset user asset : is_u32 asset -> extract_asset_id (tb_account_id user asset) = asset.
Proof.
  intros Ha. rewrite tb_account_id_eq by done. unfold extract_asset_id, is_u32 in *.
  replace (user * 2 ^ 64 + asset) with (asset + (user * 4294967296) * 4294967296) by lia.
  rewrite Z.mod_add by done. by apply Z.mod_small.
Qed.

(** ** Permanence *)

(** What no batch takes back. *)
Record grows (l l' : TbLedger) : Prop := {
  grows_created : forall i t, created l !! i = Some t -> created l' !! i = Some t;
  grows_resolved : forall i r, resolved l !! i = Some r -> resolved l' !! i = Some r
}.

#[export] Instance grows_preorder : PreOrder grows.
Proof. split; [done|]. intros l1 l2 l3 [] []. split; eauto. Qed.

Lemma record_grows t l : admissible t l -> grows l (record_transfer t l).
Proof.
  intros [Hnew Hres]. split; simpl.
  - intros i t' Hi. rewrite lookup_insert_ne; [done|]. by intros <-; rewrite Hnew in Hi.
  - intros i r Hi. destruct (POST_PENDING _) eqn:Hp; [|destruct (VOID_PENDING _) eqn:Hv]; [| |done].
    all: destruct Hres as (_ & Hopen & _); [done|].
    all: rewrite lookup_insert_ne; [done|]; by intros <-; rewrite Hopen in Hi.
Qed.

Lemma accepts_grows ts l l' : accepts ts l l' -> grows l l'.
Proof.
  induction 1 as [|t ts l l' Hadm _ IH]; [done|]. etrans; [by apply record_grows|done].
Qed.

(** A batch that is accepted resolves what it names, which was open. *)
Lemma accepts_resolves ts l l' t :
  accepts ts l l' -> t ∈ ts -> POST_PENDING (tb_flags t) || VOID_PENDING (tb_flags t) = true ->
  resolved l !! pending_id t = None /\ is_Some (resolved l' !! pending_id t).
Proof.
  induction 1 as [|x ts l l' Hadm Hacc IH]; [by intros ?%elem_of_nil|]. intros [->|Hin]%elem_of_cons Hf.
  - destruct Hadm as [_ Hres]. destruct (Hres Hf) as (_ & Hopen & _). split; [done|].
    assert (exists r, resolved (record_transfer x l) !! pending_id x = Some r) as [r Hr].
    { simpl. destruct (POST_PENDING _); [|destruct (VOID_PENDING _); [|done]];
        eexists; apply lookup_insert_eq. }
    exists r. by apply (grows_resolved _ _ (accepts_grows _ _ _ Hacc)).
  - destruct (IH Hin Hf) as [Hopen Hset]. split; [|done].
    destruct (resolved l !! pending_id t) as [r|] eqn:Hr; [|done].
    by rewrite (grows_resolved _ _ (record_grows _ _ Hadm) _ _ Hr) in Hopen.
Qed.

Section cluster.
Context {S : Type} `{TbLaws S}.

Lemma create_transfers_grows ts s :
  linked_chain ts = true -> grows (ledger_of s) (ledger_of (create_transfers ts s).2).
Proof.
  intros Hc. destruct (create_transfers ts s) as [ok s'] eqn:E. simpl.
  destruct (transfers_atomic ts s ok s' E Hc) as [Hacc|[-> _]]; [by eapply accepts_grows|done].
Qed.

(** A batch with a transfer that cannot be accepted changes nothing. *)
Lemma create_transfers_refused ts s t :
  linked_chain ts = true -> t ∈ ts -> POST_PENDING (tb_flags t) || VOID_PENDING (tb_flags t) = true ->
  is_Some (resolved (ledger_of s) !! pending_id t) ->
  ledger_of (create_transfers ts s).2 = ledger_of s.
Proof.
  intros Hc Hin Hf [r Hr]. destruct (create_transfers ts s) as [ok s'] eqn:E. simpl.
  destruct (transfers_atomic ts s ok s' E Hc) as [Hacc|[-> _]]; [|done].
  destruct (accepts_resolves _ _ _ t Hacc Hin Hf) as [Hopen _]. by rewrite Hopen in Hr.
Qed.

(** ** The worker *)

Context {bp : BuildProfile} (clock : Z -> Z).

Lemma event_transfers_chain e seq ts seq' :
  event_transfers clock e seq = Some (ts, seq') -> ts = [] \/ linked_chain ts = true.
Proof.
  destruct e; simpl; try (intros [= <- <-]; by auto). unfold settlement_batch. simpl.
  destruct (op_add _ _); intros [= <- <-]. by right.
Qed.

(** The events that release the lock of the order [o]. *)
Definition releases (o : Z) (e : BalanceEvent) : bool :=
  match e with
  | FundsUnlocked order_id _ => order_id =? o
  | TradeSettled _ _ _ _ _ _ _ _ _ buyer_order_id seller_order_id =>
      (buyer_order_id =? o) || (seller_order_id =? o)
  | _ => false
  end.

Lemma releases_transfer o e seq ts seq' :
  releases o e = true -> event_transfers clock e seq = Some (ts, seq') ->
  linked_chain ts = true /\
  exists t, t ∈ ts /\ pending_id t = tb_id 2 o /\ POST_PENDING (tb_flags t) || VOID_PENDING (tb_flags t) = true.
Proof.
  destruct e; try done; simpl.
  - intros ->%Z.eqb_eq [= <- <-]. split; [done|]. eexists. split; [apply list_elem_of_here|done].
  - unfold settlement_batch. simpl. intros Ho. destruct (op_add _ _); intros [= <- <-]. split; [done|].
    apply orb_true_iff in Ho as [->%Z.eqb_eq| ->%Z.eqb_eq].
    + eexists. split; [apply list_elem_of_here|done].
    + eexists. split; [apply list_elem_of_further, list_elem_of_here|done].
Qed.

(** The ledger before and after a turn of the worker. *)
Lemma worker_step_ledger e w w' :
  worker_step clock e w = Some w' ->
  exists ts s, option_map fst (event_transfers clock e (TRANSFER_SEQUENCE w)) = Some ts /\
    ledger_of s = ledger_of (client w) /\
    ledger_of (client w') = if ts is [] then ledger_of s else ledger_of (create_transfers ts s).2.
Proof.
  unfold worker_step. destruct (event_transfers _ _ _) as [[ts seq]|]; [|done].
  set (s := match e with AccountCreated _ => _ | _ => _ end).
  assert (ledger_of s = ledger_of (client w)) as Hs.
  { subst s. destruct e; try done. apply accounts_frame. }
  intros Hw. exists ts, s. split; [done|]. split; [done|]. by destruct ts; injection Hw as <-.
Qed.

Lemma worker_step_grows e w w' :
  worker_step clock e w = Some w' -> grows (ledger_of (client w)) (ledger_of (client w')).
Proof.
  intros Hw. destruct (worker_step_ledger _ _ _ Hw) as (ts & s & Hts & Hs & ->). rewrite <- Hs.
  destruct (event_transfers _ _ _) as [[ts' seq]|] eqn:Ht; [|done]. injection Hts as ->.
  destruct (event_transfers_chain _ _ _ _ Ht) as [->|Hc]; [done|]. destruct ts; [done|].
  by apply create_transfers_grows.
Qed.

#[export] Instance TbLedger_eq_dec : EqDecision TbLedger.
Proof. solve_decision. Defined.

(** How many of the events that release the order [o] reach the ledger. *)
Fixpoint released (o : Z) (events : list BalanceEvent) (w : Worker S) : nat :=
  match events with
  | [] => 0
  | e :: rest =>
      match worker_step clock e w with
      | None => 0
      | Some w' =>
          (if releases o e && negb (bool_decide (ledger_of (client w') = ledger_of (client w))) then 1 else 0)
          + released o rest w'
      end
  end.

Lemma released_resolved o events w :
  is_Some (resolved (ledger_of (client w)) !! tb_id 2 o) -> released o events w = 0%nat.
Proof.
  revert w. induction events as [|e rest IH]; intros w Hres; [done|]. simpl.
  destruct (worker_step clock e w) as [w'|] eqn:Hw; [|done].
  rewrite IH; last first.
  { destruct Hres as [r Hr]. exists r. by apply (grows_resolved _ _ (worker_step_grows _ _ _ Hw)). }
  destruct (releases o e) eqn:Hrel; [|done].
  rewrite bool_decide_true; [done|].
  destruct (worker_step_ledger _ _ _ Hw) as (ts & s & Hts & Hs & ->).
  destruct (event_transfers _ _ _) as [[ts' seq]|] eqn:Ht; [|done]. injection Hts as ->.
  destruct (releases_transfer _ _ _ _ _ Hrel Ht) as (Hc & t & Hin & Hp & Hf).
  destruct ts; [done|]. rewrite <- Hs. eapply create_transfers_refused; [done..|].
  by rewrite Hs, Hp.
Qed.

(** C26: the lock of an order is released in the shadow ledger by one event at
    most: of all the trades that fill an order, and its final unlock, one
    reaches TigerBeetle; the others are refused as a whole, whatever else
    happens between them, and the worker only logs it. *)
Theorem order_released_once o events w : (released o events w <= 1)%nat.
Proof.
  revert w. induction events as [|e rest IH]; intros w; simpl; [lia|].
  destruct (worker_step clock e w) as [w'|] eqn:Hw; [|lia].
  destruct (releases o e) eqn:Hrel; simpl; [|apply IH].
  case_bool_decide as Heq; simpl; [apply IH|].
  rewrite released_resolved; [lia|].
  destruct (worker_step_ledger _ _ _ Hw) as (ts & s & Hts & Hs & Hl). rewrite Hl in Heq. rewrite Hl.
  destruct (event_transfers _ _ _) as [[ts' seq]|] eqn:Ht; [|done]. injection Hts as ->.
  destruct (releases_transfer _ _ _ _ _ Hrel Ht) as (Hc & t & Hin & Hp & Hf).
  destruct ts as [|t0 ts]; [done|].
  destruct (create_transfers (t0 :: ts) s) as [ok s'] eqn:E. simpl in *.
  destruct (transfers_atomic _ _ _ _ E Hc) as [Hacc|[Hsame _]]; [|by rewrite Hsame, Hs in Heq].
  destruct (accepts_resolves _ _ _ t Hacc Hin Hf) as [_ Hset]. by rewrite <- Hp.
Qed.
End cluster.

(** ** A cluster

    It accepts whatever the laws allow, and a script says which answers and
    which requests the network loses. *)

Module ToyCluster.
Inductive fate := Delivered | AnswerLost | RequestLost.

Record cluster := mkCluster { the_ledger : TbLedger; fates : list fate }.

Definition may_resolve (t : TbTransfer) (l : TbLedger) : bool :=
  negb (pending_id t =? 0) && bool_decide (resolved l !! pending_id t = None) &&
  match created l !! pending_id t with Some p => PENDING (tb_flags p) | None => false end.

Definition may_create (t : TbTransfer) (l : TbLedger) : bool :=
  bool_decide (created l !! transfer_id t = None) &&
  (negb (POST_PENDING (tb_flags t) || VOID_PENDING (tb_flags t)) || may_resolve t l).

Fixpoint accept_all (ts : list TbTransfer) (l : TbLedger) : option TbLedger :=
  match ts with
  | [] => Some l
  | t :: ts' => if may_create t l then accept_all ts' (record_transfer t l) else None
  end.

Definition serve (ts : list TbTransfer) (l : TbLedger) : bool * TbLedger :=
  match accept_all ts l with Some l' => (true, l') | None => (false, l) end.

#[export] Instance toy : TbClient cluster := {
  create_accounts := fun _ c => (true, c);
  create_transfers := fun ts c =>
    match fates c with
    | RequestLost :: f => (false, mkCluster (the_ledger c) f)
    | AnswerLost :: f => (false, mkCluster (serve ts (the_ledger c)).2 f)
    | Delivered :: f => let '(ok, l) := serve ts (the_ledger c) in (ok, mkCluster l f)
    | [] => let '(ok, l) := serve ts (the_ledger c) in (ok, mkCluster l [])
    end;
  ledger_of := the_ledger
}.

Lemma may_create_admissible t l : may_create t l = true -> admissible t l.
Proof.
  unfold may_create. intros [Hnew%bool_decide_eq_true Hres]%andb_true_iff. split; [done|].
  intros Hf. rewrite Hf in Hres. simpl in Hres. unfold may_resolve in Hres.
  apply andb_true_iff in Hres as [[Hz%negb_true_iff Hopen%bool_decide_eq_true]%andb_true_iff Hp].
  apply Z.eqb_neq in Hz. split; [done|]. split; [done|].
  destruct (created l !! pending_id t) as [p|]; [by exists p|done].
Qed.

Lemma accept_all_accepts ts l l' : accept_all ts l = Some l' -> accepts ts l l'.
Proof.
  revert l. induction ts as [|t ts IH]; intros l; simpl; [intros [= ->]; constructor|].
  destruct (may_create t l) eqn:Ht; [|done]. intros Hl.
  constructor; [by apply may_create_admissible|by apply IH].
Qed.

Lemma serve_cases ts l :
  accepts ts l (serve ts l).2 \/ (serve ts l).1 = false /\ (serve ts l).2 = l.
Proof.
  unfold serve. destruct (accept_all ts l) eqn:E; simpl; [left|by right]. by apply accept_all_accepts.
Qed.

#[export] Instance toy_laws : TbLaws cluster.
Proof.
  split; [done|]. intros ts [l f] ok s'. simpl. intros E _.
  destruct (serve_cases ts l) as [Hs|[Hok Hl]]; destruct (serve ts l) as [b l1]; simpl in *;
    destruct f as [|[] f]; injection E as <- <-; simpl; subst;
    first [by left | by right].
Qed.

Definition empty (f : list fate) : cluster := mkCluster (mkLedger ∅ ∅) f.
End ToyCluster.

Module Concrete.
Import ToyCluster.
#[local] Existing Instance debug_profile.

(** Order 7 buys 10 units at a price of 5; order 8 sells 4 of them and order 9
    the other 6. *)
Definition partial_fills : list BalanceEvent :=
  [ FundsLocked 7 1 2 52; FundsLocked 8 3 1 4; FundsLocked 9 4 1 6;
    TradeSettled 100 1 3 1 2 4 20 1 1 7 8;
    TradeSettled 101 1 4 1 2 6 30 1 1 7 9 ].

Definition demo_worker : Worker cluster := mkWorker (empty []) 0.

Definition demo_clock (_ : Z) : Z := 1700000000000.

(** The second trade is not in the ledger, although nothing was lost: seller
    9's lock is still open and his proceeds were never credited. *)
Lemma order_released_once_witness :
  released demo_clock 7 partial_fills demo_worker = 1%nat /\
  (released demo_clock 7 partial_fills demo_worker <= 1)%nat /\
  released demo_clock 9 partial_fills demo_worker = 0%nat.
Proof.
  split; [by vm_compute|]. split; [|by vm_compute].
  apply (order_released_once demo_clock 7 partial_fills demo_worker).
Defined.
End Concrete.
