(* ===== verification/TransferAdapters.v ===== *)
(** * The services behind internal transfers ([transfer/adapters/])

    The trait [ServiceAdapter] as a class of operations on a service's state,
    and its implementations: the placeholders and the mock, the two adapters
    that write to a TigerBeetle cluster, and [mocks/tigerbeetle_mock.rs].  The
    adapter that asks the balance authority is in [UbsClient]. *)

From S2P Require Import Prelude Transfer TigerBeetle.

#[local] Open Scope string_scope.
#[local] Open Scope list_scope.
#[local] Open Scope Z_scope.

Class ServiceAdapter (S : Type) := {
  withdraw : forall (req_id user_id asset_id amount : Z), S -> OpResult.t * S;
  deposit : forall (req_id user_id asset_id amount : Z), S -> OpResult.t * S;
  commit : forall (req_id : Z), S -> OpResult.t * S;
  rollback : forall (req_id : Z), S -> OpResult.t * S;
  query : forall (req_id : Z), S -> OpResult.t * S;
  adapter_name : string
}.

(** ** The placeholders: nothing is moved *)

Module FundingAdapter.
#[export] Instance adapter : ServiceAdapter unit := {
  withdraw := fun _ _ _ _ s => (OpResult.Success, s);
  deposit := fun _ _ _ _ s => (OpResult.Success, s);
  commit := fun _ s => (OpResult.Success, s);
  rollback := fun _ s => (OpResult.Success, s);
  query := fun _ s => (OpResult.Pending, s);
  adapter_name := "funding"
}.
End FundingAdapter.

Module TradingAdapter.
#[export] Instance adapter : ServiceAdapter unit := {
  withdraw := fun _ _ _ _ s => (OpResult.Success, s);
  deposit := fun _ _ _ _ s => (OpResult.Success, s);
  commit := fun _ s => (OpResult.Success, s);
  rollback := fun _ s => (OpResult.Success, s);
  query := fun _ s => (OpResult.Pending, s);
  adapter_name := "trading"
}.
End TradingAdapter.

(** ** The mock: answers set beforehand *)

Record MockAdapter := mkMock { mock_name : string; results : gmap Z OpResult.t; default_result : OpResult.t }.

Definition mock_new (name : string) : MockAdapter := mkMock name ∅ OpResult.Success.

Definition set_result (req_id : Z) (result : OpResult.t) (m : MockAdapter) : MockAdapter :=
  mkMock (mock_name m) (<[req_id := result]> (results m)) (default_result m).

Definition set_default_result (result : OpResult.t) (m : MockAdapter) : MockAdapter :=
  mkMock (mock_name m) (results m) result.

Definition clear_results (m : MockAdapter) : MockAdapter := mkMock (mock_name m) ∅ (default_result m).

Definition get_result (req_id : Z) (m : MockAdapter) : OpResult.t :=
  default (default_result m) (results m !! req_id).

#[export] Instance mock_adapter : ServiceAdapter MockAdapter := {
  withdraw := fun id _ _ _ m => (get_result id m, m);
  deposit := fun id _ _ _ m => (get_result id m, m);
  commit := fun _ m => (OpResult.Success, m);
  rollback := fun _ m => (OpResult.Success, m);
  query := fun id m => (get_result id m, m);
  adapter_name := "mock"
}.

(** ** The adapters on TigerBeetle *)

Section tigerbeetle.
Context {S : Type} `{TbClient S}.

(** The answer to a batch of one transfer, [refused] when it is [Err]. *)
Definition submit (t : TbTransfer) (refused : OpResult.t) (s : S) : OpResult.t * S :=
  let '(ok, s') := create_transfers [t] s in
  ((if ok then OpResult.Success else refused), s').

(** [if let Err(e) = ensure_account(..).await { return OpResult::Pending; }],
    for the user's account and for the holding account. *)
Definition ensuring (user_account holding_account : Z) (k : S -> OpResult.t * S) (s : S) : OpResult.t * S :=
  match ensure_account user_account TRADING_LEDGER 1 s with
  | (inl _, s1) => (OpResult.Pending, s1)
  | (inr _, s1) =>
      match ensure_account holding_account TRADING_LEDGER 1 s1 with
      | (inl _, s2) => (OpResult.Pending, s2)
      | (inr _, s2) => k s2
      end
  end.

(** The transfers of a withdrawal and of a deposit, under the identifier [id]. *)
Definition withdrawal (id user_id asset_id amount : Z) : TbTransfer :=
  two_account id (tb_account_id user_id asset_id) (tb_account_id HOLDING_ACCOUNT_ID_PREFIX asset_id)
    amount TRADING_LEDGER 1 pending_flag.

Definition crediting (id user_id asset_id amount : Z) : TbTransfer :=
  two_account id (tb_account_id HOLDING_ACCOUNT_ID_PREFIX asset_id) (tb_account_id user_id asset_id)
    amount TRADING_LEDGER 2 no_flags.
End tigerbeetle.

Module TbFundingAdapter.
Section adapter.
Context {S : Type} `{TbClient S}.

Definition transfer_id (req_id : Z) : Z := req_id.

Definition withdraw (req_id user_id asset_id amount : Z) : S -> OpResult.t * S :=
  ensuring (tb_account_id user_id asset_id) (tb_account_id HOLDING_ACCOUNT_ID_PREFIX asset_id)
    (submit (withdrawal (transfer_id req_id) user_id asset_id amount) OpResult.Pending).

Definition deposit (req_id user_id asset_id amount : Z) : S -> OpResult.t * S :=
  ensuring (tb_account_id user_id asset_id) (tb_account_id HOLDING_ACCOUNT_ID_PREFIX asset_id)
    (submit (crediting (transfer_id req_id) user_id asset_id amount) OpResult.Pending).

Definition commit (req_id : Z) : S -> OpResult.t * S :=
  let pending := transfer_id req_id in
  submit (resolving (wrapping_add_128 pending 1) pending 0 0 post_flag) OpResult.Pending.

Definition rollback (req_id : Z) : S -> OpResult.t * S :=
  let pending := transfer_id req_id in
  submit (resolving (wrapping_add_128 pending 2) pending 0 0 void_flag) OpResult.Pending.

Definition query (req_id : Z) (s : S) : OpResult.t * S := (OpResult.Pending, s).
End adapter.
End TbFundingAdapter.

Module TbTradingAdapter.
Section adapter.
Context {S : Type} `{TbClient S}.

Definition transfer_id (req_id : Z) : Z := Z.lor req_id (Z.shiftl 1 127).

Definition withdraw (req_id user_id asset_id amount : Z) : S -> OpResult.t * S :=
  ensuring (tb_account_id user_id asset_id) (tb_account_id HOLDING_ACCOUNT_ID_PREFIX asset_id)
    (submit (withdrawal (transfer_id req_id) user_id asset_id amount) OpResult.Pending).

Definition deposit (req_id user_id asset_id amount : Z) : S -> OpResult.t * S :=
  ensuring (tb_account_id user_id asset_id) (tb_account_id HOLDING_ACCOUNT_ID_PREFIX asset_id)
    (submit (crediting (transfer_id req_id) user_id asset_id amount) OpResult.Pending).

(** The pending identifier is not set: it stays 0. *)
Definition commit (req_id : Z) : S -> OpResult.t * S :=
  submit (resolving (transfer_id req_id) 0 0 0 post_flag) OpResult.Pending.

Definition rollback (req_id : Z) : S -> OpResult.t * S :=
  submit (resolving (transfer_id req_id) 0 0 0 void_flag) (OpResult.Failed "Rollback failed").

Definition query (req_id : Z) (s : S) : OpResult.t * S := (OpResult.Pending, s).
End adapter.
End TbTradingAdapter.

Definition tb_funding_adapter {S : Type} `{TbClient S} : ServiceAdapter S := {|
  withdraw := TbFundingAdapter.withdraw; deposit := TbFundingAdapter.deposit;
  commit := TbFundingAdapter.commit; rollback := TbFundingAdapter.rollback;
  query := TbFundingAdapter.query; adapter_name := "funding-tb"
|}.

Definition tb_trading_adapter {S : Type} `{TbClient S} : ServiceAdapter S := {|
  withdraw := TbTradingAdapter.withdraw; deposit := TbTradingAdapter.deposit;
  commit := TbTradingAdapter.commit; rollback := TbTradingAdapter.rollback;
  query := TbTradingAdapter.query; adapter_name := "trading-tb"
|}.

(** ** The mock of the cluster's client ([mocks/tigerbeetle_mock.rs])

    Balances are [i64]; an identifier may be used again, and a pending transfer
    is a record with two flags. *)

Module MockTb.
Record PendingTransfer := mkPending {
  id : Z; debit_account : Z; credit_account : Z; amount : Z; voided : bool; posted : bool
}.

Record MockTbClient := mkMockTb { balances : gmap Z Z; pending_transfers : gmap Z PendingTransfer }.

Inductive TransferStatus := StPending | StPosted | StVoided.

Definition new : MockTbClient := mkMockTb ∅ ∅.

Definition set_balance (account balance : Z) (c : MockTbClient) : MockTbClient :=
  mkMockTb (<[account := balance]> (balances c)) (pending_transfers c).

Definition get_available_balance (account : Z) (c : MockTbClient) : Z := default 0 (balances c !! account).

Section operations.
Context {bp : BuildProfile}.
#[local] Open Scope rust_scope.

Definition M' (A : Type) : Type := M MockTbClient string A.

Definition insert_balance (account balance : Z) : M' unit := modify (set_balance account balance).

Definition insert_pending (transfer_id : Z) (t : PendingTransfer) : M' unit :=
  modify (fun c => mkMockTb (balances c) (<[transfer_id := t]> (pending_transfers c))).

Definition create_pending_transfer (transfer_id debit credit amount : Z) : M' unit :=
  let* c := get in
  let debit_balance := get_available_balance debit c in
  if debit_balance <? amount then throw "Insufficient balance"
  else
    let* rest := unwrap (i64_op (debit_balance - amount)) in
    insert_balance debit rest ;;;
    insert_pending transfer_id (mkPending transfer_id debit credit amount false false).

Definition post_pending_transfer (transfer_id : Z) : M' unit :=
  let* c := get in
  let* t := ok_or (pending_transfers c !! transfer_id) "Transfer not found" in
  if voided t then throw "Transfer already voided"
  else if posted t then throw "Transfer already posted"
  else
    insert_pending transfer_id (mkPending (id t) (debit_account t) (credit_account t) (amount t) (voided t) true) ;;;
    let* b := unwrap (i64_op (get_available_balance (credit_account t) c + amount t)) in
    insert_balance (credit_account t) b.

Definition void_pending_transfer (transfer_id : Z) : M' unit :=
  let* c := get in
  let* t := ok_or (pending_transfers c !! transfer_id) "Transfer not found" in
  if posted t then throw "Transfer already posted"
  else if voided t then ret tt
  else
    insert_pending transfer_id (mkPending (id t) (debit_account t) (credit_account t) (amount t) true (posted t)) ;;;
    let* b := unwrap (i64_op (get_available_balance (debit_account t) c + amount t)) in
    insert_balance (debit_account t) b.
End operations.

Definition lookup_transfer (transfer_id : Z) (c : MockTbClient) : option TransferStatus :=
  (fun t => if posted t then StPosted else if voided t then StVoided else StPending)
    <$> pending_transfers c !! transfer_id.
End MockTb.
