(* ===== verification/AdapterProofs.v ===== *)
(** * The TigerBeetle adapters and their contract

    [TbFundingAdapter] keeps the contract that [transfer_safe] assumes of a
    source service, as long as no other request uses the identifiers next to
    its own; consecutive Snowflake identifiers are such neighbours, and then a
    commit is refused for good.  [TbTradingAdapter] can resolve nothing. *)

From S2P Require Import Prelude FastUlid Transfer TransferProofs TigerBeetle TigerBeetleProofs TransferAdapters.

#[local] Open Scope string_scope.
#[local] Open Scope list_scope.
#[local] Open Scope Z_scope.

(** ** The ledger as the source service of a request *)

Definition move_of (p : TbTransfer) : Move :=
  mkMove Funding (extract_user_id (debit_account_id p)) (extract_asset_id (debit_account_id p)) (tb_amount p).

Definition debit_state (id : Z) (l : TbLedger) : debit :=
  match created l !! id with
  | None => Untouched
  | Some p =>
      match resolved l !! id with
      | None => Held (move_of p)
      | Some Posted => Finalized (move_of p)
      | Some Voided => Restored (move_of p)
      end
  end.

Definition post_of (id : Z) : TbTransfer := resolving (wrapping_add_128 id 1) id 0 0 post_flag.
Definition void_of (id : Z) : TbTransfer := resolving (wrapping_add_128 id 2) id 0 0 void_flag.

(** The identifiers [id], [id + 1] and [id + 2] are the request's own. *)
Record owned (id : Z) (l : TbLedger) : Prop := {
  owned_resolved : created l !! id = None -> resolved l !! id = None;
  owned_post t : created l !! (id + 1) = Some t -> t = post_of id /\ resolved l !! id = Some Posted;
  owned_void t : created l !! (id + 2) = Some t -> t = void_of id /\ resolved l !! id = Some Voided
}.

Lemma wrapping_next id k : is_u64 id -> 0 <= k <= 2 -> wrapping_add_128 id k = id + k.
Proof.
  unfold is_u64, u64_max, wrapping_add_128, u128_mod. intros Hid Hk. apply Z.mod_small.
  assert (18446744073709551618 < 2 ^ 128) by done. lia.
Qed.

Section adapters.
Context {S : Type} `{TbLaws S}.

(** ** One transfer *)

Inductive submitted (t : TbTransfer) (s s' : S) : OpResult.t -> OpResult.t -> Prop :=
  | submitted_recorded refused x :
      admissible t (ledger_of s) -> ledger_of s' = record_transfer t (ledger_of s) ->
      x = OpResult.Success \/ x = refused -> submitted t s s' refused x
  | submitted_before refused :
      ledger_of s' = ledger_of s -> created (ledger_of s) !! transfer_id t = Some t ->
      submitted t s s' refused OpResult.Success
  | submitted_not refused : ledger_of s' = ledger_of s -> submitted t s s' refused refused.

Lemma submit_cases t refused s x s' :
  LINKED (tb_flags t) = false -> submit t refused s = (x, s') -> submitted t s s' refused x.
Proof.
  intros Hl. unfold submit. destruct (create_transfers [t] s) as [ok s1] eqn:E. intros [= <- <-].
  destruct (transfers_atomic [t] s ok s1 E) as [Hacc|[Hsame Hok]]; [by simpl; rewrite Hl|..].
  - inversion Hacc as [|? ? ? ? Hadm Hrest]; subst. inversion Hrest; subst.
    constructor; [done|done|]. destruct ok; auto.
  - destruct ok; [|by constructor].
    apply submitted_before; [done|]. specialize (Hok eq_refl). by inversion Hok.
Qed.

Lemma ensuring_ledger user holding k s :
  exists s1, ensuring user holding k s = k s1 /\ ledger_of s1 = ledger_of s.
Proof.
  unfold ensuring, ensure_account.
  destruct (create_accounts _ s) as [ok1 s1] eqn:E1. destruct (create_accounts _ s1) as [ok2 s2] eqn:E2.
  exists s2. split; [done|].
  pose proof (accounts_frame [mkTbAccount holding TRADING_LEDGER 1] s1) as F2.
  pose proof (accounts_frame [mkTbAccount user TRADING_LEDGER 1] s) as F1.
  rewrite E1 in F1. rewrite E2 in F2. simpl in *. congruence.
Qed.

(** A transfer about other identifiers is not noticed. *)
Lemma foreign_transfer id t l :
  transfer_id t <> id -> transfer_id t <> id + 1 -> transfer_id t <> id + 2 ->
  (POST_PENDING (tb_flags t) || VOID_PENDING (tb_flags t) = true -> pending_id t <> id) ->
  debit_state id (record_transfer t l) = debit_state id l /\ (owned id l -> owned id (record_transfer t l)).
Proof.
  intros N0 N1 N2 Hp.
  assert (resolved (record_transfer t l) !! id = resolved l !! id) as Hr.
  { simpl. destruct (POST_PENDING _); [|destruct (VOID_PENDING _)]; simpl in Hp; try done;
      rewrite lookup_insert_ne; auto. }
  assert (forall i, transfer_id t <> i -> created (record_transfer t l) !! i = created l !! i) as Hc.
  { intros i Hi. simpl. by rewrite lookup_insert_ne. }
  split.
  - unfold debit_state. by rewrite Hr, (Hc id).
  - intros [R P V]. split; rewrite ?Hr, ?Hc; auto.
Qed.

(** ** The contract of a source *)

Section request.
Context (id user asset amount : Z).
Hypothesis id_range : is_u64 id.
Hypothesis user_range : is_u64 user.
Hypothesis asset_range : is_u32 asset.

Lemma set_debited_same w d : debited w = d -> set_debited d w = w.
Proof. by intros <-; destruct w. Qed.

Lemma move_of_withdrawal : move_of (withdrawal id user asset amount) = mkMove Funding user asset amount.
Proof. unfold move_of; simpl. by rewrite extract_user, extract_asset. Qed.

Lemma created_taken l t : created l !! id = Some t -> debit_state id l <> Untouched /\ debit_state id l <> Refused.
Proof. unfold debit_state. intros ->. by destruct (resolved l !! id) as [[]|]. Qed.

Lemma withdraw_contract s x s' w :
  owned id (ledger_of s) -> debited w = debit_state id (ledger_of s) ->
  TbFundingAdapter.withdraw id user asset amount s = (x, s') ->
  svc_withdraw (mkMove Funding user asset amount) w x (set_debited (debit_state id (ledger_of s')) w) /\
  owned id (ledger_of s').
Proof.
  intros Hown Hw Hx. unfold TbFundingAdapter.withdraw, TbFundingAdapter.transfer_id in Hx.
  match type of Hx with ensuring ?u ?h ?k s = _ => destruct (ensuring_ledger u h k s) as (s1 & He & Hl) end.
  rewrite He in Hx. apply submit_cases in Hx; [|done]. rewrite <- Hl in *. clear He Hl s.
  inversion Hx as [r y Hadm Hrec Hans|r Hsame Hwas|r Hsame]; subst.
  - destruct Hadm as [Hnew _]. simpl in Hnew. pose proof (owned_resolved _ _ Hown Hnew) as Hopen.
    assert (debit_state id (ledger_of s') = Held (mkMove Funding user asset amount)) as Hheld.
    { rewrite Hrec. unfold debit_state. simpl. rewrite lookup_insert_eq, Hopen. by rewrite move_of_withdrawal. }
    assert (debited w = Untouched) as Hun by (rewrite Hw; unfold debit_state; by rewrite Hnew).
    rewrite Hheld. split.
    + destruct Hans as [->| ->]; [by constructor|]. by apply withdraw_lost; auto.
    + rewrite Hrec. destruct Hown as [R P V]. split; simpl.
      * by rewrite lookup_insert_eq.
      * intros t Ht. rewrite lookup_insert_ne in Ht by lia. apply P in Ht as [_ Ht]. by rewrite Ht in Hopen.
      * intros t Ht. rewrite lookup_insert_ne in Ht by lia. apply V in Ht as [_ Ht]. by rewrite Ht in Hopen.
  - rewrite Hsame. split; [|done]. rewrite set_debited_same by done.
    destruct (created_taken _ _ Hwas). apply withdraw_again; by rewrite Hw.
  - rewrite Hsame. split; [|done]. rewrite set_debited_same by done. apply withdraw_pending.
Qed.

(** Posting and voiding differ in the flag, the identifier and the answer. *)
Definition resolving_of (r : Resolution) : TbTransfer :=
  match r with Posted => post_of id | Voided => void_of id end.

Definition resolved_debit (r : Resolution) (m : Move) : debit :=
  match r with Posted => Finalized m | Voided => Restored m end.

Lemma resolving_id r : transfer_id (resolving_of r) = match r with Posted => id + 1 | Voided => id + 2 end.
Proof. destruct r; apply wrapping_next; done || lia. Qed.

Lemma resolve_step r s x s' :
  owned id (ledger_of s) -> submit (resolving_of r) OpResult.Pending s = (x, s') ->
  owned id (ledger_of s') /\
  ((exists m, debit_state id (ledger_of s) = Held m /\ debit_state id (ledger_of s') = resolved_debit r m /\
     (x = OpResult.Success \/ x = OpResult.Pending)) \/
   ledger_of s' = ledger_of s /\
     (x = OpResult.Success /\ (exists m, debit_state id (ledger_of s) = resolved_debit r m) \/
      x = OpResult.Pending)).
Proof.
  intros Hown Hx. apply submit_cases in Hx; [|by destruct r]. pose proof (resolving_id r) as Hid.
  inversion Hx as [rf y Hadm Hrec Hans|rf Hsame Hwas|rf Hsame]; subst.
  - destruct Hadm as [Hnew Hres]. destruct Hres as (_ & Hopen & p & Hp & _); [by destruct r|].
    assert (pending_id (resolving_of r) = id) as Hpid by by destruct r. rewrite Hpid in *. split.
    + rewrite Hrec. split; simpl; rewrite ?Hid, ?Hpid.
      * intros Hn. rewrite lookup_insert_ne in Hn by (destruct r; lia). by rewrite Hp in Hn.
      * destruct r; simpl; intros t Ht.
        -- rewrite lookup_insert_eq in Ht. injection Ht as <-. by rewrite lookup_insert_eq.
        -- rewrite lookup_insert_ne in Ht by lia. apply (owned_post _ _ Hown) in Ht as [_ Ht]. by rewrite Ht in Hopen.
      * destruct r; simpl; intros t Ht.
        -- rewrite lookup_insert_ne in Ht by lia. apply (owned_void _ _ Hown) in Ht as [_ Ht]. by rewrite Ht in Hopen.
        -- rewrite lookup_insert_eq in Ht. injection Ht as <-. by rewrite lookup_insert_eq.
    + left. exists (move_of p). rewrite Hrec. unfold debit_state. rewrite Hp, Hopen. split; [done|]. split; [|done].
      simpl. rewrite Hid, lookup_insert_ne by (destruct r; lia). rewrite Hp.
      by destruct r; simpl; rewrite lookup_insert_eq.
  - rewrite Hsame. split; [done|]. right. split; [done|]. left. split; [done|]. rewrite Hid in Hwas.
    assert (resolved (ledger_of s) !! id = Some r) as Hres.
    { destruct r; [by apply (owned_post _ _ Hown) in Hwas as [_ ?]|by apply (owned_void _ _ Hown) in Hwas as [_ ?]]. }
    unfold debit_state. destruct (created (ledger_of s) !! id) as [p|] eqn:Hp.
    + exists (move_of p). rewrite Hres. by destruct r.
    + by rewrite (owned_resolved _ _ Hown Hp) in Hres.
  - rewrite Hsame. split; [done|]. right. by auto.
Qed.

Lemma commit_contract s x s' w :
  owned id (ledger_of s) -> debited w = debit_state id (ledger_of s) ->
  TbFundingAdapter.commit id s = (x, s') ->
  svc_commit w x (set_debited (debit_state id (ledger_of s')) w) /\ owned id (ledger_of s').
Proof.
  intros Hown Hw Hx. destruct (resolve_step Posted s x s' Hown Hx) as [Hown' Hcases]. split; [|done].
  destruct Hcases as [(m & Hb & -> & [->| ->])|[-> [[-> (m & Hb)]| ->]]]; rewrite ?(set_debited_same w) by done.
  - eapply commit_ok. by rewrite Hw.
  - eapply commit_lost. by rewrite Hw.
  - eapply commit_again. by rewrite Hw.
  - by apply commit_other.
Qed.

Lemma rollback_contract s x s' w :
  owned id (ledger_of s) -> debited w = debit_state id (ledger_of s) ->
  TbFundingAdapter.rollback id s = (x, s') ->
  svc_rollback w x (set_debited (debit_state id (ledger_of s')) w) /\ owned id (ledger_of s').
Proof.
  intros Hown Hw Hx. destruct (resolve_step Voided s x s' Hown Hx) as [Hown' Hcases]. split; [|done].
  destruct Hcases as [(m & Hb & -> & [->| ->])|[-> [[-> (m & Hb)]| ->]]]; rewrite ?(set_debited_same w) by done.
  - eapply rollback_ok. by rewrite Hw.
  - eapply rollback_lost. by rewrite Hw.
  - eapply rollback_again. by rewrite Hw.
  - by apply rollback_other.
Qed.
End request.

(** ** Calls of several requests *)

Inductive FundingCall :=
  | CallWithdraw (user asset amount : Z)
  | CallDeposit (user asset amount : Z)
  | CallCommit
  | CallRollback.

Definition funding_call (id : Z) (c : FundingCall) : S -> OpResult.t * S :=
  match c with
  | CallWithdraw u a n => TbFundingAdapter.withdraw id u a n
  | CallDeposit u a n => TbFundingAdapter.deposit id u a n
  | CallCommit => TbFundingAdapter.commit id
  | CallRollback => TbFundingAdapter.rollback id
  end.

(** What a source is asked for the request [id]; a deposit is not. *)
Definition source_op (id : Z) (c : FundingCall) : option (op OpResult.t) :=
  match c with
  | CallWithdraw u a n => Some (Withdraw Funding id u a n)
  | CallDeposit _ _ _ => None
  | CallCommit => Some (Commit Funding id)
  | CallRollback => Some (Rollback Funding id)
  end.

Definition call_in_range (c : FundingCall) : Prop :=
  match c with
  | CallWithdraw u a _ | CallDeposit u a _ => is_u64 u /\ is_u32 a
  | _ => True
  end.

Lemma foreign_submit id t refused s :
  LINKED (tb_flags t) = false ->
  transfer_id t <> id -> transfer_id t <> id + 1 -> transfer_id t <> id + 2 ->
  (POST_PENDING (tb_flags t) || VOID_PENDING (tb_flags t) = true -> pending_id t <> id) ->
  owned id (ledger_of s) ->
  let s' := (submit t refused s).2 in
  owned id (ledger_of s') /\ debit_state id (ledger_of s') = debit_state id (ledger_of s).
Proof.
  intros Hl N0 N1 N2 Hp Hown. destruct (submit t refused s) as [x s'] eqn:E. simpl.
  apply submit_cases in E; [|done].
  inversion E as [rf y Hadm Hrec Hans|rf Hsame Hwas|rf Hsame]; subst; [|by rewrite Hsame..].
  rewrite Hrec. destruct (foreign_transfer id t (ledger_of s)) as [-> Ho]; auto.
Qed.

Lemma foreign_call id id' c s :
  is_u64 id' -> 3 <= Z.abs (id - id') -> owned id (ledger_of s) ->
  let s' := (funding_call id' c s).2 in
  owned id (ledger_of s') /\ debit_state id (ledger_of s') = debit_state id (ledger_of s).
Proof.
  intros Hid' Hdist Hown. destruct c as [u a n|u a n| |]; simpl.
  1, 2: unfold TbFundingAdapter.withdraw, TbFundingAdapter.deposit, TbFundingAdapter.transfer_id;
    match goal with |- context [ensuring ?u ?h ?k ?s0] =>
      destruct (ensuring_ledger u h k s0) as (s1 & -> & Hl) end;
    rewrite <- Hl in *; apply foreign_submit; simpl; done || lia.
  all: unfold TbFundingAdapter.commit, TbFundingAdapter.rollback, TbFundingAdapter.transfer_id;
    apply foreign_submit; simpl; rewrite ?wrapping_next by (done || lia); done || lia.
Qed.

(** C27: the TigerBeetle adapter keeps, for every request, the contract that
    [transfer_safe] demands of a source service: whatever the cluster and the
    network do with a call, its answer and the change of the ledger are a step
    the contract allows, and calls of requests whose identifiers are at least
    three apart are not noticed. *)
Theorem funding_adapter_contract id id' c s x s' w :
  is_u64 id -> is_u64 id' -> call_in_range c -> id' = id \/ 3 <= Z.abs (id - id') ->
  owned id (ledger_of s) -> debited w = debit_state id (ledger_of s) ->
  funding_call id' c s = (x, s') ->
  let w' := set_debited (debit_state id (ledger_of s')) w in
  (id' <> id -> w' = w /\ owned id (ledger_of s')) /\
  (forall o, id' = id -> source_op id c = Some o -> exec id o w x w' /\ owned id (ledger_of s')).
Proof.
  intros Hid Hid' Hc Hdist Hown Hw Hx w'. split.
  - intros Hne. destruct Hdist as [->|Hdist]; [done|].
    destruct (foreign_call id id' c s Hid' Hdist Hown) as [Ho Hd]. rewrite Hx in Ho, Hd. simpl in Ho, Hd.
    split; [|done]. subst w'. rewrite Hd. by apply set_debited_same.
  - intros o -> Ho. destruct c as [u a n|u a n| |]; [|discriminate Ho|..]; injection Ho as <-; simpl in Hx, Hc.
    + destruct Hc as [Hu Ha]. destruct (withdraw_contract id u a n Hu Ha s x s' w) as [Hr ?]; by auto.
    + destruct (commit_contract id Hid s x s' w) as [Hr ?]; by auto.
    + destruct (rollback_contract id Hid s x s' w) as [Hr ?]; by auto.
Qed.

(** A request whose identifiers were never used starts as the contract
    wants. *)
Lemma fresh_request id l :
  created l !! id = None -> created l !! (id + 1) = None -> created l !! (id + 2) = None ->
  resolved l !! id = None -> owned id l /\ debit_state id l = Untouched.
Proof. intros C0 C1 C2 R. split; [|by unfold debit_state; rewrite C0]. split; by rewrite ?C1, ?C2. Qed.

(** ** Neighbouring identifiers *)

Lemma consecutive_ids now machine seq :
  0 <= now < 2 ^ 44 -> 0 <= machine < 128 -> 0 <= seq < 8191 ->
  snowflake_id now machine (seq + 1) = snowflake_id now machine seq + 1 /\ is_u64 (snowflake_id now machine seq).
Proof. intros Hn Hm Hs. rewrite !snowflake_id_eq by lia. unfold is_u64, u64_max. lia. Qed.

(** A transfer whose identifier is taken by another changes nothing and is
    not confirmed. *)
Lemma submit_taken t t' s :
  LINKED (tb_flags t) = false -> created (ledger_of s) !! transfer_id t = Some t' -> t' <> t ->
  let r := submit t OpResult.Pending s in r.1 = OpResult.Pending /\ ledger_of r.2 = ledger_of s.
Proof.
  intros Hl Ht Hne. destruct (submit t OpResult.Pending s) as [x s'] eqn:E. simpl.
  apply submit_cases in E; [|done]. inversion E as [rf y [Hnew _]|rf Hsame Hwas|rf Hsame]; subst.
  - by rewrite Hnew in Ht.
  - rewrite Hwas in Ht. by injection Ht as ->.
  - done.
Qed.

(** Two transfers out of the funding account that were created in the same
    millisecond have consecutive identifiers, and the second uses the
    identifier under which the first is to be committed.  Once the second's
    withdrawal is recorded, the commit of the first is refused for good and
    its money stays frozen; when the commit comes first, the second's
    withdrawal is refused for good.  The coordinator is told [Pending]. *)
Theorem consecutive_requests_collide now machine seq user asset amount s :
  0 <= now < 2 ^ 44 -> 0 <= machine < 128 -> 0 <= seq < 8191 ->
  let first := snowflake_id now machine seq in
  let second := snowflake_id now machine (seq + 1) in
  (created (ledger_of s) !! second = Some (withdrawal second user asset amount) ->
   forall s1, grows (ledger_of s) (ledger_of s1) ->
   (TbFundingAdapter.commit first s1).1 = OpResult.Pending /\
   ledger_of (TbFundingAdapter.commit first s1).2 = ledger_of s1) /\
  (created (ledger_of s) !! second = Some (post_of first) ->
   forall s1, grows (ledger_of s) (ledger_of s1) ->
   (TbFundingAdapter.withdraw second user asset amount s1).1 = OpResult.Pending /\
   ledger_of (TbFundingAdapter.withdraw second user asset amount s1).2 = ledger_of s1).
Proof.
  intros Hn Hm Hs. simpl. destruct (consecutive_ids now machine seq Hn Hm Hs) as [-> Hid].
  set (first := snowflake_id now machine seq) in *. split; intros Hc s1 Hg; apply (grows_created _ _ Hg) in Hc.
  - unfold TbFundingAdapter.commit, TbFundingAdapter.transfer_id.
    apply (submit_taken _ (withdrawal (first + 1) user asset amount)); [done| |done].
    simpl. rewrite wrapping_next by (done || lia). done.
  - unfold TbFundingAdapter.withdraw, TbFundingAdapter.transfer_id.
    match goal with |- context [ensuring ?u ?h ?k ?s0] =>
      destruct (ensuring_ledger u h k s0) as (s2 & -> & Hl) end.
    rewrite <- Hl. apply (submit_taken _ (post_of first)); [done| |done]. simpl. by rewrite Hl.
Qed.

(** ** The adapter that resolves nothing *)

(** Every recorded transfer that resolves another names it. *)
Definition well_referenced (l : TbLedger) : Prop :=
  forall i t, created l !! i = Some t -> POST_PENDING (tb_flags t) || VOID_PENDING (tb_flags t) = true ->
  pending_id t <> 0.

Lemma submit_unreferenced t refused s :
  LINKED (tb_flags t) = false -> POST_PENDING (tb_flags t) || VOID_PENDING (tb_flags t) = true ->
  pending_id t = 0 -> well_referenced (ledger_of s) ->
  (submit t refused s).1 = refused /\ ledger_of (submit t refused s).2 = ledger_of s.
Proof.
  intros Hl Hf Hp Hwf. destruct (submit t refused s) as [x s'] eqn:E. simpl.
  apply submit_cases in E; [|done].
  inversion E as [rf y [_ Hres]|rf Hsame Hwas|rf Hsame]; subst; [|by destruct (Hwf _ _ Hwas Hf)|done].
  by destruct (Hres Hf) as [? _].
Qed.

(** [TbTradingAdapter] sends its commits and rollbacks without the identifier
    of the pending transfer: none succeeds, and a transfer out of the trading
    account that must be compensated stays in [Compensating]. *)
Lemma trading_adapter_resolves_nothing id s :
  well_referenced (ledger_of s) ->
  (TbTradingAdapter.commit id s).1 = OpResult.Pending /\
  (exists e, (TbTradingAdapter.rollback id s).1 = OpResult.Failed e) /\
  ledger_of (TbTradingAdapter.commit id s).2 = ledger_of s /\
  ledger_of (TbTradingAdapter.rollback id s).2 = ledger_of s.
Proof.
  intros Hwf. unfold TbTradingAdapter.commit, TbTradingAdapter.rollback.
  destruct (submit_unreferenced (resolving (TbTradingAdapter.transfer_id id) 0 0 0 post_flag) OpResult.Pending s)
    as [-> ->]; [done..|].
  destruct (submit_unreferenced (resolving (TbTradingAdapter.transfer_id id) 0 0 0 void_flag)
    (OpResult.Failed "Rollback failed") s) as [-> ->]; [done..|]. by eauto.
Qed.

Lemma record_well_referenced t l : admissible t l -> well_referenced l -> well_referenced (record_transfer t l).
Proof.
  intros [_ Hres] Hwf i t'. simpl. intros [[_ <-]|[_ Ht]]%lookup_insert_Some Hf; [by apply Hres|by eapply Hwf].
Qed.
End adapters.

(** ** The theorems at a cluster *)

Module Concrete.
Import ToyCluster.

Definition first_id : Z := snowflake_id 1700000000000 1 5.
Definition second_id : Z := snowflake_id 1700000000000 1 6.

(** Both withdrawals, of 100 and of 70 units. *)
Definition both_frozen : cluster :=
  (TbFundingAdapter.withdraw second_id 8 2 70 (TbFundingAdapter.withdraw first_id 7 2 100 (empty [])).2).2.

(** The first is withdrawn and committed before the second begins. *)
Definition first_done : cluster :=
  (TbFundingAdapter.commit first_id (TbFundingAdapter.withdraw first_id 7 2 100 (empty [])).2).2.

Definition world0 : World := mkWorld None Untouched NotCredited.

Lemma funding_adapter_contract_witness :
  exec first_id (Withdraw Funding first_id 7 2 100) world0
    OpResult.Pending (set_debited (Held (mkMove Funding 7 2 100)) world0) /\
  exec first_id (Withdraw Funding first_id 7 2 100) world0
    OpResult.Success (set_debited (Held (mkMove Funding 7 2 100)) world0).
Proof.
  assert (is_u64 first_id) as Hid by (by vm_compute).
  assert (call_in_range (CallWithdraw 7 2 100)) as Hc by (split; [by vm_compute|by vm_compute]).
  split.
  - pose proof (funding_adapter_contract first_id first_id (CallWithdraw 7 2 100) (empty [AnswerLost])
      OpResult.Pending (funding_call first_id (CallWithdraw 7 2 100) (empty [AnswerLost])).2 world0
      Hid Hid Hc (or_introl eq_refl)) as [_ Hown].
    + by apply fresh_request.
    + done.
    + by vm_compute.
    + destruct (Hown _ eq_refl eq_refl) as [Hx _]. exact Hx.
  - pose proof (funding_adapter_contract first_id first_id (CallWithdraw 7 2 100) (empty [])
      OpResult.Success (funding_call first_id (CallWithdraw 7 2 100) (empty [])).2 world0
      Hid Hid Hc (or_introl eq_refl)) as [_ Hown].
    + by apply fresh_request.
    + done.
    + by vm_compute.
    + destruct (Hown _ eq_refl eq_refl) as [Hx _]. exact Hx.
Defined.

Lemma consecutive_requests_collide_witness :
  (TbFundingAdapter.commit first_id both_frozen).1 = OpResult.Pending /\
  debit_state first_id (the_ledger (TbFundingAdapter.commit first_id both_frozen).2) = Held (mkMove Funding 7 2 100) /\
  (TbFundingAdapter.withdraw second_id 8 2 70 first_done).1 = OpResult.Pending.
Proof.
  destruct (consecutive_requests_collide 1700000000000 1 5 8 2 70 both_frozen) as [Hc _]; [lia..|].
  destruct (consecutive_requests_collide 1700000000000 1 5 8 2 70 first_done) as [_ Hw]; [lia..|].
  destruct (Hc eq_refl both_frozen) as [H1 H2]; [reflexivity|].
  destruct (Hw eq_refl first_done) as [H3 _]; [reflexivity|].
  split; [exact H1|]. split; [|exact H3]. 
  transitivity (debit_state first_id (ledger_of both_frozen)); [exact (f_equal (debit_state first_id) H2)|].
  by vm_compute.
Defined.
End Concrete.
