(* ===== verification/AeronChannel.v ===== *)
(** * Requests and responses over Aeron ([ubs_core/comm/])

    The client's channel ([aeron_channel.rs]): callers register under a fresh
    correlation identifier, offer their message and wait; a thread collects
    registrations and hands responses to the callers.  The server's side
    ([aeron_server.rs], the loop of [bin/ubscore_aeron_service.rs]) collects a
    batch, processes it and offers the responses.  Aeron's publications and
    subscriptions are the two queues between them; any message may be lost.
    The processes open several channels on the same two streams, each with its
    own counter of identifiers: one channel is described, alone on its streams
    or among others. *)

From S2P Require Import Prelude Bytes.

#[local] Open Scope string_scope.
#[local] Open Scope list_scope.
#[local] Open Scope Z_scope.

(** ** Errors of a publication *)

Module SendError.
Inductive t :=
  | NotConnected | BackPressured | AdminAction | Closed | MaxPositionExceeded | MaxRetriesExceeded
  | AeronError (e : string)
  | Unknown (position : Z).

Definition is_back_pressured (e : t) : bool := match e with BackPressured => true | _ => false end.

Definition is_system_busy (e : t) : bool :=
  match e with BackPressured | AdminAction | MaxPositionExceeded => true | _ => false end.
End SendError.

(** The error of a negative position. *)
Definition offer_error (position : Z) : SendError.t :=
  if position =? -1 then SendError.NotConnected
  else if position =? -2 then SendError.BackPressured
  else if position =? -3 then SendError.AdminAction
  else if position =? -4 then SendError.Closed
  else if position =? -5 then SendError.MaxPositionExceeded
  else SendError.Unknown position.

(** [AeronChannel::send], [OrderSender::send]: what [offer] answered. *)
Definition send_outcome (position : Z) : SendError.t + Z :=
  if 0 <=? position then inr position else inl (offer_error position).

(** ** Frames: 8 bytes of correlation identifier, then the payload *)

Definition frame (correlation : Z) (payload : list Z) : list Z := le_bytes 8 correlation ++ payload.

Definition frame_id (buffer : list Z) : Z := le_value (take 8 buffer).

Definition parse_request (buffer : list Z) : option (Z * list Z) :=
  if zlen buffer <? 8 then None else Some (frame_id buffer, drop 8 buffer).

(** ** The state of both sides *)

Inductive CallStatus :=
  | Numbered  (* the identifier is drawn *)
  | Registered  (* sent to the thread *)
  | Waiting  (* the message is offered *)
  | Returned (r : SendError.t + list Z).

(** A call of [send_and_receive]; [c_box] is its one-place channel. *)
Record Call := mkCall { c_corr : Z; c_payload : list Z; c_status : CallStatus; c_box : option (list Z) }.

(** [polling] is how many more fragments the thread's current poll may take:
    with 0 it is collecting registrations.  [history] is what the server was
    asked and answered. *)
Record Channel (Srv : Type) := mkChannel {
  next_correlation_id : Z;
  calls : list Call;
  pending_rx : list (Z * nat);
  pending : gmap Z nat;
  polling : nat;
  to_server : list (list Z);
  to_client : list (list Z);
  server : Srv;
  history : list (Z * list Z * list Z)
}.
Arguments mkChannel {Srv}.
Arguments next_correlation_id {Srv}.
Arguments calls {Srv}.
Arguments pending_rx {Srv}.
Arguments pending {Srv}.
Arguments polling {Srv}.
Arguments to_server {Srv}.
Arguments to_client {Srv}.
Arguments server {Srv}.
Arguments history {Srv}.

Definition channel_new {Srv} (s : Srv) : Channel Srv := mkChannel 1 [] [] ∅ 0 [] [] s [].

Definition set_status (x : CallStatus) (c : Call) : Call := mkCall (c_corr c) (c_payload c) x (c_box c).

(** [tx.send(response)]: nothing when the receiver is gone. *)
Definition fill_box (bytes : list Z) (c : Call) : Call :=
  match c_status c, c_box c with
  | Returned _, _ => c
  | _, Some _ => c
  | _, None => mkCall (c_corr c) (c_payload c) (c_status c) (Some bytes)
  end.

Section channel.
Context {Srv : Type}.

(** A batch of the server: correlation identifiers with payloads, and with
    responses; [None] is a panic. *)
Context (process_batch : list (Z * list Z) -> Srv -> option (list (Z * list Z) * Srv)).

Definition PENDING_CAPACITY : nat := 1024.
Definition POLL_LIMIT : nat := 100.

Definition set_calls (l : list Call) (st : Channel Srv) : Channel Srv :=
  mkChannel (next_correlation_id st) l (pending_rx st) (pending st) (polling st) (to_server st)
    (to_client st) (server st) (history st).

Definition set_polling (n : nat) (st : Channel Srv) : Channel Srv :=
  mkChannel (next_correlation_id st) (calls st) (pending_rx st) (pending st) n (to_server st)
    (to_client st) (server st) (history st).

(** [next_id], at the beginning of [send_and_receive]. *)
Definition begin_call (payload : list Z) (st : Channel Srv) : Channel Srv :=
  mkChannel (wrapping_add (next_correlation_id st) 1)
    (calls st ++ [mkCall (next_correlation_id st) payload Numbered None])
    (pending_rx st) (pending st) (polling st) (to_server st) (to_client st) (server st) (history st).

(** [pending_tx.send((correlation_id, resp_tx))] *)
Definition register (k : nat) (c : Call) (st : Channel Srv) : Channel Srv :=
  mkChannel (next_correlation_id st) (<[k := set_status Registered c]> (calls st))
    (pending_rx st ++ [(c_corr c, k)]) (pending st) (polling st) (to_server st) (to_client st)
    (server st) (history st).

(** [publication.offer(&message)], accepted. *)
Definition offer (k : nat) (c : Call) (st : Channel Srv) : Channel Srv :=
  mkChannel (next_correlation_id st) (<[k := set_status Waiting c]> (calls st))
    (pending_rx st) (pending st) (polling st) (to_server st ++ [frame (c_corr c) (c_payload c)])
    (to_client st) (server st) (history st).

(** [send_and_receive] returns. *)
Definition finish (k : nat) (c : Call) (r : SendError.t + list Z) (st : Channel Srv) : Channel Srv :=
  set_calls (<[k := set_status (Returned r) c]> (calls st)) st.

(** The thread collects one registration. *)
Definition collect (id : Z) (k : nat) (rest : list (Z * nat)) (st : Channel Srv) : Channel Srv :=
  mkChannel (next_correlation_id st) (calls st) rest (<[id := k]> (pending st)) (polling st)
    (to_server st) (to_client st) (server st) (history st).

(** [handle_aeron_fragment_handler] on the first fragment of [to_client]. *)
Definition dispatch (msg : list Z) (rest : list (list Z)) (n : nat) (st : Channel Srv) : Channel Srv :=
  let '(calls', pending') :=
    if zlen msg <? 8 then (calls st, pending st)
    else
      match pending st !! frame_id msg with
      | Some k => (alter (fill_box (drop 8 msg)) k (calls st), delete (frame_id msg) (pending st))
      | None => (calls st, pending st)
      end in
  mkChannel (next_correlation_id st) calls' (pending_rx st) pending' n (to_server st) rest
    (server st) (history st).

(** The responses that are sent: empty ones are not. *)
Definition response_frames (responses : list (Z * list Z)) : list (list Z) :=
  (fun r => frame r.1 r.2) <$> filter (fun r => r.2 <> []) responses.

(** Requests paired with their responses. *)
Definition answered (batch responses : list (Z * list Z)) : list (Z * list Z * list Z) :=
  zip_with (fun b r => (b.1, b.2, r.2)) batch responses.

(** One turn of the service's loop on the fragments it polled. *)
Definition serve_batch (fragments rest : list (list Z)) (st : Channel Srv) : option (Channel Srv) :=
  let batch := omap parse_request fragments in
  match batch with
  | [] => Some (mkChannel (next_correlation_id st) (calls st) (pending_rx st) (pending st) (polling st)
                  rest (to_client st) (server st) (history st))
  | _ =>
      match process_batch batch (server st) with
      | None => None
      | Some (responses, s') =>
          Some (mkChannel (next_correlation_id st) (calls st) (pending_rx st) (pending st) (polling st)
                  rest (to_client st ++ response_frames responses) s'
                  (history st ++ answered batch responses))
      end
  end.

(** ** Steps: any number of callers, the thread, the server, the network

    When the channel is not alone, requests of the other channels may appear on
    the stream at any time, under any identifiers; every channel sees every
    response. *)

Context (alone : bool).

Inductive channel_step : Channel Srv -> Channel Srv -> Prop :=
  | step_begin payload st : channel_step st (begin_call payload st)
  | step_register k c st :
      calls st !! k = Some c -> c_status c = Numbered -> (length (pending_rx st) < PENDING_CAPACITY)%nat ->
      channel_step st (register k c st)
  | step_offer k c st :
      calls st !! k = Some c -> c_status c = Registered -> channel_step st (offer k c st)
  | step_refused k c position st :
      calls st !! k = Some c -> c_status c = Registered -> position < 0 ->
      channel_step st (finish k c (inl (offer_error position)) st)
  | step_receive k c bytes st :
      calls st !! k = Some c -> c_status c = Waiting -> c_box c = Some bytes ->
      channel_step st (finish k c (inr bytes) st)
  | step_timeout k c st :
      calls st !! k = Some c -> c_status c = Waiting ->
      channel_step st (finish k c (inl (SendError.AeronError "Timeout")) st)
  | step_collect id k rest st :
      polling st = 0%nat -> pending_rx st = (id, k) :: rest -> channel_step st (collect id k rest st)
  | step_poll st :
      polling st = 0%nat -> pending_rx st = [] -> channel_step st (set_polling POLL_LIMIT st)
  | step_fragment msg rest n st :
      polling st = S n -> to_client st = msg :: rest -> channel_step st (dispatch msg rest n st)
  | step_polled n st : polling st = S n -> channel_step st (set_polling 0 st)
  | step_serve fragments rest st st' :
      to_server st = fragments ++ rest -> (length fragments <= POLL_LIMIT)%nat ->
      serve_batch fragments rest st = Some st' -> channel_step st st'
  | step_request_lost msg before rest st :
      to_server st = before ++ msg :: rest ->
      channel_step st
        (mkChannel (next_correlation_id st) (calls st) (pending_rx st) (pending st) (polling st)
           (before ++ rest) (to_client st) (server st) (history st))
  | step_response_lost msg before rest st :
      to_client st = before ++ msg :: rest ->
      channel_step st
        (mkChannel (next_correlation_id st) (calls st) (pending_rx st) (pending st) (polling st)
           (to_server st) (before ++ rest) (server st) (history st))
  | step_foreign id payload st :
      alone = false -> is_u64 id ->
      channel_step st
        (mkChannel (next_correlation_id st) (calls st) (pending_rx st) (pending st) (polling st)
           (to_server st ++ [frame id payload]) (to_client st) (server st) (history st)).

Definition channel_reachable (s : Srv) (st : Channel Srv) : Prop := rtc channel_step (channel_new s) st.
End channel.
