(* ===== verification/AeronChannelProofs.v ===== *)
(** * What the channel guarantees

    While the channel is alone on its streams, a response is never given to the
    wrong caller, no request is served twice and a refused one not at all; but
    a response that comes back before the thread has collected its registration
    is thrown away.  Among other channels a caller is given whatever answers
    the identifier it drew, be it the request of another process. *)

From S2P Require Import Prelude Bytes AeronChannel.

#[local] Open Scope string_scope.
#[local] Open Scope list_scope.
#[local] Open Scope Z_scope.

(** ** Frames *)

Lemma frame_id_frame id p : is_u64 id -> frame_id (frame id p) = id.
Proof.
  intros Hid. unfold frame_id, frame. rewrite take_app_length'; [by apply le_bytes_u64|].
  by rewrite le_bytes_length.
Qed.

Lemma drop_frame id p : drop 8 (frame id p) = p.
Proof. unfold frame. rewrite drop_app_length'; [done|]. by rewrite le_bytes_length. Qed.

Lemma frame_not_short id p : (zlen (frame id p) <? 8) = false.
Proof.
  apply Z.ltb_ge. unfold frame. rewrite zlen_app. pose proof (zlen_nonneg p).
  rewrite (zlen_eq (le_bytes 8 id)), le_bytes_length. lia.
Qed.

Lemma parse_frame id p : is_u64 id -> parse_request (frame id p) = Some (id, p).
Proof. intros Hid. unfold parse_request. by rewrite frame_not_short, frame_id_frame, drop_frame. Qed.

(** ** Calls *)

(** The message of the call is on its way, or was. *)
Definition sent (c : Call) : Prop :=
  match c_status c with
  | Waiting | Returned (inr _) | Returned (inl (SendError.AeronError _)) => True
  | _ => False
  end.

(** What no step changes of a call. *)
Definition continues (c c' : Call) : Prop :=
  c_corr c' = c_corr c /\ c_payload c' = c_payload c /\ (sent c -> sent c').

Definition calls_continue (l l' : list Call) : Prop :=
  forall k c, l !! k = Some c -> exists c', l' !! k = Some c' /\ continues c c'.

Lemma continues_refl c : continues c c.
Proof. done. Qed.

Lemma calls_continue_refl l : calls_continue l l.
Proof. intros k c Hc. exists c. by split. Qed.

Lemma calls_continue_app l l' : calls_continue l (l ++ l').
Proof. intros k c Hc. exists c. split; [by apply lookup_app_l_Some|done]. Qed.

Lemma calls_continue_insert l k c c' :
  l !! k = Some c -> continues c c' -> calls_continue l (<[k := c']> l).
Proof.
  intros Hk Hc i x Hx. destruct (decide (i = k)) as [->|Hne].
  - exists c'. rewrite Hk in Hx. injection Hx as <-. split; [|done].
    apply list_lookup_insert_eq. by apply lookup_lt_Some in Hk.
  - exists x. by rewrite list_lookup_insert_ne.
Qed.

Lemma fill_box_cases b c :
  fill_box b c = c \/
  (forall r, c_status c <> Returned r) /\ fill_box b c = mkCall (c_corr c) (c_payload c) (c_status c) (Some b).
Proof. destruct c as [x p s [o|]]; unfold fill_box; simpl; destruct s; auto; right; by split. Qed.

Lemma fill_box_continues b c : continues c (fill_box b c).
Proof. destruct c as [x p s [o|]]; unfold fill_box; simpl; destruct s; by split. Qed.

Lemma calls_continue_alter l k b : calls_continue l (alter (fill_box b) k l).
Proof.
  intros i x Hx. destruct (decide (i = k)) as [->|Hne].
  - exists (fill_box b x). rewrite list_lookup_alter_eq, Hx. split; [done|apply fill_box_continues].
  - exists x. by rewrite list_lookup_alter_ne.
Qed.

Section invariant.
Context {Srv : Type} (process_batch : list (Z * list Z) -> Srv -> option (list (Z * list Z) * Srv)).
Context (alone : bool).

(** Every request of a batch gets one response, in order. *)
Hypothesis batch_ids : forall batch s responses s',
  process_batch batch s = Some (responses, s') -> map fst responses = map fst batch.

Definition entry_ids (h : list (Z * list Z * list Z)) : list Z := map (fun e => e.1.1) h.

(** Whose message it is. *)
Definition from_call (l : list Call) (id : Z) (p : list Z) : Prop :=
  exists k c, l !! k = Some c /\ sent c /\ c_corr c = id /\ c_payload c = p.

(** What may be on the stream of requests. *)
Definition asked (l : list Call) (id : Z) (p : list Z) : Prop :=
  is_u64 id /\ (alone = true -> from_call l id p).

(** The server gave [b] for the identifier of the call, and to its message if
    the channel is alone. *)
Definition answers (st : Channel Srv) (c : Call) (b : list Z) : Prop :=
  exists p, (c_corr c, p, b) ∈ history st /\ (alone = true -> p = c_payload c).

Record channel_ok (st : Channel Srv) : Prop := {
  ok_next : next_correlation_id st = 1 + Z.of_nat (length (calls st));
  ok_corr : forall k c, calls st !! k = Some c -> c_corr c = 1 + Z.of_nat k;
  ok_rx : forall id k, (id, k) ∈ pending_rx st -> id = 1 + Z.of_nat k;
  ok_pending : forall id k, pending st !! id = Some k -> id = 1 + Z.of_nat k;
  ok_requests : forall m, m ∈ to_server st -> exists id p, m = frame id p /\ asked (calls st) id p;
  ok_history : forall id p r, (id, p, r) ∈ history st -> asked (calls st) id p;
  ok_responses : forall m, m ∈ to_client st -> exists id p r, m = frame id r /\ (id, p, r) ∈ history st;
  ok_box : forall k c b, calls st !! k = Some c -> c_box c = Some b -> answers st c b;
  ok_returned : forall k c b, calls st !! k = Some c -> c_status c = Returned (inr b) -> answers st c b;
  ok_once : alone = true -> NoDup (map frame_id (to_server st) ++ entry_ids (history st))
}.

Definition small (st : Channel Srv) : Prop := Z.of_nat (length (calls st)) < u64_max.

Lemma from_call_continues l l' id p : calls_continue l l' -> from_call l id p -> from_call l' id p.
Proof.
  intros Hl (k & c & Hk & Hs & Hi & Hp). destruct (Hl k c Hk) as (c' & Hk' & Hc1 & Hc2 & Hc3).
  exists k, c'. split; [done|]. split; [by apply Hc3|]. by rewrite Hc1, Hc2.
Qed.

Lemma asked_continues l l' id p : calls_continue l l' -> asked l id p -> asked l' id p.
Proof. intros Hl [Hu Hf]. split; [done|]. intros Ha. eapply from_call_continues; eauto. Qed.

Lemma channel_new_ok s : channel_ok (channel_new s).
Proof. split; simpl; try done; try (intros; exfalso; by eapply not_elem_of_nil). intros _. by apply NoDup_nil_2. Qed.

(** A step that only touches the calls: a call returns or its box is filled. *)
Lemma ok_set_calls st l :
  channel_ok st -> calls_continue (calls st) l -> length l = length (calls st) ->
  (forall k c b, l !! k = Some c -> c_box c = Some b \/ c_status c = Returned (inr b) -> answers st c b) ->
  channel_ok (set_calls l st).
Proof.
  intros [N C RX P RQ H R B T O] Hl Hlen Hb. split; simpl; try done.
  - by rewrite Hlen.
  - intros k c Hk. assert (is_Some (calls st !! k)) as [c0 Hc0].
    { apply lookup_lt_is_Some. rewrite <- Hlen. by apply lookup_lt_Some in Hk. }
    destruct (Hl k c0 Hc0) as (c' & Hk' & Hc & _). rewrite Hk in Hk'. injection Hk' as <-.
    rewrite Hc. by apply C.
  - intros m Hm. destruct (RQ m Hm) as (id & p & -> & Hf). exists id, p. split; [done|].
    by eapply asked_continues.
  - intros id p r Hin. eapply asked_continues; [done|by eapply H].
  - intros k c b Hk Hbox. by eapply Hb; [|left].
  - intros k c b Hk Hret. by eapply Hb; [|right].
Qed.

Lemma ok_insert_call st k c x :
  channel_ok st -> calls st !! k = Some c -> (sent c -> sent (set_status x c)) ->
  (forall b, x = Returned (inr b) -> c_box c = Some b) ->
  channel_ok (set_calls (<[k := set_status x c]> (calls st)) st).
Proof.
  intros Hok Hk Hs Hx. apply ok_set_calls; [done|..].
  - eapply calls_continue_insert; [done|]. by split.
  - apply length_insert.
  - intros i c' b Hi Hb. apply list_lookup_insert_Some in Hi as [(-> & <- & _)|[_ Hi]].
    + assert (Hbox : c_box c = Some b).
      { simpl in Hb. destruct Hb as [Hb|Hb]; [done|by apply Hx]. }
      destruct (ok_box _ Hok i c b Hk Hbox) as (p & Hin & Hp). by exists p.
    + destruct Hb as [Hb|Hb]; [by eapply (ok_box _ Hok)|by eapply (ok_returned _ Hok)].
Qed.

Lemma ok_begin payload st :
  channel_ok st -> small (begin_call payload st) -> channel_ok (begin_call payload st).
Proof.
  intros [N C RX P RQ H R B T O] Hs.
  assert (forall k c, calls (begin_call payload st) !! k = Some c ->
            calls st !! k = Some c \/ k = length (calls st) /\ c = mkCall (next_correlation_id st) payload Numbered None)
    as Hcases.
  { intros k c. unfold begin_call. simpl. intros [Hk|[Hk Hl]]%lookup_app_Some; [by left|right].
    apply list_lookup_singleton_Some in Hl as [? <-]. split; [lia|done]. }
  unfold small in Hs. simpl in Hs. rewrite length_app in Hs. simpl in Hs.
  split; simpl; try done.
  - rewrite length_app. simpl. unfold wrapping_add. rewrite Z.mod_small; unfold u64_max, u64_mod in *; lia.
  - intros k c [Hk|[-> ->]]%Hcases; [by apply C|done].
  - intros m Hm. destruct (RQ m Hm) as (id & p & -> & Hf). exists id, p. split; [done|].
    eapply asked_continues; [apply calls_continue_app|done].
  - intros id p r Hin. eapply asked_continues; [apply calls_continue_app|by eapply H].
  - intros k c b [Hk|[-> ->]]%Hcases; [by eapply B|done].
  - intros k c b [Hk|[-> ->]]%Hcases; [by eapply T|done].
Qed.

Lemma ok_register k c st :
  channel_ok st -> calls st !! k = Some c -> c_status c = Numbered -> channel_ok (register k c st).
Proof.
  intros Hok Hk Hst.
  assert (channel_ok (set_calls (<[k := set_status Registered c]> (calls st)) st)) as [N C RX P RQ H R B T O].
  { apply ok_insert_call; [done..| |done]. unfold sent. by rewrite Hst. }
  split; try done. simpl. intros id i [Hin|Hin]%elem_of_app; [by apply RX|].
  apply list_elem_of_singleton in Hin as [= -> ->]. by apply (ok_corr _ Hok).
Qed.

Lemma sent_corr_ne st k c id p :
  channel_ok st -> calls st !! k = Some c -> ~ sent c -> from_call (calls st) id p -> id <> c_corr c.
Proof.
  intros Hok Hk Hns (i & c' & Hi & Hs & <- & _) Heq.
  rewrite (ok_corr _ Hok _ _ Hi), (ok_corr _ Hok _ _ Hk) in Heq.
  assert (i = k) as -> by lia. rewrite Hk in Hi. by injection Hi as <-.
Qed.

Lemma ok_offer k c st :
  channel_ok st -> small st -> calls st !! k = Some c -> c_status c = Registered -> channel_ok (offer k c st).
Proof.
  intros Hok Hs Hk Hst.
  assert (~ sent c) as Hns by (unfold sent; rewrite Hst; tauto).
  assert (channel_ok (set_calls (<[k := set_status Waiting c]> (calls st)) st)) as Hok'.
  { apply ok_insert_call; [done..|]. intros b [=]. }
  assert (from_call (<[k := set_status Waiting c]> (calls st)) (c_corr c) (c_payload c)) as Hnew.
  { exists k, (set_status Waiting c). split; [|done].
    apply list_lookup_insert_eq. by apply lookup_lt_Some in Hk. }
  assert (is_u64 (c_corr c)) as Hu.
  { rewrite (ok_corr _ Hok _ _ Hk). apply lookup_lt_Some in Hk. unfold small, is_u64 in *. lia. }
  pose proof Hok' as [N C RX P RQ H R B T O]. split; try done; simpl.
  - intros m [Hm|Hm]%elem_of_app; [by apply RQ|]. apply list_elem_of_singleton in Hm as ->. by do 2 eexists.
  - intros Ha. specialize (O Ha). rewrite map_app, <- (app_assoc (map frame_id (to_server st))). simpl. rewrite frame_id_frame by done.
    rewrite <- Permutation_middle. apply NoDup_cons. split; [|exact O].
    intros [Hin|Hin]%elem_of_app; apply list_elem_of_In, in_map_iff in Hin as (m & Hm & Hin%list_elem_of_In).
    + destruct (ok_requests _ Hok m Hin) as (id & p & -> & Hui & Hf).
      rewrite frame_id_frame in Hm by done. by destruct (sent_corr_ne st k c id p Hok Hk Hns (Hf Ha)).
    + destruct m as [[id p] r]. apply (ok_history _ Hok) in Hin as [_ Hf].
      by destruct (sent_corr_ne st k c id p Hok Hk Hns (Hf Ha)).
Qed.

Lemma ok_collect id k rest st :
  channel_ok st -> pending_rx st = (id, k) :: rest -> channel_ok (collect id k rest st).
Proof.
  intros [N C RX P RQ H R B T O] Hrx. split; try done; simpl.
  - intros id' k' Hin. apply RX. rewrite Hrx. by right.
  - intros id' k' [[<- <-]|[_ Hp]]%lookup_insert_Some; [|by apply P]. apply RX. rewrite Hrx. by left.
Qed.

Lemma ok_dispatch msg rest n st :
  channel_ok st -> to_client st = msg :: rest -> channel_ok (dispatch msg rest n st).
Proof.
  intros Hok Hc. destruct (ok_responses _ Hok msg) as (id & p & r & -> & Hin); [rewrite Hc; by left|].
  pose proof (ok_history _ Hok _ _ _ Hin) as [Hu Hfrom].
  unfold dispatch. rewrite frame_not_short, frame_id_frame, drop_frame by done.
  assert (forall m, m ∈ rest -> exists id p r, m = frame id r /\ (id, p, r) ∈ history st) as Hrest.
  { intros m Hm. apply (ok_responses _ Hok). rewrite Hc. by right. }
  destruct (pending st !! id) as [k|] eqn:Hp; [|destruct Hok; by split].
  assert (channel_ok (set_calls (alter (fill_box r) k (calls st)) st)) as [N C RX P RQ H R B T O].
  { apply ok_set_calls; [done|apply calls_continue_alter|by rewrite length_alter|].
    intros i c b Hi Hb. destruct (decide (i = k)) as [->|Hne].
    2: { rewrite list_lookup_alter_ne in Hi by done. destruct Hb as [Hb|Hb];
           [by eapply (ok_box _ Hok)|by eapply (ok_returned _ Hok)]. }
    rewrite list_lookup_alter_eq in Hi. apply fmap_Some in Hi as (c0 & Hi & ->).
    pose proof (ok_pending _ Hok _ _ Hp) as Hid. pose proof (ok_corr _ Hok _ _ Hi) as Hcc.
    destruct (fill_box_cases r c0) as [Hsame|[Hst Hfill]].
    - rewrite Hsame in *. destruct Hb as [Hb|Hb]; [by eapply (ok_box _ Hok)|by eapply (ok_returned _ Hok)].
    - rewrite Hfill in *. simpl in *. destruct Hb as [[= <-]|Hb]; [|by apply Hst in Hb].
      exists p. unfold answers. simpl. rewrite Hcc, <- Hid. split; [done|]. intros Ha.
      destruct (Hfrom Ha) as (j & cj & Hj & _ & Hcj & Hpj).
      rewrite (ok_corr _ Hok _ _ Hj) in Hcj. assert (j = k) as -> by lia. rewrite Hi in Hj. by injection Hj as <-. }
  split; try done; simpl. intros i j [_ Hd]%lookup_delete_Some. by apply P.
Qed.

(** *** A batch *)

Lemma parse_fragments (Q : Z -> list Z -> Prop) fragments :
  (forall m, m ∈ fragments -> exists id p, m = frame id p /\ is_u64 id /\ Q id p) ->
  map fst (omap parse_request fragments) = map frame_id fragments /\
  forall id p, (id, p) ∈ omap parse_request fragments -> Q id p.
Proof.
  induction fragments as [|m fragments IH]; intros Hf; [by split; [|intros id p ?%not_elem_of_nil]|].
  destruct (Hf m) as (id & p & -> & Hu & Hq); [by left|].
  destruct IH as [IH1 IH2]; [intros m Hm; apply Hf; by right|]. cbn [omap list_omap]. rewrite parse_frame by done.
  split; [simpl; by rewrite frame_id_frame, <- IH1|].
  intros i q [[= -> ->]|Hin]%elem_of_cons; [done|by apply IH2].
Qed.

Lemma answered_ids batch responses :
  map fst responses = map fst batch -> entry_ids (answered batch responses) = map fst batch.
Proof.
  revert responses. induction batch as [|b batch IH]; intros [|r responses] Hm; try done.
  injection Hm as Hb Hm. unfold answered, entry_ids in *. simpl. f_equal. by apply IH.
Qed.

Lemma answered_elem batch responses id p r :
  (id, p, r) ∈ answered batch responses -> (id, p) ∈ batch.
Proof.
  revert responses. induction batch as [|[i q] batch IH]; intros [|r' responses] Hin;
    try by apply not_elem_of_nil in Hin.
  unfold answered in Hin. simpl in Hin. apply elem_of_cons in Hin as [[= -> -> ->]|Hin]; [by left|].
  right. by eapply IH.
Qed.

Lemma response_answered batch responses id r :
  map fst responses = map fst batch -> (id, r) ∈ responses -> exists p, (id, p, r) ∈ answered batch responses.
Proof.
  revert responses. induction batch as [|[i q] batch IH]; intros [|[j r'] responses] Hm Hin; try done;
    try by apply not_elem_of_nil in Hin.
  simpl in Hm. injection Hm as -> Hm. apply elem_of_cons in Hin as [[= -> ->]|Hin].
  - exists q. by left.
  - destruct (IH _ Hm Hin) as [p Hp]. exists p. by right.
Qed.

Lemma ok_serve fragments rest st st' :
  channel_ok st -> to_server st = fragments ++ rest ->
  serve_batch process_batch fragments rest st = Some st' -> channel_ok st'.
Proof.
  intros Hok Hto. pose proof Hok as [N C RX P RQ H R B T O].
  destruct (parse_fragments (asked (calls st)) fragments) as [Hids Hfrom].
  { intros m Hm. destruct (RQ m) as (id & p & -> & Hf); [rewrite Hto; apply elem_of_app; by left|].
    exists id, p. split; [done|]. split; [apply Hf|done]. }
  assert (forall m, m ∈ rest -> exists id p, m = frame id p /\ asked (calls st) id p) as Hrest.
  { intros m Hm. apply RQ. rewrite Hto. apply elem_of_app. by right. }
  rewrite Hto, map_app in O. unfold serve_batch.
  destruct (omap parse_request fragments) as [|b batch] eqn:Hb.
  - intros [= <-]. split; try done. simpl in Hids. by rewrite <- Hids in O.
  - rewrite <- Hb in *. destruct (process_batch _ _) as [[responses s']|] eqn:Hp; [|done]. intros [= <-].
    apply batch_ids in Hp. split; try done; simpl.
    + intros id p r [Hin|Hin]%elem_of_app; [by eapply H|]. apply Hfrom. by eapply answered_elem.
    + intros m [Hin|Hin]%elem_of_app.
      * destruct (R m Hin) as (id & p & r & -> & Hh). exists id, p, r. split; [done|].
        apply elem_of_app. by left.
      * apply list_elem_of_fmap in Hin as ([id r] & -> & Hr). apply list_elem_of_filter in Hr as [_ Hr].
        destruct (response_answered _ _ _ _ Hp Hr) as [p Hans]. exists id, p, r. split; [done|].
        apply elem_of_app. by right.
    + intros k c b' Hk Hbox. destruct (B k c b' Hk Hbox) as (p & Hin & Hq). exists p.
      split; [apply elem_of_app; by left|done].
    + intros k c b' Hk Hret. destruct (T k c b' Hk Hret) as (p & Hin & Hq). exists p.
      split; [apply elem_of_app; by left|done].
    + intros Ha. specialize (O Ha). unfold entry_ids in *. rewrite map_app. fold (entry_ids (answered (omap parse_request fragments) responses)).
      rewrite answered_ids, Hids by done.
      rewrite <- app_assoc, (Permutation_app_comm (map frame_id fragments)), <- app_assoc in O. exact O.
Qed.

(** ** Every reachable state *)

Lemma channel_step_length st st' :
  channel_step process_batch alone st st' -> (length (calls st) <= length (calls st'))%nat.
Proof.
  destruct 1; simpl; rewrite ?length_insert, ?length_app; simpl; try lia.
  - unfold dispatch. destruct (_ <? _); [done|]. destruct (_ !! _); [|done]. simpl. by rewrite length_alter.
  - match goal with Hx : serve_batch _ _ _ _ = Some _ |- _ => revert Hx end. unfold serve_batch.
    destruct (omap _ _); [by intros [= <-]|]. destruct (process_batch _ _) as [[]|]; [by intros [= <-]|done].
Qed.

Lemma offer_error_cases position e : offer_error position <> SendError.AeronError e.
Proof. unfold offer_error. repeat case_match; done. Qed.

Lemma channel_step_ok st st' :
  channel_ok st -> small st' -> channel_step process_batch alone st st' -> channel_ok st'.
Proof.
  intros Hok Hs' Hstep. pose proof (channel_step_length _ _ Hstep) as Hlen.
  assert (small st) as Hs by (unfold small in *; lia). clear Hlen.
  destruct Hstep as [payload st|k c st Hk Hst Hcap|k c st Hk Hst|k c position st Hk Hst Hneg|k c bytes st Hk Hst Hb
    |k c st Hk Hst|id k rest st Hp Hrx|st Hp Hrx|msg rest n st Hp Hto|n st Hp|fragments rest st st' Hto Hl Hsv
    |msg before rest st Hto|msg before rest st Hto|id payload st Ha Hid].
  - by apply ok_begin.
  - by apply ok_register.
  - by apply ok_offer.
  - apply ok_insert_call; [done..| |done]. unfold sent. by rewrite Hst.
  - apply ok_insert_call; [done..|]. by intros b [= ->].
  - apply ok_insert_call; done.
  - by apply ok_collect.
  - destruct Hok; by split.
  - by apply ok_dispatch.
  - destruct Hok; by split.
  - by eapply ok_serve.
  - destruct Hok as [N C RX P RQ H R B T O]. split; try done; simpl.
    + intros m Hm. apply RQ. rewrite Hto. apply elem_of_app in Hm as [Hm|Hm]; apply elem_of_app; [by left|right; by right].
    + intros Ha. specialize (O Ha). rewrite Hto, map_app in O. rewrite map_app. simpl in O.
      rewrite <- Permutation_middle in O. by apply NoDup_cons in O as [_ O].
  - destruct Hok as [N C RX P RQ H R B T O]. split; try done; simpl.
    intros m Hm. apply R. rewrite Hto. apply elem_of_app in Hm as [Hm|Hm]; apply elem_of_app; [by left|right; by right].
  - destruct Hok as [N C RX P RQ H R B T O]. split; try done; simpl.
    + intros m [Hm|Hm]%elem_of_app; [by apply RQ|]. apply list_elem_of_singleton in Hm as ->.
      exists id, payload. split; [done|]. split; [done|congruence].
    + congruence.
Qed.

Lemma channel_reachable_ok s st : channel_reachable process_batch alone s st -> small st -> channel_ok st.
Proof.
  unfold channel_reachable. revert st. apply (rtc_ind_r (fun st => small st -> channel_ok st)); [intros; apply channel_new_ok|].
  intros st st' Hr Hstep IH Hs. apply (channel_step_ok st st'); [|done..]. apply IH.
  pose proof (channel_step_length _ _ Hstep). unfold small in *. lia.
Qed.

(** C28: what a caller is given.  Over any interleaving of callers, the
    collecting thread and the server, with any messages lost and any callers
    timed out, a caller that gets a response gets one the server gave to a
    message under the identifier the caller drew.  If the channel is alone on
    its streams, that is the server's response to the caller's own message; no
    message is served twice; and one that Aeron refused is not served. *)
Theorem response_is_the_callers s st k c :
  channel_reachable process_batch alone s st -> small st -> calls st !! k = Some c ->
  (forall b, c_status c = Returned (inr b) -> exists p, (c_corr c, p, b) ∈ history st /\ (alone = true -> p = c_payload c)) /\
  (alone = true ->
   (forall b b', (c_corr c, c_payload c, b) ∈ history st -> (c_corr c, c_payload c, b') ∈ history st -> b = b') /\
   NoDup (entry_ids (history st)) /\
   (forall e p r, c_status c = Returned (inl e) -> (forall x, e <> SendError.AeronError x) ->
      (c_corr c, p, r) ∉ history st)).
Proof.
  intros Hr Hs Hk. pose proof (channel_reachable_ok _ _ Hr Hs) as Hok.
  split; [intros b Hb; by apply (ok_returned _ Hok k)|]. intros Ha.
  assert (NoDup (entry_ids (history st))) as Hnd
    by (pose proof (ok_once _ Hok Ha) as Ho; by apply NoDup_app in Ho as (_ & _ & ?)).
  split; [|split; [done|]].
  - intros b b' Hb Hb'. apply list_elem_of_lookup in Hb as [i Hi]. apply list_elem_of_lookup in Hb' as [j Hj].
    assert (i = j) as ->; [|congruence].
    eapply NoDup_lookup; [exact Hnd|unfold entry_ids; by rewrite list_lookup_fmap, Hi|].
    unfold entry_ids. by rewrite list_lookup_fmap, Hj.
  - intros e p r Hst He Hin. destruct (ok_history _ Hok _ _ _ Hin) as [_ Hf]. destruct (Hf Ha) as (i & c' & Hi & Hsent & Hc & _).
    rewrite (ok_corr _ Hok _ _ Hi), (ok_corr _ Hok _ _ Hk) in Hc. assert (i = k) as -> by lia.
    rewrite Hk in Hi. injection Hi as <-. unfold sent in Hsent. rewrite Hst in Hsent.
    destruct e; try done. by eapply He.
Qed.

(** ** A response that nobody will get *)

Section given_up.
Hypothesis is_alone : alone = true.

(** Neither the message of the call nor its response is on the way, and its
    box is empty. *)
Definition given_up (k : nat) (st : Channel Srv) : Prop :=
  exists c, calls st !! k = Some c /\ sent c /\ c_box c = None /\ (forall b, c_status c <> Returned (inr b)) /\
    (c_corr c ∉ map frame_id (to_server st)) /\ (c_corr c ∉ map frame_id (to_client st)).

Lemma response_frames_ids responses :
  (forall r, r ∈ responses -> is_u64 r.1) ->
  forall id, id ∈ map frame_id (response_frames responses) -> id ∈ map fst responses.
Proof.
  intros Hu id (m & <- & Hm%list_elem_of_In)%list_elem_of_In%in_map_iff.
  apply list_elem_of_fmap in Hm as (r & -> & Hr%list_elem_of_filter). destruct Hr as [_ Hr].
  rewrite frame_id_frame by by apply Hu. apply list_elem_of_In, in_map_iff. exists r. by rewrite <- list_elem_of_In.
Qed.

(** A step on another call. *)
Lemma given_up_insert k j cj x st st' :
  given_up k st -> calls st !! j = Some cj -> j <> k -> calls st' = <[j := x]> (calls st) ->
  (forall id, id ∈ map frame_id (to_server st') -> id ∈ map frame_id (to_server st) \/ id = 1 + Z.of_nat j) ->
  to_client st' = to_client st -> channel_ok st -> given_up k st'.
Proof.
  intros (c & Hk & Hsent & Hbox & Hret & Hsrv & Hcli) Hj Hne Hcalls Hto Hcl Hok. exists c.
  rewrite Hcalls, list_lookup_insert_ne, Hcl by done. split_and!; try done.
  intros [Hin|Hid]%Hto; [done|]. rewrite (ok_corr _ Hok _ _ Hk) in Hid. lia.
Qed.

Lemma given_up_step k st st' :
  channel_ok st -> small st -> channel_step process_batch alone st st' -> given_up k st -> given_up k st'.
Proof.
  intros Hok Hs Hstep Hg. pose proof Hg as (c & Hk & Hsent & Hbox & Hret & Hsrv & Hcli).
  destruct Hstep as [payload st|j cj st Hj Hst Hcap|j cj st Hj Hst|j cj position st Hj Hst Hneg|j cj bytes st Hj Hst Hb
    |j cj st Hj Hst|id j rest st Hp Hrx|st Hp Hrx|msg rest n st Hp Hto|n st Hp|fragments rest st st' Hto Hl Hsv
    |msg before rest st Hto|msg before rest st Hto|id payload st Ha Hid]; try (by exists c).
  - exists c. split_and!; try done. simpl. by apply lookup_app_l_Some.
  - eapply (given_up_insert k j cj); try done; [|by intros; left]. intros ->. rewrite Hk in Hj. injection Hj as <-.
    unfold sent in Hsent. by rewrite Hst in Hsent.
  - eapply (given_up_insert k j cj); try done.
    + intros ->. rewrite Hk in Hj. injection Hj as <-. unfold sent in Hsent. by rewrite Hst in Hsent.
    + simpl. intros id Hin. rewrite map_app in Hin. apply elem_of_app in Hin as [Hin|Hin]; [by left|right].
      apply list_elem_of_singleton in Hin as ->. pose proof (ok_corr _ Hok _ _ Hj) as Hc.
      rewrite frame_id_frame; [done|]. apply lookup_lt_Some in Hj. unfold small, is_u64 in *. lia.
  - eapply (given_up_insert k j cj); try done; [|by intros; left]. intros ->. rewrite Hk in Hj. injection Hj as <-.
    unfold sent in Hsent. by rewrite Hst in Hsent.
  - eapply (given_up_insert k j cj); try done; [|by intros; left]. intros ->. rewrite Hk in Hj. injection Hj as <-. congruence.
  - destruct (decide (j = k)) as [->|Hne]; [|by eapply (given_up_insert k j cj); try done; intros; left].
    rewrite Hk in Hj. injection Hj as <-. exists (set_status (Returned (inl (SendError.AeronError "Timeout"))) c).
    split_and!; try done. apply list_lookup_insert_eq. by apply lookup_lt_Some in Hk.
  - exists c. unfold dispatch. destruct (ok_responses _ Hok msg) as (id & p & r & -> & Hin); [rewrite Hto; by left|].
    pose proof (ok_history _ Hok _ _ _ Hin) as [Hu _].
    rewrite frame_not_short, frame_id_frame by done. rewrite Hto in Hcli. simpl in Hcli.
    rewrite frame_id_frame in Hcli by done. apply not_elem_of_cons in Hcli as [Hne Hcli].
    destruct (pending st !! id) as [j|] eqn:Hp'; [|by split_and!]. split_and!; try done. simpl.
    rewrite list_lookup_alter_ne; [done|]. intros ->. apply Hne.
    by rewrite (ok_corr _ Hok _ _ Hk), (ok_pending _ Hok _ _ Hp').
  - assert (forall m, m ∈ fragments -> exists id p, m = frame id p /\ is_u64 id /\ True) as Hfr.
    { intros m Hm. destruct (ok_requests _ Hok m) as (id & p & -> & Hf); [rewrite Hto; apply elem_of_app; by left|].
      exists id, p. split; [done|]. split; [apply Hf|done]. }
    destruct (parse_fragments _ fragments Hfr) as [Hids _].
    rewrite Hto, map_app in Hsrv. apply not_elem_of_app in Hsrv as [Hnf Hnr]. revert Hsv. unfold serve_batch.
    destruct (omap parse_request fragments) as [|b batch] eqn:Hb; [intros [= <-]; by exists c|]. rewrite <- Hb in *.
    destruct (process_batch _ _) as [[responses s']|] eqn:Hpb; [|done]. intros [= <-]. exists c. simpl.
    split_and!; try done. rewrite map_app. apply not_elem_of_app. split; [done|]. apply batch_ids in Hpb.
    intros Hin. apply Hnf. rewrite <- Hids, <- Hpb. apply response_frames_ids; [|done].
    intros r Hr. assert (r.1 ∈ map frame_id fragments) as Hf.
    { rewrite <- Hids, <- Hpb. apply list_elem_of_In, in_map. by apply list_elem_of_In. }
    apply list_elem_of_In, in_map_iff in Hf as (m & <- & Hm%list_elem_of_In).
    destruct (Hfr m Hm) as (id & p & -> & Hu & _). by rewrite frame_id_frame.
  - exists c. split_and!; try done. simpl. rewrite Hto, map_app in Hsrv. rewrite map_app. set_solver.
  - exists c. split_and!; try done. simpl. rewrite Hto, map_app in Hcli. rewrite map_app. set_solver.
  - congruence.
Qed.

Lemma given_up_forever k st st' :
  channel_ok st -> rtc (channel_step process_batch alone) st st' -> small st' -> given_up k st -> given_up k st'.
Proof.
  intros Hok Hr Hs Hg. assert (channel_ok st' /\ given_up k st'); [|naive_solver]. revert Hs.
  revert st' Hr. apply (rtc_ind_r (fun st' => small st' -> channel_ok st' /\ given_up k st')); [done|].
  intros st1 st2 Hr Hstep IH Hs. pose proof (channel_step_length _ _ Hstep) as Hlen.
  assert (small st1) as Hs1 by (unfold small in *; lia). destruct (IH Hs1) as [Hok1 Hg1].
  split; [by eapply channel_step_ok|by eapply given_up_step].
Qed.

(** The registration is sent before the message, but the thread may be in
    the middle of a poll when both arrive: then the server's response is
    dispatched before the registration is collected, and thrown away.  The
    request has been served, and whatever happens afterwards the caller is
    never given the response: it can only time out. *)
Theorem response_overtakes_registration s payload r s' :
  process_batch [(1, payload)] s = Some ([(1, r)], s') -> r <> [] ->
  exists st, channel_reachable process_batch alone s st /\ server st = s' /\ history st = [(1, payload, r)] /\
    forall st', rtc (channel_step process_batch alone) st st' -> small st' ->
      exists c, calls st' !! 0%nat = Some c /\ forall b, c_status c <> Returned (inr b).
Proof.
  intros Hp Hr. set (c := mkCall 1 payload Numbered None).
  set (st1 := begin_call payload (set_polling POLL_LIMIT (channel_new s))).
  set (st2 := register 0 c st1). set (c2 := set_status Registered c).
  set (st3 := offer 0 c2 st2).
  assert (omap parse_request [frame 1 payload] = [(1, payload)]) as Hparse.
  { cbn [omap list_omap]. by rewrite parse_frame. }
  set (st4 := mkChannel 2 [set_status Waiting c] [(1, 0%nat)] ∅ POLL_LIMIT [] [frame 1 r] s' [(1, payload, r)]).
  assert (serve_batch process_batch [frame 1 payload] [] st3 = Some st4) as Hserve.
  { unfold serve_batch. rewrite Hparse. cbn [server st3 offer st2 register st1 begin_call set_polling channel_new].
    rewrite Hp. unfold st4, response_frames. rewrite filter_cons_True, filter_nil by done. done. }
  set (st5 := dispatch (frame 1 r) [] 99 st4).
  assert (channel_reachable process_batch alone s st5) as Hreach.
  { eapply rtc_l; [by apply step_poll|].
    eapply rtc_l; [apply (step_begin _ _ payload)|].
    eapply rtc_l; [apply (step_register _ _ 0 c st1); [done|done|simpl; unfold PENDING_CAPACITY; lia]|].
    eapply rtc_l; [apply (step_offer _ _ 0 c2 st2); done|].
    eapply rtc_l; [apply (step_serve _ _ [frame 1 payload] [] st3 st4); [done|simpl; unfold POLL_LIMIT; lia|done]|].
    apply rtc_once. by apply step_fragment. }
  assert (st5 = mkChannel 2 [set_status Waiting c] [(1, 0%nat)] ∅ 99 [] [] s' [(1, payload, r)]) as Hst5.
  { unfold st5, dispatch. rewrite frame_not_short, frame_id_frame by done. done. }
  exists st5. split; [done|]. rewrite Hst5. split; [done|]. split; [done|]. rewrite <- Hst5.
  intros st' Hrtc Hs'.
  assert (small st5) as Hs5 by (rewrite Hst5; by vm_compute).
  assert (given_up 0 st') as (c' & Hc' & _ & _ & Hb & _); [|by exists c'].
  eapply given_up_forever; [by apply (channel_reachable_ok s)|done..|].
  rewrite Hst5. exists (set_status Waiting c). split_and!; try done; by apply not_elem_of_nil.
Qed.
End given_up.

(** Among other channels a caller may be given the response to a stranger's
    request: the counters of all channels start at 1, the streams are shared,
    and a response is handed to whoever waits under its identifier.  Here the
    first call of this channel returns with the server's answer to the first
    request of another one, and its own message has not been served. *)
Theorem foreign_response_delivered s own foreign r s' :
  alone = false -> process_batch [(1, foreign)] s = Some ([(1, r)], s') -> r <> [] ->
  exists st c, channel_reachable process_batch alone s st /\ calls st !! 0%nat = Some c /\
    c_payload c = own /\ c_status c = Returned (inr r) /\
    history st = [(1, foreign, r)] /\ to_server st = [frame 1 own].
Proof.
  intros Ha Hp Hr. set (c := mkCall 1 own Numbered None). set (c1 := set_status Registered c).
  set (c2 := set_status Waiting c). set (c3 := mkCall 1 own Waiting (Some r)).
  set (st0 := mkChannel 1 [] [] ∅ 0 [frame 1 foreign] [] s []).
  set (st1 := begin_call own st0). set (st2 := register 0 c st1). set (st3 := collect 1 0 [] st2).
  set (st4 := offer 0 c1 st3).
  set (st5 := mkChannel 2 [c2] [] {[1 := 0%nat]} 0 [frame 1 own] [frame 1 r] s' [(1, foreign, r)]).
  set (st6 := set_polling POLL_LIMIT st5). set (st7 := dispatch (frame 1 r) [] 99 st6).
  assert (serve_batch process_batch [frame 1 foreign] [frame 1 own] st4 = Some st5) as Hserve.
  { unfold serve_batch. cbn [omap list_omap]. rewrite parse_frame by done.
    cbn [server st4 offer st3 collect st2 register st1 begin_call st0]. rewrite Hp.
    unfold response_frames. rewrite filter_cons_True, filter_nil by done. done. }
  assert (st7 = mkChannel 2 [c3] [] ∅ 99 [frame 1 own] [] s' [(1, foreign, r)]) as Hst7.
  { unfold st7, dispatch. rewrite frame_not_short, frame_id_frame, drop_frame by done.
    cbn [st6 set_polling st5 pending]. rewrite lookup_singleton_eq. done. }
  exists (finish 0 c3 (inr r) st7), (set_status (Returned (inr r)) c3).
  split; [|rewrite Hst7; by split_and!].
  eapply rtc_l; [by apply (step_foreign _ _ 1 foreign)|]. change (rtc (channel_step process_batch alone) st0 (finish 0 c3 (inr r) st7)).
  eapply rtc_l; [apply (step_begin _ _ own)|].
  eapply rtc_l; [apply (step_register _ _ 0 c st1); [done|done|simpl; unfold PENDING_CAPACITY; lia]|].
  eapply rtc_l; [by apply (step_collect _ _ 1 0 [] st2)|].
  eapply rtc_l; [by apply (step_offer _ _ 0 c1 st3)|].
  eapply rtc_l; [apply (step_serve _ _ [frame 1 foreign] [frame 1 own] st4 st5); [done|simpl; unfold POLL_LIMIT; lia|done]|].
  eapply rtc_l; [by apply step_poll|].
  eapply rtc_l; [by apply (step_fragment _ _ (frame 1 r) [] 99 st6)|].
  apply rtc_once. apply step_receive; [by rewrite Hst7|done|done].
Qed.
End invariant.
