(* ===== verification/UbsClient.v ===== *)
(** * Clients of the balance authority

    The gateway's client ([ubs_core/comm/gateway_client.rs]) builds a message,
    sends it over a channel and parses the response; the adapter that internal
    transfers use in production ([transfer/adapters/trading.rs],
    [UbsTradingAdapter]) is one of its callers.  [Deployment] is the transfer
    coordinator with the adapters it holds. *)

From S2P Require Import Prelude Bytes UbsParts UbsCore UbsComm Transfer TransferAdapters AeronChannel.

#[local] Open Scope string_scope.
#[local] Open Scope list_scope.
#[local] Open Scope Z_scope.

(** [AeronChannel::send_and_receive]; the state is the channel and whatever is
    behind it. *)
Class RequestChannel (S : Type) :=
  send_and_receive : forall (payload : list Z) (timeout_ms : Z), S -> (SendError.t + list Z) * S.

Section client.
Context {S : Type} `{RequestChannel S} `{Padding}.

(** What every method does with the bytes that come back. *)
Definition parse_response (r : SendError.t + list Z) : SendError.t + Wire.ResponseMessage :=
  match r with
  | inl e => inl e
  | inr response_bytes =>
      match parse_message response_bytes with
      | None => inl (SendError.AeronError "Empty response")
      | Some (_, resp_body) =>
          match response_from_bytes resp_body with
          | None => inl (SendError.AeronError "Invalid response format")
          | Some m => inr m
          end
      end
  end.

Definition exchange (payload : list Z) (timeout_ms : Z) (s : S) : (SendError.t + Wire.ResponseMessage) * S :=
  let '(r, s') := send_and_receive payload timeout_ms s in (parse_response r, s').

Definition send_order (order : InternalOrder) : Z -> S -> (SendError.t + Wire.ResponseMessage) * S :=
  exchange (build_message MsgType.Order (order_to_bytes (from_order order))).

Definition send_cancel (user_id order_id : Z) : Z -> S -> (SendError.t + Wire.ResponseMessage) * S :=
  exchange (MsgType.code MsgType.Cancel :: le_bytes 8 user_id ++ le_bytes 8 order_id).

Definition send_raw (payload : list Z) (timeout_ms : Z) (s : S) : (SendError.t + list Z) * S :=
  send_and_receive payload timeout_ms s.

Definition send_deposit (tx_id user_id asset_id amount : Z)
  : Z -> S -> (SendError.t + Wire.ResponseMessage) * S :=
  exchange (build_message MsgType.Deposit (funds_to_bytes (Wire.mkFunds tx_id user_id asset_id amount))).

Definition send_withdraw (tx_id user_id asset_id amount : Z)
  : Z -> S -> (SendError.t + Wire.ResponseMessage) * S :=
  exchange (build_message MsgType.Withdraw (funds_to_bytes (Wire.mkFunds tx_id user_id asset_id amount))).

(** ** The adapter of internal transfers *)

Definition reason_text (code : Z) : string :=
  if code =? 1 then "insufficient balance"
  else if code =? 7 then "account not found"
  else "unknown error".

(** The verdict on a response, or on its absence. *)
Definition verdict (r : SendError.t + Wire.ResponseMessage) : OpResult.t :=
  match r with
  | inr resp =>
      if is_accepted resp then OpResult.Success
      else OpResult.Failed (("UBSCore rejected: " ++ reason_text (Wire.reason_code resp))%string)
  | inl _ => OpResult.Pending
  end.

Definition DEFAULT_TIMEOUT_MS : Z := 5000.

Definition ubs_withdraw (req_id user_id asset_id amount : Z) (s : S) : OpResult.t * S :=
  let '(r, s') := send_withdraw req_id user_id asset_id amount DEFAULT_TIMEOUT_MS s in (verdict r, s').

Definition ubs_deposit (req_id user_id asset_id amount : Z) (s : S) : OpResult.t * S :=
  let '(r, s') := send_deposit req_id user_id asset_id amount DEFAULT_TIMEOUT_MS s in (verdict r, s').

Definition ubs_commit (req_id : Z) (s : S) : OpResult.t * S := (OpResult.Success, s).

Definition ubs_rollback (req_id : Z) (s : S) : OpResult.t * S :=
  (OpResult.Failed "FORBIDDEN: UBSCore operations are final and cannot be rolled back", s).

Definition ubs_trading_adapter : ServiceAdapter S := {|
  withdraw := ubs_withdraw; deposit := ubs_deposit; commit := ubs_commit; rollback := ubs_rollback;
  query := fun _ s => (OpResult.Pending, s); adapter_name := "trading-ubs"
|}.
End client.

(** ** The coordinator with its adapters *)

Section deployment.
Context {F T : Type} (funding_adapter : ServiceAdapter F) (trading_adapter : ServiceAdapter T).

(** The table of transfers, the two services, the clock. *)
Record Deployment := mkDeployment { transfers : gmap Z TransferRecord; funding : F; trading : T; wall_ms : Z }.

Definition set_transfers (t : gmap Z TransferRecord) (d : Deployment) : Deployment :=
  mkDeployment t (funding d) (trading d) (wall_ms d).

(** [get_adapter(service)], and the call on what it answers. *)
Definition on_adapter (s : ServiceId) (f : forall X, ServiceAdapter X -> X -> OpResult.t * X) (d : Deployment)
  : OpResult.t * Deployment :=
  match s with
  | Funding =>
      let '(x, f') := f F funding_adapter (funding d) in
      (x, mkDeployment (transfers d) f' (trading d) (wall_ms d))
  | Trading =>
      let '(x, t') := f T trading_adapter (trading d) in
      (x, mkDeployment (transfers d) (funding d) t' (wall_ms d))
  end.

(** A conditional update that is answered. *)
Definition update_if (id : Z) (old new : TransferState.t) (err : option string -> option string) (d : Deployment)
  : (string + bool) * Deployment :=
  match transfers d !! id with
  | Some r =>
      if decide (t_state r = old) then
        (inr true, set_transfers
           (<[id := mkTransfer (req_id r) (source r) (target r) (t_user_id r) (t_asset_id r) (t_amount r) new
                      (created_at r) (wall_ms d) (err (t_error r)) (retry_count r)]> (transfers d)) d)
      else (inr false, d)
  | None => (inr false, d)
  end.

Definition perform {X} (o : op X) (d : Deployment) : X * Deployment :=
  match o in op X return X * Deployment with
  | DbCreate r => (inr tt, set_transfers (<[req_id r := r]> (transfers d)) d)
  | DbGet id => (inr (transfers d !! id), d)
  | DbUpdateStateIf id old new => update_if id old new (fun e => e) d
  | DbUpdateStateWithError id old new e => update_if id old new (fun _ => Some e) d
  | DbIncrementRetry _ => (inl retry_refused, d)
  | Withdraw s id u a n => on_adapter s (fun X A => withdraw id u a n) d
  | Deposit s id u a n => on_adapter s (fun X A => deposit id u a n) d
  | Commit s id => on_adapter s (fun X A => commit id) d
  | Rollback s id => on_adapter s (fun X A => rollback id) d
  | Now => (wall_ms d, d)
  end.

(** One worker, undisturbed. *)
Fixpoint run_prog {A} (p : prog A) (d : Deployment) : (string + A) * Deployment :=
  match p with
  | Ret a => (inr a, d)
  | Fail e => (inl e, d)
  | Do o k => let '(x, d') := perform o d in run_prog (k x) d'
  end.
End deployment.
Arguments Deployment F T : clear implicits.
Arguments mkDeployment {F T}.
Arguments transfers {F T}.
Arguments funding {F T}.
Arguments trading {F T}.
Arguments wall_ms {F T}.
