(* ===== verification/UbsClientProofs.v ===== *)
(** * Transfers into the trading account, end to end

    The coordinator, the adapter, the client, the wire format, the handler and
    the balance authority together.  A response that is lost makes the
    coordinator repeat the deposit, and the balance authority credits it
    again. *)

From S2P Require Import Prelude Bytes Balance UserAccount UbsParts WalRecord UbsWal UbsCore UbsCoreProofs UbsComm UbsCommProofs Transfer TransferAdapters AeronChannel UbsClient.

#[local] Open Scope string_scope.
#[local] Open Scope list_scope.
#[local] Open Scope Z_scope.

Section link.
Context {bp : BuildProfile} `{Crc32} {codec : OrderCodec} `{PaddingLaws} `{CancelCodec}.

(** ** One caller and the balance authority

    The network delivers a request and its response, loses the response, or
    loses the request; after the script, everything arrives. *)

Inductive fate := Delivered | ResponseLost | RequestLost.

Record Link := mkLink { peer : Handler; fates : list fate; ticks : Z }.

Definition timed_out : SendError.t + list Z := inl (SendError.AeronError "Timeout").

(** The request is a batch of its own. *)
Definition serve_one (payload : list Z) (answered : bool) (rest : list fate) (l : Link)
  : (SendError.t + list Z) * Link :=
  match process_batch [mkReq 1 payload (ticks l)] (peer l) with
  | Ok [(_, response)] h =>
      ((if answered then inr response else timed_out), mkLink h rest (ticks l + 1))
  | _ => (timed_out, mkLink (peer l) rest (ticks l + 1))
  end.

#[local] Instance link_channel : RequestChannel Link := fun payload _ l =>
  match fates l with
  | RequestLost :: rest => (timed_out, mkLink (peer l) rest (ticks l + 1))
  | ResponseLost :: rest => serve_one payload false rest l
  | Delivered :: rest => serve_one payload true rest l
  | [] => serve_one payload true [] l
  end.

(** ** One deposit *)

Lemma batch_of_deposit m i clock h :
  process_batch [mkReq i (deposit_message m) clock] h =
  match on_message (deposit_message m) clock h with
  | Ok r h' => Ok [(i, r)] h'
  | Err e h' => Err e h'
  | Panic => Panic
  end.
Proof.
  unfold process_batch, on_message, deposit_message. simpl phase1. unfold process_no_flush. simpl.
  unfold bind, respond. destruct (handle_deposit _ h); done.
Qed.

Definition can_credit (user asset total : Z) (c : UBSCore) : Prop :=
  map_Forall (fun _ r => 0 < debt_amount r) (debt_ledger c) /\ avail (bal_of (accounts c) user asset) + total <= u64_max.

(** A deposit that reaches the balance authority: acknowledged if the response
    arrives, credited anyway. *)
Lemma deposit_delivered id user asset amount total answered rest l :
  is_u64 id -> is_u64 user -> 0 <= asset < 256 ^ 4 -> is_u64 amount -> amount <= total ->
  can_credit user asset total (ubs_core (peer l)) ->
  exists h, serve_one (deposit_message (Wire.mkFunds id user asset amount)) answered rest l =
      ((if answered then inr (accept_response user) else timed_out), mkLink h rest (ticks l + 1)) /\
    can_credit user asset (total - amount) (ubs_core h) /\
    net_position (ubs_core h) user asset = net_position (ubs_core (peer l)) user asset + amount.
Proof.
  intros Hid Hu Ha Hx Ht [Hd Hmax]. pose proof Hx as [Hx0 _].
  set (m := Wire.mkFunds id user asset amount).
  assert (funds_in_range m) as Hm.
  { unfold funds_in_range. simpl. auto. }
  assert (0 <= debt_of (ubs_core (peer l)) user asset) as Hdebt by by apply debt_of_nonneg.
  destruct (on_deposit_exact (E := list Z) user asset amount id (ubs_core (peer l))) as (c & Hc & Hd' & Hdebt' & Hnet);
    [lia|done|lia|].
  specialize (Hnet user asset). rewrite !Z.eqb_refl in Hnet. simpl in Hnet.
  eexists. split; [unfold serve_one; rewrite batch_of_deposit, deposit_message_eq by done; simpl; by rewrite Hc|].
  split; [|done]. split; [done|]. unfold net_position in Hnet. simpl in *. lia.
Qed.

Lemma accepted_verdict user : is_u64 user -> verdict (parse_response (inr (accept_response user))) = OpResult.Success.
Proof.
  intros Hu. unfold accept_response, parse_response. rewrite parse_build, response_bytes_roundtrip; [done|done|simpl; lia..].
Qed.

(** ** The coordinator *)

Context {F : Type} (funding_adapter : ServiceAdapter F).

Abbreviation run := (run_prog funding_adapter ubs_trading_adapter).

Section transfer.
Context (id user asset amount : Z).
Hypothesis id_range : is_u64 id.
Hypothesis user_range : is_u64 user.
Hypothesis asset_range : 0 <= asset < 256 ^ 4.
Hypothesis amount_range : is_u64 amount.

(** The transfer [id] credits the trading account and is in state [s]. *)
Definition to_trading (s : TransferState.t) (d : Deployment F Link) : Prop :=
  exists r, transfers d !! id = Some r /\ req_id r = id /\ source r = Funding /\ target r = Trading /\
    t_user_id r = user /\ t_asset_id r = asset /\ t_amount r = amount /\ t_state r = s.

Definition core_of (d : Deployment F Link) : UBSCore := ubs_core (peer (trading d)).

(** The deposit as the coordinator sees it. *)
Lemma deposit_call (answered : bool) rest total d :
  amount <= total -> can_credit user asset total (core_of d) ->
  (fates (trading d) = (if answered then Delivered else ResponseLost) :: rest) ->
  exists l, ubs_deposit id user asset amount (trading d) = ((if answered then OpResult.Success else OpResult.Pending), l) /\
    fates l = rest /\ can_credit user asset (total - amount) (ubs_core (peer l)) /\
    net_position (ubs_core (peer l)) user asset = net_position (core_of d) user asset + amount.
Proof.
  intros Ht Hc Hf. unfold ubs_deposit, send_deposit, exchange, send_and_receive, link_channel. rewrite Hf.
  destruct (deposit_delivered id user asset amount total answered rest (trading d)) as (h & Hs & Hc' & Hn); [done..|].
  exists (mkLink h rest (ticks (trading d) + 1)). split; [|done].
  unfold deposit_message in Hs. destruct answered; rewrite Hs; [by rewrite accepted_verdict|done].
Qed.

(** The first turn, whose response is lost: the transfer waits for the target. *)
Lemma first_step_lost rest total d :
  to_trading TransferState.SourceDone d ->
  amount <= total -> can_credit user asset total (core_of d) -> fates (trading d) = ResponseLost :: rest ->
  exists d', run (step id) d = (inr TransferState.TargetPending, d') /\ to_trading TransferState.TargetPending d' /\
    fates (trading d') = rest /\ can_credit user asset (total - amount) (core_of d') /\
    net_position (core_of d') user asset = net_position (core_of d) user asset + amount.
Proof.
  intros (r & Hr & Hid & Hsrc & Htgt & Hu & Ha & Hn & Hst) Ht Hc Hf.
  destruct r as [ri rs rt ru ra rn rst rc rup re rr]. cbn [req_id source target t_user_id t_asset_id t_amount t_state] in *. subst.
  cbn. rewrite Hr. cbn. unfold update_if. rewrite Hr. cbn. rewrite decide_True by done. cbn.
  destruct (deposit_call false rest total d) as (l & -> & Hl & Hc' & Hnet); [done..|].
  cbn. eexists. split; [done|]. split; [|done]. eexists. split; [apply lookup_insert_eq|]. done.
Qed.

(** A later turn whose response is lost: the turn made no progress and fails on
    the retry counter; nothing seems to have happened. *)
Lemma step_lost rest total d :
  to_trading TransferState.TargetPending d ->
  amount <= total -> can_credit user asset total (core_of d) -> fates (trading d) = ResponseLost :: rest ->
  exists d', run (step id) d = (inl retry_refused, d') /\ to_trading TransferState.TargetPending d' /\
    fates (trading d') = rest /\ can_credit user asset (total - amount) (core_of d') /\
    net_position (core_of d') user asset = net_position (core_of d) user asset + amount.
Proof.
  intros (r & Hr & Hid & Hsrc & Htgt & Hu & Ha & Hn & Hst) Ht Hc Hf.
  destruct r as [ri rs rt ru ra rn rst rc rup re rr]. cbn [req_id source target t_user_id t_asset_id t_amount t_state] in *. subst.
  cbn. rewrite Hr. cbn.
  destruct (deposit_call false rest total d) as (l & -> & Hl & Hc' & Hnet); [done..|].
  cbn. rewrite bool_decide_true by done. cbn. eexists. split; [done|]. split; [|done]. by eexists.
Qed.

(** One turn whose response arrives: the transfer is committed. *)
Lemma step_delivered s rest total d :
  s = TransferState.SourceDone \/ s = TransferState.TargetPending -> to_trading s d ->
  amount <= total -> can_credit user asset total (core_of d) -> fates (trading d) = Delivered :: rest ->
  exists d', run (step id) d = (inr TransferState.Committed, d') /\ to_trading TransferState.Committed d' /\
    net_position (core_of d') user asset = net_position (core_of d) user asset + amount.
Proof.
  intros Hs (r & Hr & Hid & Hsrc & Htgt & Hu & Ha & Hn & Hst) Ht Hc Hf.
  destruct r as [ri rs rt ru ra rn rst rc rup re rr]. cbn [req_id source target t_user_id t_asset_id t_amount t_state] in *. subst.
  destruct Hs as [->| ->]; cbn.
  - rewrite Hr. cbn. unfold update_if at 1. rewrite Hr. cbn. rewrite decide_True by done. cbn.
    destruct (deposit_call true rest total d) as (l & -> & Hl & Hc' & Hnet); [done..|].
    cbn. destruct (commit id (funding d)) as [x f']. cbn. unfold update_if. cbn. rewrite lookup_insert_eq. cbn. rewrite decide_True by done. cbn.
    eexists. split; [done|]. split; [|done]. eexists. split; [apply lookup_insert_eq|]. done.
  - rewrite Hr. cbn.
    destruct (deposit_call true rest total d) as (l & -> & Hl & Hc' & Hnet); [done..|].
    cbn. destruct (commit id (funding d)) as [x f']. cbn. unfold update_if. cbn. rewrite Hr. cbn. rewrite decide_True by done. cbn.
    eexists. split; [done|]. split; [|done]. eexists. split; [apply lookup_insert_eq|]. done.
Qed.

Lemma deployed_pcatch {A B} (p : prog A) (f : A -> prog B) g d :
  run (pcatch p f g) d = match run p d with (inr a, d') => run (f a) d' | (inl _, d') => run g d' end.
Proof.
  revert d. induction p as [x|e|X o k IH]; intros d; cbn; [done|done|].
  destruct (perform _ _ o d) as [x d1]. apply IH.
Qed.

(** *** Being taken up

    The worker takes the transfer up [rounds] times, from its queue or when the
    scan finds it stale; [None] if one of them does not end. *)
Fixpoint taken_up (rounds fuel : nat) (d : Deployment F Link) : option (Deployment F Link) :=
  match rounds with
  | O => Some d
  | S rounds' =>
      match run (process_transfer fuel id) d with
      | (inr (Some tt), d') => taken_up rounds' fuel d'
      | _ => None
      end
  end.

(** The transfer is committed and [n] times the amount has arrived. *)
Definition arrived (n : Z) (d d' : Deployment F Link) : Prop :=
  to_trading TransferState.Committed d' /\
  net_position (core_of d') user asset = net_position (core_of d) user asset + n * amount.

Lemma committed_round fuel d :
  to_trading TransferState.Committed d -> run (process_transfer (S fuel) id) d = (inr (Some tt), d).
Proof.
  intros (r & Hr & _ & _ & _ & _ & _ & _ & Hs). cbn [process_transfer]. rewrite deployed_pcatch. cbn.
  rewrite Hr. cbn. by rewrite Hs.
Qed.

Lemma committed_stays rounds fuel d :
  to_trading TransferState.Committed d -> taken_up rounds (S fuel) d = Some d.
Proof.
  intros Hd. induction rounds as [|rounds IH]; [done|]. cbn [taken_up]. by rewrite committed_round.
Qed.

(** One round that finds the transfer waiting for the target. *)
Lemma pending_round k fuel rest total d :
  to_trading TransferState.TargetPending d ->
  Z.of_nat (S k) * amount <= total -> can_credit user asset total (core_of d) ->
  fates (trading d) = replicate k ResponseLost ++ Delivered :: rest ->
  exists d', run (process_transfer (S fuel) id) d = (inr (Some tt), d') /\
    match k with
    | O => arrived 1 d d'
    | S k' => to_trading TransferState.TargetPending d' /\ can_credit user asset (total - amount) (core_of d') /\
        fates (trading d') = replicate k' ResponseLost ++ Delivered :: rest /\
        net_position (core_of d') user asset = net_position (core_of d) user asset + amount
    end.
Proof.
  unfold is_u64 in amount_range. intros Hd Ht Hc Hf. cbn [process_transfer]. destruct k as [|k]; cbn [replicate app] in Hf.
  - destruct (step_delivered TransferState.TargetPending rest total d) as (d' & Hrun & Hd' & Hn); [by right|done|lia|done|done|].
    exists d'. rewrite deployed_pcatch, Hrun. split; [done|]. split; [done|lia].
  - destruct (step_lost (replicate k ResponseLost ++ Delivered :: rest) total d) as (d' & Hrun & Hd' & Hf' & Hc' & Hn);
      [done|nia|done|done|].
    exists d'. by rewrite deployed_pcatch, Hrun.
Qed.

Lemma pending_rounds fuel k : forall rounds rest total d,
  to_trading TransferState.TargetPending d -> (k < rounds)%nat ->
  Z.of_nat (S k) * amount <= total -> can_credit user asset total (core_of d) ->
  fates (trading d) = replicate k ResponseLost ++ Delivered :: rest ->
  exists d', taken_up rounds (S fuel) d = Some d' /\ arrived (Z.of_nat (S k)) d d'.
Proof.
  unfold is_u64 in amount_range.
  induction k as [|k IH]; intros [|rounds] rest total d Hd Hk Ht Hc Hf; [lia| |lia|];
    destruct (pending_round _ fuel rest total d Hd Ht Hc Hf) as (d1 & Hrun & Hround); cbn [taken_up]; rewrite Hrun.
  - exists d1. split; [|done]. by apply committed_stays, Hround.
  - destruct Hround as (Hd1 & Hc1 & Hf1 & Hn1).
    destruct (IH rounds rest (total - amount) d1) as (d' & Htaken & Hd' & Hn'); [done|lia|lia|done|done|].
    exists d'. split; [done|]. split; [done|lia].
Qed.

Lemma credited_every_time k rounds fuel rest total d :
  to_trading TransferState.SourceDone d -> (k < rounds)%nat ->
  Z.of_nat (S k) * amount <= total -> can_credit user asset total (core_of d) ->
  fates (trading d) = replicate k ResponseLost ++ Delivered :: rest ->
  exists d', taken_up rounds (S (S fuel)) d = Some d' /\ arrived (Z.of_nat (S k)) d d'.
Proof.
  unfold is_u64 in amount_range. intros Hd Hk Ht Hc Hf. destruct rounds as [|rounds]; [lia|].
  cbn [taken_up]. replace (run (process_transfer (S (S fuel)) id) d) with
    (run (pcatch (step id) (fun state => if TransferState.is_terminal state then Ret (Some tt)
                                        else process_transfer (S fuel) id) (Ret (Some tt))) d) by done.
  rewrite deployed_pcatch. destruct k as [|k]; cbn [replicate app] in Hf.
  - destruct (step_delivered TransferState.SourceDone rest total d) as (d1 & -> & Hd1 & Hn); [by left|done|lia|done|done|].
    cbn [TransferState.is_terminal run_prog]. exists d1. split; [by apply committed_stays|]. split; [done|lia].
  - destruct (first_step_lost (replicate k ResponseLost ++ Delivered :: rest) total d) as (d1 & -> & Hd1 & Hf1 & Hc1 & Hn1);
      [done|nia|done|done|]. cbn [TransferState.is_terminal].
    destruct (pending_round k fuel rest (total - amount) d1) as (d2 & -> & Hround); [done|lia|done|done|].
    destruct k as [|k].
    + exists d2. split; [by apply committed_stays, Hround|]. destruct Hround as [Hd2 Hn2]. split; [done|lia].
    + destruct Hround as (Hd2 & Hc2 & Hf2 & Hn2).
      destruct (pending_rounds (S fuel) k rounds rest (total - amount - amount) d2) as (d' & Htaken & Hd' & Hn');
        [done|lia|lia|done|done|].
      exists d'. split; [done|]. split; [done|lia].
Qed.
End transfer.

(** C29: a deposit into the trading account is credited once for every time its
    response is lost, and once more.  The coordinator repeats the deposit while
    the adapter answers [Pending], in the same turn or, since a turn without
    progress fails on the retry counter, when the worker takes the transfer up
    again; the adapter answers [Pending] whenever the client gets no response;
    the balance authority does not look at the transaction identifier.  Let [k]
    responses be lost and the worker take the transfer up more than [k] times
    (two turns of its loop each are enough): every time it returns, and in the
    end the transfer is committed and the user has [k + 1] times the amount
    that left the funding account. *)
Theorem retried_deposit_multiplies_funds id k rounds fuel rest d r :
  transfers d !! id = Some r -> req_id r = id -> source r = Funding -> target r = Trading ->
  t_state r = TransferState.SourceDone ->
  is_u64 id -> is_u64 (t_user_id r) -> 0 <= t_asset_id r < 256 ^ 4 -> is_u64 (t_amount r) ->
  can_credit (t_user_id r) (t_asset_id r) (Z.of_nat (S k) * t_amount r) (core_of d) ->
  fates (trading d) = replicate k ResponseLost ++ Delivered :: rest ->
  (k < rounds)%nat -> (2 <= fuel)%nat ->
  exists d', taken_up id rounds fuel d = Some d' /\
    (exists r', transfers d' !! id = Some r' /\ t_state r' = TransferState.Committed) /\
    net_position (core_of d') (t_user_id r) (t_asset_id r) =
      net_position (core_of d) (t_user_id r) (t_asset_id r) + Z.of_nat (S k) * t_amount r.
Proof.
  intros Hr Hid Hsrc Htgt Hst Hidr Hu Ha Hn Hc Hf Hk Hfuel. destruct fuel as [|[|fuel]]; [lia..|].
  destruct (credited_every_time id (t_user_id r) (t_asset_id r) (t_amount r) Hidr Hu Ha Hn k rounds fuel
    rest (Z.of_nat (S k) * t_amount r) d) as (d' & Hrun & (r' & Hr' & _ & _ & _ & _ & _ & _ & Hs') & Hnet);
    [by exists r|done|done|done|done|].
  exists d'. split; [done|]. split; [by exists r'|done].
Qed.
End link.

(** ** The theorem at a deployment *)

Module Concrete.
Import UbsCoreProofs.Concrete UbsCommProofs.Concrete.
#[local] Existing Instances sum_crc sum_crc_laws id_codec profile zero_padding zero_padding_laws pair_codec.

Definition request : TransferRecord :=
  mkTransfer 77 Funding Trading 1 2 100 TransferState.SourceDone 0 0 None 0.

(** Two responses are lost. *)
Definition deployment : Deployment unit Link :=
  mkDeployment {[ 77 := request ]} tt (mkLink (handler 64 []) [ResponseLost; ResponseLost; Delivered] 1) 5.

Lemma retried_deposit_multiplies_funds_witness :
  exists d', taken_up FundingAdapter.adapter 77 3 2 deployment = Some d' /\
    net_position (ubs_core (peer (trading d'))) 1 2 = net_position demo 1 2 + 300.
Proof.
  destruct (retried_deposit_multiplies_funds FundingAdapter.adapter 77 2 3 2 [] deployment request) as (d' & Hrun & _ & Hn);
    try reflexivity.
  - by vm_compute.
  - by vm_compute.
  - by vm_compute.
  - by vm_compute.
  - split; [exact demo_debts|by vm_compute].
  - lia.
  - exists d'. split; [exact Hrun|exact Hn].
Defined.
End Concrete.
