(* ===== verification/UbsService.v ===== *)
(** * The process of the balance authority ([bin/ubscore_aeron_service.rs])

    One thread polls the requests, processes them as a batch, answers, and then
    takes one balance operation ([models/balance_requests.rs]) from Kafka.  The
    batch server is the one the channel talks to ([AeronChannel]); a balance
    operation changes the accounts and publishes an event for the settlement
    service. *)

From S2P Require Import Prelude Bytes Balance UserAccount EngineOutput UbsParts WalRecord UbsWal UbsCore UbsCoreProofs UbsComm UbsCommProofs AeronChannel AeronChannelProofs.

#[local] Open Scope string_scope.
#[local] Open Scope list_scope.
#[local] Open Scope Z_scope.
#[local] Open Scope rust_scope.

(** ** Balance operations *)

Inductive BalanceRequest :=
  | TransferIn (request_id user_id asset_id amount timestamp : Z)
  | TransferOut (request_id user_id asset_id amount timestamp : Z).

Definition br_request_id (r : BalanceRequest) : Z :=
  match r with TransferIn id _ _ _ _ | TransferOut id _ _ _ _ => id end.

Definition br_user_id (r : BalanceRequest) : Z :=
  match r with TransferIn _ u _ _ _ | TransferOut _ u _ _ _ => u end.

Definition br_timestamp (r : BalanceRequest) : Z :=
  match r with TransferIn _ _ _ _ t | TransferOut _ _ _ _ t => t end.

Definition TIME_WINDOW_MS : Z := 60000.

Definition is_within_time_window (current_time_ms : Z) (r : BalanceRequest) : bool :=
  if current_time_ms <? br_timestamp r then false
  else current_time_ms - br_timestamp r <=? TIME_WINDOW_MS.

(** ** The process *)

(** [published] are the records sent to the topic [balance.events]; the
    handler's producer is the one the process uses; [turns] counts the requests
    and operations served, and picks the readings of the clock. *)
Record AeronService := mkService {
  business_state : Handler; published : list EngineOutput.BalanceEvent; turns : Z
}.

Section service.
Context {bp : BuildProfile} `{Crc32} {codec : OrderCodec} `{Padding} `{CancelCodec}.
Context (clock : Z -> Z).

(** The items as the handler sees them, each with the clock when it is
    validated. *)
Fixpoint stamped (items : list (Z * list Z)) (n : Z) : list Request :=
  match items with
  | [] => []
  | (correlation, payload) :: rest => mkReq correlation payload (clock n) :: stamped rest (n + 1)
  end.

(** [BusinessState::process_batch] *)
Definition service_batch (items : list (Z * list Z)) (sv : AeronService)
  : option (list (Z * list Z) * AeronService) :=
  match process_batch (stamped items (turns sv)) (business_state sv) with
  | Ok responses h => Some (responses, mkService h (published sv) (turns sv + zlen items))
  | Err e _ => match e with end
  | Panic => None
  end.

Definition Serve (A : Type) : Type := M AeronService Empty_set A.

Definition on_business {A} (m : M Handler Empty_set A) : Serve A :=
  zoom (fun sv => Some (business_state sv)) (fun h sv => mkService h (published sv) (turns sv)) m.

Definition publish (e : EngineOutput.BalanceEvent) : Serve unit :=
  modify (fun sv => mkService (business_state sv) (published sv ++ [e]) (turns sv)).

(** Sending a balance event, when there is a producer; the answer of Kafka is
    dropped. *)
Definition publish_event (request_id user asset delta avail frozen : Z) (event_type : string) : Serve unit :=
  let* sv := get in
  match kafka_producer (business_state sv) with
  | None => ret tt
  | Some _ =>
      publish (EngineOutput.mkBalanceEvent user asset (clock (turns sv)) delta 0 (Some avail) (Some frozen)
                 event_type request_id)
  end.

Definition balance_or (default_avail : Z) (user asset : Z) (sv : AeronService) : Z * Z :=
  default (default_avail, 0) (get_balance_full user asset (ubs_core (business_state sv))).

(** One message of the topic of balance operations. *)
Definition balance_operation (req : BalanceRequest) : Serve unit :=
  match req with
  | TransferIn request_id user asset amount _ =>
      on_business (on_core (on_deposit user asset amount request_id)) ;;;
      let* sv := get in
      let '(avail, frozen) := balance_or amount user asset sv in
      publish_event request_id user asset (as_i64 amount) avail frozen "deposit"
  | TransferOut request_id user asset amount _ =>
      let* done := on_business (on_core (on_withdraw user asset amount request_id)) in
      if (done : bool) then
        let* sv := get in
        let '(avail, frozen) := balance_or 0 user asset sv in
        let* delta := unwrap (i64_op (- as_i64 amount)) in
        publish_event request_id user asset delta avail frozen "withdraw"
      else ret tt
  end.

(** A turn of the loop: the batch that was polled, then the operation, if
    there is one. *)
Definition service_turn (batch : list (Z * list Z)) (operation : option BalanceRequest)
  : M AeronService Empty_set (list (Z * list Z)) :=
  let* responses := match batch with
                    | [] => ret []
                    | _ => fun sv => match service_batch batch sv with
                                     | Some (r, sv') => Ok r sv'
                                     | None => Panic
                                     end
                    end in
  match operation with
  | None => ret responses
  | Some req => balance_operation req ;;; ret responses
  end.
End service.

(** ** The responses of a batch *)

Section batches.
Context {bp : BuildProfile} `{Crc32} {codec : OrderCodec} `{Padding} `{CancelCodec}.

Lemma phase1_ids items h rs h' :
  phase1 items h = Ok rs h' -> map fst rs = map correlation_id items.
Proof.
  revert h rs. induction items as [|r items IH]; intros h rs; simpl; [intros Hret; by inversion Hret|].
  intros (x & h1 & _ & Hrest)%bind_inv_ok. apply bind_inv_ok in Hrest as (xs & h2 & Hxs & Hret).
  inversion Hret; subst. simpl. f_equal. by eapply IH.
Qed.

Lemma phase3_ids rs h out h' : phase3 rs h = Ok out h' -> map fst out = map fst rs.
Proof.
  revert h out. induction rs as [|[i x] rs IH]; intros h out; simpl; [intros Hret; by inversion Hret|].
  intros (r & h1 & _ & Hrest)%bind_inv_ok. apply bind_inv_ok in Hrest as (rest & h2 & Hr & Hret).
  inversion Hret; subst. simpl. f_equal. by eapply IH.
Qed.

Lemma stamped_ids clock items n : map correlation_id (stamped clock items n) = map fst items.
Proof. revert n. induction items as [|[i p] items IH]; intros n; [done|]. simpl. by rewrite IH. Qed.

(** Every request of a batch gets one response, under its correlation
    identifier and in the order of the requests: what the channel relies on. *)
Lemma service_batch_ids clock items sv responses sv' :
  service_batch clock items sv = Some (responses, sv') -> map fst responses = map fst items.
Proof.
  unfold service_batch. destruct (process_batch _ _) as [rs h|[]|] eqn:Hb; [|done]. intros [= <- _].
  apply bind_inv_ok in Hb as (xs & h1 & Hp1 & Hb). apply bind_inv_ok in Hb as ([] & h2 & _ & Hp3).
  rewrite (phase3_ids _ _ _ _ Hp3), (phase1_ids _ _ _ _ Hp1). apply stamped_ids.
Qed.
End batches.

(** ** What the settlement service is told *)

Section operations.
Context {bp : BuildProfile} (clock : Z -> Z).

Definition pos_of (sv : AeronService) : Z -> Z -> Z := net_position (ubs_core (business_state sv)).

Definition avail_of (sv : AeronService) (u a : Z) : Z := avail (bal_of (accounts (ubs_core (business_state sv))) u a).

Definition debts_positive (sv : AeronService) : Prop :=
  map_Forall (fun _ r => 0 < debt_amount r) (debt_ledger (ubs_core (business_state sv))).

(** The deltas published for a user's asset. *)
Definition deltas (u a : Z) (es : list EngineOutput.BalanceEvent) : Z :=
  foldr (fun e z => (if (EngineOutput.be_user_id e =? u) && (EngineOutput.be_asset_id e =? a)
                     then EngineOutput.be_delta_avail e else 0) + z) 0 es.

Lemma deltas_app u a es1 es2 : deltas u a (es1 ++ es2) = deltas u a es1 + deltas u a es2.
Proof. unfold deltas. induction es1 as [|e es1 IH]; simpl; [done|]. rewrite IH. lia. Qed.

Lemma on_withdraw_cases {E : Type} user asset amount tx c :
  exists done c', on_withdraw (E := E) user asset amount tx c = Ok done c' /\ debt_ledger c' = debt_ledger c /\
    (done = true <-> is_Some (accounts c !! user) /\ amount <= avail (bal_of (accounts c) user asset)) /\
    forall u a, avail (bal_of (accounts c') u a) =
      avail (bal_of (accounts c) u a) - (if (done : bool) && (user =? u) && (asset =? a) then amount else 0).
Proof.
  unfold on_withdraw. unfold bind at 1, get. destruct (accounts c !! user) as [acc|] eqn:Hu.
  2: { exists false, c. split; [done|]. split; [done|]. split; [by split; [|intros [[? ?] _]]|]. intros u a. simpl. lia. }
  set (m := fun b => match withdraw amount b with
              | Ok _ b' => Ok true b' | Err _ b' => Ok false b' | Panic => Panic end).
  destruct (on_balance_eq (E := E) user asset m c acc (amount <=? avail (bal_of (accounts c) user asset))
    (if amount <=? avail (bal_of (accounts c) user asset)
     then stamp (avail (bal_of (accounts c) user asset) - amount) (frozen (bal_of (accounts c) user asset))
            (bal_of (accounts c) user asset)
     else bal_of (accounts c) user asset) Hu) as [Hon Hb].
  { unfold m. rewrite withdraw_eq. by destruct (amount <=? _). }
  unfold bind at 1. rewrite Hon. set (c1 := set_accounts _ c) in *.
  destruct (Z.leb_spec amount (avail (bal_of (accounts c) user asset))) as [Hle|Hlt].
  - destruct (emit_event_eq (E := E) (Withdrawn tx user asset amount) c1) as (c2 & Hc2 & Ha & _ & Hd & _).
    unfold bind. rewrite Hc2. exists true, c2. split; [done|]. rewrite Ha, Hd. split; [done|].
    split; [by split; [split; [by eexists|lia]|]|].
    intros u a. cbn [accounts set_accounts c1]. rewrite Hb. simpl.
    destruct (Z.eqb_spec user u) as [<-|], (Z.eqb_spec asset a) as [<-|]; simpl; lia.
  - exists false, c1. split; [done|]. split; [done|]. split; [split; [done|lia]|].
    intros u a. cbn [accounts set_accounts c1]. rewrite Hb. simpl.
    destruct (Z.eqb_spec user u) as [<-|], (Z.eqb_spec asset a) as [<-|]; simpl; lia.
Qed.

Definition amount_of (r : BalanceRequest) : Z :=
  match r with TransferIn _ _ _ x _ | TransferOut _ _ _ x _ => x end.

Definition incoming (r : BalanceRequest) : Z := match r with TransferIn _ _ _ x _ => x | _ => 0 end.

Lemma as_i64_small x : 0 <= x < 2 ^ 63 -> as_i64 x = x.
Proof.
  intros Hx. unfold as_i64, u64_mod. rewrite Z.mod_small by lia. destruct (Z.ltb_spec x 9223372036854775808); lia.
Qed.

Lemma publish_event_eq request_id user asset delta av fr kind sv :
  kafka_producer (business_state sv) <> None ->
  exists e, publish_event clock request_id user asset delta av fr kind sv =
      Ok tt (mkService (business_state sv) (published sv ++ [e]) (turns sv)) /\
    EngineOutput.be_user_id e = user /\ EngineOutput.be_asset_id e = asset /\ EngineOutput.be_delta_avail e = delta.
Proof.
  intros Hk. unfold publish_event. unfold bind, get. destruct (kafka_producer _) as [l|] eqn:E; [|done].
  eexists. split; [reflexivity|done].
Qed.

(** The deposit fits the balance; the withdrawal always does. *)
Definition fits (req : BalanceRequest) (sv : AeronService) : Prop :=
  0 <= amount_of req < 2 ^ 63 /\
  match req with TransferIn _ u a x _ => avail_of sv u a + x <= u64_max | _ => True end.

(** One operation. *)
Lemma balance_operation_tracks req sv :
  fits req sv -> debts_positive sv -> kafka_producer (business_state sv) <> None ->
  exists sv' es, balance_operation clock req sv = Ok tt sv' /\ debts_positive sv' /\
    kafka_producer (business_state sv') = kafka_producer (business_state sv) /\
    published sv' = published sv ++ es /\ forall u a, pos_of sv' u a = pos_of sv u a + deltas u a es.
Proof.
  intros [Hx Hmax] Hd Hk. destruct req as [id user asset x t|id user asset x t]; simpl in Hx, Hmax; unfold balance_operation.
  - destruct (on_deposit_exact (E := Empty_set) user asset x id (ubs_core (business_state sv)))
      as (c & Hc & Hd' & Hdebt' & Hn); [lia|done|apply Hmax|].
    unfold bind at 1, on_business, on_core, zoom. rewrite Hc. unfold bind at 1, get.
    set (sv1 := mkService _ _ _). destruct (balance_or x user asset sv1) as [av fr].
    destruct (publish_event_eq id user asset (as_i64 x) av fr "deposit" sv1) as (e & -> & He1 & He2 & He3); [done|].
    eexists _, [e]. split; [done|]. split; [done|]. split; [done|]. split; [done|].
    intros u a. unfold pos_of. simpl. rewrite Hn, He1, He2, He3, as_i64_small by lia. lia.
  - destruct (on_withdraw_cases (E := Empty_set) user asset x id (ubs_core (business_state sv)))
      as (done & c & Hc & Hdebt & _ & Ha).
    assert (forall u a, net_position c u a = net_position (ubs_core (business_state sv)) u a -
              (if done && (user =? u) && (asset =? a) then x else 0)) as Hn.
    { intros u a. unfold net_position, debt_of. rewrite Ha, Hdebt. lia. }
    unfold bind at 1, on_business, on_core, zoom. rewrite Hc. destruct done.
    + unfold bind at 1, get. set (sv1 := mkService _ _ _). destruct (balance_or 0 user asset sv1) as [av fr].
      rewrite as_i64_small by lia. unfold i64_op, in_range.
      destruct (Z.leb_spec (-9223372036854775808) (- x)); [|lia].
      destruct (Z.leb_spec (- x) 9223372036854775807); [|lia]. simpl. rewrite bind_ret.
      destruct (publish_event_eq id user asset (- x) av fr "withdraw" sv1) as (e & -> & He1 & He2 & He3); [done|].
      eexists _, [e]. split; [done|]. split; [by unfold debts_positive; simpl; rewrite Hdebt|]. split; [done|].
      split; [done|]. intros u a. unfold pos_of. simpl. rewrite Hn, He1, He2, He3. simpl.
      destruct ((user =? u) && (asset =? a)); lia.
    + eexists _, []. split; [done|]. split; [by unfold debts_positive; simpl; rewrite Hdebt|]. split; [done|].
      split; [by rewrite app_nil_r|]. intros u a. unfold pos_of. simpl. rewrite Hn. simpl. lia.
Qed.

(** A run of operations, each of which fits. *)
Inductive operations_run : list BalanceRequest -> AeronService -> AeronService -> Prop :=
  | run_none sv : operations_run [] sv sv
  | run_next req rest sv sv' sv'' :
      fits req sv -> balance_operation clock req sv = Ok tt sv' -> operations_run rest sv' sv'' ->
      operations_run (req :: rest) sv sv''.

(** The settlement service is told the truth: over any run of deposits and
    withdrawals from Kafka, none of which overflows a balance, the deltas
    published for a user's asset add up to the change of the user's net
    position, refused withdrawals and deposits that pay debts included. *)
Theorem published_deltas_track_positions reqs sv sv' :
  operations_run reqs sv sv' -> debts_positive sv -> kafka_producer (business_state sv) <> None ->
  exists es, published sv' = published sv ++ es /\
    forall u a, pos_of sv' u a = pos_of sv u a + deltas u a es.
Proof.
  induction 1 as [sv|req rest sv sv1 sv2 Hfit Hop _ IH]; intros Hd Hk.
  - exists []. split; [by rewrite app_nil_r|]. intros u a. simpl. lia.
  - destruct (balance_operation_tracks req sv Hfit Hd Hk) as (sv1' & es1 & Hop' & Hd1 & Hk1 & Hp1 & Hn1).
    rewrite Hop in Hop'. injection Hop' as <-. rewrite <- Hk1 in Hk.
    destruct (IH Hd1 Hk) as (es2 & Hp2 & Hn2). exists (es1 ++ es2). split; [by rewrite Hp2, Hp1, app_assoc|].
    intros u a. rewrite Hn2, Hn1, deltas_app. lia.
Qed.

(** A balance operation that Kafka delivers twice is applied twice: neither
    its identifier nor its time is looked at. *)
Lemma operation_ignores_time id user asset x t t' sv :
  balance_operation clock (TransferIn id user asset x t) sv = balance_operation clock (TransferIn id user asset x t') sv /\
  balance_operation clock (TransferOut id user asset x t) sv = balance_operation clock (TransferOut id user asset x t') sv.
Proof. done. Qed.
End operations.

(** ** The theorems at a process *)

Module Concrete.
Import UbsCoreProofs.Concrete UbsCommProofs.Concrete.
#[local] Existing Instances sum_crc sum_crc_laws id_codec profile zero_padding pair_codec.

Definition service : AeronService := mkService (handler 64 []) [] 0.

(** User 1 owes 40 of asset 3. *)
Definition operations : list BalanceRequest :=
  [TransferIn 1 1 3 100 0; TransferOut 2 1 2 50 0; TransferOut 3 1 2 1000000 0].

Lemma published_deltas_track_positions_witness :
  exists sv', operations_run (fun n => n) operations service sv' /\ length (published sv') = 2%nat /\
    exists es, published sv' = published service ++ es /\
      forall u a, pos_of sv' u a = pos_of service u a + deltas u a es.
Proof.
  assert (exists sv', operations_run (fun n => n) operations service sv' /\ length (published sv') = 2%nat)
    as (sv' & Hrun & Hlen).
  { eexists. split.
    - eapply run_next; [split; [by vm_compute|by vm_compute]|vm_compute; reflexivity|].
      eapply run_next; [split; [by vm_compute|done]|vm_compute; reflexivity|].
      eapply run_next; [split; [by vm_compute|done]|vm_compute; reflexivity|]. apply run_none.
    - reflexivity. }
  exists sv'. split; [exact Hrun|]. split; [exact Hlen|].
  apply (published_deltas_track_positions (fun n => n) operations service sv' Hrun); [exact demo_debts|discriminate].
Defined.

(** One call, from beginning to end. *)
Definition one_call (payload : list Z) : Channel AeronService :=
  let c := mkCall 1 payload Numbered None in
  let st := offer 0 (set_status Registered c) (collect 1 0 [] (register 0 c (begin_call payload (channel_new service)))) in
  match serve_batch (service_batch (fun n => n)) (to_server st) [] st with
  | Some st' =>
      let st'' := dispatch (default [] (head (to_client st'))) [] 99 (set_polling 100 st') in
      finish 0 (default c (calls st'' !! 0%nat)) (inr (accept_response 1)) st''
  | None => st
  end.

Lemma one_call_reachable :
  channel_reachable (service_batch (fun n => n)) true service (one_call (deposit_message demo_deposit)).
Proof.
  set (payload := deposit_message demo_deposit).
  eapply rtc_l; [apply (step_begin _ _ payload)|].
  eapply rtc_l; [apply (step_register _ _ 0 (mkCall 1 payload Numbered None)); [reflexivity..|simpl; unfold PENDING_CAPACITY; lia]|].
  eapply rtc_l; [apply (step_collect _ _ 1 0 []); reflexivity|].
  eapply rtc_l; [apply (step_offer _ _ 0 (mkCall 1 payload Registered None)); reflexivity|].
  set (st := offer _ _ _).
  destruct (serve_batch (service_batch (fun n => n)) (to_server st) [] st) as [st'|] eqn:Hserve;
    [|vm_compute in Hserve; discriminate Hserve].
  eapply rtc_l; [apply (step_serve _ _ (to_server st) [] st st'); [reflexivity|vm_compute; lia|exact Hserve]|].
  assert (one_call payload =
    finish 0 (mkCall 1 payload Waiting (Some (accept_response 1))) (inr (accept_response 1))
      (dispatch (frame 1 (accept_response 1)) [] 99 (set_polling 100 st'))) as ->.
  { vm_compute in Hserve. injection Hserve as <-. vm_compute. reflexivity. }
  vm_compute in Hserve. injection Hserve as <-.
  eapply rtc_l; [apply step_poll; reflexivity|].
  eapply rtc_l; [eapply step_fragment; reflexivity|].
  apply rtc_once. apply step_receive; reflexivity.
Qed.

Lemma response_is_the_callers_witness :
  let payload := deposit_message demo_deposit in
  exists c, calls (one_call payload) !! 0%nat = Some c /\ c_status c = Returned (inr (accept_response 1)) /\
    (c_corr c, c_payload c, accept_response 1) ∈ history (one_call payload) /\
    NoDup (entry_ids (history (one_call payload))).
Proof.
  intros payload. exists (mkCall 1 payload (Returned (inr (accept_response 1))) (Some (accept_response 1))).
  split; [by vm_compute|]. split; [reflexivity|].
  destruct (response_is_the_callers (service_batch (fun n => n)) true (service_batch_ids (fun n => n)) service
    (one_call payload) 0 (mkCall 1 payload (Returned (inr (accept_response 1))) (Some (accept_response 1)))
    one_call_reachable) as [Hret Halone]; [by vm_compute|by vm_compute|].
  destruct (Hret (accept_response 1) eq_refl) as (p & Hin & Hp). rewrite (Hp eq_refl) in Hin.
  split; [exact Hin|]. destruct (Halone eq_refl) as (_ & Hnd & _). exact Hnd.
Defined.

(** Two channels on the same streams: the first call of one is answered with the
    response to the deposit the other made. *)
Lemma foreign_response_delivered_witness :
  exists st c, channel_reachable (service_batch (fun n => n)) false service st /\ calls st !! 0%nat = Some c /\
    c_payload c = [1; 2; 3] /\ c_status c = Returned (inr (accept_response 1)) /\
    history st = [(1, deposit_message demo_deposit, accept_response 1)].
Proof.
  destruct (service_batch (fun n => n) [(1, deposit_message demo_deposit)] service) as [[rs sv']|] eqn:Hb;
    [|vm_compute in Hb; discriminate Hb].
  assert (rs = [(1, accept_response 1)]) as -> by (vm_compute in Hb; injection Hb as <- _; reflexivity).
  destruct (foreign_response_delivered (service_batch (fun n => n)) false service
    [1; 2; 3] (deposit_message demo_deposit) (accept_response 1) sv' eq_refl Hb)
    as (st & c & Hr & Hc & Hp & Hs & Hh & _); [discriminate|].
  exists st, c. split; [exact Hr|]. split; [exact Hc|]. split; [exact Hp|]. split; [exact Hs|exact Hh].
Defined.

Lemma response_overtakes_registration_witness :
  exists st, channel_reachable (service_batch (fun n => n)) true service st /\
    length (history st) = 1%nat /\
    forall st', rtc (channel_step (service_batch (fun n => n)) true) st st' -> small st' ->
      exists c, calls st' !! 0%nat = Some c /\ forall b, c_status c <> Returned (inr b).
Proof.
  destruct (service_batch (fun n => n) [(1, deposit_message demo_deposit)] service) as [[rs sv']|] eqn:Hb;
    [|vm_compute in Hb; discriminate Hb].
  assert (rs = [(1, accept_response 1)]) as -> by (vm_compute in Hb; injection Hb as <- _; reflexivity).
  destruct (response_overtakes_registration (service_batch (fun n => n)) true (service_batch_ids (fun n => n)) eq_refl service
    (deposit_message demo_deposit) (accept_response 1) sv' Hb) as (st & Hr & _ & Hh & Hall); [discriminate|].
  exists st. split; [exact Hr|]. split; [rewrite Hh; reflexivity|]. exact Hall.
Defined.
End Concrete.
