(* ===== verification/Decimal.v ===== *)
(** * Decimal amounts and integer amounts ([models/balance_manager.rs])

    Clients speak in decimal numbers, the back end in integers scaled by the
    decimals of an asset or of a price.  The decimal arithmetic is the crate
    [rust_decimal]: the class [Decimals] is what the code calls, [DecimalLaws]
    what its documentation promises. *)

From stdpp Require Import pretty.
From S2P Require Import Prelude Balance SymbolManager.

#[local] Open Scope string_scope.
#[local] Open Scope list_scope.
#[local] Open Scope Z_scope.
#[local] Open Scope rust_scope.

(** ** Decimal numbers

    [None] is the panic of an operator. *)

Class Decimals (D : Type) := {
  from_u64 : Z -> D;
  dec_mul : D -> D -> option D;
  dec_div : D -> D -> option D;
  normal_scale : D -> Z;  (* [normalize().scale()] *)
  dec_positive : D -> bool;  (* [d > Decimal::ZERO] *)
  dec_round : D -> D;
  round_to_zero : Z -> D -> D;  (* [round_dp_with_strategy(n, ToZero)] *)
  to_u64 : D -> option Z;
  units : D -> Z;
  dec_display : D -> string
}.

(** Every number has a scale of at most 28: it is an integer multiple, [units],
    of [10^-28]. *)
Definition ONE : Z := 10 ^ 28.

(** A mantissa of 96 bits at a scale between 0 and 28. *)
Definition representable (n : Z) : Prop :=
  exists m e, 0 <= e <= 28 /\ Z.abs m < 2 ^ 96 /\ n = m * 10 ^ (28 - e).

Class DecimalLaws (D : Type) `{Decimals D} : Prop := {
  units_from x : is_u64 x -> units (from_u64 x) = x * ONE;
  mul_exact a b n : units a * units b = n * ONE -> representable n ->
    exists d, dec_mul a b = Some d /\ units d = n;
  mul_overflows a b : 2 ^ 96 * ONE * ONE <= Z.abs (units a * units b) -> dec_mul a b = None;
  div_exact a b n : units b <> 0 -> units a * ONE = n * units b -> representable n ->
    exists d, dec_div a b = Some d /\ units d = n;
  scale_spec d e : 0 <= e <= 28 -> (normal_scale d <= e <-> (10 ^ (28 - e) | units d));
  scale_range d : 0 <= normal_scale d <= 28;
  positive_spec d : dec_positive d = (0 <? units d);
  round_integer d : (ONE | units d) -> units (dec_round d) = units d;
  round_to_zero_spec k d : 0 <= k <= 28 ->
    units (round_to_zero k d) = Z.quot (units d) (10 ^ (28 - k)) * 10 ^ (28 - k);
  to_u64_integer d x : units d = x * ONE ->
    to_u64 d = if (0 <=? x) && (x <=? u64_max) then Some x else None;
  to_u64_range d x : to_u64 d = Some x -> is_u64 x
}.

(** [10_u64.checked_pow(n)] *)
Definition checked_pow10 (n : Z) : option Z := if 10 ^ n <=? u64_max then Some (10 ^ n) else None.

(** ** The balance manager

    It holds a symbol manager and nothing else. *)

Record ClientBalance (D : Type) := mkClientBalance { cb_asset : string; cb_avail : D; cb_frozen : D }.
Arguments mkClientBalance {D}.
Arguments cb_asset {D}.
Arguments cb_avail {D}.
Arguments cb_frozen {D}.

Record InternalBalance := mkInternalBalance { ib_asset_id : Z; ib_balance : Balance }.

Section manager.
Context {D : Type} `{Decimals D} {S : Type} (sm : SymbolManager).

Definition display_or (asset_id decimals : Z) : Z := default decimals (get_asset_display_decimals sm asset_id).

Definition to_client_amount {E} (asset_id amount : Z) : M S E (option D) :=
  match get_asset_decimal sm asset_id with
  | None => ret None
  | Some decimals =>
      match checked_pow10 decimals with
      | None => ret None
      | Some divisor =>
          let* q := unwrap (dec_div (from_u64 amount) (from_u64 divisor)) in
          ret (Some (round_to_zero (display_or asset_id decimals) q))
      end
  end.

(** The end of both conversions: to an integer at the scale [decimals]. *)
Definition scaled (decimals : Z) (value : D) (overflow what : string) : M S string Z :=
  let* multiplier := ok_or (checked_pow10 decimals) overflow in
  let* product := unwrap (dec_mul value (from_u64 multiplier)) in
  let result := dec_round product in
  ok_or (to_u64 result) (what ++ " overflow or negative: " ++ dec_display result)%string.

Definition to_internal_amount (asset_name : string) (amount : D) : M S string (Z * Z) :=
  let* asset_id := ok_or (get_asset_id sm asset_name) ("Unknown asset: " ++ asset_name)%string in
  let* decimals := ok_or (get_asset_decimal sm asset_id) ("Decimal not found for asset: " ++ asset_name)%string in
  if display_or asset_id decimals <? normal_scale amount then
    throw ("Amount " ++ dec_display amount ++ " exceeds max precision " ++ pretty (display_or asset_id decimals))%string
  else
    let* raw_amount := scaled decimals amount "Decimals too large, overflow" "Amount" in
    ret (asset_id, raw_amount).

Definition to_internal_price (symbol : string) (price : D) : M S string Z :=
  let* symbol_info := ok_or (get_symbol_info sm symbol) ("Unknown symbol: " ++ symbol)%string in
  if si_price_display_decimal symbol_info <? normal_scale price then
    throw ("Price " ++ dec_display price ++ " exceeds max precision " ++ pretty (si_price_display_decimal symbol_info))%string
  else
    scaled (si_price_decimal symbol_info) price "Price decimals overflow" "Price".

(** [to_client_price] and [to_client_price_by_id] differ in how the symbol is
    found. *)
Definition client_price {E} (info : option SymbolInfo) (price : Z) : M S E (option D) :=
  match info with
  | None => ret None
  | Some symbol_info =>
      match checked_pow10 (si_price_decimal symbol_info) with
      | None => ret None
      | Some divisor =>
          let* q := unwrap (dec_div (from_u64 price) (from_u64 divisor)) in
          ret (Some q)
      end
  end.

Definition to_client_price {E} (symbol : string) (price : Z) : M S E (option D) :=
  client_price (get_symbol_info sm symbol) price.

Definition to_client_price_by_id {E} (symbol_id price : Z) : M S E (option D) :=
  client_price (get_symbol_info_by_id sm symbol_id) price.

Definition to_client_balance {E} (asset_id avail frozen : Z) : M S E (option (ClientBalance D)) :=
  match get_asset_name sm asset_id with
  | None => ret None
  | Some asset_name =>
      let* a := to_client_amount asset_id avail in
      match a with
      | None => ret None
      | Some a =>
          let* f := to_client_amount asset_id frozen in
          match f with
          | None => ret None
          | Some f => ret (Some (mkClientBalance asset_name a f))
          end
      end
  end.

Definition to_client_balance_struct {E} (internal : InternalBalance) : M S E (option (ClientBalance D)) :=
  to_client_balance (ib_asset_id internal) (Balance.avail (ib_balance internal)) (Balance.frozen (ib_balance internal)).

(** [let _ = balance.deposit(x)]: what the method leaves behind. *)
Definition left_by (m : M Balance string unit) (b : Balance) : option Balance := state_of (m b).

Definition to_internal_balance_struct (client : ClientBalance D) : M S string InternalBalance :=
  let* '(asset_id, avail) := to_internal_amount (cb_asset client) (cb_avail client) in
  let* '(_, frozen) := to_internal_amount (cb_asset client) (cb_frozen client) in
  let* b := unwrap (left_by (deposit avail) default_balance) in
  let* b := unwrap (if 0 <? frozen then left_by (lock frozen) b else Some b) in
  ret (mkInternalBalance asset_id b).
End manager.

(** ** Scaling by a power of ten *)

Lemma pow10_pos n : 0 <= n -> 0 < 10 ^ n.
Proof. intros Hn. by apply Z.pow_pos_nonneg. Qed.

Lemma pow10_split a b : 0 <= b <= a -> 10 ^ a = 10 ^ b * 10 ^ (a - b).
Proof. intros Hab. rewrite <- Z.pow_add_r by lia. f_equal. lia. Qed.

Lemma checked_pow10_small n : 0 <= n <= 19 -> checked_pow10 n = Some (10 ^ n) /\ is_u64 (10 ^ n).
Proof.
  intros Hn. assert (10 ^ n <= 10 ^ 19) as Hle by (apply Z.pow_le_mono_r; lia).
  assert (10 ^ 19 <= u64_max) as Hmax by (vm_compute; discriminate). pose proof (pow10_pos n (proj1 Hn)) as Hpos.
  pose proof (Z.le_trans _ _ _ Hle Hmax) as Hn'. unfold checked_pow10, is_u64. rewrite (proj2 (Z.leb_le _ _) Hn').
  split; [done|]. split; [by apply Z.lt_le_incl|exact Hn'].
Qed.

Lemma u64_fits_mantissa : u64_max < 2 ^ 96.
Proof. by vm_compute. Qed.

Lemma representable_integer k : Z.abs k < 2 ^ 96 -> representable (k * ONE).
Proof. intros Hk. exists k, 0. split; [lia|]. split; [done|]. by rewrite Z.sub_0_r. Qed.

Section laws.
Context {D : Type} `{DecimalLaws D}.

(** Multiplying a number whose scale is at most [dec] by [10^dec] gives the
    integer [k], or panics when that has more than 96 bits. *)
Lemma scale_up (d : D) dec e :
  0 <= e <= dec -> dec <= 19 -> normal_scale d <= e ->
  exists k, units d = k * 10 ^ (28 - dec) /\
    (2 ^ 96 <= Z.abs k -> dec_mul d (from_u64 (10 ^ dec)) = None) /\
    (Z.abs k < 2 ^ 96 -> exists p, dec_mul d (from_u64 (10 ^ dec)) = Some p /\ units p = k * ONE).
Proof.
  intros He Hdec Hs. apply scale_spec in Hs as [q Hq]; [|lia].
  assert (10 ^ (28 - e) = 10 ^ (28 - dec) * 10 ^ (dec - e)) as Hsplit.
  { rewrite (pow10_split (28 - e) (28 - dec)) by lia. f_equal. f_equal. lia. }
  exists (q * 10 ^ (dec - e)). split; [rewrite Hq, Hsplit; lia|].
  destruct (checked_pow10_small dec) as [_ Hu]; [lia|]. set (k := q * 10 ^ (dec - e)).
  assert (units d * units (from_u64 (10 ^ dec)) = (k * ONE) * ONE) as Hprod.
  { rewrite units_from by done. rewrite Hq, Hsplit. unfold k, ONE.
    rewrite (pow10_split 28 dec) by lia. lia. }
  split.
  - intros Hk. apply mul_overflows. rewrite Hprod, !Z.abs_mul. assert (0 < ONE) by done.
    rewrite (Z.abs_eq ONE) by lia. nia.
  - intros Hk. apply mul_exact; [done|by apply representable_integer].
Qed.

Lemma rounded_integer (p : D) k :
  units p = k * ONE -> to_u64 (dec_round p) = if (0 <=? k) && (k <=? u64_max) then Some k else None.
Proof. intros Hp. apply to_u64_integer. rewrite round_integer; [done|]. rewrite Hp. by exists k. Qed.

Lemma scale_down x dec :
  is_u64 x -> 0 <= dec <= 19 ->
  exists q, dec_div (from_u64 x) (from_u64 (10 ^ dec)) = Some q /\ units q = x * 10 ^ (28 - dec).
Proof.
  intros Hx Hdec. destruct (checked_pow10_small dec Hdec) as [_ Hu]. pose proof (pow10_pos dec).
  apply div_exact.
  - rewrite units_from by done. assert (0 < ONE) by done. lia.
  - rewrite !units_from by done. unfold ONE. rewrite (pow10_split 28 dec) by lia. lia.
  - exists x, dec. split; [lia|]. split; [|done]. unfold is_u64, u64_max in Hx.
    assert (18446744073709551616 < 2 ^ 96) by done. lia.
Qed.
End laws.

(** ** Amounts *)

Section amounts.
Context {D : Type} `{DecimalLaws D} {S : Type} (sm : SymbolManager) (s : S).

(** What is known of an asset. *)
Record asset_known (name : string) (asset_id decimals display : Z) : Prop := {
  known_id : get_asset_id sm name = Some asset_id;
  known_decimals : get_asset_decimal sm asset_id = Some decimals;
  known_display : get_asset_display_decimals sm asset_id = Some display;
  known_range : 0 <= display <= decimals /\ decimals <= 19
}.

(** The conversion on every branch: a number with at most [decimals] places is
    an exact integer [k] of the smallest units; it is the answer if it fits 64
    bits, an error if it is negative or larger, and the multiplication panics
    from 2^96 on. *)
Lemma scaled_exact (d : D) decimals e what over :
  0 <= e <= decimals -> decimals <= 19 -> normal_scale d <= e ->
  exists k, units d = k * 10 ^ (28 - decimals) /\
    if 2 ^ 96 <=? Z.abs k then scaled decimals d over what s = Panic
    else if (0 <=? k) && (k <=? u64_max) then scaled decimals d over what s = Ok k s
    else exists m, scaled decimals d over what s = Err m s.
Proof.
  intros He Hdec Hs. unfold scaled. destruct (checked_pow10_small decimals) as [-> _]; [lia|].
  destruct (scale_up d decimals e) as (k & Hk & Hbig & Hsmall); [done..|]. exists k. split; [done|].
  simpl. rewrite bind_ret. destruct (Z.leb_spec (2 ^ 96) (Z.abs k)) as [Hb|Hb].
  - by rewrite (Hbig Hb).
  - destruct (Hsmall Hb) as (p & -> & Hp). simpl. rewrite bind_ret, (rounded_integer p k Hp).
    destruct ((0 <=? k) && (k <=? u64_max)); [done|]. by eexists.
Qed.

Lemma scaled_ok (d : D) decimals e x what over :
  0 <= e <= decimals -> decimals <= 19 -> normal_scale d <= e -> is_u64 x -> units d = x * 10 ^ (28 - decimals) ->
  scaled decimals d over what s = Ok x s.
Proof.
  intros He Hdec Hs Hx Hu. destruct (scaled_exact d decimals e what over He Hdec Hs) as (k & Hk & Hans).
  assert (k = x) as ->.
  { rewrite Hu in Hk. pose proof (pow10_pos (28 - decimals) ltac:(lia)). by apply Z.mul_cancel_r in Hk; [|lia]. }
  destruct Hx as [Hx0 Hx1]. pose proof u64_fits_mantissa.
  rewrite (proj2 (Z.leb_gt (2 ^ 96) (Z.abs x))) in Hans by lia.
  rewrite (proj2 (Z.leb_le 0 x) Hx0), (proj2 (Z.leb_le x u64_max) Hx1) in Hans. done.
Qed.

Lemma to_internal_amount_known name asset_id decimals display (d : D) :
  asset_known name asset_id decimals display ->
  to_internal_amount sm name d s =
  if display <? normal_scale d
  then Err ("Amount " ++ dec_display d ++ " exceeds max precision " ++ pretty display)%string s
  else bind (scaled decimals d "Decimals too large, overflow" "Amount") (fun x => ret (asset_id, x)) s.
Proof.
  intros [Hid Hdec Hdisp _]. unfold to_internal_amount, display_or. rewrite Hid. simpl. rewrite bind_ret.
  rewrite Hdec. simpl. rewrite bind_ret, Hdisp. simpl. by destruct (display <? normal_scale d).
Qed.

(** Whatever is known of the asset. *)
Lemma to_internal_amount_frame name (d : D) :
  match to_internal_amount sm name d s with
  | Ok (_, x) s' => s' = s /\ is_u64 x
  | Err _ s' => s' = s
  | Panic => True
  end.
Proof.
  unfold to_internal_amount, bind, ok_or. destruct (get_asset_id sm name) as [i|]; [|done]. simpl.
  destruct (get_asset_decimal sm i) as [dec|]; [|done]. simpl. destruct (_ <? _); [done|].
  unfold scaled, bind, ok_or. destruct (checked_pow10 dec) as [m|]; [|done]. simpl.
  destruct (dec_mul d (from_u64 m)) as [p|]; [|done]. simpl. destruct (to_u64 (dec_round p)) as [x|] eqn:Hx; [|done].
  simpl. split; [done|]. by apply to_u64_range in Hx.
Qed.

Lemma to_client_amount_eq name asset_id decimals display x :
  asset_known name asset_id decimals display -> is_u64 x ->
  exists d : D, to_client_amount (E := string) sm asset_id x s = Ok (Some d) s /\
    units d = (x / 10 ^ (decimals - display)) * 10 ^ (28 - display).
Proof.
  intros [Hid Hdec Hdisp [Hr1 Hr2]] Hx. unfold to_client_amount, display_or. rewrite Hdec, Hdisp.
  destruct (checked_pow10_small decimals) as [-> _]; [lia|].
  destruct (scale_down (D := D) x decimals) as (q & -> & Hq); [done|lia|]. simpl. rewrite bind_ret.
  eexists. split; [done|]. rewrite round_to_zero_spec, Hq by lia. f_equal.
  rewrite (pow10_split (28 - display) (28 - decimals)) by lia.
  replace (28 - display - (28 - decimals)) with (decimals - display) by lia.
  pose proof (pow10_pos (28 - decimals)). pose proof (pow10_pos (decimals - display)).
  rewrite Z.quot_div_nonneg by (unfold is_u64 in Hx; nia).
  rewrite (Z.mul_comm (10 ^ (28 - decimals))). by rewrite Z.div_mul_cancel_r by lia.
Qed.

(** An amount shown to a client and sent back is the amount that was stored,
    cut to the places the asset shows: exactly the stored one when it has no
    further places. *)
Theorem amount_roundtrip name asset_id decimals display x :
  asset_known name asset_id decimals display -> is_u64 x ->
  exists d : D, to_client_amount (E := string) sm asset_id x s = Ok (Some d) s /\
    to_internal_amount sm name d s = Ok (asset_id, x - x mod 10 ^ (decimals - display)) s.
Proof.
  intros Hknown Hx. destruct (to_client_amount_eq name asset_id decimals display x Hknown Hx) as (d & Hd & Hu).
  exists d. split; [done|]. pose proof (known_range _ _ _ _ Hknown) as [Hr1 Hr2].
  set (g := 10 ^ (decimals - display)) in *. assert (0 < g) by (apply pow10_pos; lia).
  assert (normal_scale d <= display) as Hs.
  { apply scale_spec; [lia|]. rewrite Hu. by eexists. }
  assert (units d = (x - x mod g) * 10 ^ (28 - decimals)) as Hu'.
  { rewrite Hu, (pow10_split (28 - display) (28 - decimals)) by lia.
    replace (28 - display - (28 - decimals)) with (decimals - display) by lia. fold g.
    pose proof (Z.div_mod x g). nia. }
  rewrite (to_internal_amount_known _ _ _ _ _ Hknown). destruct (Z.ltb_spec display (normal_scale d)); [lia|].
  unfold bind. rewrite (scaled_ok d decimals display (x - x mod g)); [done|lia..| |done].
  assert (0 <= x mod g < g) by (apply Z.mod_pos_bound; lia).
  assert (x mod g <= x) by (apply Z.mod_le; unfold is_u64 in Hx; lia). unfold is_u64 in *. lia.
Qed.

(** Prices have a scale of their own, and are not cut on the way out. *)
Lemma client_price_eq info p :
  is_u64 p -> 0 <= si_price_decimal info <= 19 ->
  exists d : D, client_price (E := string) (Some info) p s = Ok (Some d) s /\
    units d = p * 10 ^ (28 - si_price_decimal info).
Proof.
  intros Hp Hr. unfold client_price. destruct (checked_pow10_small _ Hr) as [-> _].
  destruct (scale_down (D := D) p _ Hp Hr) as (q & -> & Hq). simpl. rewrite bind_ret. by exists q.
Qed.

Lemma to_internal_price_known symbol info (d : D) :
  get_symbol_info sm symbol = Some info ->
  to_internal_price sm symbol d s =
  if si_price_display_decimal info <? normal_scale d
  then Err ("Price " ++ dec_display d ++ " exceeds max precision " ++ pretty (si_price_display_decimal info))%string s
  else scaled (si_price_decimal info) d "Price decimals overflow" "Price" s.
Proof. intros Hi. unfold to_internal_price. rewrite Hi. simpl. rewrite bind_ret. by destruct (_ <? _). Qed.

(** A balance that a client sees does not come back: what is frozen is taken
    out of what is free, or dropped when there is not enough. *)
Lemma balance_struct_back name asset_id decimals display (a f : D) x y :
  asset_known name asset_id decimals display ->
  to_internal_amount sm name a s = Ok (asset_id, x) s -> to_internal_amount sm name f s = Ok (asset_id, y) s ->
  is_u64 x -> is_u64 y ->
  exists b, to_internal_balance_struct sm (mkClientBalance name a f) s = Ok (mkInternalBalance asset_id b) s /\
    Balance.avail b = (if y <=? x then x - y else x) /\ Balance.frozen b = (if y <=? x then y else 0).
Proof.
  intros _ Ha Hf Hx Hy. unfold to_internal_balance_struct, bind at 1. simpl. rewrite Ha. unfold bind at 1. rewrite Hf.
  unfold left_by. rewrite deposit_eq. unfold default_balance. cbn [Balance.avail Balance.frozen]. rewrite !Z.add_0_l. destruct Hx as [Hx0 Hx1], Hy as [Hy0 Hy1].
  rewrite (proj2 (Z.leb_le x u64_max) Hx1). simpl. rewrite bind_ret. destruct (Z.ltb_spec 0 y).
  - rewrite lock_eq. cbn [Balance.avail Balance.frozen stamp]. rewrite Z.add_0_l, (proj2 (Z.leb_le y u64_max) Hy1).
    destruct (y <=? x); simpl; rewrite bind_ret; by eexists.
  - simpl. rewrite bind_ret. eexists. split; [done|]. simpl. destruct (Z.leb_spec y x); lia.
Qed.
End amounts.

(** ** The laws hold of a decimal arithmetic

    A number is its [units]: the operators are exact where the result has 28
    places and cut it otherwise. *)

Module Units.

Definition t : Type := Z.

Fixpoint trailing_zeros (n : nat) (d : Z) : Z :=
  match n with
  | O => 0
  | S n => if d mod 10 =? 0 then 1 + trailing_zeros n (d / 10) else 0
  end.

Definition bounded (x : Z) : option Z := if Z.abs x <? 2 ^ 96 * ONE then Some x else None.

#[export] Instance units_decimals : Decimals t := {
  from_u64 x := x * ONE;
  dec_mul a b := bounded (Z.quot (a * b) ONE);
  dec_div a b := if b =? 0 then None else bounded (Z.quot (a * ONE) b);
  normal_scale d := 28 - trailing_zeros 28 d;
  dec_positive d := 0 <? d;
  dec_round d := Z.quot d ONE * ONE;
  round_to_zero k d := Z.quot d (10 ^ (28 - k)) * 10 ^ (28 - k);
  to_u64 d := if (0 <=? Z.quot d ONE) && (Z.quot d ONE <=? u64_max) then Some (Z.quot d ONE) else None;
  units d := d;
  dec_display d := pretty d
}.

Lemma trailing_zeros_spec n d j : 0 <= j <= Z.of_nat n -> (j <= trailing_zeros n d <-> (10 ^ j | d)).
Proof.
  revert d j. induction n as [|n IH]; intros d j Hj; simpl.
  - replace j with 0 by lia. split; [intros _; apply Z.divide_1_l|lia].
  - destruct (Z.eqb_spec (d mod 10) 0) as [Hm|Hm].
    + destruct (decide (j = 0)) as [->|Hj0].
      { split; [intros _; apply Z.divide_1_l|]. intros _. pose proof (proj2 (IH (d / 10) 0 ltac:(lia)) (Z.divide_1_l _)). lia. }
      specialize (IH (d / 10) (j - 1) ltac:(lia)).
      assert (d = 10 * (d / 10)) as Hd by (pose proof (Z.div_mod d 10); lia).
      assert (10 ^ j = 10 * 10 ^ (j - 1)) as Hp by (rewrite <- Z.pow_succ_r by lia; f_equal; lia).
      assert ((10 ^ j | d) <-> (10 ^ (j - 1) | d / 10)) as Hj'.
      { rewrite Hp. rewrite Hd at 1. by apply Z.mul_divide_cancel_l. }
      rewrite Hj', <- IH. lia.
    + split; [|intros [q Hq]].
      * intros. replace j with 0 by lia. apply Z.divide_1_l.
      * destruct (decide (j = 0)) as [->|Hj0]; [lia|]. destruct Hm. apply Z.mod_divide; [lia|].
        exists (q * 10 ^ (j - 1)). rewrite Hq. replace j with (Z.succ (j - 1)) at 1 by lia. rewrite Z.pow_succ_r by lia. lia.
Qed.

Lemma trailing_zeros_range n d : 0 <= trailing_zeros n d <= Z.of_nat n.
Proof. revert d. induction n as [|n IH]; intros d; simpl; [lia|]. specialize (IH (d / 10)). destruct (d mod 10 =? 0); lia. Qed.

Lemma representable_bounded n : representable n -> bounded n = Some n.
Proof.
  intros (m & e & He & Hm & ->). unfold bounded, ONE. rewrite (pow10_split 28 (28 - e)), Z.abs_mul by lia.
  pose proof (pow10_pos (28 - e) ltac:(lia)) as Hp. pose proof (pow10_pos (28 - (28 - e)) ltac:(lia)) as Hr.
  rewrite (Z.abs_eq (10 ^ (28 - e))) by lia.
  revert Hm Hp Hr. generalize (2 ^ 96). generalize (10 ^ (28 - e)). generalize (10 ^ (28 - (28 - e))). intros c b a Hm Hb Hc.
  destruct (Z.ltb_spec (Z.abs m * b) (a * (b * c))) as [|Hge]; [done|]. exfalso.
  assert (Z.abs m * b < a * b) by (by apply Z.mul_lt_mono_pos_r).
  assert (a * b * 1 <= a * b * c) by (apply Z.mul_le_mono_nonneg_l; lia). lia.
Qed.

Lemma ONE_pos : 0 < ONE.
Proof. apply pow10_pos. lia. Qed.

Ltac open_units := cbn [units dec_mul dec_div to_u64 normal_scale dec_round from_u64 units_decimals] in *.

#[export] Instance units_laws : DecimalLaws t.
Proof.
  pose proof ONE_pos as Hone. split.
  - done.
  - intros a b n Hn Hr. exists n. split; [|done]. open_units. rewrite Hn, Z.quot_mul by lia. by apply representable_bounded.
  - intros a b Hbig. open_units. unfold bounded.
    rewrite <- (Z.quot_abs (a * b) ONE) by lia. rewrite (Z.abs_eq ONE), Z.quot_div_nonneg by lia.
    assert (2 ^ 96 * ONE <= Z.abs (a * b) / ONE) as Hb by (apply Z.div_le_lower_bound; lia).
    by rewrite (proj2 (Z.ltb_ge _ _) Hb).
  - intros a b n Hb Hn Hr. exists n. split; [|done]. open_units. destruct (Z.eqb_spec b 0); [done|].
    rewrite Hn, Z.quot_mul by done. by apply representable_bounded.
  - intros d e He. open_units. rewrite <- (trailing_zeros_spec 28 d (28 - e)) by lia. lia.
  - intros d. open_units. pose proof (trailing_zeros_range 28 d). lia.
  - done.
  - intros d [q Hq]. open_units. by rewrite Hq, Z.quot_mul by lia.
  - done.
  - intros d x Hd. open_units. by rewrite Hd, Z.quot_mul by lia.
  - intros d x. open_units. unfold is_u64. destruct (Z.leb_spec 0 (Z.quot d ONE)), (Z.leb_spec (Z.quot d ONE) u64_max); simpl; [|done..].
    by intros [= <-].
Qed.
End Units.
