(* ===== verification/ClientOrder.v ===== *)
(** * Orders as clients write them ([models/client_order.rs])

    The checks on a client's order, its conversion to the requests of the engine
    and of the balance authority and back, and [client_order_convertor.rs], which
    gives it an identifier. *)

From stdpp Require Import pretty.
From S2P Require Import Prelude Balance FastUlid OrderModels EngineOutput UbsParts SymbolManager EngineServer Decimal.

#[local] Open Scope string_scope.
#[local] Open Scope list_scope.
#[local] Open Scope Z_scope.
#[local] Open Scope rust_scope.

(** ** Text

    A string is its bytes in UTF-8; what lies beyond ASCII is the business of
    the tables of the standard library. *)

Definition is_ascii (l : list Z) : Prop := Forall (fun c => 0 <= c < 128) l.
Definition ascii_digit (c : Z) : bool := (48 <=? c) && (c <=? 57).
Definition ascii_upper (c : Z) : bool := (65 <=? c) && (c <=? 90).
Definition ascii_lower (c : Z) : bool := (97 <=? c) && (c <=? 122).
Definition ascii_alphanumeric (c : Z) : bool := ascii_digit c || ascii_upper c || ascii_lower c.
Definition ascii_to_upper (c : Z) : Z := if ascii_lower c then c - 32 else c.

Class Unicode := {
  chars : list Z -> list Z;
  is_alphanumeric : Z -> bool;
  to_uppercase : list Z -> list Z
}.

Class UnicodeLaws `{Unicode} : Prop := {
  chars_ascii l : is_ascii l -> chars l = l;
  alphanumeric_ascii c : 0 <= c < 128 -> is_alphanumeric c = ascii_alphanumeric c;
  uppercase_ascii l : is_ascii l -> to_uppercase l = map ascii_to_upper l
}.

Definition underscore : Z := 95.

(** ** The order *)

Record ClientOrder (D : Type) := mkClientOrder {
  co_cid : option string; co_symbol : string; co_side : Side; co_price : D; co_quantity : D;
  co_order_type : OrderType
}.
Arguments mkClientOrder {D}.
Arguments co_cid {D}.
Arguments co_symbol {D}.
Arguments co_side {D}.
Arguments co_price {D}.
Arguments co_quantity {D}.
Arguments co_order_type {D}.

Record ClientRawOrder := mkRawOrder {
  cr_user_id : Z; cr_cid : option string; cr_symbol_id : Z; cr_side : Side; cr_price : Z; cr_price_decimal : Z;
  cr_quantity : Z; cr_quantity_decimal : Z; cr_order_type : OrderType
}.

(** The fields of the crate's [ValidationError] that the code fills. *)
Record ValidationError := mkInvalid { ve_code : string; ve_message : option string }.

Definition invalid (code message : string) : ValidationError + unit := inl (mkInvalid code (Some message)).

Section checks.
Context `{Unicode}.

Definition validate_cid (id : string) : ValidationError + unit :=
  let len := Z.of_nat (String.length id) in
  if (len <? 16) || (32 <? len) then
    invalid "cid_length" ("Client order ID must be between 16 and 32 characters (got " ++ pretty len ++ ")")%string
  else if negb (forallb (fun c => is_alphanumeric c || (c =? underscore)) (chars (bytes_of id))) then
    invalid "cid_alphanumeric" "Client order ID must be alphanumeric (including underscore)"
  else inr tt.

(** [symbol.contains("__")] *)
Fixpoint contains_double (l : list Z) : bool :=
  match l with
  | a :: (b :: _) as l' => ((a =? underscore) && (b =? underscore)) || contains_double l'
  | _ => false
  end.

Definition validate_symbol_bytes (symbol : list Z) : ValidationError + unit :=
  if negb (forallb (fun c => is_alphanumeric c || (c =? underscore)) (chars symbol)) then
    invalid "invalid_symbol_chars" "Symbol must be alphanumeric (including underscore)"
  else if negb (bool_decide (symbol = to_uppercase symbol)) then
    invalid "invalid_symbol_case" "Symbol must be uppercase"
  else if negb (existsb (Z.eqb underscore) symbol) then
    invalid "invalid_symbol_format" "Symbol must contain an underscore"
  else if bool_decide (head symbol = Some underscore) || bool_decide (last symbol = Some underscore) then
    invalid "invalid_symbol_format" "Underscore cannot be at the start or end"
  else if contains_double symbol then
    invalid "invalid_symbol_format" "Symbol cannot contain consecutive underscores"
  else inr tt.

Definition validate_symbol_format (symbol : string) : ValidationError + unit := validate_symbol_bytes (bytes_of symbol).

(** [length(min = 3, max = 24)], which counts characters. *)
Definition validate_length (symbol : string) : ValidationError + unit :=
  let n := Z.of_nat (length (chars (bytes_of symbol))) in
  if (3 <=? n) && (n <=? 24) then inr tt else inl (mkInvalid "length" None).
End checks.

(** ** Operations *)

(** [Display] of the validator's errors, and the parser of JSON. *)
Class OrderText (D : Type) := {
  show_errors : list (string * ValidationError) -> string;
  parse_order : string -> string + ClientOrder D
}.

(** The balance manager is the symbol manager [bm] it holds. *)

Section orders.
Context {D : Type} `{Decimals D} `{Unicode} `{OrderText D} `{Digests} {S : Type}.
Implicit Types (o : ClientOrder D) (sm bm : SymbolManager).

Definition validate_price_decimal (price : D) : ValidationError + unit :=
  if dec_positive price then inr tt else invalid "invalid_price" "Price must be a positive number".

Definition validate_quantity_decimal (quantity : D) : ValidationError + unit :=
  if dec_positive quantity then inr tt else invalid "invalid_quantity" "Quantity must be a positive number".

(** What [#[derive(Validate)]] runs: every check of every field. *)
Definition checks o : list (string * (ValidationError + unit)) :=
  match co_cid o with Some cid => [("cid", validate_cid cid)] | None => [] end ++
  [("symbol", validate_length (co_symbol o)); ("symbol", validate_symbol_format (co_symbol o));
   ("price", validate_price_decimal (co_price o)); ("quantity", validate_quantity_decimal (co_quantity o))].

Definition validate o : list (string * ValidationError) :=
  omap (fun x => match x.2 with inl e => Some (x.1, e) | inr _ => None end) (checks o).

Definition validate_order o : M S string unit :=
  match validate o with [] => ret tt | es => throw (show_errors es) end.

Definition client_order_new cid symbol side price quantity order_type : M S string (ClientOrder D) :=
  let order := mkClientOrder cid symbol side price quantity order_type in
  validate_order order ;;;
  ret order.

Definition from_json (json : string) : M S string (ClientOrder D) :=
  match parse_order json with
  | inl e => throw e
  | inr order => validate_order order ;;; ret order
  end.

Definition validate_with_symbol_manager sm o : M S string unit :=
  validate_order o ;;;
  match get_symbol_info sm (co_symbol o) with
  | None => throw ("Unknown symbol: " ++ co_symbol o)%string
  | Some _ => ret tt
  end.

Definition to_raw_order sm bm (user_id : Z) o : M S string ClientRawOrder :=
  validate_order o ;;;
  let* symbol_info := ok_or (get_symbol_info sm (co_symbol o)) ("Unknown symbol: " ++ co_symbol o)%string in
  let* price := to_internal_price bm (co_symbol o) (co_price o) in
  let* base_asset_id_name := ok_or (get_asset_name sm (si_base_asset_id symbol_info))
                               ("Unknown base asset ID: " ++ pretty (si_base_asset_id symbol_info))%string in
  let* '(_, quantity) := to_internal_amount bm base_asset_id_name (co_quantity o) in
  let quantity_decimals := default 8 (get_asset_decimal sm (si_base_asset_id symbol_info)) in
  ret (mkRawOrder user_id (co_cid o) (si_symbol_id symbol_info) (co_side o) price (si_price_decimal symbol_info)
         quantity quantity_decimals (co_order_type o)).

Definition try_to_internal sm bm (order_id user_id : Z) o : M S string ClientRequest.t :=
  validate_with_symbol_manager sm o ;;;
  let* raw := to_raw_order sm bm user_id o in
  let checksum := calculate_checksum order_id (cr_user_id raw) (as_u32 (cr_symbol_id raw)) (side_as_u8 (cr_side raw))
                    (cr_price raw) (cr_quantity raw) (order_type_as_u8 (cr_order_type raw)) in
  ret (ClientRequest.PlaceOrder order_id (cr_user_id raw) (as_u32 (cr_symbol_id raw)) (cr_side raw) (cr_price raw)
         (cr_quantity raw) (cr_order_type raw) checksum).

Definition to_ubs_internal sm bm (order_id user_id : Z) o : M S string InternalOrder :=
  validate_with_symbol_manager sm o ;;;
  let* raw := to_raw_order sm bm user_id o in
  let side := match cr_side raw with Buy => UbsBuy | Sell => UbsSell end in
  let order_type := match cr_order_type raw with Limit => UbsLimit | Market => UbsMarket end in
  ret (mkInternal order_id (cr_user_id raw) (as_u32 (cr_symbol_id raw)) side (cr_price raw) (cr_quantity raw)
         order_type).

Definition try_from_internal sm bm (request : ClientRequest.t) : M S string (ClientOrder D) :=
  match request with
  | ClientRequest.PlaceOrder _ _ symbol_id side price quantity order_type _ =>
      let unknown := ("Unknown symbol ID: " ++ pretty symbol_id)%string in
      let* symbol := ok_or (get_symbol sm symbol_id) unknown in
      let* symbol_info := ok_or (get_symbol_info_by_id sm symbol_id) unknown in
      let* p := to_client_price_by_id bm symbol_id price in
      let* price_decimal := ok_or p "Failed to convert price" in
      let* q := to_client_amount bm (si_base_asset_id symbol_info) quantity in
      let* quantity_decimal := ok_or q "Failed to convert quantity" in
      ret (mkClientOrder None symbol side price_decimal quantity_decimal order_type)
  | _ => throw "Only PlaceOrder can be converted to ClientOrder"
  end.
End orders.

(** ** [client_order_convert]

    The generator of identifiers is behind a mutex; the status of every error is
    [BAD_REQUEST]. *)

Definition BAD_REQUEST : Z := 400.

Section convert.
Context {D : Type} `{Decimals D} `{Unicode} `{OrderText D} `{Digests}.
Context {bp : BuildProfile} `{SequenceStrategy R}.

Definition client_order_convert (sm bm : SymbolManager) (clock user_id : Z) (client_order : ClientOrder D)
  : M (SnowflakeGen R) (Z * string) (Z * InternalOrder) :=
  map_err (fun e => (BAD_REQUEST, e)) (validate_order client_order) ;;;
  let* order_id := map_err (fun e : Empty_set => match e with end) (snowflake_generate clock) in
  let* internal_order := map_err (fun e => (BAD_REQUEST, e)) (to_ubs_internal sm bm order_id user_id client_order) in
  ret (order_id, internal_order).
End convert.
