(* ===== verification/ClientOrderProofs.v ===== *)
(** * Properties of the orders clients write

    The symbols that are accepted, and the way of an order to the engine and
    back. *)

From S2P Require Import Prelude Balance FastUlid OrderModels EngineOutput UbsParts SymbolManager EngineServer Decimal ClientOrder.

#[local] Open Scope string_scope.
#[local] Open Scope list_scope.
#[local] Open Scope Z_scope.
#[local] Open Scope rust_scope.

(** ** The grammar of symbols

    Words of capitals and digits, separated by single underscores. *)

Definition capital_or_digit (c : Z) : Prop := ascii_upper c = true \/ ascii_digit c = true.

Definition word (w : list Z) : Prop := w <> [] /\ Forall capital_or_digit w.

Inductive words : nat -> list Z -> Prop :=
  | words_one w : word w -> words 1 w
  | words_more w n l : word w -> words n l -> words (S n) (w ++ underscore :: l).

Lemma capital_or_digit_not_underscore c : capital_or_digit c -> c <> underscore.
Proof. unfold capital_or_digit, ascii_upper, ascii_digit, underscore. intros [Hc|Hc] ->; done. Qed.

Lemma ascii_test c :
  0 <= c < 128 ->
  (ascii_alphanumeric c || (c =? underscore) = true /\ c = ascii_to_upper c <-> capital_or_digit c \/ c = underscore).
Proof.
  intros Hc. unfold ascii_alphanumeric, capital_or_digit, ascii_to_upper, ascii_upper, ascii_digit, ascii_lower, underscore.
  destruct (Z.leb_spec 48 c), (Z.leb_spec c 57), (Z.leb_spec 65 c), (Z.leb_spec c 90), (Z.leb_spec 97 c), (Z.leb_spec c 122),
    (Z.eqb_spec c 95); simpl; intuition (try lia; try congruence; auto).
Qed.

(** The placement of underscores, for a list of capitals, digits and underscores. *)
Definition placed (l : list Z) : Prop :=
  head l <> Some underscore /\ last l <> Some underscore /\ contains_double l = false.

Lemma words_cons c d n l : capital_or_digit c -> capital_or_digit d -> words n (d :: l) -> words n (c :: d :: l).
Proof.
  intros Hc Hd Hw. inversion Hw as [w [_ Hall]|w m l' [Hne Hall] Hl]; subst.
  - apply words_one. split; [done|]. by constructor.
  - destruct w as [|d' w]; [done|]. simpl in *. simplify_eq. rewrite app_comm_cons. rewrite app_comm_cons.
    apply words_more; [|done]. split; [done|]. by constructor.
Qed.

Lemma placed_words l :
  l <> [] -> Forall (fun c => capital_or_digit c \/ c = underscore) l -> placed l ->
  exists n, words n l /\ (underscore ∈ l -> (2 <= n)%nat).
Proof.
  induction l as [l IH] using (induction_ltof1 _ length). unfold ltof in IH. intros Hne Hall (Hhd & Hlast & Hdouble).
  destruct l as [|c l]; [done|]. apply Forall_cons in Hall as [[Hc| ->] Hall]; [|by destruct Hhd].
  destruct l as [|d l].
  - exists 1%nat. split; [apply words_one; split; [done|by constructor]|].
    intros <-%list_elem_of_singleton. by apply capital_or_digit_not_underscore in Hc.
  - simpl in Hdouble. apply orb_false_iff in Hdouble as [_ Hdouble]. destruct (decide (d = underscore)) as [->|Hd].
    + destruct l as [|e l]; [by destruct Hlast|]. apply Forall_cons in Hall as [_ Hall].
      simpl in Hdouble. apply orb_false_iff in Hdouble as [He Hdouble].
      destruct (IH (e :: l)) as (n & Hn & _); [simpl; lia|done|done| |].
      { split; [|done]. simpl. intros [= ->]. by rewrite Z.eqb_refl in He. }
      exists (S n). split; [|intros _; destruct Hn; lia].
      apply (words_more [c]); [|done]. split; [done|by constructor].
    + assert (capital_or_digit d) as Hcd by (apply Forall_cons in Hall as [[?|?] _]; done).
      destruct (IH (d :: l)) as (n & Hn & H2); [simpl; lia|done|done| |].
      { split; [simpl; congruence|]. done. }
      exists n. split; [by apply words_cons|]. intros [<-|Hin]%elem_of_cons; [by apply capital_or_digit_not_underscore in Hc|auto].
Qed.

Lemma word_no_double w l : Forall capital_or_digit w -> contains_double (w ++ l) = contains_double l.
Proof.
  induction w as [|c w IH]; intros Hw; [done|]. apply Forall_cons in Hw as [Hc Hw].
  rewrite <- (IH Hw). simpl. destruct (w ++ l) as [|d t]; [done|].
  apply capital_or_digit_not_underscore in Hc. by rewrite (proj2 (Z.eqb_neq _ _) Hc).
Qed.

Lemma words_placed n l :
  words n l -> l <> [] /\ Forall (fun c => capital_or_digit c \/ c = underscore) l /\ placed l /\
  ((2 <= n)%nat -> underscore ∈ l).
Proof.
  unfold placed. induction 1 as [w [Hne Hall]|w n l [Hne Hall] Hl (IHne & IHall & (IHh & IHl & IHd) & _)].
  - split_and!; [done|by eapply Forall_impl; [|intros ? ?; left]| | | |lia].
    + destruct w as [|c w]; [done|]. apply Forall_cons in Hall as [Hc _]. intros [= ->]. by apply capital_or_digit_not_underscore in Hc.
    + intros Hlast. apply last_Some_elem_of in Hlast. rewrite Forall_forall in Hall.
      by apply Hall, capital_or_digit_not_underscore in Hlast.
    + rewrite <- (app_nil_r w), word_no_double by done. done.
  - split_and!.
    + by destruct w.
    + apply Forall_app. split; [by eapply Forall_impl; [|intros ? ?; left]|]. constructor; [by right|done].
    + destruct w as [|c w]; [done|]. apply Forall_cons in Hall as [Hc _]. intros [= ->]. by apply capital_or_digit_not_underscore in Hc.
    + rewrite last_app_cons. destruct l; [done|]. by rewrite last_cons_cons.
    + rewrite word_no_double by done. destruct l as [|c l]; [done|]. simpl in *.
      destruct (Z.eqb_spec c underscore) as [->|]; [done|done].
    + intros _. apply elem_of_app. right. constructor.
Qed.

Section grammar.
Context `{UnicodeLaws}.

(** The symbols of ASCII text that pass the checks are exactly two or more
    words of capitals and digits joined by single underscores. *)
Theorem symbol_grammar l :
  is_ascii l -> (validate_symbol_bytes l = inr tt <-> exists n, (2 <= n)%nat /\ words n l).
Proof.
  intros Hascii. unfold validate_symbol_bytes, invalid.
  assert (forallb (fun c => is_alphanumeric c || (c =? underscore)) (chars l) = true /\ l = to_uppercase l <->
          Forall (fun c => capital_or_digit c \/ c = underscore) l) as Hchars.
  { rewrite chars_ascii, uppercase_ascii by done. clear -Hascii H0.
    induction Hascii as [|c l Hc Hl IH]; simpl; [done|]. rewrite Forall_cons, <- IH, <- ascii_test by done.
    rewrite andb_true_iff, alphanumeric_ascii by done. intuition congruence. }
  split.
  - destruct (forallb _ _); [|done]. destruct (bool_decide_reflect (l = to_uppercase l)) as [Hup|]; [|done].
    destruct (existsb _ _) eqn:Hex; [|done]. case_bool_decide; [done|].
    case_bool_decide; [done|].
    destruct (contains_double l) eqn:Hdouble; [done|]. intros _.
    apply existsb_exists in Hex as (c & Hin & ->%Z.eqb_eq%symmetry). apply list_elem_of_In in Hin.
    destruct (placed_words l) as (n & Hn & Hge); [|by apply Hchars|done|exists n; auto].
    intros ->. by apply not_elem_of_nil in Hin.
  - intros (n & H2 & Hn). destruct (words_placed n l Hn) as (Hne & Hall & (Hh & Hla & Hd) & Hin).
    apply Hchars in Hall as [-> Hup]. rewrite (bool_decide_eq_true_2 _ Hup). simpl.
    replace (existsb (Z.eqb underscore) l) with true.
    2: { symmetry. apply existsb_exists. exists underscore. split; [by apply list_elem_of_In, Hin|by apply Z.eqb_refl]. }
    simpl. by rewrite (bool_decide_eq_false_2 _ Hh), (bool_decide_eq_false_2 _ Hla), Hd.
Qed.
End grammar.

(** ** The way to the engine and back *)

Section trip.
Context {D : Type} `{DecimalLaws D} `{Unicode} `{OrderText D} `{Digests} {S : Type} (sm : SymbolManager) (s : S).
Implicit Types o : ClientOrder D.

(** What is known of a symbol and of the asset its quantities count. *)
Record symbol_known (symbol : string) (info : SymbolInfo) (base : string) (decimals display : Z) : Prop := {
  known_info : get_symbol_info sm symbol = Some info;
  known_symbol : si_symbol info = symbol;
  known_back : get_symbol sm (si_symbol_id info) = Some symbol;
  known_by_id : get_symbol_info_by_id sm (si_symbol_id info) = Some info;
  known_u32 : 0 <= si_symbol_id info < 4294967296;
  known_price : 0 <= si_price_display_decimal info <= si_price_decimal info /\ si_price_decimal info <= 19;
  known_base : asset_known sm base (si_base_asset_id info) decimals display;
  known_name : get_asset_name sm (si_base_asset_id info) = Some base
}.

(** An order whose numbers the exchange can hold: [p] and [q] are its price and
    quantity in the smallest units. *)
Record holds o (info : SymbolInfo) (decimals display p q : Z) : Prop := {
  holds_price : units (co_price o) = p * 10 ^ (28 - si_price_decimal info);
  holds_price_scale : normal_scale (co_price o) <= si_price_display_decimal info;
  holds_quantity : units (co_quantity o) = q * 10 ^ (28 - decimals);
  holds_quantity_scale : normal_scale (co_quantity o) <= display;
  holds_u64 : is_u64 p /\ is_u64 q
}.

Definition raw_of o (info : SymbolInfo) (decimals user_id p q : Z) : ClientRawOrder :=
  mkRawOrder user_id (co_cid o) (si_symbol_id info) (co_side o) p (si_price_decimal info) q decimals (co_order_type o).

Lemma validate_order_accepted o : validate o = [] -> validate_order o s = Ok tt s.
Proof. intros Hv. unfold validate_order. by rewrite Hv. Qed.

Lemma validate_order_refused o : validate o <> [] -> validate_order o s = Err (show_errors (validate o)) s.
Proof. intros Hv. unfold validate_order. by destruct (validate o). Qed.

Lemma to_raw_order_ok o info base decimals display user_id p q :
  symbol_known (co_symbol o) info base decimals display -> validate o = [] -> holds o info decimals display p q ->
  to_raw_order sm sm user_id o s = Ok (raw_of o info decimals user_id p q) s.
Proof.
  intros [Hi _ _ _ _ [Hr1 Hr2] Hb Hn] Hv [Hp Hps Hq Hqs [Hpu Hqu]]. unfold to_raw_order, bind at 1.
  rewrite validate_order_accepted by done. rewrite Hi. simpl. rewrite bind_ret. unfold bind at 1.
  rewrite (to_internal_price_known sm s _ info) by done. destruct (Z.ltb_spec (si_price_display_decimal info) (normal_scale (co_price o))); [lia|].
  rewrite (scaled_ok s _ _ (si_price_display_decimal info) p) by done. rewrite Hn. simpl. rewrite bind_ret. unfold bind at 1.
  pose proof Hb as [_ Hdec _ [Hd1 Hd2]]. rewrite (to_internal_amount_known sm s _ _ _ _ _ Hb).
  destruct (Z.ltb_spec display (normal_scale (co_quantity o))); [lia|]. unfold bind at 1.
  rewrite (scaled_ok s _ _ display q) by done. simpl. by rewrite Hdec.
Qed.

Lemma try_from_internal_ok order_id user_id symbol info base decimals display side p q order_type sum :
  symbol_known symbol info base decimals display -> is_u64 p -> is_u64 q ->
  exists o, try_from_internal sm sm (ClientRequest.PlaceOrder order_id user_id (si_symbol_id info) side p q order_type sum) s = Ok o s /\
    co_cid o = None /\ co_symbol o = symbol /\ co_side o = side /\ co_order_type o = order_type /\
    units (co_price o) = p * 10 ^ (28 - si_price_decimal info) /\
    units (co_quantity o) = (q / 10 ^ (decimals - display)) * 10 ^ (28 - display).
Proof.
  intros [_ _ Hback Hid _ [Hr1 Hr2] Hb _] Hp Hq. unfold try_from_internal. rewrite Hback. simpl. rewrite bind_ret, Hid.
  simpl. rewrite bind_ret. unfold to_client_price_by_id. rewrite Hid.
  destruct (client_price_eq (D := D) s info p Hp) as (d & Hd & Hdu); [lia|]. unfold bind at 1. rewrite Hd. simpl. rewrite bind_ret.
  destruct (to_client_amount_eq (D := D) sm s base _ decimals display q Hb Hq) as (e & He & Heu). unfold bind at 1. rewrite He. simpl.
  rewrite bind_ret. by eexists.
Qed.

Lemma quantity_shown o info base decimals display p q :
  symbol_known (co_symbol o) info base decimals display -> holds o info decimals display p q ->
  (10 ^ (decimals - display) | q).
Proof.
  intros Hk [_ _ Hq Hqs _]. pose proof (known_range _ _ _ _ _ (known_base _ _ _ _ _ Hk)) as [Hr1 Hr2].
  pose proof (scale_spec (co_quantity o) display ltac:(lia)) as Hscale. destruct Hscale as [Hscale _].
  destruct (Hscale Hqs) as [z Hz]. exists z. rewrite Hz in Hq.
  rewrite (pow10_split (28 - display) (28 - decimals)), (Z.mul_comm (10 ^ (28 - decimals))), Z.mul_assoc in Hq by lia.
  replace (28 - display - (28 - decimals)) with (decimals - display) in Hq by lia.
  pose proof (pow10_pos (28 - decimals) ltac:(lia)). apply Z.mul_cancel_r in Hq; lia.
Qed.

Lemma to_ubs_internal_ok o info base decimals display order_id user_id p q :
  symbol_known (co_symbol o) info base decimals display -> validate o = [] -> holds o info decimals display p q ->
  to_ubs_internal sm sm order_id user_id o s =
    Ok (mkInternal order_id user_id (si_symbol_id info)
          (match co_side o with Buy => UbsBuy | Sell => UbsSell end) p q
          (match co_order_type o with Limit => UbsLimit | Market => UbsMarket end)) s.
Proof.
  intros Hk Hv Hh. unfold to_ubs_internal, validate_with_symbol_manager, bind at 1 2. rewrite validate_order_accepted by done.
  rewrite (known_info _ _ _ _ _ Hk). unfold bind at 1. simpl.
  rewrite (to_raw_order_ok o info base decimals display user_id p q) by done. unfold raw_of. simpl.
  unfold as_u32. by rewrite Z.mod_small by apply Hk.
Qed.

(** C30: a valid order whose numbers the exchange can hold (amounts at the
    precision of its symbol, in the 64-bit range) reaches the engine and the
    balance authority with exactly the price and the quantity the client wrote
    as scaled integers, with its symbol, side and type, under the identifier
    that was generated and, for the engine, the checksum the engine checks.
    The request of the engine converted back is the order again, with the same
    symbol, side, type, price and quantity, and without the client's own
    identifier. *)
Theorem order_roundtrip o info base decimals display order_id user_id p q :
  symbol_known (co_symbol o) info base decimals display -> validate o = [] -> holds o info decimals display p q ->
  to_ubs_internal sm sm order_id user_id o s =
    Ok (mkInternal order_id user_id (si_symbol_id info)
          (match co_side o with Buy => UbsBuy | Sell => UbsSell end) p q
          (match co_order_type o with Limit => UbsLimit | Market => UbsMarket end)) s /\
  exists checksum o',
    let request := ClientRequest.PlaceOrder order_id user_id (si_symbol_id info) (co_side o) p q (co_order_type o) checksum in
    try_to_internal sm sm order_id user_id o s = Ok request s /\
    checksum = calculate_checksum order_id user_id (si_symbol_id info) (side_as_u8 (co_side o)) p q
                 (order_type_as_u8 (co_order_type o)) /\
    try_from_internal sm sm request s = Ok o' s /\ co_cid o' = None /\
    co_symbol o' = co_symbol o /\ co_side o' = co_side o /\ co_order_type o' = co_order_type o /\
    units (co_price o') = units (co_price o) /\ units (co_quantity o') = units (co_quantity o).
Proof.
  intros Hk Hv Hh. split; [by eapply to_ubs_internal_ok|]. pose proof (holds_u64 _ _ _ _ _ _ Hh) as [Hpu Hqu].
  destruct (try_from_internal_ok order_id user_id (co_symbol o) info base decimals display (co_side o) p q (co_order_type o)
              (calculate_checksum order_id user_id (si_symbol_id info) (side_as_u8 (co_side o)) p q
                 (order_type_as_u8 (co_order_type o))) Hk Hpu Hqu) as (o' & Ho' & Hcid & Hsym & Hside & Htype & Hprice & Hquantity).
  eexists _, o'. split_and!; [|reflexivity|done|done|done|done|done| |].
  - unfold try_to_internal, validate_with_symbol_manager, bind at 1 2. rewrite validate_order_accepted by done.
    rewrite (known_info _ _ _ _ _ Hk). unfold bind at 1. simpl.
    rewrite (to_raw_order_ok o info base decimals display user_id p q) by done. unfold raw_of. simpl.
    unfold as_u32. by rewrite Z.mod_small by apply Hk.
  - by rewrite Hprice, (holds_price _ _ _ _ _ _ Hh).
  - destruct (quantity_shown _ _ _ _ _ _ _ Hk Hh) as [z ->] eqn:Hz. rewrite Hquantity, (holds_quantity _ _ _ _ _ _ Hh).
    pose proof (known_range _ _ _ _ _ (known_base _ _ _ _ _ Hk)) as [Hr1 Hr2]. pose proof (pow10_pos (decimals - display) ltac:(lia)).
    rewrite Z.div_mul, (pow10_split (28 - display) (28 - decimals)) by lia.
    replace (28 - display - (28 - decimals)) with (decimals - display) by lia. lia.
Qed.

(** A price that is stored with more places than the symbol shows is not cut on
    the way out, and is refused on the way back. *)
Lemma stored_price_comes_back symbol info base decimals display p (d : D) :
  symbol_known symbol info base decimals display -> is_u64 p ->
  to_client_price_by_id (E := string) sm (si_symbol_id info) p s = Ok (Some d) s ->
  if p mod 10 ^ (si_price_decimal info - si_price_display_decimal info) =? 0
  then to_internal_price sm symbol d s = Ok p s
  else exists e, to_internal_price sm symbol d s = Err e s.
Proof.
  intros Hk Hp Hd. pose proof (known_price _ _ _ _ _ Hk) as [Hr1 Hr2].
  unfold to_client_price_by_id in Hd. rewrite (known_by_id _ _ _ _ _ Hk) in Hd.
  destruct (client_price_eq (D := D) s info p Hp) as (d' & Hd' & Hu); [lia|]. rewrite Hd' in Hd. injection Hd as ->.
  rewrite (to_internal_price_known sm s _ info) by apply Hk.
  set (pd := si_price_decimal info) in *. set (pdd := si_price_display_decimal info) in *.
  assert (normal_scale d <= pdd <-> (10 ^ (pd - pdd) | p)) as Hscale.
  { rewrite scale_spec, Hu by lia. rewrite (pow10_split (28 - pdd) (28 - pd)) by lia.
    replace (28 - pdd - (28 - pd)) with (pd - pdd) by lia. rewrite (Z.mul_comm p).
    apply Z.mul_divide_cancel_l. pose proof (pow10_pos (28 - pd) ltac:(lia)). lia. }
  rewrite <- Z.mod_divide in Hscale by (pose proof (pow10_pos (pd - pdd) ltac:(lia)); lia).
  destruct (Z.eqb_spec (p mod 10 ^ (pd - pdd)) 0), (Z.ltb_spec pdd (normal_scale d)); try (exfalso; tauto || lia); [|by eexists].
  by apply (scaled_ok s _ _ pdd).
Qed.
End trip.

(** ** Identifiers *)

Section pure.
Context {D : Type} `{Decimals D} `{Unicode} `{OrderText D} {S : Type} (P : S -> Prop).

#[local] Instance validate_order_pure (o : ClientOrder D) : Preserves P (validate_order o).
Proof. unfold validate_order. destruct (validate o); apply _. Qed.

#[local] Instance scaled_pure dec (d : D) over what : Preserves P (scaled dec d over what).
Proof. unfold scaled. apply _. Qed.

#[local] Instance to_raw_order_pure sm bm user_id (o : ClientOrder D) : Preserves P (to_raw_order sm bm user_id o).
Proof.
  apply preserves_bind; [apply _|intros _]. apply preserves_bind; [apply _|intros info].
  apply preserves_bind.
  { apply preserves_bind; [apply _|intros i]. destruct (_ <? _); apply _. }
  intros price. apply preserves_bind; [apply _|intros name]. apply preserves_bind; [|intros [? ?]; apply _].
  repeat (apply preserves_bind; [apply _|intros ?]). destruct (_ <? _); apply _.
Qed.

#[export] Instance to_ubs_internal_pure sm bm order_id user_id (o : ClientOrder D) :
  Preserves P (to_ubs_internal sm bm order_id user_id o).
Proof.
  apply preserves_bind; [|intros _; apply _]. apply preserves_bind; [apply _|intros _].
  destruct (get_symbol_info _ _); apply _.
Qed.
End pure.

Lemma to_raw_order_user {D : Type} `{Decimals D} `{Unicode} `{OrderText D} {S : Type} sm bm user_id (o : ClientOrder D) (s s' : S) raw :
  to_raw_order sm bm user_id o s = Ok raw s' -> cr_user_id raw = user_id.
Proof.
  intros Ho. do 4 apply bind_inv_ok in Ho as (?&?&_&Ho). apply bind_inv_ok in Ho as ([]&?&_&Ho). by injection Ho as <-.
Qed.

Lemma to_ubs_internal_ids {D : Type} `{Decimals D} `{Unicode} `{OrderText D} {S : Type} sm bm order_id user_id (o : ClientOrder D) (s s' : S) io :
  to_ubs_internal sm bm order_id user_id o s = Ok io s' -> io_order_id io = order_id /\ io_user_id io = user_id.
Proof.
  intros Ho. apply bind_inv_ok in Ho as (_&s1&_&Ho). apply bind_inv_ok in Ho as (raw&s2&Hraw&Ho).
  injection Ho as <- _. split; [done|]. by eapply to_raw_order_user.
Qed.

Section convert.
Context {D : Type} `{Decimals D} `{Unicode} `{OrderText D} `{Digests} {bp : BuildProfile} `{SequenceStrategy R}.

(** What the conversion of a request does to the generator of identifiers: a
    malformed order is a 400 and takes none; any other takes exactly one, also
    when its symbol, price or quantity is then refused, and the order that is
    forwarded carries the identifier that is answered. *)
Theorem convert_takes_identifiers sm bm clock user_id (o : ClientOrder D) (g : SnowflakeGen R) :
  match client_order_convert sm bm clock user_id o g with
  | Ok (order_id, internal) g' =>
      validate o = [] /\ snowflake_generate clock g = Ok order_id g' /\
      io_order_id internal = order_id /\ io_user_id internal = user_id
  | Err (status, message) g' =>
      status = BAD_REQUEST /\
      ((validate o <> [] /\ g' = g /\ message = show_errors (validate o)) \/
       (validate o = [] /\ exists order_id, snowflake_generate clock g = Ok order_id g'))
  | Panic => validate o = []
  end.
Proof.
  unfold client_order_convert, bind at 1, map_err at 1. unfold validate_order. destruct (validate o) as [|e es] eqn:Hv.
  2: { simpl. split; [done|]. by left. }
  simpl. unfold bind at 1, map_err at 1. destruct (snowflake_generate clock g) as [order_id g'|[]|] eqn:Hg; [|done].
  unfold bind, map_err. pose proof (to_ubs_internal_pure (fun x => x = g') sm bm order_id user_id o g') as Hpure.
  destruct (to_ubs_internal sm bm order_id user_id o g') as [io g''|m g''|] eqn:Hio; simpl in *; [| |done].
  - rewrite (Hpure g'' eq_refl eq_refl). by apply to_ubs_internal_ids in Hio as [-> ->].
  - rewrite (Hpure g'' eq_refl eq_refl). split; [done|]. right. split; [done|]. by exists order_id.
Qed.
End convert.

(** ** A concrete order *)

Module Concrete.

#[local] Existing Instance Units.units_decimals.
#[local] Existing Instance Units.units_laws.

#[local] Instance ascii_unicode : Unicode := {
  chars l := l; is_alphanumeric := ascii_alphanumeric; to_uppercase := map ascii_to_upper
}.

#[local] Instance ascii_unicode_laws : UnicodeLaws.
Proof. by split. Qed.

#[local] Instance text : OrderText Units.t := {
  show_errors es := String.concat ", " (map fst es); parse_order _ := inl "no parser"
}.

#[local] Instance digests : Digests := {
  xxh3_64 l := foldl Z.add 0 l; crc32 l := foldl Z.add 0 l mod 4294967296; json_of_input _ := []
}.

(** Half a bitcoin at 50000.25. *)
Definition order : ClientOrder Units.t :=
  mkClientOrder (Some "client_order_000001") "BTC_USDT" Buy (5000025 * 10 ^ 26) (5 * 10 ^ 27) Limit.

Definition btc_usdt : SymbolInfo := mkSymbolInfo "BTC_USDT" 0 1 2 2 2.

Lemma btc_usdt_known : symbol_known load_from_db "BTC_USDT" btc_usdt "BTC" 8 3.
Proof. split; by vm_compute. Qed.

Lemma order_holds : holds order btc_usdt 8 3 5000025 50000000.
Proof. split; try (by vm_compute). all: cbn; unfold is_u64, u64_max; lia. Qed.

Lemma symbol_grammar_witness :
  is_ascii (bytes_of "BTC_USDT") /\ exists n, (2 <= n)%nat /\ words n (bytes_of "BTC_USDT").
Proof.
  assert (is_ascii (bytes_of "BTC_USDT")) as Ha by (repeat constructor; vm_compute; congruence).
  split; [exact Ha|]. apply (symbol_grammar (bytes_of "BTC_USDT") Ha). by vm_compute.
Defined.

Lemma order_roundtrip_witness :
  to_ubs_internal (S := unit) load_from_db load_from_db 77 9 order tt =
    Ok (mkInternal 77 9 0 UbsBuy 5000025 50000000 UbsLimit) tt /\
  exists checksum o',
    let request := ClientRequest.PlaceOrder 77 9 0 Buy 5000025 50000000 Limit checksum in
    try_to_internal (S := unit) load_from_db load_from_db 77 9 order tt = Ok request tt /\
    checksum = calculate_checksum 77 9 0 1 5000025 50000000 1 /\
    try_from_internal load_from_db load_from_db request tt = Ok o' tt /\ co_cid o' = None /\
    co_symbol o' = "BTC_USDT" /\ co_side o' = Buy /\ co_order_type o' = Limit /\
    units (co_price o') = units (co_price order) /\ units (co_quantity o') = units (co_quantity order).
Proof.
  apply (order_roundtrip load_from_db tt order btc_usdt "BTC" 8 3 77 9 5000025 50000000).
  - exact btc_usdt_known.
  - by vm_compute.
  - exact order_holds.
Defined.

(** A stored price with three places where the symbol shows two. *)
Example refused_price :
  let sm := insert_symbol "BTC_USDT" 0 1 2 3 2 (add_asset 1 8 3 "BTC" symbols_new) in
  match to_client_price_by_id (D := Units.t) (E := string) sm 0 1234567 tt with
  | Ok (Some d) _ => is_ok (to_internal_price sm "BTC_USDT" d tt) = false
  | _ => False
  end.
Proof. by vm_compute. Qed.
End Concrete.
