(* ===== verification/SettlementReads.v ===== *)
(** * The queries of the settlement database ([db/settlement_db.rs])

    What the gateway reads: the trades of a user, the active orders, the
    settled trades and the history of a balance, with the order the schema gives
    the rows; the insert of a single trade and its retries.  [SettlementDb] has
    the tables and the statements that write them. *)

From stdpp Require Import sorting.
From S2P Require Import Prelude EngineOutput Ledger SettlementDb.

#[local] Open Scope string_scope.
#[local] Open Scope list_scope.
#[local] Open Scope Z_scope.
#[local] Open Scope rust_scope.

(** ** Partitions

    The rows of a partition come in the order of the two clustering columns,
    both descending; a limit that is not positive is refused. *)

Definition clustering (k : Z * Z * Z * Z) : Z * Z := (k.1.2, k.2).

Definition newer {V} (x y : Z * Z * Z * Z * V) : Prop :=
  (clustering y.1).1 < (clustering x.1).1 \/
  (clustering y.1).1 = (clustering x.1).1 /\ (clustering y.1).2 <= (clustering x.1).2.

#[export] Instance newer_dec {V} : RelDecision (@newer V).
Proof. intros x y. unfold newer. apply _. Defined.

Definition partition_of (user symbol : Z) (k : Z * Z * Z * Z) : bool := (k.1.1.1 =? user) && (k.1.1.2 =? symbol).

Definition rows_of {V} (user symbol : Z) (wanted : V -> bool) (t : gmap (Z * Z * Z * Z) V)
  : list (Z * Z * Z * Z * V) :=
  merge_sort newer (filter (fun r => partition_of user symbol r.1 && wanted r.2) (map_to_list t)).

Definition limited {A} (context : string) (limit : Z) (rows : SettlementDb -> list A) : Db (list A) :=
  let* d := select context in
  if limit <=? 0 then throw context else ret (take (Z.to_nat limit) (rows d)).

(** [for row in rows { out.push(parse(row)?) }] *)
Definition parse_rows {A B} (parse : A -> option B) (context : string) (rows : list A) : Db (list B) :=
  ok_or (mapM parse rows) context.

(** ** Trades of a user *)

Module UserTrade.
Record t := mk {
  user_id : Z; symbol_id : Z; settled_at : Z; trade_id : Z; role : Z; order_id : Z; counterparty_user_id : Z;
  counterparty_order_id : Z; price : Z; quantity : Z; base_asset_id : Z; quote_asset_id : Z;
  output_sequence : Z; match_seq : Z
}.
End UserTrade.

Definition parse_user_trade_row (r : Z * Z * Z * Z * SettlementDb.UserTrade) : option UserTrade.t :=
  let '(user, symbol, at_ms, id, v) := r in
  Some (UserTrade.mk (as_u64 user) (as_u32 symbol) at_ms (as_u64 id) (as_u8 (ut_role v)) (as_u64 (ut_order_id v))
    (as_u64 (ut_counterparty_user_id v)) (as_u64 (ut_counterparty_order_id v)) (as_u64 (ut_price v))
    (as_u64 (ut_quantity v)) (as_u32 (ut_base_asset_id v)) (as_u32 (ut_quote_asset_id v))
    (as_u64 (ut_output_sequence v)) (as_u64 (ut_match_seq v))).

Definition get_user_trades (user_id symbol_id limit : Z) : Db (list UserTrade.t) :=
  let* rows := limited "Failed to query user_trades" limit
                 (fun d => rows_of (as_i64 user_id) (as_i32 symbol_id) (fun _ => true) (user_trades d)) in
  parse_rows parse_user_trade_row "Failed to parse user_trade row" rows.

(** ** Active orders *)

Module ActiveOrder.
Record t := mk {
  user_id : Z; symbol_id : Z; created_at : Z; order_id : Z; side : Z; order_type : Z; price : Z; quantity : Z;
  filled_qty : Z; status : Z; updated_at : Z
}.
End ActiveOrder.

(** A null column is refused. *)
Definition parse_active_order_row (r : Z * Z * Z * Z * SettlementDb.ActiveOrder) : option ActiveOrder.t :=
  let '(user, symbol, created, order, v) := r in
  match ao_order v with
  | None => None
  | Some (side, order_type, price, quantity, filled_qty) =>
      Some (ActiveOrder.mk (as_u64 user) (as_u32 symbol) created (as_u64 order) (as_u8 side) (as_u8 order_type)
        (as_u64 price) (as_u64 quantity) (as_u64 filled_qty) (as_u8 (ao_status v)) (ao_updated_at v))
  end.

(** [status IN (0, 1)] *)
Definition is_open (v : SettlementDb.ActiveOrder) : bool := (ao_status v =? 0) || (ao_status v =? 1).

Definition get_active_orders (user_id symbol_id limit : Z) : Db (list ActiveOrder.t) :=
  let* rows := limited "Failed to query active_orders" limit
                 (fun d => rows_of (as_i64 user_id) (as_i32 symbol_id) is_open (active_orders d)) in
  parse_rows parse_active_order_row "Failed to parse active_order row" rows.

(** ** Settled trades *)

Record TradeVersions := mkVersions {
  tv_buyer_base_version : Z; tv_buyer_quote_version : Z; tv_seller_base_version : Z; tv_seller_quote_version : Z;
  tv_buyer_base_balance_after : Z; tv_buyer_quote_balance_after : Z; tv_seller_base_balance_after : Z;
  tv_seller_quote_balance_after : Z
}.

(** The bind markers of [INSERT_TRADE_CQL], by column, and the fields of
    [SettledTradeRow], which are the columns that the queries select. *)
Definition INSERT_TRADE_COLUMNS : list string :=
  ["trade_date"; "output_sequence"; "trade_id"; "match_seq"; "buy_order_id"; "sell_order_id"; "buyer_user_id";
   "seller_user_id"; "price"; "quantity"; "base_asset_id"; "quote_asset_id"; "buyer_refund"; "seller_refund";
   "settled_at"].

Definition VERSION_COLUMNS : list string :=
  ["buyer_base_version"; "buyer_quote_version"; "seller_base_version"; "seller_quote_version";
   "buyer_base_balance_after"; "buyer_quote_balance_after"; "seller_base_balance_after"; "seller_quote_balance_after"].

Definition SETTLED_TRADE_FIELDS : list string := INSERT_TRADE_COLUMNS ++ VERSION_COLUMNS.

(** The values that [INSERT_TRADE_CQL], the only statement that writes the
    table, left in a row, in the order of its columns. *)
Definition bound_values (id : Z) (r : SettledTrade) : list Z :=
  [st_trade_date r; st_output_sequence r; id; st_match_seq r; st_buy_order_id r; st_sell_order_id r; st_buyer_user_id r;
   st_seller_user_id r; st_price r; st_quantity r; st_base_asset_id r; st_quote_asset_id r; st_buyer_refund r;
   st_seller_refund r; st_settled_at r].

(** A column that no statement wrote is null. *)
Definition cell (id : Z) (r : SettledTrade) (column : string) : option Z :=
  snd <$> List.find (fun c => bool_decide (c.1 = column)) (zip INSERT_TRADE_COLUMNS (bound_values id r)).

(** The columns read into fields that are not [Option]s: a null is refused. *)
Definition stored_versions (id : Z) (r : SettledTrade) : option TradeVersions :=
  match mapM (cell id r) VERSION_COLUMNS with
  | Some [bb; bq; sb; sq; bb_after; bq_after; sb_after; sq_after] =>
      Some (mkVersions bb bq sb sq bb_after bq_after sb_after sq_after)
  | _ => None
  end.

(** What the statement wrote is read back. *)
Lemma cell_bound id r : map (cell id r) INSERT_TRADE_COLUMNS = map Some (bound_values id r).
Proof. reflexivity. Qed.

(** No statement writes the version columns: they are null in every row. *)
Lemma stored_versions_null id r : stored_versions id r = None.
Proof. reflexivity. Qed.

Definition parse_trade_row (x : Z * SettledTrade) : option MatchExecData :=
  let '(id, r) := x in
  match stored_versions id r with
  | None => None
  | Some v =>
      Some (mkMatchExec (as_u64 id) (as_u64 (st_buy_order_id r)) (as_u64 (st_sell_order_id r))
        (as_u64 (st_buyer_user_id r)) (as_u64 (st_seller_user_id r)) (as_u64 (st_price r)) (as_u64 (st_quantity r))
        (as_u32 (st_base_asset_id r)) (as_u32 (st_quote_asset_id r)) (as_u64 (st_buyer_refund r))
        (as_u64 (st_seller_refund r)) (as_u64 (st_match_seq r)) (as_u64 (st_output_sequence r))
        (as_u64 (st_settled_at r)) (as_u64 (tv_buyer_quote_version v)) (as_u64 (tv_buyer_base_version v))
        (as_u64 (tv_seller_base_version v)) (as_u64 (tv_seller_quote_version v))
        (as_u64 (tv_buyer_quote_balance_after v)) (as_u64 (tv_buyer_base_balance_after v))
        (as_u64 (tv_seller_base_balance_after v)) (as_u64 (tv_seller_quote_balance_after v)))
  end.

Definition get_trade_by_id (id : Z) : Db (option MatchExecData) :=
  let* d := select "Failed to query trade by ID" in
  match settled_trades d !! as_i64 id with
  | None => ret None
  | Some r => let* t := ok_or (parse_trade_row (as_i64 id, r)) "Failed to parse row into SettledTradeRow" in ret (Some t)
  end.

(** The rows of a query by another column than the key, in the order of the
    map; no claim depends on it. *)
Definition trades_where (wanted : SettledTrade -> bool) (d : SettlementDb) : list (Z * SettledTrade) :=
  filter (fun r => wanted r.2) (map_to_list (settled_trades d)).

(** [trades.sort_by(|a, b| b.output_sequence.cmp(&a.output_sequence))] *)
Definition later (a b : MatchExecData) : Prop := output_sequence b <= output_sequence a.

#[export] Instance later_dec : RelDecision later.
Proof. intros a b. unfold later. apply _. Defined.

(** [limit as usize] of a positive limit. *)
Definition get_trades_by_user (user_id limit : Z) : Db (list MatchExecData) :=
  let* bought := limited "Failed to query trades by buyer" limit (trades_where (fun r => st_buyer_user_id r =? as_i64 user_id)) in
  let* sold := limited "Failed to query trades by seller" limit (trades_where (fun r => st_seller_user_id r =? as_i64 user_id)) in
  let* b := parse_rows parse_trade_row "Failed to parse row into SettledTradeRow" bought in
  let* s := parse_rows parse_trade_row "Failed to parse row into SettledTradeRow" sold in
  ret (take (Z.to_nat limit) (merge_sort later (b ++ s))).

Definition trade_exists (id : Z) : Db bool :=
  let* d := select "Failed to check if trade exists" in
  ret (bool_decide (is_Some (settled_trades d !! as_i64 id))).

(** ** Retries *)

Definition MAX_RETRIES : nat := 3.

(** [retry_with_backoff], with the number of attempts left after this one. *)
Fixpoint retry {A} (remaining : nat) (operation : Db A) : Db A :=
  fun d =>
    match operation d with
    | Err e d' => match remaining with
                  | O => Err "Operation failed after 3 attempts" d'
                  | S remaining => retry remaining operation d'
                  end
    | r => r
    end.

Definition retry_with_backoff {A} (operation : Db A) : Db A := retry MAX_RETRIES operation.

(** The time of the row is the clock's, not the trade's. *)
Definition settled_row (trade_date now : Z) (t : MatchExecData) : SettlementDb -> SettlementDb :=
  insert_settled trade_date
    (mkMatchExec (trade_id t) (buy_order_id t) (sell_order_id t) (buyer_user_id t) (seller_user_id t) (price t)
       (quantity t) (base_asset_id t) (quote_asset_id t) (buyer_refund t) (seller_refund t) (match_seq t)
       (output_sequence t) now (buyer_quote_version t) (buyer_base_version t) (seller_base_version t)
       (seller_quote_version t) (buyer_quote_balance_after t) (buyer_base_balance_after t)
       (seller_base_balance_after t) (seller_quote_balance_after t)).

Definition insert_trade (t : MatchExecData) (trade_date now : Z) : Db unit :=
  retry_with_backoff (execute "" [settled_row trade_date now t]).

(** ** The history of a balance *)

Definition newer_row (x y : Z * LedgerRow) : Prop := y.1 <= x.1.

#[export] Instance newer_row_dec : RelDecision newer_row.
Proof. intros x y. unfold newer_row. apply _. Defined.

Definition history_rows (user asset : Z) (d : SettlementDb) : list (Z * LedgerRow) :=
  merge_sort newer_row (omap (fun x => (fun s => (s, x.2)) <$> seq_of user asset x.1) (map_to_list (balance_ledger d))).

Definition get_balance_history (user_id asset_id limit : Z) : Db (list (Z * LedgerRow)) :=
  limited "" (as_i32 limit) (history_rows (as_i64 user_id) (as_i32 asset_id)).
