(* ===== verification/SettlementReadsProofs.v ===== *)
(** * What the settlement database answers

    The list of a user's active orders against the life of the orders, and what
    becomes of the queries on settled trades. *)

From stdpp Require Import sorting.
From S2P Require Import Prelude EngineOutput Ledger SettlementDb SettlementDbProofs SettlementReads.

#[local] Open Scope string_scope.
#[local] Open Scope list_scope.
#[local] Open Scope Z_scope.
#[local] Open Scope rust_scope.

(** ** Lists of rows *)

#[export] Instance newer_total {V} : Total (@newer V).
Proof. intros x y. unfold newer. lia. Qed.

#[export] Instance newer_transitive {V} : Transitive (@newer V).
Proof. intros x y z. unfold newer. lia. Qed.

Lemma rows_of_spec {V} user symbol (wanted : V -> bool) t k v :
  (k, v) ∈ rows_of user symbol wanted t <->
  t !! k = Some v /\ partition_of user symbol k = true /\ wanted v = true.
Proof.
  unfold rows_of. rewrite (merge_sort_Permutation newer), list_elem_of_filter, elem_of_map_to_list. simpl.
  rewrite Is_true_true, andb_true_iff. tauto.
Qed.

Lemma rows_of_NoDup {V} user symbol (wanted : V -> bool) t : NoDup (rows_of user symbol wanted t).
Proof. unfold rows_of. rewrite (merge_sort_Permutation newer). apply NoDup_filter, NoDup_map_to_list. Qed.

Lemma rows_of_sorted {V} user symbol (wanted : V -> bool) t : StronglySorted newer (rows_of user symbol wanted t).
Proof. apply (StronglySorted_merge_sort newer). Qed.

Lemma Forall2_elem_r {A B} (R : A -> B -> Prop) l k y : Forall2 R l k -> y ∈ k -> exists x, x ∈ l /\ R x y.
Proof.
  intros Hl (i & Hi)%list_elem_of_lookup. destruct (Forall2_lookup_r R l k i y Hl Hi) as (x & Hx & Hxy).
  exists x. split; [by eapply list_elem_of_lookup_2|done].
Qed.

Lemma Forall2_elem_l {A B} (R : A -> B -> Prop) l k x : Forall2 R l k -> x ∈ l -> exists y, y ∈ k /\ R x y.
Proof.
  intros Hl (i & Hi)%list_elem_of_lookup. destruct (Forall2_lookup_l R l k i x Hl Hi) as (y & Hy & Hxy).
  exists y. split; [by eapply list_elem_of_lookup_2|done].
Qed.

Lemma Forall2_NoDup {A B} (R : A -> B -> Prop) l k :
  Forall2 R l k -> NoDup l -> (forall x x' y, x ∈ l -> x' ∈ l -> R x y -> R x' y -> x = x') -> NoDup k.
Proof.
  induction 1 as [|x y l k Hxy Hl IH]; intros Hnd Hinj; [constructor|].
  apply NoDup_cons in Hnd as [Hx Hnd]. constructor.
  - intros Hy. destruct (Forall2_elem_r R l k y Hl Hy) as (x' & Hx' & Hx'y).
    apply Hx. by rewrite (Hinj x x' y) by (done || (by left) || (by right)).
  - apply IH; [done|]. intros. eapply Hinj; by (right || done).
Qed.

Lemma Forall2_sorted {A B} (R : A -> B -> Prop) (S : A -> A -> Prop) (T : B -> B -> Prop) l k :
  Forall2 R l k -> StronglySorted S l -> (forall x x' y y', S x x' -> R x y -> R x' y' -> T y y') ->
  StronglySorted T k.
Proof.
  intros Hl Hs HT. revert k Hl. induction Hs as [|x l Hs IH Hx]; intros k Hl; inversion Hl as [|? y ? k' Hxy Hl']; subst; constructor.
  - by apply IH.
  - apply Forall_forall. intros y' Hy'. destruct (Forall2_elem_r R l k' y' Hl' Hy') as (x' & Hx' & Hx'y).
    rewrite Forall_forall in Hx. eauto.
Qed.

(** ** The life of an order *)

Inductive LifeOp :=
  | Placed (p : OrderPlacement)
  | Completed (id : Z) (reason : CompletionReason) (at_ms : Z).

Definition life_op (op : LifeOp) : Db unit :=
  match op with
  | Placed p => insert_active_order p
  | Completed id reason at_ms => mark_order_complete id reason at_ms
  end.

(** The orders that are open: a placement opens, a completion closes what is
    open and does nothing else. *)
Definition open_step (m : gmap Z OrderPlacement) (op : LifeOp) : gmap Z OrderPlacement :=
  match op with
  | Placed p => <[pl_order_id p := p]> m
  | Completed id _ _ => delete id m
  end.

Definition open_after (ops : list LifeOp) : gmap Z OrderPlacement := foldl open_step ∅ ops.

Definition is_u32 (x : Z) : Prop := 0 <= x < 4294967296.
Definition is_u8 (x : Z) : Prop := 0 <= x < 256.

Definition typed_placement (p : OrderPlacement) : Prop :=
  is_u64 (pl_order_id p) /\ is_u64 (pl_user_id p) /\ is_u32 (pl_symbol_id p) /\ is_u8 (pl_side p) /\
  is_u8 (pl_order_type p) /\ is_u64 (pl_price p) /\ is_u64 (pl_quantity p).

(** Values in their types, and no identifier placed twice. *)
Fixpoint life_wf (seen : list Z) (ops : list LifeOp) : Prop :=
  match ops with
  | [] => True
  | Placed p :: ops => typed_placement p /\ pl_order_id p ∉ seen /\ life_wf (pl_order_id p :: seen) ops
  | Completed id _ _ :: ops => is_u64 id /\ life_wf seen ops
  end.

Definition empty_db : SettlementDb := mkDb ∅ ∅ ∅ ∅ ∅ ∅ [].

(** What the client of the database sees of an open order. *)
Definition view (p : OrderPlacement) : ActiveOrder.t :=
  ActiveOrder.mk (pl_user_id p) (pl_symbol_id p) (as_i64 (pl_created_at p)) (pl_order_id p) (pl_side p)
    (pl_order_type p) (pl_price p) (pl_quantity p) 0 0 (as_i64 (pl_created_at p)).

Definition order_key (p : OrderPlacement) : Z * Z * Z * Z :=
  (as_i64 (pl_user_id p), as_i32 (pl_symbol_id p), as_i64 (pl_created_at p), as_i64 (pl_order_id p)).

Definition order_content (p : OrderPlacement) : Z * Z * Z * Z * Z :=
  (pl_side p, pl_order_type p, as_i64 (pl_price p), as_i64 (pl_quantity p), 0).

Record tracks (d : SettlementDb) (placed open : gmap Z OrderPlacement) : Prop := {
  tracks_answers : answers d = [];
  tracks_typed i p : placed !! i = Some p -> pl_order_id p = i /\ typed_placement p;
  tracks_open i p : open !! i = Some p -> placed !! i = Some p;
  tracks_row i p : placed !! i = Some p -> exists v, active_orders d !! order_key p = Some v /\
    ao_order v = Some (order_content p) /\
    (if decide (is_Some (open !! i)) then ao_status v = 0 /\ ao_updated_at v = as_i64 (pl_created_at p) else is_open v = false);
  tracks_back k v : active_orders d !! k = Some v -> exists p, placed !! pl_order_id p = Some p /\ k = order_key p;
  tracks_lookup i p : placed !! i = Some p ->
    order_lookup d !! as_i64 i = Some (as_i64 (pl_user_id p), as_i32 (pl_symbol_id p), as_i64 (pl_created_at p));
  tracks_lookup_back x y : order_lookup d !! x = Some y -> exists p, placed !! pl_order_id p = Some p /\ x = as_i64 (pl_order_id p)
}.

Lemma as_i64_inj x y : is_u64 x -> is_u64 y -> as_i64 x = as_i64 y -> x = y.
Proof. intros Hx Hy Heq. by rewrite <- (as_u64_i64 x), <- (as_u64_i64 y), Heq. Qed.

Lemma tracks_empty : tracks empty_db ∅ ∅.
Proof. split; intros; done. Qed.

Lemma tracks_place d placed open p :
  tracks d placed open -> typed_placement p -> placed !! pl_order_id p = None ->
  exists d', insert_active_order p d = Ok tt d' /\
    tracks d' (<[pl_order_id p := p]> placed) (<[pl_order_id p := p]> open).
Proof.
  intros [Ha Ht Ho Hr Hb Hl Hlb] Hp Hnew. unfold insert_active_order, execute, bind, get, put. rewrite Ha. simpl. rewrite Ha.
  eexists. split; [done|]. pose proof Hp as [Hid _].
  assert (forall i q, placed !! i = Some q -> as_i64 (pl_order_id p) <> as_i64 i) as Hfresh.
  { intros i q Hq Heq. destruct (Ht i q Hq) as [<- [Hqid _]]. apply as_i64_inj in Heq; [|done..]. congruence. }
  split; simpl; try done.
  - intros i q. rewrite lookup_insert_Some. intros [[<- <-]|[_ Hq]]; [done|by apply Ht].
  - intros i q. rewrite !lookup_insert_Some. naive_solver.
  - intros i q. rewrite lookup_insert_Some. intros [[<- <-]|[Hne Hq]].
    + eexists. rewrite lookup_insert_eq. split; [done|]. split; [done|]. by rewrite decide_True by by rewrite lookup_insert_eq.
    + destruct (Hr i q Hq) as (v & Hv & Hc & Hs). exists v. rewrite !lookup_insert_ne by
        (done || (intros [= _ _ _ Heq]; destruct (Ht i q Hq) as [<- _]; by apply (Hfresh (pl_order_id q) q Hq))). done.
  - intros k v. rewrite lookup_insert_Some. intros [[<- _]|[_ Hv]]; [exists p; by rewrite lookup_insert_eq|].
    destruct (Hb k v Hv) as (q & Hq & ->). exists q. rewrite lookup_insert_ne by (intros Heq; congruence). done.
  - intros i q. rewrite lookup_insert_Some. intros [[<- <-]|[Hne Hq]]; [by rewrite lookup_insert_eq|].
    rewrite lookup_insert_ne by by apply (Hfresh i q). by apply Hl.
  - intros x y. rewrite lookup_insert_Some. intros [[<- _]|[_ Hy]]; [exists p; by rewrite lookup_insert_eq|].
    destruct (Hlb x y Hy) as (q & Hq & ->). exists q. rewrite lookup_insert_ne by (intros Heq; congruence). done.
Qed.

Lemma is_open_completed reason v at_ms : is_open (mkActive v (completion_status reason) at_ms) = false.
Proof. by destruct reason. Qed.

Lemma tracks_complete d placed open id reason at_ms :
  tracks d placed open -> is_u64 id ->
  exists d', mark_order_complete id reason at_ms d = Ok tt d' /\ tracks d' placed (delete id open).
Proof.
  intros Htr Hid. pose proof Htr as [Ha Ht Ho Hr Hb Hl Hlb].
  unfold mark_order_complete, select, execute, bind, get, put. rewrite Ha. simpl.
  destruct (order_lookup d !! as_i64 id) as [[[u s] c]|] eqn:Hlook.
  - destruct (Hlb _ _ Hlook) as (p & Hp & Heq). destruct (Ht _ _ Hp) as [_ Htp]. apply as_i64_inj in Heq; [|done|apply Htp].
    subst id. rewrite (Hl _ _ Hp) in Hlook. injection Hlook as <- <- <-. rewrite Ha.
    eexists. split; [done|]. change (as_i64 (pl_user_id p), as_i32 (pl_symbol_id p), as_i64 (pl_created_at p), as_i64 (pl_order_id p)) with (order_key p).
    destruct (Hr _ _ Hp) as (v & Hv & Hc & _). split; simpl; try done.
    + intros i q. rewrite lookup_delete_Some. intros [_ Hq]. by apply Ho.
    + intros i q Hq. destruct (decide (i = pl_order_id p)) as [->|Hne].
      * assert (q = p) as -> by congruence. eexists. rewrite lookup_partial_alter_eq, Hv. split; [done|]. simpl. split; [done|].
        rewrite decide_False by (rewrite lookup_delete_eq; by intros [? ?]). apply is_open_completed.
      * destruct (Hr i q Hq) as (v' & Hv' & Hc' & Hs'). exists v'. rewrite lookup_partial_alter_ne, lookup_delete_ne by
          (done || (intros [= _ _ _ Heq]; destruct (Ht i q Hq) as [<- [Hqid _]]; apply as_i64_inj in Heq; [congruence|apply Htp|done])). done.
    + intros k w. destruct (decide (k = order_key p)) as [->|Hne]; [intros _; by exists p|].
      rewrite lookup_partial_alter_ne by done. apply Hb.
  - exists d. split; [done|]. assert (open !! id = None) as Hnone.
    { destruct (open !! id) as [p|] eqn:Hp; [|done]. apply Ho in Hp. apply Hl in Hp. congruence. }
    by rewrite delete_id.
Qed.

Lemma run_tracks ops seen d placed open :
  tracks d placed open -> life_wf seen ops -> (forall i, is_Some (placed !! i) -> i ∈ seen) ->
  exists d' placed', iter life_op ops d = Ok tt d' /\ tracks d' placed' (foldl open_step open ops).
Proof.
  revert seen d placed open. induction ops as [|[p|id reason at_ms] ops IH]; intros seen d placed open Htr Hwf Hseen.
  - by exists d, placed.
  - destruct Hwf as (Hp & Hnew & Hwf). destruct (tracks_place d placed open p) as (d1 & Hd1 & Htr1); [done|done| |].
    { destruct (placed !! pl_order_id p) eqn:Hpl; [|done]. destruct Hnew. apply Hseen. by rewrite Hpl. }
    simpl. unfold bind. rewrite Hd1. apply (IH (pl_order_id p :: seen) d1 (<[pl_order_id p := p]> placed)); [done|done|].
    intros i. rewrite lookup_insert_is_Some'. intros [<-|Hi]; [by left|right; by apply Hseen].
  - destruct Hwf as (Hid & Hwf). destruct (tracks_complete d placed open id reason at_ms Htr Hid) as (d1 & Hd1 & Htr1).
    simpl. unfold bind. rewrite Hd1. by apply (IH seen d1 placed).
Qed.

Lemma as_u8_id x : is_u8 x -> as_u8 x = x.
Proof. intros Hx. apply Z.mod_small, Hx. Qed.

Lemma parse_view p v :
  typed_placement p -> ao_order v = Some (order_content p) -> ao_status v = 0 -> ao_updated_at v = as_i64 (pl_created_at p) ->
  parse_active_order_row (order_key p, v) = Some (view p).
Proof.
  intros (Hid & Hu & Hs & Hside & Htype & Hprice & Hq) Hc Hst Hup. unfold parse_active_order_row, order_key. rewrite Hc. unfold order_content, view.
  by rewrite !as_u64_i64, as_u32_i32, !as_u8_id, Hst, Hup by done.
Qed.

Lemma as_i32_inj x y : is_u32 x -> is_u32 y -> as_i32 x = as_i32 y -> x = y.
Proof. intros Hx Hy Heq. by rewrite <- (as_u32_i32 x), <- (as_u32_i32 y), Heq. Qed.

(** The open rows of a user and a symbol, parsed. *)
Lemma parsed_rows d placed open user symbol :
  tracks d placed open -> is_u64 user -> is_u32 symbol ->
  exists L, Forall2 (fun r a => parse_active_order_row r = Some a)
              (rows_of (as_i64 user) (as_i32 symbol) is_open (active_orders d)) L /\
    NoDup L /\ StronglySorted (fun a b => ActiveOrder.created_at b <= ActiveOrder.created_at a) L /\
    forall a, a ∈ L <-> exists i p, open !! i = Some p /\ pl_user_id p = user /\ pl_symbol_id p = symbol /\ a = view p.
Proof.
  intros [Ha Ht Ho Hr Hb Hl Hlb] Hu Hs. set (rows := rows_of _ _ _ _).
  assert (forall r, r ∈ rows -> exists p, open !! pl_order_id p = Some p /\ typed_placement p /\ r.1 = order_key p /\
            pl_user_id p = user /\ pl_symbol_id p = symbol /\ parse_active_order_row r = Some (view p)) as Hrows.
  { intros [k v] (Hv & Hpart & Hopen)%rows_of_spec. destruct (Hb k v Hv) as (p & Hp & ->).
    destruct (Ht _ _ Hp) as [_ Htp]. destruct (Hr _ _ Hp) as (v' & Hv' & Hc & Hst). assert (v' = v) as -> by congruence.
    destruct (decide (is_Some (open !! pl_order_id p))) as [[q Hq]|]; [|congruence].
    assert (q = p) as -> by (apply Ho in Hq; congruence). destruct Hst as [Hst Hup].
    unfold partition_of, order_key in Hpart. apply andb_true_iff in Hpart as [Hpu%Z.eqb_eq Hps%Z.eqb_eq]. simpl in Hpu, Hps.
    destruct Htp as (? & Htu & Hts & ?). exists p. split_and!; try done; [by apply as_i64_inj|by apply as_i32_inj|by apply parse_view]. }
  assert (exists L, Forall2 (fun r a => parse_active_order_row r = Some a) rows L) as [L HL].
  { assert (Forall (fun r => is_Some (parse_active_order_row r)) rows) as Hall.
    { apply Forall_forall. intros r Hin. destruct (Hrows r Hin) as (p & _ & _ & _ & _ & _ & ->). done. }
    apply mapM_is_Some_2 in Hall as [L HL]. exists L. by apply mapM_Some. }
  exists L. split; [done|]. split_and!.
  - eapply Forall2_NoDup; [exact HL|apply rows_of_NoDup|]. intros [k v] [k' v'] a Hr1 Hr2 H1 H2.
    destruct (Hrows _ Hr1) as (p & _ & _ & Hk & _ & _ & Hp1). destruct (Hrows _ Hr2) as (q & _ & _ & Hk' & _ & _ & Hp2). simpl in *.
    assert (view p = view q) as Hpq by congruence. injection Hpq. intros. assert (k = k') as -> by (unfold order_key in *; congruence).
    apply rows_of_spec in Hr1 as [Hv1 _], Hr2 as [Hv2 _]. congruence.
  - eapply Forall2_sorted; [exact HL|apply rows_of_sorted|]. intros [[[[u1 s1] c1] i1] v1] [[[[u2 s2] c2] i2] v2] a b Hn H1 H2.
    unfold parse_active_order_row in *. destruct (ao_order v1) as [[[[[? ?] ?] ?] ?]|], (ao_order v2) as [[[[[? ?] ?] ?] ?]|]; simplify_eq.
    simpl. unfold newer, clustering in Hn. simpl in Hn. lia.
  - intros a. split.
    + intros Hin. destruct (Forall2_elem_r _ _ _ _ HL Hin) as (r & Hr' & Hpr). destruct (Hrows r Hr') as (p & Hp & _ & _ & Hpu & Hps & Hp').
      exists (pl_order_id p), p. split_and!; congruence.
    + intros (i & p & Hp & <- & <- & ->). pose proof (Ho _ _ Hp) as Hpl. destruct (Ht _ _ Hpl) as [Hi Htp]. destruct (Hr _ _ Hpl) as (v & Hv & Hc & Hst).
      rewrite decide_True in Hst by by rewrite Hp. destruct Hst as [Hst Hup].
      destruct (Forall2_elem_l _ _ _ (order_key p, v) HL) as (a & Hin & Hpa).
      { apply rows_of_spec. split; [done|]. unfold partition_of, is_open, order_key. simpl. by rewrite !Z.eqb_refl, Hst. }
      rewrite (parse_view p v Htp Hc Hst Hup) in Hpa. congruence.
Qed.

(** The list of active orders against the life of the orders: whatever is
    placed and completed, in whatever order, and answered, the list of a user
    and a symbol is, newest first and up to the limit, that of the orders that
    were placed and not completed since, each once and with the numbers it was
    placed with.  In particular a completion that overtakes its placement has
    no effect, and the order stays in the list. *)
Theorem active_orders_track_lifecycle ops user symbol limit :
  life_wf [] ops -> is_u64 user -> is_u32 symbol -> 0 < limit ->
  exists d L, iter life_op ops empty_db = Ok tt d /\
    get_active_orders user symbol limit d = Ok (take (Z.to_nat limit) L) d /\
    NoDup L /\ StronglySorted (fun a b => ActiveOrder.created_at b <= ActiveOrder.created_at a) L /\
    forall a, a ∈ L <-> exists i p, open_after ops !! i = Some p /\ pl_user_id p = user /\ pl_symbol_id p = symbol /\ a = view p.
Proof.
  intros Hwf Hu Hs Hlimit. destruct (run_tracks ops [] empty_db ∅ ∅ tracks_empty Hwf) as (d & placed & Hrun & Htr).
  { intros i. rewrite lookup_empty. by intros [? ?]. }
  destruct (parsed_rows d placed _ user symbol Htr Hu Hs) as (L & HL & Hnd & Hsort & Hin).
  exists d, L. split; [done|]. split; [|done].
  unfold get_active_orders, limited, select, execute, bind, get, put. rewrite (tracks_answers _ _ _ Htr). simpl.
  destruct (Z.leb_spec limit 0); [lia|]. unfold ret, parse_rows.
  rewrite (proj2 (mapM_Some _ _ _) (Forall2_take _ _ _ (Z.to_nat limit) HL)). done.
Qed.

(** ** Trades *)

(** No row of the settled trades can be parsed, so that the query of a user who
    has one always fails. *)
Lemma settled_trades_unreadable user limit d id r :
  answers d = [] -> 0 < limit -> settled_trades d !! id = Some r ->
  st_buyer_user_id r = as_i64 user \/ st_seller_user_id r = as_i64 user ->
  exists e, get_trades_by_user user limit d = Err e d.
Proof.
  intros Ha Hlimit Hr Huser. unfold get_trades_by_user, limited, select, execute, bind, get, put. rewrite Ha. simpl.
  destruct (Z.leb_spec limit 0); [lia|]. unfold ret. rewrite Ha. simpl.
  destruct (Z.to_nat limit) as [|n] eqn:Hn; [lia|].
  assert (forall wanted, wanted r = true -> exists x l, trades_where wanted d = x :: l) as Hrow.
  { intros wanted Hw. destruct (trades_where wanted d) as [|x l] eqn:Hl; [|by exists x, l].
    assert ((id, r) ∈ trades_where wanted d) as Hin.
    { apply list_elem_of_filter. split; [by simpl; rewrite Hw|]. by apply elem_of_map_to_list. }
    rewrite Hl in Hin. by apply not_elem_of_nil in Hin. }
  assert (forall x l, exists e, parse_rows parse_trade_row "Failed to parse row into SettledTradeRow" (take (S n) (x :: l)) d = Err e d) as Hparse.
  { intros [i x] l. by eexists. }
  unfold parse_rows in *. destruct Huser as [Hu|Hu].
  - destruct (Hrow (fun r => st_buyer_user_id r =? as_i64 user)) as (x & l & ->); [by rewrite Hu, Z.eqb_refl|].
    destruct (Hparse x l) as [e He]. simpl in He |- *. rewrite He. by exists e.
  - destruct (ok_or (mapM parse_trade_row (take (S n) (trades_where (fun r => st_buyer_user_id r =? as_i64 user) d))) _ d)
      as [b d1|e d1|] eqn:Hb.
    + assert (d1 = d) as -> by (unfold ok_or in Hb; destruct (mapM _ _); by inversion Hb).
      destruct (Hrow (fun r => st_seller_user_id r =? as_i64 user)) as (x & l & ->); [by rewrite Hu, Z.eqb_refl|].
      destruct (Hparse x l) as [e He]. simpl in He |- *. rewrite He. by exists e.
    + assert (d1 = d) as -> by (unfold ok_or in Hb; destruct (mapM _ _); by inversion Hb). by exists e.
    + unfold ok_or in Hb. by destruct (mapM _ _).
Qed.

Definition trade_key (user symbol at_ms : Z) (t : TradeOutput) : Z * Z * Z * Z :=
  (as_i64 user, as_i32 symbol, at_ms, as_i64 (to_trade_id t)).

(** Both rows of a trade, under the symbol that its assets are taken for. *)
Lemma write_user_trades_rows t at_ms d :
  answers d = [] ->
  let symbol := get_symbol_id_from_assets (to_base_asset_id t) (to_quote_asset_id t) in
  exists d' b s, write_user_trades t at_ms d = Ok tt d' /\ answers d' = [] /\ ut_role b = 0 /\ ut_role s = 1 /\
    user_trades d' = <[trade_key (to_seller_user_id t) symbol at_ms t := s]>
                       (<[trade_key (to_buyer_user_id t) symbol at_ms t := b]> (user_trades d)).
Proof.
  intros Ha. unfold write_user_trades, execute, bind, get, put. rewrite Ha. simpl. rewrite Ha.
  unfold insert_user_trade, set_user_trades. simpl.
  eexists _, _, _. split; [reflexivity|]. simpl. split; [done|].
  split; [|split; [|reflexivity]]; done.
Qed.

Lemma get_user_trades_ok user symbol limit d :
  answers d = [] -> 0 < limit ->
  exists L, get_user_trades user symbol limit d = Ok (take (Z.to_nat limit) L) d /\
    mapM parse_user_trade_row (rows_of (as_i64 user) (as_i32 symbol) (fun _ => true) (user_trades d)) = Some L.
Proof.
  intros Ha Hlimit. set (rows := rows_of _ _ _ _). assert (exists L, mapM parse_user_trade_row rows = Some L) as [L HL].
  { apply mapM_is_Some_2, Forall_forall. intros [[[[? ?] ?] ?] ?] _. by eexists. }
  exists L. split; [|done]. unfold get_user_trades, limited, select, execute, bind, get, put. rewrite Ha. simpl.
  destruct (Z.leb_spec limit 0); [lia|]. unfold ret, parse_rows. apply mapM_Some in HL. fold rows.
  by rewrite (proj2 (mapM_Some _ _ _) (Forall2_take _ _ _ (Z.to_nat limit) HL)).
Qed.

(** ** Retries *)

(** A statement is tried four times at most: it is written when one of the first
    four answers says so. *)
Lemma retry_tries_four (rows : list (SettlementDb -> SettlementDb)) n k d l :
  (n <= k)%nat -> answers d = replicate n (Lost []) ++ Answered :: l ->
  retry k (execute "" rows) d = Ok tt (fold_left (fun d f => f d) rows (set_answers l d)).
Proof.
  revert k d. induction n as [|n IH]; intros k d Hle Ha.
  - destruct k; unfold retry, execute, bind, get, put; by rewrite Ha.
  - destruct k as [|k]; [lia|]. simpl. unfold execute at 1, bind, get, put, throw. rewrite Ha. simpl.
    apply (IH k (set_answers (replicate n (Lost []) ++ Answered :: l) d)); [lia|done].
Qed.

(** ** At a concrete input *)

Module Concrete.

Definition buy : OrderPlacement := mkPlacement 18446744073709551000 7 0 1 1 100 5 1000.
Definition sell : OrderPlacement := mkPlacement 12 7 0 2 1 90 3 2000.

(** The completion of 12 overtakes its placement. *)
Definition ops : list LifeOp :=
  [Placed buy; Completed 12 CompletedCancelled 1500; Placed sell; Completed 18446744073709551000 CompletedFilled 3000].

Lemma active_orders_track_lifecycle_witness :
  match iter life_op ops empty_db with
  | Ok _ d => match get_active_orders 7 0 10 d with Ok l _ => l = [view sell] | _ => False end
  | _ => False
  end /\
  exists d L, iter life_op ops empty_db = Ok tt d /\
    get_active_orders 7 0 10 d = Ok (take (Z.to_nat 10) L) d /\
    NoDup L /\ StronglySorted (fun a b => ActiveOrder.created_at b <= ActiveOrder.created_at a) L /\
    forall a, a ∈ L <-> exists i p, open_after ops !! i = Some p /\ pl_user_id p = 7 /\ pl_symbol_id p = 0 /\ a = view p.
Proof.
  split; [vm_compute; reflexivity|].
  apply (active_orders_track_lifecycle ops 7 0 10); [|by vm_compute..].
  unfold ops, life_wf, typed_placement. split_and!; try (by vm_compute); apply (bool_decide_unpack _); vm_compute; exact I.
Defined.
End Concrete.
