(* ===== verification/Gateway.v ===== *)
(** * The HTTP gateway ([gateway.rs])

    The handlers of the routes: orders through the balance authority, transfers
    between the funding account and the trading accounts over Kafka, the
    queries on the settlement database and on the shadow ledger, and internal
    transfers.  A handler is a computation on the state the handlers share; it
    runs without interleaving.  Its error is the status of the response, with
    the message where the code gives one. *)

From stdpp Require Import pretty sorting.
From S2P Require Import Prelude Bytes Balance FastUlid OrderModels EngineOutput Ledger UbsParts UbsComm Transfer SettlementDb SettlementReads SymbolManager AeronChannel UbsClient UbsService Decimal ClientOrder.

#[local] Open Scope string_scope.
#[local] Open Scope list_scope.
#[local] Open Scope Z_scope.
#[local] Open Scope rust_scope.

(** ** What the gateway is connected to *)

(** [trait OrderPublisher]; [P] is the broker and whatever it will do next. *)
Class OrderPublisher (P : Type) := publish : string -> string -> list Z -> P -> (string + unit) * P.

(** The JSON of a request, [None] when it cannot be written; the decimal text of
    an integer at a scale, [None] when the scale is too large; [x as f64 / y as
    f64]. *)
Class GatewayText (F : Type) := {
  request_json : BalanceRequest -> option (list Z);
  u64_to_decimal_string : Z -> Z -> option string;
  f64_ratio : Z -> Z -> F
}.

(** An account of the shadow ledger, with the amounts the handler reads. *)
Record TbBalance := mkTbBalance {
  tb_acc_id : Z; debits_pending : Z; debits_posted : Z; credits_posted : Z
}.

(** ** [models/api_response.rs] *)

Record ApiResponse (A : Type) := mkResponse { r_status : Z; r_msg : string; r_data : A }.
Arguments mkResponse {A}.
Arguments r_status {A}.
Arguments r_msg {A}.
Arguments r_data {A}.

Definition success {A} (data : A) : ApiResponse A := mkResponse 0 "ok" data.
Definition error {A} (status : Z) (msg : string) (data : A) : ApiResponse A := mkResponse status msg data.

(** ** The simulated funding account *)

Abbreviation FundingAccount := (gmap Z Balance).

Definition INITIAL_FUNDING : Z := 1000000000000000.

Definition funded : Balance := default default_balance (left_by (deposit INITIAL_FUNDING) default_balance).

Definition simulated_new : FundingAccount := <[3 := funded]> (<[2 := funded]> (<[1 := funded]> ∅)).

(** [self.balances.get_mut(&asset_id).ok_or(..)?] and a method on it. *)
Definition on_funding_balance (asset_id : Z) (what : string) (m : M Balance string unit) : M FundingAccount string unit :=
  let* balances := get in
  match balances !! asset_id with
  | None => throw ("Asset " ++ pretty asset_id ++ " not found in funding account")%string
  | Some _ =>
      zoom (fun bs => bs !! asset_id) (fun b bs => <[asset_id := b]> bs)
        (map_err (fun e => (what ++ " failed: " ++ e)%string) m)
  end.

Definition funding_lock (asset_id amount : Z) : M FundingAccount string unit :=
  on_funding_balance asset_id "Lock" (lock amount).

Definition funding_spend (asset_id amount : Z) : M FundingAccount string unit :=
  on_funding_balance asset_id "Spend" (spend_frozen amount).

Definition funding_credit {E} (asset_id amount : Z) : M FundingAccount E unit :=
  modify (fun bs =>
    let b := default default_balance (bs !! asset_id) in
    <[asset_id := default b (left_by (deposit amount) b)]> bs).

(** ** The shared state *)

Record AppState (R P S : Type) := mkApp {
  snowflake_gen : SnowflakeGen R; producer : P; db : option SettlementDb; funding_account : FundingAccount;
  ubs_client : S
}.
Arguments mkApp {R P S}.
Arguments snowflake_gen {R P S}.
Arguments producer {R P S}.
Arguments db {R P S}.
Arguments funding_account {R P S}.
Arguments ubs_client {R P S}.

(** ** Payloads and responses *)

Record TransferPayload (D : Type) := mkPayload { p_request_id : string; p_user_id : Z; p_asset : string; p_amount : D }.
Arguments mkPayload {D}.
Arguments p_request_id {D}.
Arguments p_user_id {D}.
Arguments p_asset {D}.
Arguments p_amount {D}.

Record TransferResponse := mkTransferResponse { tr_success : bool; tr_message : string; tr_request : option string }.

(** The statuses of [OrderStatus] the handlers answer with. *)
Inductive ReportedStatus := Accepted | Cancelled.

Record OrderResponseData := mkOrderResponse { or_order_id : string; or_order_status : ReportedStatus; or_cid : option string }.

Definition INTERNAL_SERVER_ERROR : Z := 500.
Definition SERVICE_UNAVAILABLE : Z := 503.

Section handlers.
Context {D : Type} `{Decimals D} `{Unicode} `{OrderText D} `{Digests} {bp : BuildProfile} `{SequenceStrategy R}.
Context {P : Type} `{OrderPublisher P} {S : Type} `{RequestChannel S} `{Padding} {F : Type} `{GatewayText F}.
Context (symbol_manager balance_manager : SymbolManager) (balance_topic : string) (ubscore_timeout_ms : Z).

Abbreviation App := (AppState R P S).

Definition on_snow {E A} (m : M (SnowflakeGen R) E A) : M App E A :=
  zoom (fun st => Some (snowflake_gen st))
    (fun g st => mkApp g (producer st) (db st) (funding_account st) (ubs_client st)) m.

Definition on_funding {E A} (m : M FundingAccount E A) : M App E A :=
  zoom (fun st => Some (funding_account st))
    (fun f st => mkApp (snowflake_gen st) (producer st) (db st) f (ubs_client st)) m.

Definition on_db {E A} (m : M SettlementDb E A) : M App E A :=
  zoom (fun st => db st)
    (fun d st => mkApp (snowflake_gen st) (producer st) (Some d) (funding_account st) (ubs_client st)) m.

Definition generate_id {E} (clock : Z) : M App E Z :=
  on_snow (map_err (fun e : Empty_set => match e with end) (snowflake_generate clock)).

Definition send {E} (topic key : string) (payload : list Z) (err : E) : M App E unit :=
  fun st =>
    let '(r, p) := publish topic key payload (producer st) in
    let st' := mkApp (snowflake_gen st) p (db st) (funding_account st) (ubs_client st) in
    match r with
    | inl _ => Err err st'
    | inr _ => Ok tt st'
    end.

(** A call of the client of the balance authority. *)
Definition call_ubs {A} (f : S -> (SendError.t + A) * S) (err : SendError.t -> Z * string) : M App (Z * string) A :=
  fun st =>
    let '(r, s) := f (ubs_client st) in
    let st' := mkApp (snowflake_gen st) (producer st) (db st) (funding_account st) s in
    match r with
    | inl e => Err (err e) st'
    | inr a => Ok a st'
    end.

(** ** Transfers between the funding account and the trading accounts *)

Definition submitted (direction : string) (payload : TransferPayload D) (user_side : string) : string :=
  "Transfer " ++ direction ++ " request submitted & settled: " ++ dec_display (p_amount payload) ++
  " units of asset " ++ p_asset payload ++ " transferred " ++ user_side.

Definition transfer_in (clock now : Z) (payload : TransferPayload D) : M App Z TransferResponse :=
  let* '(asset_id, raw_amount) :=
    map_err (fun _ => BAD_REQUEST) (to_internal_amount balance_manager (p_asset payload) (p_amount payload)) in
  map_err (fun _ => BAD_REQUEST) (on_funding (funding_lock asset_id raw_amount)) ;;;
  let* gateway_request_id := generate_id clock in
  let balance_req := TransferIn gateway_request_id (p_user_id payload) asset_id raw_amount now in
  let* json_payload := ok_or (request_json balance_req) INTERNAL_SERVER_ERROR in
  send balance_topic (pretty (p_user_id payload)) json_payload INTERNAL_SERVER_ERROR ;;;
  ignore (on_funding (funding_spend asset_id raw_amount)) ;;;
  ret (mkTransferResponse true (submitted "In" payload ("to user " ++ pretty (p_user_id payload))%string)
         (Some (pretty gateway_request_id))).

(** The withdrawal that is recorded at once in the settlement database; its
    errors are logged. *)
Definition record_withdrawal (user_id asset_id raw_amount now : Z) : M SettlementDb string unit :=
  let* current := get_current_balance user_id asset_id in
  match current with
  | None => ret tt
  | Some c =>
      let* next := unwrap (i64_op (cb_seq c + 1)) in
      db_withdraw user_id asset_id raw_amount (as_u64 next) 0 now ;;;
      ret tt
  end.

Definition transfer_out (clock now : Z) (payload : TransferPayload D) : M App Z TransferResponse :=
  let* '(asset_id, raw_amount) :=
    map_err (fun _ => BAD_REQUEST) (to_internal_amount balance_manager (p_asset payload) (p_amount payload)) in
  let* gateway_request_id := generate_id clock in
  let balance_req := TransferOut gateway_request_id (p_user_id payload) asset_id raw_amount now in
  let* json_payload := ok_or (request_json balance_req) INTERNAL_SERVER_ERROR in
  send balance_topic (pretty (p_user_id payload)) json_payload INTERNAL_SERVER_ERROR ;;;
  let* st := get in
  match db st with
  | None => ret tt
  | Some _ => ignore (on_db (record_withdrawal (p_user_id payload) asset_id raw_amount now))
  end ;;;
  on_funding (funding_credit asset_id raw_amount) ;;;
  ret (mkTransferResponse true
         (submitted "Out" payload ("from user " ++ pretty (p_user_id payload) ++ " to funding account")%string)
         (Some (pretty gateway_request_id))).

(** ** Orders

    With the feature [aeron], without which both handlers answer 503. *)

Definition ubs_error (show : SendError.t -> string) (e : SendError.t) : Z * string :=
  (INTERNAL_SERVER_ERROR, ("UBSCore error: " ++ show e)%string).

Context (show_send_error : SendError.t -> string).

Definition create_order (clock user_id : Z) (client_order : ClientOrder D)
  : M App (Z * string) (ApiResponse OrderResponseData) :=
  let* '(order_id, internal_order) :=
    on_snow (client_order_convert symbol_manager balance_manager clock user_id client_order) in
  let* _ := call_ubs (send_order internal_order ubscore_timeout_ms) (ubs_error show_send_error) in
  ret (success (mkOrderResponse (pretty order_id) Accepted (co_cid client_order))).

Definition cancel_order (user_id order_id : Z) : M App (Z * string) (ApiResponse OrderResponseData) :=
  let* _ := call_ubs (send_cancel user_id order_id ubscore_timeout_ms) (ubs_error show_send_error) in
  ret (success (mkOrderResponse (pretty order_id) Cancelled None)).

(** ** Balances *)

Definition gateway_account_id (user_id asset_id : Z) : Z := Z.lor (Z.shiftl user_id 64) asset_id.

(** [(credits.saturating_sub(debits).saturating_sub(pending), pending)], cut to
    64 bits. *)
Definition account_balance (acc : TbBalance) : Z * Z :=
  (as_u64 (saturating_sub (saturating_sub (credits_posted acc) (debits_posted acc)) (debits_pending acc)),
   as_u64 (debits_pending acc)).

Fixpoint client_balances {E} (asset_map : gmap Z Z) (accounts : list TbBalance) : M App E (list (ClientBalance D)) :=
  match accounts with
  | [] => ret []
  | acc :: rest =>
      let* shown :=
        match asset_map !! tb_acc_id acc with
        | None => ret None
        | Some asset_id =>
            let '(avail, frozen) := account_balance acc in
            to_client_balance balance_manager asset_id avail frozen
        end in
      let* response := client_balances asset_map rest in
      ret (match shown with Some cb => cb :: response | None => response end)
  end.

(** [tb_client] is the lookup of accounts; it is an input, since the handler
    only reads. *)
Definition get_balance (tb_client : option (list Z -> option (list TbBalance))) (user_id : Z)
  : M App (Z * string) (ApiResponse (list (ClientBalance D))) :=
  match tb_client with
  | None => ret (success [])
  | Some lookup_accounts =>
      let ids := map (fun x => (gateway_account_id user_id x.1, x.1)) (map_to_list (assets symbol_manager)) in
      match lookup_accounts (map fst ids) with
      | None => ret (success [])
      | Some accounts =>
          let* response := client_balances (list_to_map ids) accounts in
          ret (success response)
      end
  end.

(** ** Trades of a user *)

Record HistoryParams := mkHistory { h_user_id : Z; h_symbol : string; h_limit : option Z }.

Record DisplayTrade := mkDisplayTrade {
  dt_trade_id : string; dt_symbol : string; dt_price : D; dt_quantity : D; dt_role : string; dt_time : Z
}.

Definition display_trade {E} (symbol : string) (t : UserTrade.t) : M App E (option DisplayTrade) :=
  let role := if UserTrade.role t =? 0 then "BUYER" else "SELLER" in
  let* p := to_client_price balance_manager symbol (UserTrade.price t) in
  match p with
  | None => ret None
  | Some price =>
      let* q := to_client_amount balance_manager (UserTrade.base_asset_id t) (UserTrade.quantity t) in
      match q with
      | None => ret None
      | Some quantity =>
          ret (Some (mkDisplayTrade (pretty (UserTrade.trade_id t)) symbol price quantity role
                       (as_u64 (UserTrade.settled_at t))))
      end
  end.

(** [into_iter().filter_map(f).collect()] *)
Fixpoint filter_map_m {E A B} (f : A -> M App E (option B)) (l : list A) : M App E (list B) :=
  match l with
  | [] => ret []
  | x :: l =>
      let* y := f x in
      let* ys := filter_map_m f l in
      ret (match y with Some y => y :: ys | None => ys end)
  end.

Definition db_error (e : string) : Z * string := (INTERNAL_SERVER_ERROR, e).

Definition get_trade_history (params : HistoryParams) : M App (Z * string) (ApiResponse (list DisplayTrade)) :=
  let limit := default 100 (h_limit params) in
  match get_symbol_id symbol_manager (h_symbol params) with
  | None => ret (success [])
  | Some symbol_id =>
      let* st := get in
      match db st with
      | None => ret (success [])
      | Some _ =>
          let* user_trades := on_db (map_err db_error (get_user_trades (h_user_id params) symbol_id (as_i32 limit))) in
          let* response := filter_map_m (display_trade (h_symbol params)) user_trades in
          ret (success response)
      end
  end.

(** ** Orders of a user, put together from the trades *)

Record OrderAgg := mkAgg {
  ag_symbol : string; ag_side : string; ag_price : Z; ag_quantity : Z; ag_time : Z; ag_decimals : Z;
  ag_price_decimals : Z
}.

(** [entry(order_id).or_insert(..)], then the quantity and the latest time. *)
Definition add_to_order (order_id : Z) (symbol side : string) (qty_decimals price_decimals : Z) (t : MatchExecData)
    (m : gmap Z OrderAgg) : option (gmap Z OrderAgg) :=
  let settled := as_i64 (settled_at t) in
  let e := default (mkAgg symbol side (price t) 0 settled qty_decimals price_decimals) (m !! order_id) in
  quantity' ← op_add (ag_quantity e) (quantity t);
  Some (<[order_id := mkAgg (ag_symbol e) (ag_side e) (ag_price e) quantity' (Z.max (ag_time e) settled)
                        (ag_decimals e) (ag_price_decimals e)]> m).

Definition aggregate (params : HistoryParams) (m : gmap Z OrderAgg) (t : MatchExecData) : option (gmap Z OrderAgg) :=
  match get_symbol_id symbol_manager (h_symbol params) with
  | None => Some m
  | Some pair_id =>
      match get_symbol_info_by_id symbol_manager pair_id with
      | None => Some m
      | Some info =>
          if negb ((base_asset_id t =? si_base_asset_id info) && (quote_asset_id t =? si_quote_asset_id info)) then Some m
          else
            let price_decimals := si_price_decimal info in
            let qty_decimals := default 8 (get_asset_decimal symbol_manager (si_base_asset_id info)) in
            m ← (if buyer_user_id t =? h_user_id params
                 then add_to_order (buy_order_id t) (h_symbol params) "BUY" qty_decimals price_decimals t m else Some m);
            (if seller_user_id t =? h_user_id params
             then add_to_order (sell_order_id t) (h_symbol params) "SELL" qty_decimals price_decimals t m else Some m)
      end
  end.

(** [for t in trades] *)
Fixpoint aggregate_all (params : HistoryParams) (ts : list MatchExecData) (m : gmap Z OrderAgg)
  : option (gmap Z OrderAgg) :=
  match ts with
  | [] => Some m
  | t :: ts => m ← aggregate params m t; aggregate_all params ts m
  end.

Record OrderHistory := mkOrderHistory {
  oh_order_id : string; oh_symbol : string; oh_side : string; oh_price : string; oh_quantity : string;
  oh_status : string; oh_time : Z
}.

Definition history_entry (x : Z * OrderAgg) : option OrderHistory :=
  let '(order_id, agg) := x in
  price ← u64_to_decimal_string (ag_price agg) (ag_price_decimals agg);
  quantity ← u64_to_decimal_string (ag_quantity agg) (ag_decimals agg);
  Some (mkOrderHistory (pretty order_id) (ag_symbol agg) (ag_side agg) price quantity "FILLED" (ag_time agg)).

Definition more_recent (a b : OrderHistory) : Prop := oh_time b <= oh_time a.

#[local] Instance more_recent_dec : RelDecision more_recent.
Proof. intros a b. unfold more_recent. apply _. Defined.

Definition get_order_history (params : HistoryParams) : M App (Z * string) (ApiResponse (list OrderHistory)) :=
  let limit := default 100 (h_limit params) in
  match get_symbol_id symbol_manager (h_symbol params) with
  | None => ret (success [])
  | Some _ =>
      let* st := get in
      match db st with
      | None => ret (success [])
      | Some _ =>
          let* trades := on_db (map_err db_error (get_trades_by_user (h_user_id params) (as_i32 limit))) in
          let* orders_map := unwrap (aggregate_all params trades ∅) in
          let* response := unwrap (mapM history_entry (map_to_list orders_map)) in
          ret (success (merge_sort more_recent response))
      end
  end.

(** ** Active orders *)

Record ActiveOrderResponse := mkActiveResponse {
  ar_order_id : string; ar_symbol : string; ar_side : string; ar_order_type : string; ar_price : F; ar_quantity : F;
  ar_filled_quantity : F; ar_status : string; ar_created_at : Z; ar_updated_at : Z
}.

Definition side_str (side : Z) : string :=
  if side =? 0 then "Buy" else if side =? 1 then "Sell" else "Unknown".

Definition type_str (order_type : Z) : string :=
  if order_type =? 0 then "Market" else if order_type =? 1 then "Limit" else "Unknown".

Definition status_str (status : Z) : string :=
  if status =? 0 then "New" else if status =? 1 then "PartialFill" else if status =? 2 then "Filled"
  else if status =? 3 then "Cancelled" else "Unknown".

(** [10u64.pow(n)] *)
Definition pow10_u64 (n : Z) : option Z := u64_op (10 ^ n).

Definition active_order_response (order : ActiveOrder.t) : option (option ActiveOrderResponse) :=
  let symbol_string := default "UNKNOWN" (get_symbol symbol_manager (ActiveOrder.symbol_id order)) in
  match get_symbol_info symbol_manager symbol_string with
  | None => Some None
  | Some symbol_info =>
      let base := if (symbol_string =? "BTC_USDT")%string then 1 else if (symbol_string =? "ETH_USDT")%string then 3 else 100 in
      let qty_decimals := default 8 (get_asset_decimal symbol_manager base) in
      price_unit ← pow10_u64 (si_price_decimal symbol_info);
      qty_unit ← pow10_u64 qty_decimals;
      Some (Some (mkActiveResponse (pretty (ActiveOrder.order_id order)) symbol_string (side_str (ActiveOrder.side order))
        (type_str (ActiveOrder.order_type order)) (f64_ratio (ActiveOrder.price order) price_unit)
        (f64_ratio (ActiveOrder.quantity order) qty_unit) (f64_ratio (ActiveOrder.filled_qty order) qty_unit)
        (status_str (ActiveOrder.status order)) (ActiveOrder.created_at order) (ActiveOrder.updated_at order)))
  end.

(** The orders of every symbol; an error of a query is skipped. *)
Fixpoint collect_orders {E} (user_id limit : Z) (symbol_ids : list Z) : M App E (list ActiveOrder.t) :=
  match symbol_ids with
  | [] => ret []
  | symbol_id :: rest =>
      let* orders := on_db (fun d => match get_active_orders user_id symbol_id limit d with
                                     | Ok l d' => Ok l d'
                                     | Err _ d' => Ok [] d'
                                     | Panic => Panic
                                     end) in
      let* more := collect_orders user_id limit rest in
      ret (orders ++ more)
  end.

Definition created_later (a b : ActiveOrderResponse) : Prop := ar_created_at b <= ar_created_at a.

#[local] Instance created_later_dec : RelDecision created_later.
Proof. intros a b. unfold created_later. apply _. Defined.

Definition list_active_orders (user_id : Z) (symbol : option string) (limit : option Z)
  : M App (Z * string) (ApiResponse (list ActiveOrderResponse)) :=
  let symbol_ids :=
    match symbol with
    | Some symbol_str => (fun id => [id]) <$> get_symbol_id symbol_manager symbol_str
    | None => Some (map fst (map_to_list (id_to_symbol symbol_manager)))
    end in
  match symbol_ids with
  | None => ret (success [])
  | Some symbol_ids =>
      let* st := get in
      match db st with
      | None => throw (SERVICE_UNAVAILABLE, "Database not connected")
      | Some _ =>
          let* all_orders := collect_orders user_id (as_i32 (default 100 limit)) symbol_ids in
          let* response := unwrap (mapM active_order_response all_orders) in
          ret (success (merge_sort created_later (omap id response)))
      end
  end.
End handlers.

(** ** Internal transfers *)

Record InternalTransferResponse := mkInternalResponse {
  it_req_id : string; it_status : string; it_message : option string; it_error : option string
}.

Definition refuse_transfer (e : string) : InternalTransferResponse := mkInternalResponse "" "failed" None (Some e).

#[local] Open Scope prog_scope.

(** [match p.await { Ok(x) => f(x), Err(e) => g(e) }] *)
Fixpoint pmatch {A B} (p : prog A) (f : A -> prog B) (g : string -> prog B) : prog B :=
  match p with
  | Ret a => f a
  | Fail e => g e
  | Do o k => Do o (fun x => pmatch (k x) f g)
  end.

(** [POST /api/v1/internal_transfer], when transfers are enabled; [new_id] is
    the identifier the coordinator generates, and the queue is what is left for
    the background worker.  [None] when the fuel of [process_now] is used up. *)
Definition handle_internal_transfer (fuel : nat) (cfg : WorkerConfig) (new_id : Z) (payload : TransferRequest)
    (queue : TransferQueue) : prog (option (InternalTransferResponse * TransferQueue)) :=
  if tr_amount payload =? 0 then Ret (Some (refuse_transfer "Amount must be greater than 0", queue))
  else if decide (tr_from payload = tr_to payload) then
    Ret (Some (refuse_transfer "Source and target cannot be the same", queue))
  else
    pmatch (create payload new_id)
      (fun req_id =>
         await result := process_now fuel cfg req_id in
         Ret (match result with
              | None => None
              | Some TransferState.Committed =>
                  Some (mkInternalResponse (pretty req_id) "committed" None None, queue)
              | Some TransferState.RolledBack =>
                  Some (mkInternalResponse (pretty req_id) "rolled_back" (Some "Transfer cancelled") None, queue)
              | Some TransferState.Failed =>
                  Some (mkInternalResponse (pretty req_id) "failed" (Some "Transfer failed") None, queue)
              | Some _ =>
                  Some (mkInternalResponse (pretty req_id) "pending" (Some "Processing in background") None,
                        (try_push req_id queue).2)
              end))
      (fun e => Ret (Some (refuse_transfer e, queue))).

Definition request_id_from_str (s : string) : option Z := parse_uint u64_max s.

Inductive TransferLookup :=
  | LookupError (r : InternalTransferResponse)
  | LookupFound (r : TransferRecord)
  | LookupFailed (e : string).

Definition lookup_error (req_id e : string) : TransferLookup :=
  LookupError (mkInternalResponse req_id "error" None (Some e)).

(** [GET /api/v1/internal_transfer/:req_id]; [enabled] when there is a
    coordinator. *)
Definition get_internal_transfer (enabled : bool) (req_id : string) : prog TransferLookup :=
  if negb enabled then Ret (lookup_error req_id "Internal transfer not enabled")
  else
    match request_id_from_str req_id with
    | None => Ret (lookup_error req_id "Invalid req_id format")
    | Some request_id =>
        Do (DbGet request_id) (fun found =>
          Ret (match found with
               | inr (Some record) => LookupFound record
               | inr None => LookupFailed "Transfer not found"
               | inl e => LookupFailed e
               end))
    end.
