(* ===== verification/GatewayProofs.v ===== *)
(** * Properties of the gateway

    The money that crosses it, what it tells its clients about orders and
    trades, and the answers on internal transfers. *)

From stdpp Require Import pretty sorting.
From S2P Require Import Prelude Bytes Balance UserAccount FastUlid OrderModels EngineOutput Ledger UbsParts UbsCore UbsCoreProofs UbsComm UbsCommProofs Transfer TransferAdapters SettlementDb SettlementDbProofs SettlementReads SettlementReadsProofs SymbolManager AeronChannel UbsClient UbsClientProofs UbsService Decimal ClientOrder ClientOrderProofs Gateway.

#[local] Open Scope string_scope.
#[local] Open Scope list_scope.
#[local] Open Scope Z_scope.
#[local] Open Scope rust_scope.

(** ** The funding account *)

Definition funding_wf (fa : FundingAccount) : Prop :=
  map_Forall (fun _ b => 0 <= avail b /\ 0 <= frozen b /\ avail b + frozen b <= u64_max) fa.

Definition funding_avail (fa : FundingAccount) (asset : Z) : Z := avail (default default_balance (fa !! asset)).
Definition funding_frozen (fa : FundingAccount) (asset : Z) : Z := frozen (default default_balance (fa !! asset)).

Lemma funding_wf_at fa asset b : funding_wf fa -> fa !! asset = Some b -> 0 <= avail b /\ 0 <= frozen b /\ avail b + frozen b <= u64_max.
Proof. intros Hwf Hb. by apply (Hwf asset b). Qed.

(** Either the amount is there and moves, or nothing changes. *)
Lemma funding_lock_eq asset x fa :
  funding_wf fa -> 0 <= x ->
  match funding_lock asset x fa with
  | Ok _ fa' => exists b, fa !! asset = Some b /\ x <= avail b /\
      fa' = <[asset := stamp (avail b - x) (frozen b + x) b]> fa
  | Err _ fa' => fa' = fa
  | Panic => False
  end.
Proof.
  intros Hwf Hx. unfold funding_lock, on_funding_balance, bind, get. destruct (fa !! asset) as [b|] eqn:Hb; [|done].
  destruct (funding_wf_at _ _ _ Hwf Hb) as (Ha & Hf & Hmax). unfold zoom, map_err. rewrite Hb, lock_eq.
  destruct (Z.leb_spec x (avail b)); [|by apply insert_id].
  destruct (Z.leb_spec (frozen b + x) u64_max); [|lia]. by exists b.
Qed.

Lemma funding_spend_eq asset x fa b :
  fa !! asset = Some b -> x <= frozen b ->
  funding_spend asset x fa = Ok tt (<[asset := stamp (avail b) (frozen b - x) b]> fa).
Proof.
  intros Hb Hx. unfold funding_spend, on_funding_balance, bind, get, zoom, map_err. rewrite !Hb, spend_frozen_eq.
  by destruct (Z.leb_spec x (frozen b)); [|lia].
Qed.

Lemma funding_credit_eq {E : Type} asset x fa :
  funding_avail fa asset + x <= u64_max ->
  exists fa', funding_credit (E := E) asset x fa = Ok tt fa' /\
    funding_avail fa' asset = funding_avail fa asset + x /\ funding_frozen fa' asset = funding_frozen fa asset /\
    forall a, a <> asset -> fa' !! a = fa !! a.
Proof.
  intros Hmax. unfold funding_credit, modify, left_by. rewrite deposit_eq. fold (funding_avail fa asset).
  destruct (Z.leb_spec (funding_avail fa asset + x) u64_max); [|lia]. eexists. split; [done|].
  unfold funding_avail, funding_frozen. rewrite lookup_insert_eq. simpl. split; [done|]. split; [done|].
  intros a Ha. by rewrite lookup_insert_ne.
Qed.

Section money.
Context {D : Type} `{DecimalLaws D} `{Unicode} `{OrderText D} `{Digests} {bp : BuildProfile} `{SequenceStrategy R}.
Context {P : Type} `{OrderPublisher P} {S : Type} `{RequestChannel S} `{Padding} {F : Type} `{GatewayText F}.
Context (balance_manager : SymbolManager) (balance_topic : string).
Implicit Types st : AppState R P S.

(** What a transfer into trading does, on every path: a success has
    published exactly one request for the amount and taken it out of the free
    funds; a refusal (400) has changed nothing; and a failure to publish (500)
    has left the amount frozen in the funding account, which no handler ever
    unfreezes. *)
Theorem transfer_in_outcomes clock now (payload : TransferPayload D) st :
  funding_wf (funding_account st) ->
  match transfer_in balance_manager balance_topic clock now payload st with
  | Ok _ st' =>
      exists asset x id json b,
        funding_account st !! asset = Some b /\ is_u64 x /\ x <= avail b /\
        snowflake_generate clock (snowflake_gen st) = Ok id (snowflake_gen st') /\
        request_json (TransferIn id (p_user_id payload) asset x now) = Some json /\
        publish balance_topic (pretty (p_user_id payload)) json (producer st) = (inr tt, producer st') /\
        funding_avail (funding_account st') asset = avail b - x /\
        funding_frozen (funding_account st') asset = frozen b /\ db st' = db st
  | Err status st' =>
      status = BAD_REQUEST /\ st' = st \/
      status = INTERNAL_SERVER_ERROR /\ exists asset x b,
        funding_account st !! asset = Some b /\ is_u64 x /\ x <= avail b /\
        funding_avail (funding_account st') asset = avail b - x /\
        funding_frozen (funding_account st') asset = frozen b + x
  | Panic => True
  end.
Proof.
  intros Hwf. unfold transfer_in. unfold bind at 1, map_err at 1.
  pose proof (to_internal_amount_frame balance_manager st (p_asset payload) (p_amount payload)) as Hframe.
  destruct (to_internal_amount _ _ _ _) as [[asset x] st1|e st1|]; [destruct Hframe as [-> Hx]|by left|done].
  unfold bind at 1, map_err at 1, on_funding, zoom. pose proof (funding_lock_eq asset x (funding_account st) Hwf (proj1 Hx)) as Hlock.
  destruct (funding_lock asset x (funding_account st)) as [[] fa|e fa|]; [|subst fa; left; by destruct st|done].
  destruct Hlock as (b & Hb & Hxb & ->). destruct (funding_wf_at _ _ _ Hwf Hb) as (Ha & Hf & Hmax).
  unfold bind at 1, generate_id, on_snow, zoom, map_err. simpl.
  destruct (snowflake_generate clock (snowflake_gen st)) as [id g|[]|]; [|done].
  unfold bind at 1, ok_or. destruct (request_json _) as [json|] eqn:Hjson.
  2: { simpl. right. split; [done|]. exists asset, x, b. unfold funding_avail, funding_frozen. by rewrite lookup_insert_eq. }
  simpl. unfold bind at 1, send. simpl. destruct (publish _ _ _ _) as [[e|[]] p] eqn:Hpub.
  { right. split; [done|]. exists asset, x, b. simpl. unfold funding_avail, funding_frozen. by rewrite lookup_insert_eq. }
  unfold bind at 1, ignore. simpl.
  rewrite (funding_spend_eq asset x _ (stamp (avail b - x) (frozen b + x) b)); [|by rewrite lookup_insert_eq|simpl; lia].
  simpl. exists asset, x, id, json, b. unfold funding_avail, funding_frozen. rewrite lookup_insert_eq. simpl.
  split_and!; try done; lia.
Qed.

(** A transfer out that is answered: the request is published and the funding
    account has the money. *)
Lemma transfer_out_ok clock now (payload : TransferPayload D) st r st' :
  transfer_out balance_manager balance_topic clock now payload st = Ok r st' ->
  exists asset x id json,
    is_u64 x /\ request_json (TransferOut id (p_user_id payload) asset x now) = Some json /\
    publish balance_topic (pretty (p_user_id payload)) json (producer st) = (inr tt, producer st') /\
    (funding_avail (funding_account st) asset + x <= u64_max ->
     funding_avail (funding_account st') asset = funding_avail (funding_account st) asset + x /\
     funding_frozen (funding_account st') asset = funding_frozen (funding_account st) asset).
Proof.
  unfold transfer_out. unfold bind at 1, map_err at 1.
  pose proof (to_internal_amount_frame balance_manager st (p_asset payload) (p_amount payload)) as Hframe.
  destruct (to_internal_amount _ _ _ _) as [[asset x] st1|e st1|]; [destruct Hframe as [-> Hx]|done..].
  unfold bind at 1, generate_id, on_snow, zoom, map_err. simpl.
  destruct (snowflake_generate clock (snowflake_gen st)) as [id g|[]|]; [|done].
  unfold bind at 1, ok_or. destruct (request_json _) as [json|] eqn:Hjson; [|done].
  simpl. unfold bind at 1, send. simpl. destruct (publish _ _ _ _) as [[e|[]] p] eqn:Hpub; [done|].
  unfold bind at 1, get. unfold bind at 1. simpl. intros Hrest.
  assert (exists st1, producer st1 = p /\ funding_account st1 = funding_account st /\
    bind (on_funding (E := Z) (funding_credit asset x)) (fun _ => ret (mkTransferResponse true
      (submitted "Out" payload ("from user " ++ pretty (p_user_id payload) ++ " to funding account")%string)
      (Some (pretty id)))) st1 = Ok r st') as (st1 & Hp & Hfa & Hcredit).
  { destruct (db st) as [d|].
    - unfold ignore, on_db, zoom in Hrest. simpl in Hrest.
      destruct (record_withdrawal (p_user_id payload) asset x now d) as [[] d'|e d'|]; [eexists; split; [|split; [|exact Hrest]]; done..|done].
    - eexists. split; [|split; [|exact Hrest]]; done. }
  exists asset, x, id, json. split; [done|]. split; [done|]. unfold bind, on_funding, zoom, funding_credit, modify in Hcredit.
  simpl in Hcredit. injection Hcredit as _ <-. simpl. rewrite Hp, Hfa. split; [by rewrite Hpub|].
  intros Hmax. destruct (funding_credit_eq (E := Z) asset x (funding_account st) Hmax) as (fa & Hfa' & Ha & Hf & _).
  unfold funding_credit, modify in Hfa'. injection Hfa' as <-. done.
Qed.

(** C31: a transfer out of trading, from the answer of the gateway to the
    balance authority that reads the request from Kafka: the gateway has
    credited the funding account already, so that the money is conserved exactly
    when the authority accepts, and otherwise the amount has been created (as
    long as the credit fits the funding account). *)
Theorem transfer_out_conserves_iff_accepted clock now (payload : TransferPayload D) st r st' authority_clock sv :
  transfer_out balance_manager balance_topic clock now payload st = Ok r st' ->
  exists asset x id json,
    request_json (TransferOut id (p_user_id payload) asset x now) = Some json /\
    publish balance_topic (pretty (p_user_id payload)) json (producer st) = (inr tt, producer st') /\
    forall sv', funding_avail (funding_account st) asset + x <= u64_max ->
      balance_operation authority_clock (TransferOut id (p_user_id payload) asset x now) sv = Ok tt sv' ->
      funding_avail (funding_account st') asset + avail_of sv' (p_user_id payload) asset =
      funding_avail (funding_account st) asset + avail_of sv (p_user_id payload) asset +
      (if x <=? avail_of sv (p_user_id payload) asset then 0 else x).
Proof.
  intros Hout. destruct (transfer_out_ok _ _ _ _ _ _ Hout) as (asset & x & id & json & Hx & Hjson & Hpub & Hcredit).
  exists asset, x, id, json. split; [done|]. split; [done|]. intros sv' Hmax Hop. destruct (Hcredit Hmax) as [-> _].
  set (user := p_user_id payload) in *.
  destruct (on_withdraw_cases (E := Empty_set) user asset x id (ubs_core (business_state sv))) as (done & c & Hc & _ & Hdone & Ha).
  assert (avail_of sv' user asset = avail (bal_of (accounts c) user asset)) as ->.
  { unfold balance_operation, bind, on_business, on_core, zoom in Hop. rewrite Hc in Hop. destruct done; [|by injection Hop as <-].
    unfold get in Hop. destruct (balance_or 0 user asset _) as [av fr]. unfold unwrap in Hop. destruct (i64_op _); [|done].
    unfold publish_event, bind, get, ret in Hop. destruct (kafka_producer _); [|by injection Hop as <-].
    unfold UbsService.publish, modify in Hop. by injection Hop as <-. }
  rewrite Ha, !Z.eqb_refl. fold (avail_of sv user asset) in *. rewrite andb_true_r.
  destruct (Z.leb_spec x (avail_of sv user asset)) as [Hle|Hlt].
  - destruct done; simpl; [lia|]. unfold avail_of at 2. destruct (accounts (ubs_core (business_state sv)) !! user) as [a|] eqn:Hacc.
    { destruct Hdone as [_ Hd]. discriminate Hd. split; [by eexists|done]. }
    unfold avail_of, bal_of, entry_or_new in Hle. rewrite Hacc in Hle. simpl in Hle. destruct Hx. fold (avail_of sv user asset). lia.
  - destruct done; simpl; [|fold (avail_of sv user asset); lia]. destruct Hdone as [Hd _]. destruct (Hd eq_refl) as [_ Hle]. lia.
Qed.
End money.

(** ** Orders *)

Section orders.
Context {D : Type} `{Decimals D} `{Unicode} `{OrderText D} `{Digests} {bp : BuildProfile} `{SequenceStrategy R}.
Context {P : Type} {S : Type} `{RequestChannel S} `{Padding} {F : Type}.
Context (symbol_manager balance_manager : SymbolManager) (timeout_ms : Z) (show : SendError.t -> string).
Implicit Types st : AppState R P S.

(** The answer to an order, on every path.  A success says "Accepted" under
    the identifier that was generated, and says so for every response the
    balance authority may have given to that very order, a rejection included;
    400 has not called the authority; 500 is a failure of the channel, after
    which the order may have been accepted all the same. *)
Theorem create_order_outcomes clock user_id (order : ClientOrder D) st :
  match create_order symbol_manager balance_manager timeout_ms show clock user_id order st with
  | Ok answer st' =>
      exists order_id io verdict,
        client_order_convert symbol_manager balance_manager clock user_id order (snowflake_gen st) = Ok (order_id, io) (snowflake_gen st') /\
        send_order io timeout_ms (ubs_client st) = (inr verdict, ubs_client st') /\
        answer = success (mkOrderResponse (pretty order_id) Accepted (co_cid order))
  | Err (status, message) st' =>
      status = BAD_REQUEST /\ ubs_client st' = ubs_client st \/
      status = INTERNAL_SERVER_ERROR /\ exists order_id io e,
        client_order_convert symbol_manager balance_manager clock user_id order (snowflake_gen st) = Ok (order_id, io) (snowflake_gen st') /\
        send_order io timeout_ms (ubs_client st) = (inl e, ubs_client st') /\ message = ("UBSCore error: " ++ show e)%string
  | Panic => forall verdict io s' order_id g',
      client_order_convert symbol_manager balance_manager clock user_id order (snowflake_gen st) = Ok (order_id, io) g' ->
      send_order io timeout_ms (ubs_client st) <> (inr verdict, s')
  end.
Proof.
  unfold create_order, bind at 1, on_snow, zoom.
  pose proof (convert_takes_identifiers symbol_manager balance_manager clock user_id order (snowflake_gen st)) as Hconv.
  destruct (client_order_convert _ _ _ _ _ _) as [[order_id io] g|[status message] g|] eqn:Hc; [|left; by destruct Hconv|done].
  unfold bind, call_ubs. simpl. destruct (send_order io timeout_ms (ubs_client st)) as [[e|verdict] s'] eqn:Hs; simpl.
  - right. split; [done|]. by exists order_id, io, e.
  - by exists order_id, io, verdict.
Qed.

(** A cancellation is answered "Cancelled" whatever the verdict. *)
Lemma cancel_order_outcomes user_id order_id st :
  match cancel_order (P := P) timeout_ms show user_id order_id st with
  | Ok answer st' =>
      answer = success (mkOrderResponse (pretty order_id) Cancelled None) /\
      exists verdict, send_cancel user_id order_id timeout_ms (ubs_client st) = (inr verdict, ubs_client st')
  | Err (status, message) st' =>
      status = INTERNAL_SERVER_ERROR /\ exists e, send_cancel user_id order_id timeout_ms (ubs_client st) = (inl e, ubs_client st')
  | Panic => False
  end.
Proof.
  unfold cancel_order, bind, call_ubs. destruct (send_cancel user_id order_id timeout_ms (ubs_client st)) as [[e|v] s'] eqn:Hs; simpl.
  - split; [done|]. by exists e.
  - split; [done|]. by exists v.
Qed.
End orders.

(** ** What is shown of orders and trades *)

(** The codes the engine stores (1 for a purchase and a limit order, 2 for a sale
    and a market order) are read with those of the comments: a purchase is shown
    as a sale, and neither a sale nor a market order is known. *)
Lemma shown_sides : side_str (side_as_u8 Buy) = "Sell" /\ side_str (side_as_u8 Sell) = "Unknown".
Proof. done. Qed.

Lemma shown_types : type_str (order_type_as_u8 Limit) = "Limit" /\ type_str (order_type_as_u8 Market) = "Unknown".
Proof. done. Qed.

Section history.
Context {D : Type} `{Decimals D} {bp : BuildProfile} {R P S F : Type} `{GatewayText F}.
Context (symbol_manager balance_manager : SymbolManager).
Implicit Types st : AppState R P S.

(** The rows of the trades table that are written for the trades of one pair of
    assets are all under one symbol. *)
Definition only_symbol (symbol : Z) (d : SettlementDb) : Prop :=
  answers d = [] /\ forall k v, user_trades d !! k = Some v -> k.1.1.2 = as_i32 symbol.

Definition write_trade (x : TradeOutput * Z) : Db unit := write_user_trades x.1 x.2.

Lemma trades_under_one_symbol trades d base quote :
  only_symbol (get_symbol_id_from_assets base quote) d ->
  Forall (fun x => to_base_asset_id x.1 = base /\ to_quote_asset_id x.1 = quote) trades ->
  exists d', iter write_trade trades d = Ok tt d' /\ only_symbol (get_symbol_id_from_assets base quote) d'.
Proof.
  revert d. induction trades as [|[t at_ms] trades IH]; intros d [Ha Hd] Hall; [by exists d|].
  apply Forall_cons in Hall as [[Hb Hq] Hall]. simpl in Hb, Hq.
  destruct (write_user_trades_rows t at_ms d Ha) as (d1 & b & s & Hw & Ha1 & _ & _ & Hrows).
  destruct (IH d1) as (d' & Hd' & Hsym); [|done|].
  - split; [done|]. intros k v. rewrite Hrows, !lookup_insert_Some. unfold trade_key. rewrite Hb, Hq.
    intros [[<- _]|[_ [[<- _]|[_ Hk]]]]; [done..|by apply (Hd k v)].
  - exists d'. split; [|done]. simpl. unfold bind, write_trade. simpl. by rewrite Hw.
Qed.

(** The history of trades is asked for under the identifier of the symbol
    manager, and written under one that [get_symbol_id_from_assets] makes up:
    after any number of trades in one pair of assets, a client that asks for a
    symbol whose identifier is another one is told there were none. *)
Theorem trade_history_misses_trades trades base quote params d st :
  Forall (fun x => to_base_asset_id x.1 = base /\ to_quote_asset_id x.1 = quote) trades ->
  iter write_trade trades empty_db = Ok tt d -> db st = Some d ->
  (forall symbol_id, get_symbol_id symbol_manager (h_symbol params) = Some symbol_id ->
     is_u32 symbol_id /\ symbol_id <> get_symbol_id_from_assets base quote) ->
  0 < as_i32 (default 100 (h_limit params)) ->
  get_trade_history (D := D) symbol_manager balance_manager params st = Ok (success []) st.
Proof.
  intros Hall Hrun Hdb Hsym Hlimit. unfold get_trade_history.
  destruct (get_symbol_id symbol_manager (h_symbol params)) as [symbol_id|] eqn:Hid; [|done].
  destruct (Hsym _ eq_refl) as [Hu Hne]. unfold bind at 1, get. rewrite Hdb.
  destruct (trades_under_one_symbol trades empty_db base quote) as (d' & Hd' & Ha & Honly); [split; [done|]; intros k v; simpl; by rewrite lookup_empty|done|].
  rewrite Hrun in Hd'. injection Hd' as <-.
  destruct (get_user_trades_ok (h_user_id params) symbol_id (as_i32 (default 100 (h_limit params))) d Ha Hlimit) as (L & HL & Hrows).
  unfold bind at 1, on_db, zoom. rewrite Hdb. unfold map_err. rewrite HL.
  assert (L = []) as ->.
  { destruct (rows_of _ _ _ _) as [|[k v] rows] eqn:Hr in Hrows; [by injection Hrows as <-|].
    assert ((k, v) ∈ rows_of (as_i64 (h_user_id params)) (as_i32 symbol_id) (fun _ : UserTrade => true) (user_trades d)) as Hin.
    { rewrite Hr. left. }
    apply rows_of_spec in Hin as (Hk & Hpart & _). apply Honly in Hk. unfold partition_of in Hpart.
    apply andb_true_iff in Hpart as [_ Hs%Z.eqb_eq]. rewrite Hs in Hk. apply as_i32_inj in Hk; [done|done|].
    unfold get_symbol_id_from_assets. by destruct (_ && _). }
  rewrite take_nil. simpl. destruct st. simpl in Hdb. by subst.
Qed.

(** A user with a settled trade gets no history of orders, since the row cannot
    be read. *)
Lemma order_history_fails params symbol_id d id r st :
  get_symbol_id symbol_manager (h_symbol params) = Some symbol_id -> db st = Some d -> answers d = [] ->
  0 < as_i32 (default 100 (h_limit params)) -> settled_trades d !! id = Some r ->
  st_buyer_user_id r = as_i64 (h_user_id params) \/ st_seller_user_id r = as_i64 (h_user_id params) ->
  exists e, get_order_history symbol_manager params st = Err (INTERNAL_SERVER_ERROR, e) st.
Proof.
  intros Hid Hdb Ha Hlimit Hr Huser. unfold get_order_history. rewrite Hid. unfold bind at 1, get. rewrite Hdb.
  destruct (settled_trades_unreadable _ _ d id r Ha Hlimit Hr Huser) as [e He].
  unfold bind at 1, on_db, zoom. rewrite Hdb. unfold map_err. rewrite He. exists e. destruct st. simpl in Hdb. by subst.
Qed.

(** ** Orders put together from trades *)

Definition in_pair (params : HistoryParams) (t : MatchExecData) : bool :=
  match get_symbol_info symbol_manager (h_symbol params) with
  | Some info => (base_asset_id t =? si_base_asset_id info) && (quote_asset_id t =? si_quote_asset_id info)
  | None => false
  end.

(** What the trades say about the order [id] of the user: as a purchase and as a
    sale. *)
Definition traded (params : HistoryParams) (id : Z) (t : MatchExecData) : Z :=
  if in_pair params t then
    (if (buyer_user_id t =? h_user_id params) && (buy_order_id t =? id) then quantity t else 0) +
    (if (seller_user_id t =? h_user_id params) && (sell_order_id t =? id) then quantity t else 0)
  else 0.

Fixpoint traded_total (params : HistoryParams) (id : Z) (ts : list MatchExecData) : Z :=
  match ts with
  | [] => 0
  | t :: ts => traded params id t + traded_total params id ts
  end.

Definition shown_quantity (m : gmap Z OrderAgg) (id : Z) : Z := from_option ag_quantity 0 (m !! id).

Lemma add_to_order_quantity order_id symbol side qd pd t m m' :
  add_to_order order_id symbol side qd pd t m = Some m' -> is_u64 (shown_quantity m order_id + quantity t) ->
  forall id, shown_quantity m' id = shown_quantity m id + (if order_id =? id then quantity t else 0).
Proof.
  unfold add_to_order. set (e := default _ _). intros Hadd Hmax id.
  assert (ag_quantity e = shown_quantity m order_id) as He by (unfold e, shown_quantity; by destruct (m !! order_id)).
  unfold op_add in Hadd. rewrite He, u64_op_exact in Hadd by done. simpl in Hadd. injection Hadd as <-.
  unfold shown_quantity at 1. destruct (Z.eqb_spec order_id id) as [<-|Hne].
  - rewrite lookup_insert_eq. done.
  - rewrite lookup_insert_ne by done. unfold shown_quantity. lia.
Qed.

Lemma aggregate_quantity params m t m' :
  aggregate symbol_manager params m t = Some m' -> 0 <= quantity t ->
  (forall id, 0 <= shown_quantity m id /\ shown_quantity m id + traded params id t <= u64_max) ->
  forall id, shown_quantity m' id = shown_quantity m id + traded params id t.
Proof.
  intros Hagg Hq Hmax id. unfold traded, in_pair, get_symbol_info in *. unfold aggregate in Hagg.
  destruct (get_symbol_id symbol_manager (h_symbol params)) as [pair|]; simpl in *; [|injection Hagg as <-; lia].
  destruct (get_symbol_info_by_id symbol_manager pair) as [info|]; [|injection Hagg as <-; lia].
  destruct ((base_asset_id t =? si_base_asset_id info) && (quote_asset_id t =? si_quote_asset_id info)); simpl in *; [|injection Hagg as <-; lia].
  set (buys := buyer_user_id t =? h_user_id params) in *. set (sells := seller_user_id t =? h_user_id params) in *.
  destruct (if buys then _ else Some m) as [m1|] eqn:H1; [|done]. simpl in Hagg.
  assert (forall id, shown_quantity m1 id = shown_quantity m id + (if buys && (buy_order_id t =? id) then quantity t else 0)) as Hm1.
  { destruct buys; [|injection H1 as <-; intros; simpl; lia]. intros i. eapply add_to_order_quantity in H1 as ->; [done|].
    destruct (Hmax (buy_order_id t)) as [? Hm]. rewrite Z.eqb_refl in Hm. simpl in Hm. unfold is_u64. destruct (_ && _); lia. }
  destruct sells; [|injection Hagg as <-; rewrite Hm1; simpl; lia].
  eapply add_to_order_quantity in Hagg as ->; [rewrite Hm1; simpl; lia|].
  destruct (Hmax (sell_order_id t)) as [? Hm]. rewrite Z.eqb_refl in Hm. simpl in Hm. rewrite Hm1. unfold is_u64. destruct (_ && _); lia.
Qed.

Lemma traded_nonneg params id t : 0 <= quantity t -> 0 <= traded params id t.
Proof. intros Hq. unfold traded. destruct (in_pair params t); [|lia]. destruct (_ && _), (_ && _); lia. Qed.

Lemma traded_total_nonneg params id ts : Forall (fun t => 0 <= quantity t) ts -> 0 <= traded_total params id ts.
Proof. induction 1 as [|t ts Hq _ IH]; simpl; [lia|]. pose proof (traded_nonneg params id t Hq). lia. Qed.

(** The history of orders adds up: whatever trades are read, the quantity
    shown of an order is what the trades of the pair say the user bought under
    it plus what they say the user sold under it; so that the two records of a
    trade of the user with itself are counted twice. *)
Theorem order_history_adds_up params ts m m' :
  aggregate_all symbol_manager params ts m = Some m' -> Forall (fun t => 0 <= quantity t) ts ->
  (forall id, 0 <= shown_quantity m id /\ shown_quantity m id + traded_total params id ts <= u64_max) ->
  forall id, shown_quantity m' id = shown_quantity m id + traded_total params id ts.
Proof.
  revert m. induction ts as [|t ts IH]; intros m Hagg Hall Hmax id; simpl in *; [injection Hagg as <-; lia|].
  apply Forall_cons in Hall as [Hq Hall]. destruct (aggregate symbol_manager params m t) as [m1|] eqn:H1; [|done]. simpl in Hagg.
  assert (forall id, shown_quantity m1 id = shown_quantity m id + traded params id t) as Hm1.
  { apply (aggregate_quantity _ _ _ _ H1 Hq). intros i. destruct (Hmax i). pose proof (traded_total_nonneg params i ts Hall).
    lia. }
  rewrite (IH m1 Hagg Hall), Hm1; [lia|]. intros i. destruct (Hmax i). pose proof (traded_nonneg params i t Hq).
  rewrite Hm1. lia.
Qed.
End history.

(** ** At a concrete input *)

Module Concrete.
Import UbsCoreProofs.Concrete UbsCommProofs.Concrete UbsClientProofs.
#[local] Existing Instances Units.units_decimals Units.units_laws ClientOrderProofs.Concrete.ascii_unicode
  ClientOrderProofs.Concrete.text ClientOrderProofs.Concrete.digests.
#[local] Existing Instances sum_crc sum_crc_laws id_codec profile zero_padding zero_padding_laws pair_codec.

#[local] Existing Instance link_channel.

#[local] Instance strategy : SequenceStrategy unit := ZeroSequence.

(** A broker that keeps what it is sent, and refuses after [n] records. *)
Record Broker := mkBroker { records : list (string * list Z); room : nat }.

#[local] Instance broker : OrderPublisher Broker := fun topic _ payload b =>
  match room b with
  | O => (inl "queue full", b)
  | Datatypes.S n => (inr tt, mkBroker (records b ++ [(topic, payload)]) n)
  end.

#[local] Instance plain_text : GatewayText (Z * Z) := {
  request_json r := match r with
                    | TransferIn i u a x t => Some [0; i; u; a; x; t]
                    | TransferOut i u a x t => Some [1; i; u; a; x; t]
                    end;
  u64_to_decimal_string x _ := Some (pretty x);
  f64_ratio x y := (x, y)
}.

Definition app (room : nat) (d : option SettlementDb) : AppState unit Broker Link :=
  mkApp (snowflake_new 1 tt) (mkBroker [] room) d simulated_new (mkLink (handler 64 []) [] 5000).

Definition payload : TransferPayload Units.t := mkPayload "r1" 1 "USDT" (5 * ONE).

Lemma simulated_wf : funding_wf simulated_new.
Proof.
  assert (0 <= avail funded /\ 0 <= frozen funded /\ avail funded + frozen funded <= u64_max) as Hf by by vm_compute.
  unfold funding_wf, simulated_new. do 3 (apply map_Forall_insert_2; [exact Hf|]). apply map_Forall_empty.
Qed.

(** The broker refuses: five units of USDT stay frozen. *)
Lemma transfer_in_outcomes_witness :
  match transfer_in load_from_db "balance.operations" 1000 1000 payload (app 0 None) with
  | Err status st' =>
      status = INTERNAL_SERVER_ERROR /\ funding_frozen (funding_account st') 2 = 500000000 /\
      exists asset x b, funding_account (app 0 None) !! asset = Some b /\ is_u64 x /\ x <= avail b /\
        funding_avail (funding_account st') asset = avail b - x /\
        funding_frozen (funding_account st') asset = frozen b + x
  | _ => False
  end.
Proof.
  pose proof (transfer_in_outcomes load_from_db "balance.operations" 1000 1000 payload (app 0 None) simulated_wf) as Hout.
  destruct (transfer_in load_from_db "balance.operations" 1000 1000 payload (app 0 None)) as [r st'|status st'|] eqn:Hrun;
    [vm_compute in Hrun; discriminate Hrun| |vm_compute in Hrun; discriminate Hrun].
  assert (funding_frozen (funding_account st') 2 = 500000000) as Hfrozen.
  { vm_compute in Hrun. injection Hrun as _ <-. reflexivity. }
  assert (status = INTERNAL_SERVER_ERROR) as Hstatus by (vm_compute in Hrun; by injection Hrun as <- _).
  destruct Hout as [[Hbad _]|[_ Hout]]; [rewrite Hstatus in Hbad; discriminate Hbad|].
  split; [exact Hstatus|]. split; [exact Hfrozen|exact Hout].
Defined.

(** User 1 asks for a hundred million units, which the authority does not see. *)
Definition large : TransferPayload Units.t := mkPayload "r2" 1 "USDT" (100000000 * ONE).

Definition authority : AeronService := mkService (handler 64 []) [] 0.

Lemma transfer_out_conserves_iff_accepted_witness :
  exists r st',
    transfer_out load_from_db "balance.operations" 1000 1000 large (app 5 None) = Ok r st' /\
    exists asset x id json,
      request_json (TransferOut id 1 asset x 1000) = Some json /\
      publish "balance.operations" (pretty 1) json (producer (app 5 None)) = (inr tt, producer st') /\
      forall sv', funding_avail (funding_account (app 5 None)) asset + x <= u64_max ->
        balance_operation (fun n => n) (TransferOut id 1 asset x 1000) authority = Ok tt sv' ->
        funding_avail (funding_account st') asset + avail_of sv' 1 asset =
        funding_avail (funding_account (app 5 None)) asset + avail_of authority 1 asset +
        (if x <=? avail_of authority 1 asset then 0 else x).
Proof.
  destruct (transfer_out load_from_db "balance.operations" 1000 1000 large (app 5 None)) as [r st'|status st'|] eqn:Hrun;
    [|vm_compute in Hrun; discriminate Hrun..].
  exists r, st'. split; [reflexivity|].
  exact (transfer_out_conserves_iff_accepted load_from_db "balance.operations" 1000 1000 large (app 5 None) r st' (fun n => n) authority Hrun).
Defined.

(** The amount is created: the gateway credits it and the authority refuses. *)
Example created_by_refusal :
  match transfer_out load_from_db "balance.operations" 1000 1000 large (app 5 None) with
  | Ok _ st' =>
      funding_avail (funding_account st') 2 = funding_avail (funding_account (app 5 None)) 2 + 10000000000000000 /\
      match balance_operation (fun n => n) (TransferOut 1 1 2 10000000000000000 1000) authority with
      | Ok _ sv' => avail_of sv' 1 2 = avail_of authority 1 2
      | _ => False
      end
  | _ => False
  end.
Proof. vm_compute. split; reflexivity. Qed.

(** An order that the authority refuses, since user 9 has no account, is
    answered "Accepted". *)
Example refused_order_accepted :
  let ask := create_order (P := Broker) load_from_db load_from_db 5000 (fun _ => "") 1000 9
               ClientOrderProofs.Concrete.order (app 5 None) in
  match ask with
  | Ok answer st' => or_order_status (r_data answer) = Accepted /\ kafka_producer (peer (ubs_client st')) = Some []
  | _ => False
  end.
Proof. vm_compute. split; reflexivity. Qed.

(** One trade in BTC/USDT; the symbol manager has BTC_USDT under 0. *)
Definition trade : TradeOutput := mkTradeOutput 1 1 0 11 12 1 2 100 5 1 2 0 0 1000.

Definition history : HistoryParams := mkHistory 1 "BTC_USDT" None.

Lemma trade_history_misses_trades_witness :
  exists d, iter write_trade [(trade, 1000)] empty_db = Ok tt d /\
    get_trade_history (D := Units.t) load_from_db load_from_db history (app 5 (Some d)) = Ok (success []) (app 5 (Some d)).
Proof.
  destruct (iter write_trade [(trade, 1000)] empty_db) as [[] d|e d|] eqn:Hrun;
    [|vm_compute in Hrun; discriminate Hrun..].
  exists d. split; [reflexivity|].
  apply (trade_history_misses_trades load_from_db load_from_db [(trade, 1000)] 1 2 history d).
  - by apply Forall_singleton.
  - exact Hrun.
  - reflexivity.
  - intros symbol_id Hid. vm_compute in Hid. injection Hid as <-. split; [split; done|discriminate].
  - reflexivity.
Defined.

(** Two fills of order 11. *)
Definition fills : list MatchExecData :=
  [mkMatchExec 1 11 21 1 2 100 5 1 2 0 0 1 1 1000 0 0 0 0 0 0 0 0; mkMatchExec 2 11 22 1 3 101 7 1 2 0 0 1 2 1001 0 0 0 0 0 0 0 0].

Lemma order_history_adds_up_witness :
  exists m', aggregate_all load_from_db history fills ∅ = Some m' /\ shown_quantity m' 11 = 12 /\
    forall id, shown_quantity m' id = shown_quantity ∅ id + traded_total load_from_db history id fills.
Proof.
  destruct (aggregate_all load_from_db history fills ∅) as [m'|] eqn:Hagg; [|vm_compute in Hagg; discriminate Hagg].
  exists m'. split; [reflexivity|]. split; [vm_compute in Hagg; injection Hagg as <-; reflexivity|].
  apply (order_history_adds_up load_from_db history fills ∅ m' Hagg).
  - unfold fills. rewrite !Forall_cons. split_and!; [done|done|by apply Forall_nil].
  - intros id. unfold shown_quantity. rewrite lookup_empty. simpl. unfold traded. simpl.
    replace (in_pair load_from_db history (mkMatchExec 1 11 21 1 2 100 5 1 2 0 0 1 1 1000 0 0 0 0 0 0 0 0)) with true by done.
    replace (in_pair load_from_db history (mkMatchExec 2 11 22 1 3 101 7 1 2 0 0 1 2 1001 0 0 0 0 0 0 0 0)) with true by done.
    unfold u64_max. destruct (match id with Z.pos q => (11 =? q)%positive | _ => false end); lia.
Defined.
End Concrete.
