(* ===== verification/GatewayTransfers.v ===== *)
(** * Internal transfers through the gateway

    [handle_internal_transfer] on a deployment whose database answers: what the
    client is told is what is stored. *)

From stdpp Require Import pretty.
From S2P Require Import Prelude Transfer TransferAdapters UbsClient UbsClientProofs Gateway.

#[local] Open Scope string_scope.
#[local] Open Scope list_scope.
#[local] Open Scope Z_scope.
#[local] Open Scope prog_scope.

Section deployed.
Context {F T : Type} (funding_adapter : ServiceAdapter F) (trading_adapter : ServiceAdapter T).

Abbreviation run := (run_prog funding_adapter trading_adapter).
Abbreviation Deployed := (Deployment F T).

(** The transfer [id] asks for what [q] says and is in state [s]. *)
Definition stored (id : Z) (q : TransferRequest) (s : TransferState.t) (d : Deployed) : Prop :=
  exists r, transfers d !! id = Some r /\ req_id r = id /\ source r = tr_from q /\ target r = tr_to q /\
    t_user_id r = tr_user_id q /\ t_asset_id r = tr_asset_id q /\ t_amount r = tr_amount q /\ t_state r = s.

Definition asks (id : Z) (q : TransferRequest) (r : TransferRecord) : Prop :=
  req_id r = id /\ source r = tr_from q /\ target r = tr_to q /\
  t_user_id r = tr_user_id q /\ t_asset_id r = tr_asset_id q /\ t_amount r = tr_amount q.

Lemma stored_asks id q s d : stored id q s d <-> exists r, transfers d !! id = Some r /\ asks id q r /\ t_state r = s.
Proof. unfold stored, asks. naive_solver. Qed.

(** ** Runs *)

Lemma run_bind {A B} (p : prog A) (f : A -> prog B) d :
  run (pbind p f) d = match run p d with (inr a, d') => run (f a) d' | (inl e, d') => (inl e, d') end.
Proof.
  revert d. induction p as [a|e|X o k IH]; intros d; simpl; [done|done|].
  destruct (perform funding_adapter trading_adapter o d) as [x d']. apply IH.
Qed.

Lemma run_pmatch {A B} (p : prog A) (f : A -> prog B) g d :
  run (pmatch p f g) d = match run p d with (inr a, d') => run (f a) d' | (inl e, d') => run (g e) d' end.
Proof.
  revert d. induction p as [a|e|X o k IH]; intros d; simpl; [done|done|].
  destruct (perform funding_adapter trading_adapter o d) as [x d']. apply IH.
Qed.

Lemma run_catch {A B} (p : prog A) (f : A -> prog B) g d :
  run (pcatch p f g) d = match run p d with (inr a, d') => run (f a) d' | (inl e, d') => run g d' end.
Proof.
  revert d. induction p as [a|e|X o k IH]; intros d; simpl; [done|done|].
  destruct (perform funding_adapter trading_adapter o d) as [x d']. apply IH.
Qed.

(** A call of a service leaves the table alone. *)
Lemma on_adapter_transfers s f d :
  exists x d', on_adapter funding_adapter trading_adapter s f d = (x, d') /\
    transfers d' = transfers d /\ wall_ms d' = wall_ms d.
Proof.
  destruct s; simpl; [destruct (f F _ _) as [x y]|destruct (f T _ _) as [x y]]; eexists _, _; by split.
Qed.

(** ** One step *)

(** The state that is returned is the one that is stored. *)
Definition returns (P : TransferState.t -> Prop) (id : Z) (q : TransferRequest) (p : prog TransferState.t) (d : Deployed) : Prop :=
  exists s d', run p d = (inr s, d') /\ stored id q s d' /\ P s /\ wall_ms d' = wall_ms d.

Abbreviation returns_stored := (returns (fun _ => True)).

Lemma returns_ret (P : TransferState.t -> Prop) id q s d : stored id q s d -> P s -> returns P id q (Ret s) d.
Proof. intros Hs HP. by exists s, d. Qed.

Lemma stored_transfers id q s d d' : transfers d' = transfers d -> stored id q s d -> stored id q s d'.
Proof. unfold stored. by intros ->. Qed.

(** A call of a service, whatever it answers. *)
Lemma returns_service P id q st s f (o : op OpResult.t) k d :
  perform funding_adapter trading_adapter o d = on_adapter funding_adapter trading_adapter s f d -> stored id q st d ->
  (forall x d', x = (on_adapter funding_adapter trading_adapter s f d).1 -> stored id q st d' -> returns P id q (k x) d') ->
  returns P id q (Do o k) d.
Proof.
  intros Ho Hs Hk. destruct (on_adapter_transfers s f d) as (x & d1 & Hx & Ht & Hw).
  destruct (Hk x d1) as (s' & d' & Hrun & Hs' & HP & Hw'); [by rewrite Hx|by eapply stored_transfers|].
  exists s', d'. simpl. by rewrite Ho, Hx, <- Hw.
Qed.

(** A conditional update from the stored state. *)
Lemma returns_update P id q old new err (o : op (string + bool)) k d :
  perform funding_adapter trading_adapter o d = update_if id old new err d -> stored id q old d ->
  (forall d', stored id q new d' -> returns P id q (k true) d') -> returns P id q (pbind (try_db o) k) d.
Proof.
  intros Ho (r & Hr & Hid & Hs & Ht & Hu & Ha & Hn & Hst) Hk. unfold returns. simpl. rewrite Ho. unfold update_if. rewrite Hr.
  rewrite decide_True by done. edestruct Hk as (s' & d' & Hrun & Hs' & HP & Hw'); [|exists s', d'; split; [exact Hrun|done]].
  eexists. simpl. rewrite lookup_insert_eq. split; [done|]. done.
Qed.

Section step.
Context (id : Z) (q : TransferRequest) (r : TransferRecord).
Hypothesis r_asks : asks id q r.

Ltac update := eapply returns_update; [by rewrite <- (proj1 r_asks)|eassumption|intros ? ?].
Ltac service := eapply returns_service; [reflexivity|eassumption|intros [|?|] ? ? ?]; simpl.

Lemma source_pending_returns d : stored id q TransferState.SourcePending d -> returns_stored id q (step_source_pending r) d.
Proof. intros Hs. unfold step_source_pending. service; [update..|]; by apply returns_ret. Qed.

Lemma init_returns d : stored id q TransferState.Init d -> returns_stored id q (step_init r) d.
Proof. intros Hs. unfold step_init. update. by apply source_pending_returns. Qed.

Lemma deposit_succeeded_returns d : stored id q TransferState.TargetPending d -> returns_stored id q (deposit_succeeded r) d.
Proof. intros Hs. unfold deposit_succeeded, finalize_source_commit. service; update; by apply returns_ret. Qed.

Lemma deposit_failed_returns e d : stored id q TransferState.TargetPending d -> returns_stored id q (deposit_failed r e) d.
Proof. intros Hs. unfold deposit_failed. update. by apply returns_ret. Qed.

Lemma source_done_returns d : stored id q TransferState.SourceDone d -> returns_stored id q (step_source_done r) d.
Proof.
  intros Hs. unfold step_source_done. update. simpl. unfold call_deposit.
  service; [by apply deposit_succeeded_returns|by apply deposit_failed_returns|by apply returns_ret].
Qed.

Lemma target_pending_returns d : stored id q TransferState.TargetPending d -> returns_stored id q (step_target_pending r) d.
Proof.
  intros Hs. unfold step_target_pending, call_deposit. service; [by apply deposit_succeeded_returns| |by apply returns_ret].
  destruct (decide (source r = Trading)); [by apply returns_ret|by apply deposit_failed_returns].
Qed.

Lemma compensating_returns d : stored id q TransferState.Compensating d -> returns_stored id q (step_compensating r) d.
Proof. intros Hs. unfold step_compensating. service; [update|..]; by apply returns_ret. Qed.

Lemma step_state_returns d : stored id q (t_state r) d -> returns_stored id q (step_state r) d.
Proof.
  unfold step_state. destruct (t_state r); intros Hs; (by apply init_returns) || (by apply source_pending_returns) ||
    (by apply source_done_returns) || (by apply target_pending_returns) || (by apply compensating_returns) || by apply returns_ret.
Qed.
End step.

(** A turn returns the state that is stored; or it made no progress and fails
    on the retry counter. *)
Lemma step_returns id q s d :
  stored id q s d ->
  returns_stored id q (step id) d \/
  exists e s' d', run (step id) d = (inl e, d') /\ stored id q s' d'.
Proof.
  intros Hs. apply stored_asks in Hs as (r & Hr & Hask & Hst). unfold returns, step. simpl. rewrite Hr.
  destruct (TransferState.is_terminal (t_state r)) eqn:Hterm.
  { left. simpl. apply returns_ret; [|done]. apply stored_asks. by exists r. }
  rewrite run_bind. destruct (step_state_returns id q r Hask d) as (s' & d1 & -> & Hs1 & _ & Hw).
  { apply stored_asks. by exists r. }
  rewrite run_bind. destruct (_ && _); simpl; [right; by eexists _, s', d1|left; by exists s', d1].
Qed.

(** ** The handler *)

Lemma process_now_turn fuel id deadline d s d1 :
  run (step id) d = (inr s, d1) ->
  run (process_now_loop (S fuel) id deadline) d =
  if TransferState.is_terminal s || (deadline <=? wall_ms d1) then (inr (Some s), d1)
  else run (process_now_loop fuel id deadline) d1.
Proof.
  intros Hstep. cbn [process_now_loop]. rewrite run_catch, Hstep.
  destruct (TransferState.is_terminal s); [done|]. simpl. by destruct (deadline <=? wall_ms d1).
Qed.

Lemma process_now_error fuel id q deadline d e s d1 :
  run (step id) d = (inl e, d1) -> stored id q s d1 ->
  run (process_now_loop (S fuel) id deadline) d = (inr (Some s), d1).
Proof.
  intros Hstep (r & Hr & _ & _ & _ & _ & _ & _ & <-). cbn [process_now_loop]. rewrite run_catch, Hstep.
  unfold state_after_error. simpl. by rewrite Hr.
Qed.

Lemma process_now_loop_returns fuel id q deadline s d r d' :
  stored id q s d -> run (process_now_loop fuel id deadline) d = (inr (Some r), d') -> stored id q r d'.
Proof.
  revert s d. induction fuel as [|fuel IH]; intros s d Hs; [done|].
  destruct (step_returns id q s d Hs) as [(s1 & d1 & Hstep & Hs1 & _ & _)|(e & s1 & d1 & Hstep & Hs1)].
  - rewrite (process_now_turn _ _ _ _ _ _ Hstep). destruct (_ || _); [by intros [= <- <-]|by apply (IH s1)].
  - rewrite (process_now_error _ _ _ _ _ _ _ _ Hstep Hs1). by intros [= <- <-].
Qed.

(** What a state is called. *)
Definition reported (s : TransferState.t) : string :=
  match s with
  | TransferState.Committed => "committed"
  | TransferState.RolledBack => "rolled_back"
  | TransferState.Failed => "failed"
  | _ => "pending"
  end.

(** C32: while the database answers, what the client of an internal transfer is
    told is true: a request that is refused has stored nothing; any other answer
    names the state in which exactly this transfer is stored, final or not, and
    one that is not final is in the queue of the background worker unless that
    is full. *)
Theorem internal_transfer_reported fuel cfg id (q : TransferRequest) queue d answer queue' d' :
  run (handle_internal_transfer fuel cfg id q queue) d = (inr (Some (answer, queue')), d') ->
  if (tr_amount q =? 0) || bool_decide (tr_from q = tr_to q)
  then it_req_id answer = "" /\ it_status answer = "failed" /\ d' = d /\ queue' = queue
  else exists s, stored id q s d' /\ it_req_id answer = pretty id /\ it_status answer = reported s /\
    queue' = (if TransferState.is_terminal s then queue else (try_push id queue).2).
Proof.
  unfold handle_internal_transfer, create. destruct (tr_amount q =? 0); [by intros [= <- <- <-]|]. simpl.
  destruct (decide (tr_from q = tr_to q)) as [He|He]; [rewrite bool_decide_true by done; by intros [= <- <- <-]|].
  rewrite bool_decide_false by done. rewrite run_pmatch. simpl. set (d1 := set_transfers _ d).
  assert (stored id q TransferState.Init d1) as Hs.
  { eexists. simpl. rewrite lookup_insert_eq. split; [done|]. done. }
  rewrite run_bind. destruct (run (process_now_loop _ _ _) d1) as [[e|[s|]] d2] eqn:Hrun; [done| |done].
  pose proof (process_now_loop_returns _ _ _ _ _ _ _ _ Hs Hrun) as Hs2.
  destruct s; intros [= <- <- <-]; eexists; split; (exact Hs2 || by split_and!).
Qed.


(** ** Willing services *)

Section willing.
Context (id : Z) (q : TransferRequest).

Hypothesis withdrawn : forall d,
  (on_adapter funding_adapter trading_adapter (tr_from q)
     (fun X A => withdraw id (tr_user_id q) (tr_asset_id q) (tr_amount q)) d).1 = OpResult.Success.
Hypothesis deposited : forall d,
  (on_adapter funding_adapter trading_adapter (tr_to q)
     (fun X A => deposit id (tr_user_id q) (tr_asset_id q) (tr_amount q)) d).1 = OpResult.Success.

Lemma first_step d : stored id q TransferState.Init d -> returns (fun s => s = TransferState.SourceDone) id q (step id) d.
Proof.
  intros Hs. apply stored_asks in Hs as (r & Hr & Hask & Hst). pose proof Hask as (Hid & Hsrc & Htgt & Hu & Ha & Hn).
  assert (returns (fun s => s = TransferState.SourceDone) id q (step_state r) d) as (s' & d1 & Hrun & Hs1 & -> & Hw).
  { unfold step_state. rewrite Hst. unfold step_init.
    eapply returns_update; [by rewrite <- Hid|apply stored_asks; by exists r|intros d0 Hd0]. simpl. unfold step_source_pending, call_withdraw.
    eapply returns_service; [reflexivity|exact Hd0|intros x d1 Hx Hd1]. rewrite Hid, Hsrc, Hu, Ha, Hn, withdrawn in Hx. subst x. simpl.
    eapply returns_update; [by rewrite <- Hid|exact Hd1|intros d2 Hd2]. by apply returns_ret. }
  unfold returns, step. simpl. rewrite Hr, Hst. simpl. rewrite run_bind, Hrun. simpl. by eexists _, _.
Qed.

Lemma second_step d : stored id q TransferState.SourceDone d -> returns (fun s => s = TransferState.Committed) id q (step id) d.
Proof.
  intros Hs. apply stored_asks in Hs as (r & Hr & Hask & Hst). pose proof Hask as (Hid & Hsrc & Htgt & Hu & Ha & Hn).
  assert (returns (fun s => s = TransferState.Committed) id q (step_state r) d) as (s' & d1 & Hrun & Hs1 & -> & Hw).
  { unfold step_state. rewrite Hst. unfold step_source_done.
    eapply returns_update; [by rewrite <- Hid|apply stored_asks; by exists r|intros d0 Hd0]. simpl. unfold call_deposit.
    eapply returns_service; [reflexivity|exact Hd0|intros x d1 Hx Hd1]. rewrite Hid, Htgt, Hu, Ha, Hn, deposited in Hx. subst x. simpl.
    unfold deposit_succeeded, finalize_source_commit. simpl.
    eapply returns_service; [reflexivity|exact Hd1|intros x d2 _ Hd2]. simpl.
    eapply returns_update; [by rewrite <- Hid|exact Hd2|intros d3 Hd3]. by apply returns_ret. }
  unfold returns, step. simpl. rewrite Hr, Hst. simpl. rewrite run_bind, Hrun. simpl. by eexists _, _.
Qed.

(** An internal transfer between two services that take it is finished
    within the request: two turns of the loop are enough, and the client is told
    that it is committed. *)
Theorem willing_transfer_commits fuel (cfg : WorkerConfig) (queue : TransferQueue) (d : Deployed) :
  (2 <= fuel)%nat -> 0 < process_timeout_ms cfg -> (tr_amount q <> 0)%Z -> tr_from q <> tr_to q ->
  exists d' : Deployed, run (handle_internal_transfer fuel cfg id q queue) d =
      (inr (Some (mkInternalResponse (pretty id) "committed" None None, queue)), d') /\
    stored id q TransferState.Committed d'.
Proof.
  intros Hfuel Htime Hamount Hdiff.
  unfold handle_internal_transfer, create. destruct (Z.eqb_spec (tr_amount q) 0); [done|].
  destruct (decide (tr_from q = tr_to q)); [done|]. rewrite run_pmatch. simpl. set (d1 := set_transfers _ d).
  assert (stored id q TransferState.Init d1) as Hs.
  { eexists. simpl. rewrite lookup_insert_eq. split; [done|]. done. }
  rewrite run_bind. destruct fuel as [|[|fuel]]; [lia..|].
  destruct (first_step d1 Hs) as (s & d2 & Hstep & Hs2 & -> & Hw2). rewrite (process_now_turn _ _ _ _ _ _ Hstep), Hw2.
  destruct (Z.leb_spec (wall_ms d + process_timeout_ms cfg) (wall_ms d1)) as [Hle|_]; [simpl in Hle; lia|].
  destruct (second_step d2 Hs2) as (s & d3 & Hstep' & Hs3 & -> & _). cbn [orb TransferState.is_terminal].
  rewrite (process_now_turn _ _ _ _ _ _ Hstep'). simpl. by eexists.
Qed.
End willing.
End deployed.

(** ** At a concrete input *)

Module Concrete.

Definition request : TransferRequest := mkRequest Funding Trading 1 2 100.
Definition deployment : Deployment unit unit := mkDeployment ∅ tt tt 5.
Definition queue : TransferQueue := mkTransferQueue [] 10.

Lemma internal_transfer_reported_witness :
  exists d' s,
    run_prog FundingAdapter.adapter TradingAdapter.adapter
      (handle_internal_transfer 3 default_worker_config 77 request queue) deployment =
      (inr (Some (mkInternalResponse "77" "committed" None None, queue)), d') /\
    stored 77 request s d' /\ reported s = "committed".
Proof.
  destruct (run_prog FundingAdapter.adapter TradingAdapter.adapter
    (handle_internal_transfer 3 default_worker_config 77 request queue) deployment) as [[e|[[answer q']|]] d'] eqn:Hrun;
    vm_compute in Hrun; try discriminate Hrun.
  pose proof Hrun as Hrun'. injection Hrun' as <- <- <-.
  destruct (internal_transfer_reported FundingAdapter.adapter TradingAdapter.adapter 3 default_worker_config 77 request queue deployment
    _ _ _ Hrun) as (s & Hs & _ & Hrep & _).
  eexists _, s. split; [reflexivity|]. split; [exact Hs|]. by rewrite <- Hrep.
Defined.

Lemma willing_transfer_commits_witness :
  exists d', run_prog FundingAdapter.adapter TradingAdapter.adapter
      (handle_internal_transfer 2 default_worker_config 77 request queue) deployment =
      (inr (Some (mkInternalResponse "77" "committed" None None, queue)), d') /\
    stored 77 request TransferState.Committed d'.
Proof.
  apply (willing_transfer_commits FundingAdapter.adapter TradingAdapter.adapter 77 request); try done; lia.
Defined.
End Concrete.
