(* ===== verification/Utilities.v ===== *)
(** * Small helpers ([utils/request_id.rs], [symbol_utils.rs])

    The process-wide generator of request identifiers, and the names of symbols
    and assets that are written into the code. *)

From stdpp Require Import pretty.
From S2P Require Import Prelude FastUlid.

#[local] Open Scope string_scope.
#[local] Open Scope list_scope.
#[local] Open Scope Z_scope.
#[local] Open Scope rust_scope.

(** ** Request identifiers

    The state is [SEQUENCE]; the clock is in milliseconds. *)

Definition SEQUENCE_SPACE : Z := 1048576.

Definition generate_request_id {E} (timestamp_ms : Z) : M Z E Z :=
  let* n := get in
  put (wrapping_add n 1) ;;;
  ret (Z.lor (as_u64 (Z.shiftl timestamp_ms 20)) (n mod SEQUENCE_SPACE)).

Lemma request_id_eq {E : Type} t n :
  0 <= t < 2 ^ 44 -> is_u64 n ->
  generate_request_id (E := E) t n = Ok (t * SEQUENCE_SPACE + n mod SEQUENCE_SPACE) (wrapping_add n 1).
Proof.
  intros Ht Hn. unfold generate_request_id, bind, get, put, ret. f_equal.
  pose proof (Z.mod_pos_bound n SEQUENCE_SPACE ltac:(done)) as Hm.
  rewrite as_u64_id by (unfold is_u64, u64_max; rewrite Z.shiftl_mul_pow2 by done; lia).
  by rewrite lor_shiftl_add.
Qed.

(** Two identifiers are the same only if the clock read the same and the numbers
    of the calls differ by a multiple of 2^20. *)
Lemma request_ids_collide {E : Type} t1 t2 n1 n2 id s1 s2 :
  0 <= t1 < 2 ^ 44 -> 0 <= t2 < 2 ^ 44 -> is_u64 n1 -> is_u64 n2 ->
  generate_request_id (E := E) t1 n1 = Ok id s1 -> generate_request_id (E := E) t2 n2 = Ok id s2 ->
  t1 = t2 /\ n1 mod SEQUENCE_SPACE = n2 mod SEQUENCE_SPACE.
Proof.
  intros Ht1 Ht2 Hn1 Hn2. rewrite !request_id_eq by done. intros [= H1 _] [= H2 _]. subst id. unfold SEQUENCE_SPACE in *.
  pose proof (Z.mod_pos_bound n1 1048576 ltac:(done)). pose proof (Z.mod_pos_bound n2 1048576 ltac:(done)). lia.
Qed.

(** ** Names *)

Definition BTC : Z := 1.
Definition USDT : Z := 2.
Definition ETH : Z := 3.

Definition get_symbol_from_assets (base_asset_id quote_asset_id : Z) : string + string :=
  let base_name := if base_asset_id =? BTC then Some "btc" else if base_asset_id =? ETH then Some "eth" else None in
  let quote_name := if quote_asset_id =? USDT then Some "usdt" else if quote_asset_id =? BTC then Some "btc"
                    else if quote_asset_id =? ETH then Some "eth" else None in
  match base_name with
  | None => inl ("Unknown base asset: " ++ pretty base_asset_id)%string
  | Some b =>
      match quote_name with
      | None => inl ("Unknown quote asset: " ++ pretty quote_asset_id)%string
      | Some q => inr (b ++ "_" ++ q)%string
      end
  end.

Definition asset_name (asset_id : Z) : string + string :=
  if asset_id =? BTC then inr "BTC" else if asset_id =? USDT then inr "USDT" else if asset_id =? ETH then inr "ETH"
  else inl ("Unknown asset: " ++ pretty asset_id)%string.
