(* ===== verification/OrderWal.v ===== *)
(** * The engine's order log ([order_wal.rs])

    Frames of a length and a flatbuffer, written through a [BufWriter] and read
    back one at a time.  The code of the flatbuffers is generated by the build:
    [FrameCodec] is what it offers. *)

From S2P Require Import Prelude Bytes OrderModels WalRecord UbsWal MatchingEngine.

#[local] Open Scope string_scope.
#[local] Open Scope list_scope.
#[local] Open Scope Z_scope.
#[local] Open Scope rust_scope.

(** ** Entries *)

Record TradeLogEntry := mkTradeLog {
  tl_trade_id : Z; tl_buy_order_id : Z; tl_sell_order_id : Z; tl_price : Z; tl_quantity : Z
}.

Module LogEntry.
Inductive t :=
  | PlaceOrder (order_id symbol_id : Z) (side : Side) (price quantity user_id timestamp : Z)
  | CancelOrder (order_id symbol_id timestamp : Z)
  | Trade (trade : TradeLogEntry)
  | TradeBatch (trades : list TradeLogEntry).
End LogEntry.

(** What a frame holds: the tables of the schema, with an identifier as the pair
    of words of [UlidStruct] and a side as its number; a frame of a type that
    is not known, and one that lacks a field the reader unwraps. *)
Record FbsTrade := mkFbsTrade { ft_trade_id : Z; ft_buy : Z * Z; ft_sell : Z * Z; ft_price : Z; ft_quantity : Z }.

Inductive FbsEntry :=
  | FbsOrder (order_id : Z * Z) (user_id symbol_id side price quantity timestamp : Z)
  | FbsCancel (order_id : Z * Z)
  | FbsTradeEntry (t : FbsTrade)
  | FbsTradeBatch (l : list FbsTrade)
  | FbsUnknown
  | FbsIncomplete.

Class FrameCodec := {
  FBS_BUY : Z;
  FBS_SELL : Z;
  frame_bytes : FbsEntry -> Z -> list Z;
  root_as_wal_frame : list Z -> string + FbsEntry
}.

(** A batch of at most 900,000 trades: the verifier behind [root_as_wal_frame]
    counts at most 1,000,000 tables, among them each trade, the frame and the
    batch. *)
Definition MAX_BATCH_TRADES : Z := 900000.

Definition moderate (e : FbsEntry) : Prop :=
  match e with FbsTradeBatch l => zlen l <= MAX_BATCH_TRADES | _ => True end.

(** A frame of that size that was built is read back, and is shorter than 4
    GiB. *)
Class FrameCodecLaws `{FrameCodec} : Prop := {
  sides_differ : FBS_BUY <> FBS_SELL;
  frame_read e seq : moderate e -> root_as_wal_frame (frame_bytes e seq) = inr e;
  frame_length e seq : moderate e -> zlen (frame_bytes e seq) < 4294967296
}.

Definition to_fbs_ulid (id : Z) : Z * Z := (0, id).

(** ** Writing *)

Record OrderWal := mkOrderWal { ow_file : FileIo; ow_buffer : list Z; current_seq : Z; progress_id : Z }.

(** The file is opened for appending. *)
Definition wal_new (f : FileIo) : OrderWal := mkOrderWal f [] 0 0.

Section write.
Context `{FrameCodec}.

Definition Wal (A : Type) : Type := M OrderWal WalError.t A.

Definition BUF_CAPACITY : Z := 8192.

(** A write at the end of the file; a failing call may have written a prefix. *)
Definition append (data : list Z) : M FileIo WalError.t unit :=
  sys_call (fun f => set_contents (contents f ++ data) f) (fun n f => set_contents (contents f ++ take n data) f).

(** [BufWriter::flush_buf]: what a failing call has written leaves the buffer. *)
Definition flush_buf : Wal unit :=
  fun w =>
    match ow_buffer w with
    | [] => Ok tt w
    | buffer =>
        match append buffer (ow_file w) with
        | Ok _ f => Ok tt (mkOrderWal f [] (current_seq w) (progress_id w))
        | Err e f =>
            Err e (mkOrderWal f (drop (length (contents f) - length (contents (ow_file w))) buffer) (current_seq w)
                     (progress_id w))
        | Panic => Panic
        end
    end.

(** [BufWriter::write_all]: large pieces pass the buffer by. *)
Definition write_all (data : list Z) : Wal unit :=
  let* w := get in
  if zlen data <? BUF_CAPACITY - zlen (ow_buffer w) then
    put (mkOrderWal (ow_file w) (ow_buffer w ++ data) (current_seq w) (progress_id w))
  else
    (if BUF_CAPACITY - zlen (ow_buffer w) <? zlen data then flush_buf else ret tt) ;;;
    let* w := get in
    if BUF_CAPACITY <=? zlen data then
      zoom (fun w => Some (ow_file w)) (fun f w => mkOrderWal f (ow_buffer w) (current_seq w) (progress_id w)) (append data)
    else put (mkOrderWal (ow_file w) (ow_buffer w ++ data) (current_seq w) (progress_id w)).

Definition write_frame (e : FbsEntry) : Wal unit :=
  let buf := frame_bytes e 0 in
  write_all (le_bytes 4 (zlen buf)) ;;;
  write_all buf.

Definition order_frame (order_id user_id symbol_id : Z) (side : Side) (price quantity : Z) : FbsEntry :=
  FbsOrder (to_fbs_ulid order_id) user_id symbol_id (match side with Buy => FBS_BUY | Sell => FBS_SELL end) price quantity 0.

Definition trade_frame (trade_id buy_order_id sell_order_id price quantity : Z) : FbsTrade :=
  mkFbsTrade trade_id (to_fbs_ulid buy_order_id) (to_fbs_ulid sell_order_id) price quantity.

Definition batch_frame (trades : list OrderModels.Trade) : FbsEntry :=
  FbsTradeBatch (map (fun t => trade_frame (OrderModels.trade_id t) (OrderModels.buy_order_id t)
                                 (OrderModels.sell_order_id t) (trade_price t) (trade_quantity t)) trades).

Definition wal_place_order_no_flush (order_id user_id symbol_id : Z) (side : Side) (price quantity : Z) : Wal unit :=
  write_frame (order_frame order_id user_id symbol_id side price quantity).

Definition wal_cancel_order_no_flush (order_id : Z) : Wal unit := write_frame (FbsCancel (to_fbs_ulid order_id)).

Definition log_trade_batch_no_flush (trades : list OrderModels.Trade) : Wal unit := write_frame (batch_frame trades).

Definition wal_place_order (order_id user_id symbol_id : Z) (side : Side) (price quantity : Z) : Wal unit :=
  wal_place_order_no_flush order_id user_id symbol_id side price quantity ;;; flush_buf.

Definition wal_cancel_order (order_id : Z) : Wal unit := wal_cancel_order_no_flush order_id ;;; flush_buf.

Definition log_trade (trade_id buy_order_id sell_order_id price quantity : Z) : Wal unit :=
  write_frame (FbsTradeEntry (trade_frame trade_id buy_order_id sell_order_id price quantity)) ;;; flush_buf.

Definition log_trade_batch (trades : list OrderModels.Trade) : Wal unit := log_trade_batch_no_flush trades ;;; flush_buf.

Definition wal_flush : Wal unit :=
  flush_buf ;;; modify (fun w => mkOrderWal (ow_file w) (ow_buffer w) (current_seq w) (current_seq w)).

Definition next_seq {bp : BuildProfile} : Wal Z :=
  let* w := get in
  let* n := unwrap (op_add (current_seq w) 1) in
  put (mkOrderWal (ow_file w) (ow_buffer w) n (progress_id w)) ;;;
  ret n.

(** The log as the matching engine uses it. *)
Definition io_text (e : WalError.t) : string := match e with WalError.IoError msg => msg | _ => "wal error" end.

#[export] Instance order_wal_log : OrderLog OrderWal := {
  log_place_order_no_flush o u s d p q := map_err io_text (wal_place_order_no_flush o u s d p q);
  MatchingEngine.log_cancel_order o := map_err io_text (wal_cancel_order o);
  log_flush := map_err io_text wal_flush;
  log_current_seq w := current_seq w
}.
End write.

(** ** Reading *)

Inductive ReadError := UnexpectedEof | InvalidData (msg : string).

Section read.
Context `{FrameCodec}.

Definition trade_entry (t : FbsTrade) : TradeLogEntry :=
  mkTradeLog (ft_trade_id t) (ft_buy t).2 (ft_sell t).2 (ft_price t) (ft_quantity t).

(** [None] is the end of the log, as is a frame that is not known. *)
Definition entry_of (e : FbsEntry) : option (option LogEntry.t) :=
  match e with
  | FbsOrder order_id user_id symbol_id side price quantity timestamp =>
      Some ((fun s => LogEntry.PlaceOrder order_id.2 symbol_id s price quantity user_id timestamp) <$>
            (if side =? FBS_BUY then Some Buy else if side =? FBS_SELL then Some Sell else None))
  | FbsCancel order_id => Some (Some (LogEntry.CancelOrder order_id.2 0 0))
  | FbsTradeEntry t => Some (Some (LogEntry.Trade (trade_entry t)))
  | FbsTradeBatch l => Some (Some (LogEntry.TradeBatch (map trade_entry l)))
  | FbsUnknown => Some None
  | FbsIncomplete => None
  end.

(** The state is what the reader has not read. *)
Definition read_entry : M (list Z) ReadError (option LogEntry.t) :=
  let* bytes := get in
  if zlen bytes <? 4 then put [] ;;; ret None
  else
    let len := Z.to_nat (le_value (take 4 bytes)) in
    let body := drop 4 bytes in
    if Nat.ltb (length body) len then put [] ;;; throw UnexpectedEof
    else
      put (drop len body) ;;;
      match root_as_wal_frame (take len body) with
      | inl msg => throw (InvalidData msg)
      | inr e => unwrap (entry_of e)
      end.

(** Reading to the end; an error ends it too. *)
Fixpoint read_entries (fuel : nat) (bytes : list Z) : option (list LogEntry.t * option ReadError) :=
  match fuel with
  | O => None
  | Datatypes.S fuel =>
      match read_entry bytes with
      | Panic => None
      | Err e _ => Some ([], Some e)
      | Ok None _ => Some ([], None)
      | Ok (Some x) rest => (fun r => (x :: r.1, r.2)) <$> read_entries fuel rest
      end
  end.
End read.
