(* ===== verification/OrderWalProofs.v ===== *)
(** * What the order log gives back

    Everything up to the last flush is read back, whatever is cut off behind it;
    a failed write leaves a frame that swallows the ones behind it. *)

From S2P Require Import Prelude Bytes OrderModels WalRecord UbsWal MatchingEngine OrderWal.

#[local] Open Scope string_scope.
#[local] Open Scope list_scope.
#[local] Open Scope Z_scope.
#[local] Open Scope rust_scope.

(** ** The stream

    What has been written, on its way to the file or there. *)

Definition stream (w : OrderWal) : list Z := contents (ow_file w) ++ ow_buffer w.

(** A run that only appends [data], and keeps what the file has. *)
Definition appends (data : list Z) (w w' : OrderWal) : Prop :=
  stream w' = stream w ++ data /\ contents (ow_file w) `prefix_of` contents (ow_file w').

Lemma appends_trans a b w1 w2 w3 : appends a w1 w2 -> appends b w2 w3 -> appends (a ++ b) w1 w3.
Proof. intros [H1 P1] [H2 P2]. split; [by rewrite H2, H1, app_assoc|by trans (contents (ow_file w2))]. Qed.

Lemma appends_refl w : appends [] w w.
Proof. split; [by rewrite app_nil_r|done]. Qed.

Section log.
Context `{FrameCodec}.

Lemma append_cases data f :
  match append data f with
  | Ok _ f' => contents f' = contents f ++ data
  | Err _ f' => exists n, contents f' = contents f ++ take n data
  | Panic => False
  end.
Proof. unfold append, sys_call. destruct (script f) as [|[|n msg] rest]; simpl; [done|done|by exists n]. Qed.

(** A flush loses nothing, also when it fails half-way. *)
Lemma flush_buf_cases w :
  match flush_buf w with
  | Ok _ w' => appends [] w w' /\ ow_buffer w' = []
  | Err _ w' => appends [] w w'
  | Panic => False
  end.
Proof.
  unfold flush_buf. destruct (ow_buffer w) as [|b buf] eqn:Hbuf; [split; [apply appends_refl|done]|].
  pose proof (append_cases (b :: buf) (ow_file w)) as Happ. unfold appends, stream. rewrite Hbuf.
  destruct (append (b :: buf) (ow_file w)) as [[] f|e f|]; simpl; [| |done].
  - rewrite Happ, !app_nil_r. split; [|done]. split; [done|]. by apply prefix_app_r.
  - destruct Happ as [n Hn]. rewrite Hn, app_nil_r. split; [|by apply prefix_app_r].
    rewrite length_app, <- app_assoc. f_equal.
    replace (length (contents (ow_file w)) + length (take n (b :: buf)) - length (contents (ow_file w)))%nat
      with (length (take n (b :: buf))) by lia.
    rewrite length_take. destruct (decide (n <= length (b :: buf))%nat).
    + rewrite Nat.min_l by done. apply take_drop.
    + rewrite Nat.min_r, drop_all, app_nil_r by lia. by rewrite take_ge by lia.
Qed.

(** A write appends its data, or a part of it that is missing something. *)
Lemma write_all_cases data w :
  match write_all data w with
  | Ok _ w' => appends data w w'
  | Err _ w' => exists n, appends (take n data) w w'
  | Panic => False
  end.
Proof.
  unfold write_all, bind at 1, get. destruct (zlen data <? _).
  { split; [by unfold stream; simpl; rewrite app_assoc|done]. }
  match goal with |- context [bind ?m _ w] => set (c := m) end.
  assert (match c w with
          | Ok _ w' => appends [] w w' /\ (BUF_CAPACITY <= zlen data -> ow_buffer w' = [])
          | Err _ w' => appends [] w w'
          | Panic => False end) as Hc.
  { unfold c. pose proof (flush_buf_cases w) as Hf. destruct (Z.ltb_spec (BUF_CAPACITY - zlen (ow_buffer w)) (zlen data)) as [_|Hge].
    - destruct (flush_buf w); [|done..]. by destruct Hf.
    - split; [apply appends_refl|]. intros Hbig. rewrite !zlen_eq in *. destruct (ow_buffer w); [done|]. simpl in Hge. lia. }
  unfold bind at 1. destruct (c w) as [[] w1|e w1|]; [destruct Hc as [Hflush Hempty]|by exists 0%nat|done].
  unfold bind at 1, get. destruct (Z.leb_spec BUF_CAPACITY (zlen data)) as [Hbig|_].
  - unfold zoom. pose proof (append_cases data (ow_file w1)) as Happ. specialize (Hempty Hbig).
    destruct (append data (ow_file w1)) as [[] f|e f|]; [| |done].
    + eapply (appends_trans []); [exact Hflush|]. unfold appends, stream. simpl. rewrite Happ, Hempty, !app_nil_r.
      split; [done|by apply prefix_app_r].
    + destruct Happ as [n Hn]. exists n. eapply (appends_trans []); [exact Hflush|]. unfold appends, stream. simpl.
      rewrite Hn, Hempty, !app_nil_r. split; [done|by apply prefix_app_r].
  - eapply (appends_trans []); [exact Hflush|]. unfold appends, stream. simpl. split; [by rewrite app_assoc|done].
Qed.

(** ** Frames *)

Definition frame (e : FbsEntry) : list Z := le_bytes 4 (zlen (frame_bytes e 0)) ++ frame_bytes e 0.

Definition frames (es : list FbsEntry) : list Z := concat (map frame es).

(** A frame is appended whole, or, when the file refuses a write, in part:
    its length may be there without its body, and the frames that are written
    next are read as that body. *)
Theorem frame_appended_or_torn e w :
  match write_frame e w with
  | Ok _ w' => appends (frame e) w w'
  | Err _ w' => exists part, part `prefix_of` frame e /\ appends part w w'
  | Panic => False
  end.
Proof.
  unfold write_frame, bind. set (len := le_bytes 4 _). pose proof (write_all_cases len w) as Hlen.
  destruct (write_all len w) as [[] w1|err w1|]; [| |done].
  - pose proof (write_all_cases (frame_bytes e 0) w1) as Hbody.
    destruct (write_all (frame_bytes e 0) w1) as [[] w2|err w2|]; [by eapply appends_trans| |done].
    destruct Hbody as [n Hn]. exists (len ++ take n (frame_bytes e 0)). split; [|by eapply appends_trans].
    unfold frame. fold len. apply prefix_app, prefix_take.
  - destruct Hlen as [n Hn]. exists (take n len). split; [|done]. unfold frame. fold len. by apply prefix_app_r, prefix_take.
Qed.

(** ** Reading *)

Context {laws : FrameCodecLaws}.

Lemma frame_bytes_len e : moderate e -> 0 <= zlen (frame_bytes e 0) < 256 ^ Z.of_nat 4.
Proof. intros He. split; [rewrite zlen_eq; lia|]. by apply frame_length. Qed.

Lemma read_frame e x rest : moderate e -> entry_of e = Some (Some x) -> read_entry (frame e ++ rest) = Ok (Some x) rest.
Proof.
  intros Hm He. unfold read_entry, bind at 1, get, frame. rewrite <- app_assoc.
  destruct (Z.ltb_spec (zlen (le_bytes 4 (zlen (frame_bytes e 0)) ++ frame_bytes e 0 ++ rest)) 4) as [Hlt|_].
  { rewrite zlen_eq, length_app, le_bytes_length in Hlt. lia. }
  rewrite take_app_length' by by rewrite le_bytes_length. rewrite drop_app_length' by by rewrite le_bytes_length.
  rewrite le_value_bytes by by apply frame_bytes_len. rewrite zlen_eq, Nat2Z.id.
  rewrite (proj2 (Nat.ltb_ge _ _)) by (rewrite length_app; lia).
  unfold bind, put. rewrite take_app_length, drop_app_length, frame_read, He by done. done.
Qed.

(** What is left of a frame that is cut off: the end of the log, or an error. *)
Lemma read_torn e n : moderate e -> (n < length (frame e))%nat ->
  read_entry (take n (frame e)) = if Nat.ltb n 4 then Ok None [] else Err UnexpectedEof [].
Proof.
  intros Hm Hn. unfold read_entry, bind at 1, get. assert (length (take n (frame e)) = n) as Hlen by (rewrite length_take; lia).
  rewrite zlen_eq, Hlen. destruct (Nat.ltb_spec n 4) as [Hlt|Hge].
  - by rewrite (proj2 (Z.ltb_lt _ _)) by lia.
  - rewrite (proj2 (Z.ltb_ge _ _)) by lia. unfold frame in *. rewrite length_app, le_bytes_length in Hn.
    rewrite take_app_ge, le_bytes_length by (rewrite le_bytes_length; lia).
    rewrite take_app_length' by by rewrite le_bytes_length. rewrite drop_app_length' by by rewrite le_bytes_length.
    rewrite le_value_bytes by by apply frame_bytes_len. rewrite zlen_eq, Nat2Z.id.
    by rewrite (proj2 (Nat.ltb_lt _ _)) by (rewrite length_take; lia).
Qed.

(** A log that was cut off anywhere is read up to the last whole frame. *)
Lemma read_cut es xs n fuel :
  Forall2 (fun e x => moderate e /\ entry_of e = Some (Some x)) es xs -> (length es < fuel)%nat ->
  exists k err, read_entries fuel (take n (frames es)) = Some (take k xs, err) /\
    (err = None \/ err = Some UnexpectedEof) /\
    (forall j, (j <= length es)%nat -> (length (frames (take j es)) <= n)%nat -> (j <= k)%nat) /\
    ((length (frames es) <= n)%nat -> err = None).
Proof.
  intros Hall. revert n fuel. induction Hall as [|e x es xs [Hm He] Hall IH]; intros n fuel Hfuel; (destruct fuel as [|fuel]; [simpl in Hfuel; lia|]).
  - change (frames []) with (@nil Z). rewrite take_nil. exists 0%nat, None. split_and!; [done|by left|intros j Hj _; simpl in Hj; lia|done].
  - change (frames (e :: es)) with (frame e ++ frames es). destruct (decide (length (frame e) <= n)%nat) as [Hle|Hgt].
    + rewrite take_app_ge by done. cbn [read_entries]. rewrite (read_frame _ _ _ Hm He).
      destruct (IH (n - length (frame e))%nat fuel) as (k & err & Hr & Herr & Hk & Hend); [simpl in Hfuel; lia|].
      rewrite Hr. exists (S k), err. split; [done|]. split; [done|]. split.
      * intros [|j] Hj Hn; [lia|]. simpl in Hj. change (frames (take (Datatypes.S j) (e :: es))) with (frame e ++ frames (take j es)) in Hn.
        rewrite length_app in Hn. apply le_n_S, Hk; lia.
      * rewrite length_app. intros Hn. apply Hend. lia.
    + rewrite take_app_le by lia. cbn [read_entries]. rewrite read_torn by (done || lia).
      assert (forall j, (j <= length (e :: es))%nat -> (length (frames (take j (e :: es))) <= n)%nat -> (j <= 0)%nat) as Hj.
      { intros [|j] _ Hn; [done|]. change (frames (take (S j) (e :: es))) with (frame e ++ frames (take j es)) in Hn.
        rewrite length_app in Hn. lia. }
      destruct (Nat.ltb n 4); eexists 0%nat, _; (split; [done|]); split_and!; auto; rewrite length_app; intros; lia.
Qed.

(** ** Runs of the log *)

Inductive LogOp :=
  | PlaceOp (flushed : bool) (order_id user_id symbol_id : Z) (side : Side) (price quantity : Z)
  | CancelOp (flushed : bool) (order_id : Z)
  | TradeOp (trade_id buy_order_id sell_order_id price quantity : Z)
  | BatchOp (flushed : bool) (trades : list OrderModels.Trade)
  | FlushOp.

Definition log_op (op : LogOp) : Wal unit :=
  match op with
  | PlaceOp false o u s d p q => wal_place_order_no_flush o u s d p q
  | PlaceOp true o u s d p q => wal_place_order o u s d p q
  | CancelOp false o => wal_cancel_order_no_flush o
  | CancelOp true o => wal_cancel_order o
  | TradeOp t b s p q => log_trade t b s p q
  | BatchOp false l => log_trade_batch_no_flush l
  | BatchOp true l => log_trade_batch l
  | FlushOp => wal_flush
  end.

Definition op_flushes (op : LogOp) : bool :=
  match op with PlaceOp b _ _ _ _ _ _ | CancelOp b _ | BatchOp b _ => b | TradeOp _ _ _ _ _ | FlushOp => true end.

Definition op_frame (op : LogOp) : option FbsEntry :=
  match op with
  | PlaceOp _ o u s d p q => Some (order_frame o u s d p q)
  | CancelOp _ o => Some (FbsCancel (to_fbs_ulid o))
  | TradeOp t b s p q => Some (FbsTradeEntry (trade_frame t b s p q))
  | BatchOp _ l => Some (batch_frame l)
  | FlushOp => None
  end.

(** What is read back: no time is logged, and no symbol of a cancellation. *)
Definition op_entry (op : LogOp) : option LogEntry.t :=
  match op with
  | PlaceOp _ o u s d p q => Some (LogEntry.PlaceOrder o s d p q u 0)
  | CancelOp _ o => Some (LogEntry.CancelOrder o 0 0)
  | TradeOp t b s p q => Some (LogEntry.Trade (mkTradeLog t b s p q))
  | BatchOp _ l => Some (LogEntry.TradeBatch
      (map (fun t => mkTradeLog (OrderModels.trade_id t) (OrderModels.buy_order_id t) (OrderModels.sell_order_id t)
                       (trade_price t) (trade_quantity t)) l))
  | FlushOp => None
  end.

Lemma op_frame_entry op :
  match op_frame op, op_entry op with
  | Some e, Some x => entry_of e = Some (Some x)
  | None, None => True
  | _, _ => False
  end.
Proof.
  destruct op as [fl o u s d p q|fl o|t b s p q|fl l|]; simpl; try done.
  - unfold order_frame. simpl. destruct d; [by rewrite Z.eqb_refl|].
    destruct (Z.eqb_spec FBS_SELL FBS_BUY) as [Heq|_]; [by destruct sides_differ|by rewrite Z.eqb_refl].
  - do 3 f_equal. rewrite map_map. done.
Qed.

Definition moderate_op (op : LogOp) : Prop := match op with BatchOp _ l => zlen l <= MAX_BATCH_TRADES | _ => True end.

Lemma frames_entries ops :
  Forall moderate_op ops ->
  Forall2 (fun e x => moderate e /\ entry_of e = Some (Some x)) (omap op_frame ops) (omap op_entry ops).
Proof.
  induction 1 as [|op ops Hm _ IH]; [constructor|]. pose proof (op_frame_entry op) as Hop. simpl.
  assert (forall e, op_frame op = Some e -> moderate e) as Hme.
  { destruct op; simpl; intros e [= <-]; try done. unfold batch_frame, moderate. rewrite zlen_eq, length_map. simpl in Hm. by rewrite zlen_eq in Hm. }
  destruct (op_frame op), (op_entry op); try done. constructor; [|done]. split; [by apply Hme|done].
Qed.

Lemma frames_app es1 es2 : frames (es1 ++ es2) = frames es1 ++ frames es2.
Proof. unfold frames. by rewrite map_app, concat_app. Qed.

Definition op_bytes (op : LogOp) : list Z := match op_frame op with Some e => frame e | None => [] end.

(** An operation appends its frame, and empties the buffer if it flushes; or it
    fails with a part of the frame appended. *)
Definition logged (bytes : list Z) (flushed : bool) (w : OrderWal) (r : res OrderWal WalError.t unit) : Prop :=
  match r with
  | Ok _ w' => appends bytes w w' /\ (flushed = true -> ow_buffer w' = [])
  | Err _ w' => exists part, part `prefix_of` bytes /\ appends part w w'
  | Panic => False
  end.

Lemma write_frame_logged e w : logged (frame e) false w (write_frame e w).
Proof. pose proof (frame_appended_or_torn e w) as Hf. by destruct (write_frame e w). Qed.

Lemma flush_logged w : logged [] true w (flush_buf w).
Proof.
  pose proof (flush_buf_cases w) as Hf. destruct (flush_buf w) as [[] w'|e w'|]; [| |done]; simpl in *.
  - by destruct Hf.
  - by exists [].
Qed.

Lemma logged_flush m bytes flushed w :
  logged bytes flushed w (m w) -> logged bytes true w ((m ;;; flush_buf) w).
Proof.
  intros Hm. unfold bind. destruct (m w) as [[] w1|e w1|]; [|done..]. destruct Hm as [Hm _].
  pose proof (flush_logged w1) as Hf. destruct (flush_buf w1) as [[] w2|e w2|]; [| |done]; simpl in *.
  - destruct Hf as [Hf Hb]. split; [|done]. rewrite <- (app_nil_r bytes). by eapply appends_trans.
  - destruct Hf as (part & Hpart & Hf). exists (bytes ++ part). split; [|by eapply appends_trans].
    apply prefix_nil_inv in Hpart as ->. by rewrite app_nil_r.
Qed.

Lemma log_op_logged op w : logged (op_bytes op) (op_flushes op) w (log_op op w).
Proof.
  pose proof write_frame_logged as Hframe.
  assert (Hboth : forall e, logged (frame e) true w ((write_frame e ;;; flush_buf) w)).
  { intros e. eapply logged_flush, Hframe. }
  destruct op as [[] o u s d p q|[] o|t b s p q|[] l|]; try apply Hframe; try apply Hboth.
  simpl. unfold wal_flush, bind. pose proof (flush_logged w) as Hf.
  by destruct (flush_buf w) as [[] w1|e w1|].
Qed.

Lemma frames_cons op ops : frames (omap op_frame (op :: ops)) = op_bytes op ++ frames (omap op_frame ops).
Proof. unfold op_bytes. simpl. by destruct (op_frame op). Qed.

(** A run that stops at its first error has appended a beginning of the frames
    it was asked to. *)
Lemma log_ops_logged ops w : logged (frames (omap op_frame ops)) false w (iter log_op ops w).
Proof.
  revert w. induction ops as [|op ops IH]; intros w; cbn [iter]; [by split; [apply appends_refl|]|].
  rewrite frames_cons. unfold bind. pose proof (log_op_logged op w) as Hop.
  destruct (log_op op w) as [[] w1|e w1|]; [|destruct Hop as (part & Hpart & Hop)|done].
  - destruct Hop as [Hop _]. specialize (IH w1). destruct (iter log_op ops w1) as [[] w2|e w2|]; [| |done].
    + destruct IH as [IH _]. split; [by eapply appends_trans|done].
    + destruct IH as (part & Hpart & IH). exists (op_bytes op ++ part).
      split; [by apply prefix_app|by eapply appends_trans].
  - exists part. split; [by apply prefix_app_r|done].
Qed.

(** Reading any part of a log that holds at least the frames of [ops1]. *)
Lemma read_part ops1 ops2 bytes :
  Forall moderate_op (ops1 ++ ops2) -> bytes `prefix_of` frames (omap op_frame (ops1 ++ ops2)) ->
  frames (omap op_frame ops1) `prefix_of` bytes ->
  exists k err,
    read_entries (S (length (ops1 ++ ops2))) bytes = Some (take k (omap op_entry (ops1 ++ ops2)), err) /\
    (length (omap op_entry ops1) <= k)%nat /\ (err = None \/ err = Some UnexpectedEof) /\
    (bytes = frames (omap op_frame (ops1 ++ ops2)) -> err = None).
Proof.
  intros Hmod [rest Hall] Hpre.
  assert (bytes = take (length bytes) (frames (omap op_frame (ops1 ++ ops2)))) as Hcut
    by by rewrite Hall, take_app_length.
  destruct (read_cut (omap op_frame (ops1 ++ ops2)) (omap op_entry (ops1 ++ ops2)) (length bytes)
              (S (length (ops1 ++ ops2)))) as (k & err & Hr & Herr & Hk & Hend).
  { by apply frames_entries. }
  { apply le_n_S. clear. induction (ops1 ++ ops2) as [|x l IH]; simpl; [done|].
    unfold omap in IH. destruct (op_frame x); simpl; lia. }
  rewrite <- Hcut in Hr. exists k, err. split; [done|]. split; [|split; [done|]].
  - apply Forall_app in Hmod as [Hmod _]. rewrite <- (Forall2_length _ _ _ (frames_entries ops1 Hmod)).
    rewrite (omap_app op_frame ops1 ops2) in Hk. apply Hk; [rewrite length_app; lia|].
    rewrite take_app_length. by apply prefix_length.
  - intros ->. by apply Hend.
Qed.

(** C33: the order log gives back what was flushed.  Let writes go into a new
    file, up to and including one that flushes, without error, and let any more
    follow until the first of them fails, if one does, with any part of its
    data written (batches being of a size the verifier of the format takes).
    None of them panics; and the file at that moment, with whatever was still
    in the buffer lost, is read without panic: every entry up to the last
    operation that flushed comes back, in order, possibly some more of those
    that followed, and then the end of the log or an unexpected end of file;
    nothing else is ever read. *)
Theorem order_log_recovers ops op ops' f w1 :
  contents f = [] -> Forall moderate_op (ops ++ op :: ops') -> op_flushes op = true ->
  iter log_op (ops ++ [op]) (wal_new f) = Ok tt w1 ->
  exists w k err,
    state_of (iter log_op ops' w1) = Some w /\
    read_entries (S (length (ops ++ op :: ops'))) (contents (ow_file w)) =
      Some (take k (omap op_entry (ops ++ op :: ops')), err) /\
    (length (omap op_entry (ops ++ [op])) <= k)%nat /\
    (err = None \/ err = Some UnexpectedEof) /\ (ops' = [] -> err = None).
Proof.
  intros Hnew Hmod Hflush Hrun.
  assert (Hb : ow_buffer w1 = []).
  { rewrite iter_app in Hrun. apply bind_inv_ok in Hrun as ([] & w0 & _ & H2). cbn [iter] in H2.
    apply bind_inv_ok in H2 as ([] & w2 & H2 & [= <-]).
    pose proof (log_op_logged op w0) as Hop. rewrite H2 in Hop. by apply Hop. }
  pose proof (log_ops_logged (ops ++ [op]) (wal_new f)) as Hs1. rewrite Hrun in Hs1. destruct Hs1 as [[Hs1 _] _].
  unfold stream in Hs1. simpl in Hs1. rewrite Hnew, Hb, app_nil_r in Hs1. simpl in Hs1.
  replace (ops ++ op :: ops') with ((ops ++ [op]) ++ ops') in * by by rewrite <- app_assoc.
  pose proof (log_ops_logged ops' w1) as Hs2.
  assert (exists w part, state_of (iter log_op ops' w1) = Some w /\
    part `prefix_of` frames (omap op_frame ops') /\ appends part w1 w /\ (ops' = [] -> w = w1))
    as (w & part & Hw & Hpart & [Hst Hpre] & Hsame).
  { destruct (iter log_op ops' w1) as [[] w|e w|] eqn:Hops; [destruct Hs2 as [Hs2 _]|destruct Hs2 as (part & ? & ?)|done].
    - exists w, (frames (omap op_frame ops')). split_and!; [done|done|done|]. intros ->. by injection Hops.
    - exists w, part. split_and!; [done|done|done|]. by intros ->. }
  unfold stream in Hst. rewrite Hb, app_nil_r, Hs1 in Hst. rewrite Hs1 in Hpre.
  destruct (read_part (ops ++ [op]) ops' (contents (ow_file w)) Hmod) as (k & err & Hr & Hk & Herr & Hend).
  - rewrite omap_app, frames_app. destruct Hpart as [rest ->]. exists (ow_buffer w ++ rest).
    by rewrite !app_assoc, Hst.
  - exact Hpre.
  - exists w, k, err. split_and!; [done..|]. intros Hnil. apply Hend. rewrite (Hsame Hnil), Hs1, Hnil.
    by rewrite app_nil_r.
Qed.
End log.

(** ** At a concrete input *)

Module Concrete.

(** One number for every field. *)
Fixpoint trade_numbers (l : list FbsTrade) : list Z :=
  match l with
  | [] => []
  | t :: l => ft_trade_id t :: (ft_buy t).1 :: (ft_buy t).2 :: (ft_sell t).1 :: (ft_sell t).2 :: ft_price t ::
              ft_quantity t :: trade_numbers l
  end.

Fixpoint read_trades (fuel : nat) (l : list Z) : list FbsTrade :=
  match fuel, l with
  | Datatypes.S fuel, a :: b1 :: b2 :: c1 :: c2 :: p :: q :: l => mkFbsTrade a (b1, b2) (c1, c2) p q :: read_trades fuel l
  | _, _ => []
  end.

#[local] Instance number_codec : FrameCodec := {
  FBS_BUY := 0; FBS_SELL := 1;
  frame_bytes e _ :=
    match e with
    | FbsOrder o u s d p q t => [1; o.1; o.2; u; s; d; p; q; t]
    | FbsCancel o => [2; o.1; o.2]
    | FbsTradeEntry t => 3 :: trade_numbers [t]
    | FbsTradeBatch l => 4 :: trade_numbers l
    | FbsUnknown => [5]
    | FbsIncomplete => [6]
    end;
  root_as_wal_frame l :=
    match l with
    | [1; o1; o2; u; s; d; p; q; t] => inr (FbsOrder (o1, o2) u s d p q t)
    | [2; o1; o2] => inr (FbsCancel (o1, o2))
    | [3; a; b1; b2; c1; c2; p; q] => inr (FbsTradeEntry (mkFbsTrade a (b1, b2) (c1, c2) p q))
    | 4 :: l => inr (FbsTradeBatch (read_trades (length l) l))
    | [5] => inr FbsUnknown
    | [6] => inr FbsIncomplete
    | _ => inl "no frame"
    end
}.

Lemma length_trade_numbers l : length (trade_numbers l) = (7 * length l)%nat.
Proof. induction l as [|t l IH]; simpl; [done|]. lia. Qed.

Lemma read_trade_numbers l fuel : (length l <= fuel)%nat -> read_trades fuel (trade_numbers l) = l.
Proof.
  revert fuel. induction l as [|[a [b1 b2] [c1 c2] p q] l IH]; intros [|fuel] Hf; simpl in *; [done|done|lia|].
  by rewrite IH by lia.
Qed.

#[local] Instance number_codec_laws : FrameCodecLaws.
Proof.
  split; [done|..].
  - intros [[? ?]|[? ?]|[? [? ?] [? ?] ? ?]|l| |] seq Hm; try done. simpl. rewrite read_trade_numbers; [done|].
    rewrite length_trade_numbers. lia.
  - intros [[? ?]|[? ?]|[? [? ?] [? ?] ? ?]|l| |] seq Hm; try done. unfold moderate, MAX_BATCH_TRADES in Hm. rewrite zlen_eq in Hm. rewrite zlen_eq. simpl.
    rewrite length_trade_numbers. lia.
Qed.

(** Two orders, the second flushed, and a cancellation whose flush fails after
    two bytes. *)
Definition ops : list LogOp := [PlaceOp false 1 7 0 Buy 100 5; PlaceOp true 2 8 0 Sell 101 6].

Lemma order_log_recovers_witness :
  exists w1 w,
    iter log_op ops (wal_new (mkFile [] [] [IoOk; IoFail 2 "EIO"])) = Ok tt w1 /\
    log_op (CancelOp true 1) w1 = Err (WalError.IoError "EIO") w /\
    exists k err,
      read_entries 4 (contents (ow_file w)) =
        Some (take k (omap op_entry (ops ++ [CancelOp true 1])), err) /\ (2 <= k)%nat /\
      (err = None \/ err = Some UnexpectedEof).
Proof.
  destruct (iter log_op ops (wal_new (mkFile [] [] [IoOk; IoFail 2 "EIO"]))) as [[] w1|e w1|] eqn:Hrun;
    [|vm_compute in Hrun; discriminate Hrun..].
  destruct (order_log_recovers [PlaceOp false 1 7 0 Buy 100 5] (PlaceOp true 2 8 0 Sell 101 6) [CancelOp true 1]
    (mkFile [] [] [IoOk; IoFail 2 "EIO"]) w1) as (w & k & err & Hw & Hr & Hk & Herr & _);
    [reflexivity| |reflexivity|exact Hrun|].
  - rewrite !Forall_app, !Forall_cons. split_and!; (exact I || by apply Forall_nil).
  - exists w1, w. split; [reflexivity|]. split.
    + vm_compute in Hrun. injection Hrun as <-. vm_compute in Hw. injection Hw as <-. reflexivity.
    + exists k, err. split; [exact Hr|]. split; [exact Hk|exact Herr].
Defined.
End Concrete.
