(* ===== verification/OrderHistory.v ===== *)
(** * The history of orders ([db/order_history_db.rs],
    [bin/order_history_service.rs] and the end of [bin/settlement_service.rs])

    Four tables: the orders that are open, the latest state of every order, a
    stream of updates and counters per user.  One service writes them
    sequentially from the commands of the ledger, another one in parallel from
    the outputs of the engine.  The keys are those of
    [schema/settlement_unified.cql], whose column types are the ones the
    statements bind. *)

From stdpp Require Import gmap strings.
From S2P Require Import Prelude Ledger EngineOutput.

#[local] Open Scope string_scope.
#[local] Open Scope list_scope.
#[local] Open Scope Z_scope.
#[local] Open Scope rust_scope.

(** ** Tables *)

(** The columns of [active_orders] besides the key. *)
Record OrderRow := mkOrderRow {
  row_client_order_id : string; row_symbol_id : Z; row_side : Z; row_order_type : Z; row_price : Z; row_qty : Z;
  row_filled_qty : Z; row_avg_fill_price : Z; row_status : Z; row_created_at : Z; row_updated_at : Z
}.

(** [order_history] has two columns more. *)
Record HistoryRow := mkHistoryRow { row_order : OrderRow; row_rejection_reason : string; row_match_id : option Z }.

Record StreamRow := mkStreamRow {
  sr_event_date : Z; sr_order_id : Z; sr_user_id : Z; sr_client_order_id : string; sr_symbol_id : Z; sr_status : Z;
  sr_price : Z; sr_qty : Z; sr_filled_qty : Z; sr_avg_fill_price : Z; sr_rejection_reason : string;
  sr_match_id : option Z; sr_timestamp : Z
}.

(** The volume is null in a row that [UPDATE] created. *)
Record Statistics := mkStatistics {
  total_orders : Z; filled_orders : Z; cancelled_orders : Z; rejected_orders : Z; total_volume : option Z;
  last_order_at : Z; stats_updated_at : Z
}.

(** Keys: user and order, user and order, event, user. *)
Record HistoryDb := mkHistoryDb {
  open_orders : gmap (Z * Z) OrderRow; order_history : gmap (Z * Z) HistoryRow; updates_stream : gmap Z StreamRow;
  order_statistics : gmap Z Statistics
}.

Definition set_open (f : gmap (Z * Z) OrderRow -> gmap (Z * Z) OrderRow) (d : HistoryDb) : HistoryDb :=
  mkHistoryDb (f (open_orders d)) (order_history d) (updates_stream d) (order_statistics d).
Definition set_history (f : gmap (Z * Z) HistoryRow -> gmap (Z * Z) HistoryRow) (d : HistoryDb) : HistoryDb :=
  mkHistoryDb (open_orders d) (f (order_history d)) (updates_stream d) (order_statistics d).
Definition set_stream (f : gmap Z StreamRow -> gmap Z StreamRow) (d : HistoryDb) : HistoryDb :=
  mkHistoryDb (open_orders d) (order_history d) (f (updates_stream d)) (order_statistics d).
Definition set_statistics (f : gmap Z Statistics -> gmap Z Statistics) (d : HistoryDb) : HistoryDb :=
  mkHistoryDb (open_orders d) (order_history d) (updates_stream d) (f (order_statistics d)).

(** ** Requests

    A method is the requests it awaits, one after the other: what each does to
    the tables, and how the method goes on with the tables it found.  The error
    of a request is returned at once ([?]), with the request carried out or
    not. *)

Inductive op (A : Type) :=
  | Done (a : A)
  | Panics
  | Request (effect : HistoryDb -> HistoryDb) (k : HistoryDb -> op A).
Arguments Done {A} a.
Arguments Panics {A}.
Arguments Request {A} effect k.

Fixpoint op_bind {A B} (p : op A) (f : A -> op B) : op B :=
  match p with
  | Done a => f a
  | Panics => Panics
  | Request effect k => Request effect (fun d => op_bind (k d) f)
  end.

Declare Scope op_scope.
Notation "'await' x ':=' c 'in' k" := (op_bind c (fun x => k))
  (at level 10, x binder, c at level 100, k at level 200) : op_scope.
#[local] Open Scope op_scope.

Definition exec (effect : HistoryDb -> HistoryDb) : op unit := Request effect (fun _ => Done tt).
Definition query : op HistoryDb := Request (fun d => d) Done.
Definition checked {A} (o : option A) : op A := match o with Some a => Done a | None => Panics end.

(** What becomes of a request; requests beyond the end of the list are
    answered. *)
Inductive Reply := Served | Dropped (written : bool).

Definition Conn : Type := HistoryDb * list Reply.

(** One method, awaited. *)
Fixpoint perform {A} (p : op A) : M Conn string A :=
  match p with
  | Done a => ret a
  | Panics => panic
  | Request effect k => fun c =>
      match c.2 with
      | Dropped written :: rest => Err "request failed" (if (written : bool) then effect c.1 else c.1, rest)
      | replies => perform (k (effect c.1)) (effect c.1, tail replies)
      end
  end.

(** ** Statements *)

Definition status_code (s : OrderStatus.t) : Z :=
  match s with
  | OrderStatus.New => 1
  | OrderStatus.PartiallyFilled => 3
  | OrderStatus.Filled => 4
  | OrderStatus.Cancelled => 5
  | OrderStatus.Rejected => 6
  | OrderStatus.Expired => 7
  end.

(** [x as i8] *)
Definition as_i8 (x : Z) : Z :=
  let r := x mod 256 in
  if r <? 128 then r else r - 256.

Definition order_key (user_id order_id : Z) : Z * Z := (as_i64 user_id, as_i64 order_id).

Definition update_key (u : OrderUpdate.t) : Z * Z := order_key (OrderUpdate.user_id u) (OrderUpdate.order_id u).

Definition order_row (u : OrderUpdate.t) : OrderRow :=
  mkOrderRow (default "" (OrderUpdate.client_order_id u)) (as_i32 (OrderUpdate.symbol_id u)) (as_i8 (OrderUpdate.side u))
    (as_i8 (OrderUpdate.order_type u)) (as_i64 (OrderUpdate.price u)) (as_i64 (OrderUpdate.qty u))
    (as_i64 (OrderUpdate.filled_qty u)) (as_i64 (default 0 (OrderUpdate.avg_fill_price u)))
    (status_code (OrderUpdate.status u)) (as_i64 (OrderUpdate.timestamp u)) (as_i64 (OrderUpdate.timestamp u)).

Definition history_row (u : OrderUpdate.t) : HistoryRow :=
  mkHistoryRow (order_row u) (default "" (OrderUpdate.rejection_reason u)) (as_i64 <$> OrderUpdate.match_id u).

Definition stream_row (u : OrderUpdate.t) : StreamRow :=
  let r := history_row u in
  mkStreamRow (as_i32 (OrderUpdate.timestamp u / 86400000)) (as_i64 (OrderUpdate.order_id u))
    (as_i64 (OrderUpdate.user_id u)) (row_client_order_id (row_order r)) (row_symbol_id (row_order r))
    (row_status (row_order r)) (row_price (row_order r)) (row_qty (row_order r)) (row_filled_qty (row_order r))
    (row_avg_fill_price (row_order r)) (row_rejection_reason r) (row_match_id r) (as_i64 (OrderUpdate.timestamp u)).

Definition upsert_active_order (u : OrderUpdate.t) : op unit := exec (set_open (<[update_key u := order_row u]>)).

Definition delete_active_order (user_id order_id : Z) : op unit := exec (set_open (delete (order_key user_id order_id))).

Definition status_of_code (c : Z) : OrderStatus.t :=
  if c =? 3 then OrderStatus.PartiallyFilled
  else if c =? 4 then OrderStatus.Filled
  else if c =? 5 then OrderStatus.Cancelled
  else if c =? 6 then OrderStatus.Rejected
  else if c =? 7 then OrderStatus.Expired
  else OrderStatus.New.

(** No column of a row is null: only [upsert_active_order] writes any. *)
Definition parse_active (k : Z * Z) (r : OrderRow) : OrderUpdate.t :=
  OrderUpdate.mk (as_u64 k.2) (if String.eqb (row_client_order_id r) "" then None else Some (row_client_order_id r))
    (as_u64 k.1) (as_u32 (row_symbol_id r)) (as_u8 (row_side r)) (as_u8 (row_order_type r))
    (status_of_code (row_status r)) (as_u64 (row_price r)) (as_u64 (row_qty r)) (as_u64 (row_filled_qty r)) None None
    (as_u64 (row_created_at r)) None.

Definition get_active_order (user_id order_id : Z) : op (option OrderUpdate.t) :=
  await d := query in
  let k := order_key user_id order_id in
  Done (parse_active k <$> open_orders d !! k).

Definition insert_order_history (u : OrderUpdate.t) : op unit := exec (set_history (<[update_key u := history_row u]>)).

Definition insert_order_update_stream (u : OrderUpdate.t) (event_id : Z) : op unit :=
  exec (set_stream (<[as_i64 event_id := stream_row u]>)).

Section history.
Context {bp : BuildProfile}.

(** Plain [+] on [i32]. *)
Definition i32_add (x y : Z) : option Z := in_range (-2147483648) 2147483647 4294967296 (x + y).

Definition counters (s : option Statistics) : Z * Z * Z * Z :=
  match s with
  | Some s => (total_orders s, filled_orders s, cancelled_orders s, rejected_orders s)
  | None => (0, 0, 0, 0)
  end.

Definition count_status (s : OrderStatus.t) (c : Z * Z * Z * Z) : option (Z * Z * Z * Z) :=
  let '(total, filled, cancelled, rejected) := c in
  match s with
  | OrderStatus.New => t ← i32_add total 1; Some (t, filled, cancelled, rejected)
  | OrderStatus.Filled => f ← i32_add filled 1; Some (total, f, cancelled, rejected)
  | OrderStatus.Cancelled | OrderStatus.Expired => c ← i32_add cancelled 1; Some (total, filled, c, rejected)
  | OrderStatus.Rejected => r ← i32_add rejected 1; Some (total, filled, cancelled, r)
  | OrderStatus.PartiallyFilled => Some c
  end.

(** [UPDATE] writes the row whether it is there or not, and keeps the volume. *)
Definition write_counters (c : Z * Z * Z * Z) (timestamp : Z) (old : option Statistics) : option Statistics :=
  let '(total, filled, cancelled, rejected) := c in
  Some (mkStatistics total filled cancelled rejected (old ≫= total_volume) timestamp timestamp).

Definition update_order_statistics (user_id : Z) (status : OrderStatus.t) (timestamp : Z) : op unit :=
  await d := query in
  await c := checked (count_status status (counters (order_statistics d !! as_i64 user_id))) in
  exec (set_statistics (partial_alter (write_counters c (as_i64 timestamp)) (as_i64 user_id))).

(** [IF NOT EXISTS] *)
Definition first_statistics (timestamp : Z) (old : option Statistics) : option Statistics :=
  match old with
  | Some s => Some s
  | None => Some (mkStatistics 1 0 0 0 (Some 0) timestamp timestamp)
  end.

Definition init_user_statistics (user_id timestamp : Z) : op unit :=
  exec (set_statistics (partial_alter (first_statistics (as_i64 timestamp)) (as_i64 user_id))).

(** ** The sequential service *)

Definition process_order_update (u : OrderUpdate.t) (event_id : Z) : op unit :=
  let user := OrderUpdate.user_id u in
  let count := update_order_statistics user (OrderUpdate.status u) (OrderUpdate.timestamp u) in
  match OrderUpdate.status u with
  | OrderStatus.New =>
      await _ := upsert_active_order u in
      await _ := insert_order_history u in
      await _ := insert_order_update_stream u event_id in
      await _ := init_user_statistics user (OrderUpdate.timestamp u) in
      count
  | OrderStatus.PartiallyFilled =>
      await _ := upsert_active_order u in
      await _ := insert_order_history u in
      insert_order_update_stream u event_id
  | OrderStatus.Filled | OrderStatus.Cancelled =>
      await _ := delete_active_order user (OrderUpdate.order_id u) in
      await _ := insert_order_history u in
      await _ := insert_order_update_stream u event_id in
      count
  | OrderStatus.Rejected =>
      await _ := insert_order_history u in
      await _ := insert_order_update_stream u event_id in
      count
  | OrderStatus.Expired =>
      await _ := delete_active_order user (OrderUpdate.order_id u) in
      await _ := insert_order_history u in
      insert_order_update_stream u event_id
  end.

Definition with_fill (u : OrderUpdate.t) (filled_qty : Z) : OrderUpdate.t :=
  OrderUpdate.mk (OrderUpdate.order_id u) (OrderUpdate.client_order_id u) (OrderUpdate.user_id u)
    (OrderUpdate.symbol_id u) (OrderUpdate.side u) (OrderUpdate.order_type u)
    (if OrderUpdate.qty u <=? filled_qty then OrderStatus.Filled else OrderStatus.PartiallyFilled)
    (OrderUpdate.price u) (OrderUpdate.qty u) filled_qty (OrderUpdate.avg_fill_price u)
    (OrderUpdate.rejection_reason u) (OrderUpdate.timestamp u) (OrderUpdate.match_id u).

Definition process_trade_fill (user_id order_id match_qty event_id : Z) : op unit :=
  await o := get_active_order user_id order_id in
  match o with
  | None => Done tt
  | Some order =>
      await filled_qty := checked (op_add (OrderUpdate.filled_qty order) match_qty) in
      process_order_update (with_fill order filled_qty) event_id
  end.

Record HistoryService := mkHistoryService {
  conn : Conn; total_events : Z; total_persisted : Z; total_errors : Z
}.

Definition set_conn (c : Conn) (s : HistoryService) : HistoryService :=
  mkHistoryService c (total_events s) (total_persisted s) (total_errors s).
Definition set_total_events (n : Z) (s : HistoryService) : HistoryService :=
  mkHistoryService (conn s) n (total_persisted s) (total_errors s).
Definition set_total_persisted (n : Z) (s : HistoryService) : HistoryService :=
  mkHistoryService (conn s) (total_events s) n (total_errors s).
Definition set_total_errors (n : Z) (s : HistoryService) : HistoryService :=
  mkHistoryService (conn s) (total_events s) (total_persisted s) n.

Definition on_conn {A} (p : op A) : M HistoryService string A := zoom (fun s => Some (conn s)) set_conn (perform p).

Definition both_fills (t : MatchExecData) : M HistoryService Empty_set unit :=
  ignore (on_conn (process_trade_fill (buyer_user_id t) (buy_order_id t) (quantity t) (match_seq t))) ;;;
  ignore (on_conn (process_trade_fill (seller_user_id t) (sell_order_id t) (quantity t) (match_seq t))).

(** One command from the socket.  The counts by status are only printed. *)
Definition history_command (c : LedgerCommand) : M HistoryService Empty_set unit :=
  match c with
  | LedgerCommand.OrderUpdate u =>
      let* s := get in
      let* n := unwrap (op_add (total_events s) 1) in
      modify (set_total_events n) ;;;
      let* result := attempt (on_conn (process_order_update u n)) in
      let* s := get in
      match result with
      | inr _ => let* m := unwrap (op_add (total_persisted s) 1) in modify (set_total_persisted m)
      | inl _ => let* m := unwrap (op_add (total_errors s) 1) in modify (set_total_errors m)
      end
  | LedgerCommand.MatchExecBatch trades => iter both_fills trades
  | LedgerCommand.MatchExec t => both_fills t
  | _ => ret tt
  end.

(** ** The parallel writer of the settlement service

    [tokio::join!] awaits its methods together, and [join_all] those of all
    outputs: the database may serve their requests in any order. *)

Definition parallel_update (u : OrderUpdate.t) (event_id : Z) : list (op unit) :=
  let user := OrderUpdate.user_id u in
  let count := update_order_statistics user (OrderUpdate.status u) (OrderUpdate.timestamp u) in
  match OrderUpdate.status u with
  | OrderStatus.New =>
      [upsert_active_order u; insert_order_history u; insert_order_update_stream u event_id;
       init_user_statistics user (OrderUpdate.timestamp u); count]
  | OrderStatus.PartiallyFilled =>
      [upsert_active_order u; insert_order_history u; insert_order_update_stream u event_id]
  | OrderStatus.Filled | OrderStatus.Cancelled | OrderStatus.Expired =>
      [delete_active_order user (OrderUpdate.order_id u); insert_order_history u;
       insert_order_update_stream u event_id; count]
  | OrderStatus.Rejected => [insert_order_history u; insert_order_update_stream u event_id; count]
  end.

Definition engine_status (status : Z) : OrderStatus.t :=
  if status =? 1 then OrderStatus.New
  else if status =? 2 then OrderStatus.PartiallyFilled
  else if status =? 3 then OrderStatus.Filled
  else if status =? 4 then OrderStatus.Cancelled
  else OrderStatus.Rejected.

Definition engine_order_update (p : PlaceOrderInput) (ou : OutOrderUpdate) : OrderUpdate.t :=
  OrderUpdate.mk (ou_order_id ou) (Some (po_cid p)) (ou_user_id ou) (po_symbol_id p) (po_side p) (po_order_type p)
    (engine_status (ou_status ou)) (po_price p) (po_quantity p) (ou_filled_qty ou)
    (if 0 <? ou_avg_price ou then Some (ou_avg_price ou) else None) None (ou_updated_at ou) None.

Definition process_engine_order_update (o : EngineOutput) : list (op unit) :=
  match data (input o), order_update o with
  | InPlaceOrder p, Some ou => parallel_update (engine_order_update p ou) 0
  | _, _ => []
  end.

Definition process_engine_order_updates (outputs : list EngineOutput) : list (op unit) :=
  concat (map process_engine_order_update outputs).

Inductive join_step : list (op unit) * HistoryDb -> list (op unit) * HistoryDb -> Prop :=
  | join_served fs i effect k d :
      fs !! i = Some (Request effect k) -> join_step (fs, d) (<[i := k (effect d)]> fs, effect d)
  | join_lost fs i effect k d (written : bool) :
      fs !! i = Some (Request effect k) ->
      join_step (fs, d) (<[i := Done tt]> fs, if written then effect d else d).

(** The steps in which every request is answered. *)
Inductive served_step : list (op unit) * HistoryDb -> list (op unit) * HistoryDb -> Prop :=
  | served fs i effect k d :
      fs !! i = Some (Request effect k) -> served_step (fs, d) (<[i := k (effect d)]> fs, effect d).
End history.
