(* ===== verification/OrderHistoryProofs.v ===== *)
(** * Properties of the history of orders

    What the two writers make of the tables: fills add up in the sequential
    one, and any order in which the requests of the parallel one are served
    leaves what the sequential one writes. *)

From stdpp Require Import gmap strings relations.
From S2P Require Import Prelude Ledger EngineOutput OrderHistory.

#[local] Open Scope string_scope.
#[local] Open Scope list_scope.
#[local] Open Scope Z_scope.
#[local] Open Scope rust_scope.
#[local] Open Scope op_scope.

(** ** Methods whose requests are all answered *)

Fixpoint eval {A} (p : op A) (d : HistoryDb) : option (A * HistoryDb) :=
  match p with
  | Done a => Some (a, d)
  | Panics => None
  | Request effect k => eval (k (effect d)) (effect d)
  end.

Lemma perform_eval {A} (p : op A) d :
  perform p (d, []) = match eval p d with Some (a, d') => Ok a (d', []) | None => Panic end.
Proof. revert d. induction p as [a| |effect k IH]; intros d; simpl; [done..|apply IH]. Qed.

Lemma perform_ok {A} (p : op A) d a c : perform p (d, []) = Ok a c -> exists d', c = (d', []) /\ eval p d = Some (a, d').
Proof. rewrite perform_eval. destruct (eval p d) as [[b d']|]; [intros [= <- <-]; by exists d'|done]. Qed.

Lemma eval_bind {A B} (p : op A) (f : A -> op B) d :
  eval (op_bind p f) d = x ← eval p d; eval (f x.1) x.2.
Proof. revert d. induction p as [a| |effect k IH]; intros d; simpl; [done..|apply IH]. Qed.

Lemma eval_exec effect d : eval (exec effect) d = Some (tt, effect d).
Proof. done. Qed.

(** The effects a method may have. *)
Fixpoint effects {A} (Q : (HistoryDb -> HistoryDb) -> Prop) (p : op A) : Prop :=
  match p with
  | Request effect k => Q effect /\ forall d, effects Q (k d)
  | _ => True
  end.

Lemma effects_bind {A B} Q (p : op A) (f : A -> op B) : effects Q p -> (forall a, effects Q (f a)) -> effects Q (op_bind p f).
Proof. intros Hp Hf. induction p as [a| |effect k IH]; simpl in *; [done..|]. destruct Hp. split; [done|]. intros d. by apply IH. Qed.

Lemma effects_checked {A} Q (o : option A) : effects Q (checked o).
Proof. by destruct o. Qed.

Lemma effects_eval {A} Q (p : op A) d x :
  effects (fun e => forall d, Q d (e d)) p -> (forall d, Q d d) -> (forall d1 d2 d3, Q d1 d2 -> Q d2 d3 -> Q d1 d3) ->
  eval p d = Some x -> Q d x.2.
Proof.
  intros Hp Hrefl Htrans. revert d Hp. induction p as [a| |effect k IH]; intros d Hp; simpl in *; [by intros [= <-]|done|].
  destruct Hp as [He Hk]. intros Hx. eapply Htrans; [apply He|]. eapply IH; [apply Hk|exact Hx].
Qed.

Definition keeps {X A} (T : HistoryDb -> X) (p : op A) : Prop := effects (fun e => forall d, T (e d) = T d) p.

Lemma keeps_eval {X A} (T : HistoryDb -> X) (p : op A) d x : keeps T p -> eval p d = Some x -> T x.2 = T d.
Proof. intros Hp. apply (effects_eval (fun d d' => T d' = T d) p d x Hp); [done|]. intros ??? -> ->. done. Qed.

Create HintDb tables.

Ltac keeps_table := unfold keeps; repeat (apply effects_bind; [|intros ?]); auto using effects_checked; by split.

#[export] Hint Extern 1 (keeps _ _) => keeps_table : tables.

Section tables.
Context {bp : BuildProfile}.

Lemma count_keeps_open user status ts : keeps open_orders (update_order_statistics user status ts).
Proof. unfold update_order_statistics. keeps_table. Qed.
Lemma count_keeps_history user status ts : keeps order_history (update_order_statistics user status ts).
Proof. unfold update_order_statistics. keeps_table. Qed.
Lemma count_keeps_stream user status ts : keeps updates_stream (update_order_statistics user status ts).
Proof. unfold update_order_statistics. keeps_table. Qed.

(** ** The tables after an update *)

Definition opened (u : OrderUpdate.t) (m : gmap (Z * Z) OrderRow) : gmap (Z * Z) OrderRow :=
  match OrderUpdate.status u with
  | OrderStatus.New | OrderStatus.PartiallyFilled => <[update_key u := order_row u]> m
  | OrderStatus.Rejected => m
  | _ => delete (update_key u) m
  end.

Lemma update_tables u event_id d d' :
  eval (process_order_update u event_id) d = Some (tt, d') ->
  open_orders d' = opened u (open_orders d) /\
  order_history d' = <[update_key u := history_row u]> (order_history d) /\
  updates_stream d' = <[as_i64 event_id := stream_row u]> (updates_stream d).
Proof.
  set (user := OrderUpdate.user_id u).
  assert (forall status ts d0, eval (update_order_statistics user status ts) d0 = Some (tt, d') ->
    open_orders d' = open_orders d0 /\ order_history d' = order_history d0 /\ updates_stream d' = updates_stream d0) as Hcount.
  { intros status ts d0 Hx. split_and!.
    - apply (keeps_eval _ _ _ _ (count_keeps_open user status ts) Hx).
    - apply (keeps_eval _ _ _ _ (count_keeps_history user status ts) Hx).
    - apply (keeps_eval _ _ _ _ (count_keeps_stream user status ts) Hx). }
  unfold process_order_update, opened, update_key. fold user. destruct (OrderUpdate.status u); rewrite ?eval_bind;
    unfold upsert_active_order, delete_active_order, insert_order_history, insert_order_update_stream, init_user_statistics;
    repeat (rewrite ?eval_exec, ?eval_bind; cbn [mbind option_bind fst snd]); intros Hrun;
    try (apply Hcount in Hrun as (-> & -> & ->)); try (injection Hrun as <-); done.
Qed.

(** ** Fills *)

Lemma as_i64_u64_i64 x : as_i64 (as_u64 (as_i64 x)) = as_i64 x.
Proof.
  unfold as_i64, as_u64. pose proof (Z.mod_pos_bound x u64_mod ltac:(done)) as Hm.
  destruct (Z.ltb_spec (x mod u64_mod) 9223372036854775808).
  - rewrite !Z.mod_mod by done. destruct (Z.ltb_spec (x mod u64_mod) 9223372036854775808); lia.
  - replace (x mod u64_mod - u64_mod) with (x mod u64_mod + (-1) * u64_mod) by lia.
    rewrite Z.mod_add, !Z.mod_mod by done. destruct (Z.ltb_spec (x mod u64_mod) 9223372036854775808); lia.
Qed.

Lemma parsed_key user order r q : update_key (with_fill (parse_active (order_key user order) r) q) = order_key user order.
Proof.
  unfold update_key, with_fill, parse_active, order_key. cbn [OrderUpdate.user_id OrderUpdate.order_id fst snd].
  by rewrite !as_i64_u64_i64.
Qed.

Lemma fill_tables user order q event_id d d' :
  eval (process_trade_fill user order q event_id) d = Some (tt, d') ->
  match open_orders d !! order_key user order with
  | None => d' = d
  | Some r =>
      exists filled, op_add (as_u64 (row_filled_qty r)) q = Some filled /\
        let u := with_fill (parse_active (order_key user order) r) filled in
        open_orders d' = opened u (open_orders d) /\
        order_history d' = <[order_key user order := history_row u]> (order_history d)
  end.
Proof.
  unfold process_trade_fill, get_active_order. rewrite !eval_bind. simpl.
  destruct (open_orders d !! order_key user order) as [r|] eqn:Hr; simpl; [|by intros [= <-]].
  rewrite eval_bind. simpl. destruct (op_add _ q) as [filled|] eqn:Hadd; [|done]. simpl. intros Hrun.
  apply update_tables in Hrun as (Ho & Hh & _). rewrite parsed_key in Hh. by exists filled.
Qed.

(** ** What the commands say *)

Inductive Event := Update (u : OrderUpdate.t) | Fill (user_id order_id quantity : Z).

Definition event_op (e : Event) (event_id : Z) : op unit :=
  match e with
  | Update u => process_order_update u event_id
  | Fill user_id order_id quantity => process_trade_fill user_id order_id quantity event_id
  end.

Definition trade_fills (t : MatchExecData) : list Event :=
  [Fill (buyer_user_id t) (buy_order_id t) (quantity t); Fill (seller_user_id t) (sell_order_id t) (quantity t)].

Definition events_of (c : LedgerCommand) : list Event :=
  match c with
  | LedgerCommand.OrderUpdate u => [Update u]
  | LedgerCommand.MatchExecBatch trades => trades ≫= trade_fills
  | LedgerCommand.MatchExec t => trade_fills t
  | _ => []
  end.

Inductive written : list Event -> HistoryDb -> HistoryDb -> Prop :=
  | written_nil d : written [] d d
  | written_cons e es event_id d d1 d2 :
      eval (event_op e event_id) d = Some (tt, d1) -> written es d1 d2 -> written (e :: es) d d2.

Lemma written_app es1 es2 d d1 d2 : written es1 d d1 -> written es2 d1 d2 -> written (es1 ++ es2) d d2.
Proof. induction 1 as [|e es1 id d d1 d1' He _ IH]; simpl; [done|]. intros H2. econstructor; [exact He|by apply IH]. Qed.

Lemma on_conn_ok {A} (p : op A) s :
  (conn s).2 = [] ->
  match on_conn p s with
  | Ok a s' => exists d, s' = set_conn (d, []) s /\ eval p (conn s).1 = Some (a, d)
  | Err _ _ => False
  | Panic => eval p (conn s).1 = None
  end.
Proof.
  intros Hs. unfold on_conn, zoom. destruct (conn s) as [d replies] eqn:Hc. simpl in *. subst replies.
  rewrite perform_eval. destruct (eval p d) as [[a d']|]; [by exists d'|done].
Qed.

Lemma ignored_fill user order q event_id s s' :
  (conn s).2 = [] -> ignore (E' := Empty_set) (on_conn (process_trade_fill user order q event_id)) s = Ok tt s' ->
  (conn s').2 = [] /\ written [Fill user order q] (conn s).1 (conn s').1.
Proof.
  intros Hs Hrun. unfold ignore in Hrun. pose proof (on_conn_ok (process_trade_fill user order q event_id) s Hs) as Hp.
  destruct (on_conn _ s) as [[] s1|e s1|]; [|done..]. destruct Hp as (d & -> & He). injection Hrun as <-.
  split; [done|]. econstructor; [exact He|constructor].
Qed.

Lemma both_fills_written t s s' :
  (conn s).2 = [] -> both_fills t s = Ok tt s' -> (conn s').2 = [] /\ written (trade_fills t) (conn s).1 (conn s').1.
Proof.
  intros Hs Hrun. apply bind_inv_ok in Hrun as ([] & s1 & H1 & H2).
  apply ignored_fill in H1 as [Hs1 Hw1]; [|done]. apply ignored_fill in H2 as [Hs2 Hw2]; [|done].
  split; [done|]. apply (written_app _ _ _ _ _ Hw1 Hw2).
Qed.

Lemma batch_written ts s s' :
  (conn s).2 = [] -> iter both_fills ts s = Ok tt s' -> (conn s').2 = [] /\ written (ts ≫= trade_fills) (conn s).1 (conn s').1.
Proof.
  revert s. induction ts as [|t ts IH]; intros s Hs; [intros [= <-]; split; [done|constructor]|].
  intros Hrun. apply bind_inv_ok in Hrun as ([] & s1 & H1 & H2). apply both_fills_written in H1 as [Hs1 Hw1]; [|done].
  apply IH in H2 as [Hs2 Hw2]; [|done]. split; [done|]. apply (written_app _ _ _ _ _ Hw1 Hw2).
Qed.

Lemma command_written c s s' :
  (conn s).2 = [] -> history_command c s = Ok tt s' -> (conn s').2 = [] /\ written (events_of c) (conn s).1 (conn s').1.
Proof.
  intros Hs. destruct c as [| | | | |t|ts|u|]; simpl;
    try (intros [= <-]; split; [done|constructor]); [by apply both_fills_written|by apply batch_written|].
  intros Hrun. apply bind_inv_ok in Hrun as (s0 & s1 & [= <- <-] & Hrun). apply bind_inv_ok in Hrun as (n & s1 & Hn & Hrun).
  unfold unwrap in Hn. destruct (op_add _ _); [|done]. injection Hn as <- <-.
  apply bind_inv_ok in Hrun as ([] & s1 & [= <-] & Hrun). apply bind_inv_ok in Hrun as (result & s2 & Hres & Hrun).
  unfold attempt in Hres. pose proof (on_conn_ok (process_order_update u z) (set_total_events z s) Hs) as Hp.
  destruct (on_conn _ _) as [[] s3|e s3|]; [|done..]. injection Hres as <- <-. destruct Hp as (d & -> & He).
  apply bind_inv_ok in Hrun as (s4 & s5 & [= <- <-] & Hrun). apply bind_inv_ok in Hrun as (m & s6 & Hm & Hrun).
  unfold unwrap in Hm. destruct (op_add _ _); [|done]. injection Hm as <- <-. injection Hrun as <-. simpl.
  split; [done|]. econstructor; [exact He|constructor].
Qed.

Lemma commands_written cs s s' :
  (conn s).2 = [] -> iter history_command cs s = Ok tt s' ->
  (conn s').2 = [] /\ written (cs ≫= events_of) (conn s).1 (conn s').1.
Proof.
  revert s. induction cs as [|c cs IH]; intros s Hs; [intros [= <-]; split; [done|constructor]|].
  intros Hrun. apply bind_inv_ok in Hrun as ([] & s1 & H1 & H2). apply command_written in H1 as [Hs1 Hw1]; [|done].
  apply IH in H2 as [Hs2 Hw2]; [|done]. split; [done|]. apply (written_app _ _ _ _ _ Hw1 Hw2).
Qed.

(** ** Fills add up *)

Definition typed_update (u : OrderUpdate.t) : Prop :=
  is_u64 (OrderUpdate.user_id u) /\ is_u64 (OrderUpdate.order_id u) /\ is_u64 (OrderUpdate.price u) /\
  is_u64 (OrderUpdate.qty u) /\ is_u64 (OrderUpdate.filled_qty u).

Definition typed_event (e : Event) : Prop :=
  match e with
  | Update u => is_u64 (OrderUpdate.user_id u) /\ is_u64 (OrderUpdate.order_id u)
  | Fill user order q => is_u64 user /\ is_u64 order /\ 0 <= q
  end.

Lemma order_key_inj user order user' order' :
  is_u64 user -> is_u64 order -> is_u64 user' -> is_u64 order' ->
  order_key user order = order_key user' order' -> user = user' /\ order = order'.
Proof.
  intros Hu Ho Hu' Ho' [= H1 H2]. rewrite <- (as_u64_i64 user), <- (as_u64_i64 user'), <- (as_u64_i64 order), <- (as_u64_i64 order') by done.
  by rewrite H1, H2.
Qed.

(** What the events say was filled of an order. *)
Definition fill_of (user order : Z) (e : Event) : Z :=
  match e with
  | Fill user' order' q => if (user' =? user) && (order' =? order) then q else 0
  | Update _ => 0
  end.

Definition filled_by (user order : Z) (es : list Event) : Z := sum_list (map (fill_of user order) es).

(** No other update is about the order. *)
Definition leaves (u : OrderUpdate.t) (e : Event) : Prop :=
  match e with
  | Update u' => (OrderUpdate.user_id u', OrderUpdate.order_id u') <> (OrderUpdate.user_id u, OrderUpdate.order_id u)
  | Fill _ _ _ => True
  end.

(** The terms of an order that its row keeps. *)
Definition terms_of (u : OrderUpdate.t) (r : OrderRow) : Prop :=
  row_symbol_id r = as_i32 (OrderUpdate.symbol_id u) /\ row_side r = as_i8 (OrderUpdate.side u) /\
  row_order_type r = as_i8 (OrderUpdate.order_type u) /\ row_price r = as_i64 (OrderUpdate.price u) /\
  row_qty r = as_i64 (OrderUpdate.qty u) /\ row_created_at r = as_i64 (OrderUpdate.timestamp u).

(** The order [u] after fills of [filled] units in all. *)
Definition tracked (u : OrderUpdate.t) (filled : Z) (d : HistoryDb) : Prop :=
  if OrderUpdate.qty u <=? filled then
    open_orders d !! update_key u = None /\
    exists r, order_history d !! update_key u = Some r /\ row_status (row_order r) = status_code OrderStatus.Filled /\
      OrderUpdate.qty u <= as_u64 (row_filled_qty (row_order r))
  else
    exists r, open_orders d !! update_key u = Some r /\ terms_of u r /\ row_filled_qty r = as_i64 filled.

Lemma opened_other u m k : k <> update_key u -> opened u m !! k = m !! k.
Proof. intros Hk. unfold opened. destruct (OrderUpdate.status u); rewrite ?lookup_insert_ne, ?lookup_delete_ne by done; done. Qed.

Lemma tracked_other u filled d d1 k :
  tracked u filled d -> k <> update_key u ->
  (forall k', k' <> k -> open_orders d1 !! k' = open_orders d !! k') ->
  (forall k', k' <> k -> order_history d1 !! k' = order_history d !! k') -> tracked u filled d1.
Proof. intros Ht Hk Ho Hh. unfold tracked in *. rewrite Ho, Hh by done. exact Ht. Qed.

Lemma as_i32_u32_i32 x : as_i32 (as_u32 (as_i32 x)) = as_i32 x.
Proof.
  unfold as_i32, as_u32. pose proof (Z.mod_pos_bound x 4294967296 ltac:(done)) as Hm. rewrite Z.mod_mod by done.
  destruct (Z.ltb_spec (x mod 4294967296) 2147483648) as [Hlt|Hge].
  - rewrite Z.mod_mod by done. by destruct (Z.ltb_spec (x mod 4294967296) 2147483648); [|lia].
  - replace (x mod 4294967296 - 4294967296) with (x mod 4294967296 + (-1) * 4294967296) by lia.
    rewrite Z.mod_add, Z.mod_mod by done. by destruct (Z.ltb_spec (x mod 4294967296) 2147483648); [lia|].
Qed.

Lemma as_i8_u8_i8 x : as_i8 (as_u8 (as_i8 x)) = as_i8 x.
Proof.
  unfold as_i8, as_u8. pose proof (Z.mod_pos_bound x 256 ltac:(done)) as Hm. rewrite Z.mod_mod by done.
  destruct (Z.ltb_spec (x mod 256) 128) as [Hlt|Hge].
  - rewrite Z.mod_mod by done. by destruct (Z.ltb_spec (x mod 256) 128); [|lia].
  - replace (x mod 256 - 256) with (x mod 256 + (-1) * 256) by lia.
    rewrite Z.mod_add, Z.mod_mod by done. by destruct (Z.ltb_spec (x mod 256) 128); [lia|].
Qed.

Lemma terms_kept u r k filled : terms_of u r -> terms_of u (order_row (with_fill (parse_active k r) filled)).
Proof.
  intros (H1 & H2 & H3 & H4 & H5 & H6). unfold terms_of, order_row, with_fill, parse_active.
  cbn [row_symbol_id row_side row_order_type row_price row_qty row_created_at OrderUpdate.symbol_id OrderUpdate.side
       OrderUpdate.order_type OrderUpdate.price OrderUpdate.qty OrderUpdate.timestamp].
  rewrite H1, H2, H3, H4, H5, H6. by rewrite as_i32_u32_i32, !as_i8_u8_i8, !as_i64_u64_i64.
Qed.

(** One fill of the order itself. *)
Lemma tracked_fill u filled q event_id d d1 :
  typed_update u -> tracked u filled d -> 0 <= filled -> 0 <= q -> filled + q <= u64_max ->
  eval (process_trade_fill (OrderUpdate.user_id u) (OrderUpdate.order_id u) q event_id) d = Some (tt, d1) ->
  tracked u (filled + q) d1.
Proof.
  intros (_ & _ & _ & Hqty & _) Ht Hf Hq Hmax Hrun. apply fill_tables in Hrun. fold (update_key u) in Hrun. unfold tracked in *.
  destruct (Z.leb_spec (OrderUpdate.qty u) filled) as [Hle|Hlt].
  - destruct Ht as [Hopen Hhist]. rewrite Hopen in Hrun. subst d1. destruct (Z.leb_spec (OrderUpdate.qty u) (filled + q)); [done|lia].
  - destruct Ht as (r & Hr & Hterms & Hfilled). rewrite Hr in Hrun. destruct Hrun as (f & Hadd & Ho & Hh).
    rewrite Hfilled, as_u64_i64 in Hadd by (unfold is_u64; lia).
    unfold op_add in Hadd. rewrite u64_op_exact in Hadd by (unfold is_u64; lia). injection Hadd as <-.
    assert (OrderUpdate.qty (parse_active (update_key u) r) = OrderUpdate.qty u) as Hq'.
    { destruct Hterms as (_ & _ & _ & _ & Hrow & _). unfold parse_active. cbn [OrderUpdate.qty]. rewrite Hrow. by apply as_u64_i64. }
    assert (update_key (with_fill (parse_active (update_key u) r) (filled + q)) = update_key u) as Hkey by apply parsed_key.
    unfold opened in Ho. rewrite Hkey in Ho. cbn [with_fill OrderUpdate.status] in Ho. rewrite Hq' in Ho.
    destruct (Z.leb_spec (OrderUpdate.qty u) (filled + q)) as [Hle|Hgt].
    + rewrite Ho, Hh, lookup_delete_eq, lookup_insert_eq. split; [done|]. eexists. split; [done|].
      cbn [history_row row_order order_row row_status row_filled_qty with_fill OrderUpdate.status OrderUpdate.filled_qty].
      rewrite Hq', as_u64_i64 by (unfold is_u64; lia). destruct (Z.leb_spec (OrderUpdate.qty u) (filled + q)); [done|lia].
    + rewrite Ho, lookup_insert_eq. eexists. split; [done|]. split; [by apply terms_kept|done].
Qed.

Lemma tracked_event u filled e event_id d d1 :
  typed_update u -> typed_event e -> leaves u e -> tracked u filled d -> 0 <= filled ->
  filled + fill_of (OrderUpdate.user_id u) (OrderUpdate.order_id u) e <= u64_max ->
  eval (event_op e event_id) d = Some (tt, d1) ->
  tracked u (filled + fill_of (OrderUpdate.user_id u) (OrderUpdate.order_id u) e) d1.
Proof.
  intros Hu He Hleaves Ht Hf Hmax Hrun. pose proof Hu as (Huu & Huo & _). destruct e as [u'|user order q]; simpl in *.
  - apply update_tables in Hrun as (Ho & Hh & _). rewrite Z.add_0_r. apply (tracked_other u filled d d1 (update_key u') Ht).
    + intros Hk. apply order_key_inj in Hk as [H1 H2]; [|tauto..]. by rewrite H1, H2 in Hleaves.
    + intros k Hk. rewrite Ho. by apply opened_other.
    + intros k Hk. rewrite Hh. by apply lookup_insert_ne.
  - destruct (decide ((user, order) = (OrderUpdate.user_id u, OrderUpdate.order_id u))) as [[= -> ->]|Hne].
    + rewrite !Z.eqb_refl in *. simpl in *. apply (tracked_fill u filled q event_id d d1); tauto.
    + assert (((user =? OrderUpdate.user_id u) && (order =? OrderUpdate.order_id u)) = false) as ->.
      { apply andb_false_iff. rewrite !Z.eqb_neq. destruct (decide (user = OrderUpdate.user_id u)); [right|by left]. congruence. }
      rewrite Z.add_0_r. apply fill_tables in Hrun. destruct (open_orders d !! order_key user order) as [r|]; [|by subst].
      destruct Hrun as (f & _ & Ho & Hh). apply (tracked_other u filled d d1 (order_key user order) Ht).
      * intros Hk. apply order_key_inj in Hk as [H1 H2]; [|tauto..]. by rewrite H1, H2 in Hne.
      * intros k Hk. rewrite Ho. apply opened_other. by rewrite parsed_key.
      * intros k Hk. rewrite Hh. by apply lookup_insert_ne.
Qed.

Lemma filled_by_nonneg user order es : Forall typed_event es -> 0 <= filled_by user order es.
Proof.
  intros Hall. apply sum_list_nonneg. apply Forall_map. eapply Forall_impl; [exact Hall|]. intros [u|us o q]; simpl; [done|].
  intros (_ & _ & ?). destruct (_ && _); lia.
Qed.

Lemma tracked_written u filled es d d1 :
  typed_update u -> Forall typed_event es -> Forall (leaves u) es -> tracked u filled d -> 0 <= filled ->
  filled + filled_by (OrderUpdate.user_id u) (OrderUpdate.order_id u) es <= u64_max -> written es d d1 ->
  tracked u (filled + filled_by (OrderUpdate.user_id u) (OrderUpdate.order_id u) es) d1.
Proof.
  intros Hu He Hl Ht Hf Hmax Hw. revert filled Ht Hf Hmax.
  induction Hw as [d|e es event_id d d1 d2 Hev Hw IH]; intros filled Ht Hf Hmax; [unfold filled_by; simpl; by rewrite Z.add_0_r|].
  apply Forall_cons in He as [He Hes]. apply Forall_cons in Hl as [Hl Hls].
  pose proof (filled_by_nonneg (OrderUpdate.user_id u) (OrderUpdate.order_id u) es Hes) as Hnn.
  assert (0 <= fill_of (OrderUpdate.user_id u) (OrderUpdate.order_id u) e) as Hfill.
  { destruct e as [|us o q]; simpl; [done|]. destruct He as (_ & _ & ?). destruct (_ && _); lia. }
  unfold filled_by in *. simpl in *. rewrite Z.add_assoc. apply IH; [done..| |lia|lia].
  apply (tracked_event u filled e event_id d d1); try done. lia.
Qed.

(** C34: fills add up, while the database answers every request: a single one
    that is lost loses the announcement or the fill.  An order that is announced
    to the service and then filled by the trades of any commands, among updates
    and fills of other orders, is open with its terms as long as the fills are less than its
    quantity, and then shows exactly what was filled; once they reach it, the
    order is not open any more, and its history says that it is filled. *)
Theorem fills_add_up u cs s s' :
  typed_update u -> OrderUpdate.status u = OrderStatus.New -> OrderUpdate.filled_qty u = 0 -> 0 < OrderUpdate.qty u ->
  let es := cs ≫= events_of in
  let filled := filled_by (OrderUpdate.user_id u) (OrderUpdate.order_id u) es in
  Forall typed_event es -> Forall (leaves u) es -> filled <= u64_max -> (conn s).2 = [] ->
  iter history_command (LedgerCommand.OrderUpdate u :: cs) s = Ok tt s' ->
  if OrderUpdate.qty u <=? filled then
    perform (get_active_order (OrderUpdate.user_id u) (OrderUpdate.order_id u)) (conn s') = Ok None (conn s') /\
    exists r, order_history (conn s').1 !! update_key u = Some r /\
      row_status (row_order r) = status_code OrderStatus.Filled /\ OrderUpdate.qty u <= as_u64 (row_filled_qty (row_order r))
  else
    exists v, perform (get_active_order (OrderUpdate.user_id u) (OrderUpdate.order_id u)) (conn s') = Ok (Some v) (conn s') /\
      OrderUpdate.filled_qty v = filled /\ OrderUpdate.qty v = OrderUpdate.qty u /\ OrderUpdate.price v = OrderUpdate.price u.
Proof.
  intros Hu Hnew Hzero Hpos es filled He Hl Hmax Hs Hrun.
  apply commands_written in Hrun as [Hs' Hw]; [|done]. simpl in Hw. inversion Hw as [|? ? id ? d1 ? Hev Hw']; subst.
  simpl in Hev. apply update_tables in Hev as (Ho & _ & _). unfold opened in Ho. rewrite Hnew in Ho.
  assert (tracked u 0 d1) as Ht.
  { unfold tracked. destruct (Z.leb_spec (OrderUpdate.qty u) 0); [lia|]. rewrite Ho, lookup_insert_eq. eexists. split; [done|].
    split; [done|]. simpl. by rewrite Hzero. }
  apply (tracked_written u 0 es d1) in Hw'; [|done..]. fold filled in Hw'. rewrite Z.add_0_l in Hw'. unfold tracked in Hw'.
  destruct (conn s') as [d' replies]. simpl in *. subst replies. unfold update_key in Hw'.
  destruct (OrderUpdate.qty u <=? filled).
  - destruct Hw' as [Hn Hh]. by rewrite Hn.
  - destruct Hw' as (r & Hr & (_ & _ & _ & Hprice & Hqty & _) & Hfilled). rewrite Hr. eexists. split; [done|].
    destruct Hu as (_ & _ & Hp & Hq & _). unfold parse_active. cbn [OrderUpdate.filled_qty OrderUpdate.qty OrderUpdate.price].
    pose proof (filled_by_nonneg (OrderUpdate.user_id u) (OrderUpdate.order_id u) es He : 0 <= filled) as Hnn.
    by rewrite Hfilled, Hqty, Hprice, !as_u64_i64 by done.
Qed.
End tables.

(** ** Requests in any order

    A method that looks at one table only, and alone writes it, leaves that
    table as if it had run by itself, whatever the other methods do in between.
    [J] is what the others may rely on about the table. *)

Section interleaving.
Context {X : Type} (T : HistoryDb -> X) (J : X -> Prop).

Fixpoint within (p : op unit) : Prop :=
  match p with
  | Request effect k =>
      (forall d1 d2, T d1 = T d2 -> T (effect d1) = T (effect d2)) /\ (forall d1 d2, T d1 = T d2 -> k d1 = k d2) /\
      (forall d, J (T d) -> J (T (effect d))) /\ forall d, within (k d)
  | _ => True
  end.

Definition alone (p : op unit) (d : HistoryDb) : option X := x ← eval p d; Some (T x.2).

Lemma within_alone p d1 d2 : within p -> T d1 = T d2 -> alone p d1 = alone p d2.
Proof.
  unfold alone. revert d1 d2. induction p as [[]| |effect k IH]; intros d1 d2 Hp Hd; simpl in *; [by rewrite Hd|done|].
  destruct Hp as (He & Hk & _ & Hw). rewrite (Hk (effect d1) (effect d2)) by auto. apply IH; auto.
Qed.

Definition spares (p : op unit) : Prop := effects (fun e => forall d, J (T d) -> T (e d) = T d) p.

Lemma keeps_spares p : keeps T p -> spares p.
Proof. unfold keeps, spares. induction p as [| |effect k IH]; simpl; [done..|]. intros [He Hk]. split; auto. Qed.

(** Method [i] alone is interested in the table. *)
Definition owner (i : nat) (fs : list (op unit)) : Prop := forall j p, fs !! j = Some p -> j <> i -> spares p.

Lemma owner_step i j effect k d fs :
  owner i fs -> fs !! j = Some (Request effect k) -> owner i (<[j := k (effect d)]> fs).
Proof.
  intros Hown Hj j' p Hp Hne. destruct (decide (j = j')) as [<-|Hd].
  - rewrite list_lookup_insert_eq in Hp by by eapply lookup_lt_Some. injection Hp as <-. destruct (Hown j _ Hj Hne) as [_ Hk]. apply Hk.
  - rewrite list_lookup_insert_ne in Hp by done. by apply (Hown j').
Qed.

Lemma owner_result i fs d fs' d' p :
  rtc served_step (fs, d) (fs', d') -> owner i fs -> fs !! i = Some p -> within p -> J (T d) ->
  exists p', fs' !! i = Some p' /\ within p' /\ J (T d') /\ alone p' d' = alone p d.
Proof.
  intros Hrun. remember (fs, d) as c eqn:Hc. remember (fs', d') as c' eqn:Hc'. revert fs d p Hc.
  induction Hrun as [c|c c1 c2 Hstep Hrun IH]; intros fs d p -> Hown Hi Hp HJ.
  { injection Hc' as -> ->. by exists p. }
  inversion Hstep as [fs0 j effect k d0 Hj]; subst. destruct (decide (j = i)) as [->|Hne].
  - rewrite Hi in Hj. injection Hj as ->. destruct Hp as (He & Hk & HJe & Hw).
    destruct (IH eq_refl (<[i := k (effect d)]> fs) (effect d) (k (effect d)) eq_refl) as (p' & H1 & H2 & H3 & H4);
      [by eapply owner_step|by rewrite list_lookup_insert_eq by by eapply lookup_lt_Some|auto..|]. by exists p'.
  - assert (T (effect d) = T d) as Heff by by apply (Hown j _ Hj Hne).
    destruct (IH eq_refl (<[j := k (effect d)]> fs) (effect d) p eq_refl) as (p' & H1 & H2 & H3 & H4);
      [by eapply owner_step|by rewrite list_lookup_insert_ne|done|by rewrite Heff|].
    exists p'. split; [done|]. split; [done|]. split; [done|]. rewrite H4. by apply within_alone.
Qed.

Lemma spared fs d fs' d' :
  rtc served_step (fs, d) (fs', d') -> Forall spares fs -> J (T d) -> T d' = T d.
Proof.
  intros Hrun. remember (fs, d) as c eqn:Hc. remember (fs', d') as c' eqn:Hc'. revert fs d Hc.
  induction Hrun as [c|c c1 c2 Hstep Hrun IH]; intros fs d -> Hall HJ; [by injection Hc' as -> ->|].
  inversion Hstep as [fs0 j effect k d0 Hj]; subst. pose proof (Forall_lookup_1 _ _ _ _ Hall Hj) as [He Hk].
  rewrite (IH eq_refl _ _ eq_refl); [by apply He| |by rewrite He]. apply Forall_insert; [done|apply Hk].
Qed.

Definition finished (fs : list (op unit)) : Prop := Forall (fun p => p = Done tt) fs.

Lemma owner_finished i fs d fs' d' p x :
  rtc served_step (fs, d) (fs', d') -> finished fs' -> owner i fs -> fs !! i = Some p -> within p -> J (T d) ->
  alone p d = x -> x = Some (T d').
Proof.
  intros Hrun Hfin Hown Hi Hp HJ <-. destruct (owner_result _ _ _ _ _ _ Hrun Hown Hi Hp HJ) as (p' & Hp' & _ & _ & <-).
  pose proof (Forall_lookup_1 _ _ _ _ Hfin Hp') as ->. done.
Qed.
End interleaving.

(** ** The parallel writer *)

Section parallel.
Context {bp : BuildProfile}.
Implicit Types (u : OrderUpdate.t) (d : HistoryDb).

Lemma set_open_within f : within open_orders (fun _ => True) (exec (set_open f)).
Proof. split_and!; simpl; [|done..]. by intros d1 d2 ->. Qed.
Lemma set_history_within f : within order_history (fun _ => True) (exec (set_history f)).
Proof. split_and!; simpl; [|done..]. by intros d1 d2 ->. Qed.
Lemma set_stream_within f : within updates_stream (fun _ => True) (exec (set_stream f)).
Proof. split_and!; simpl; [|done..]. by intros d1 d2 ->. Qed.

Lemma count_within J user status ts :
  (forall m c, J m -> J (partial_alter (write_counters c (as_i64 ts)) (as_i64 user) m)) ->
  within order_statistics J (update_order_statistics user status ts).
Proof.
  intros HJ. split; [by intros d1 d2 Hd|]. split; [by intros d1 d2 Hd; simpl; rewrite Hd|]. split; [done|].
  intros d. simpl. destruct (count_status _ _) as [c|]; simpl; [|done]. split_and!; [|done| |done].
  - by intros d1 d2 ->.
  - intros d0. apply HJ.
Qed.

Ltac owns :=
  intros [|[|[|[|[|]]]]] ? ? ?; simplify_eq /=; apply keeps_spares;
  first [by split | apply count_keeps_open | apply count_keeps_history | apply count_keeps_stream].

Ltac all_spare :=
  repeat (apply Forall_cons; split; [apply keeps_spares; first [by split | apply count_keeps_open | apply count_keeps_history | apply count_keeps_stream]|]);
  apply Forall_nil; done.

Lemma parallel_tables u event_id d fs d' :
  rtc served_step (parallel_update u event_id, d) (fs, d') -> finished fs ->
  open_orders d' = opened u (open_orders d) /\
  order_history d' = <[update_key u := history_row u]> (order_history d) /\
  updates_stream d' = <[as_i64 event_id := stream_row u]> (updates_stream d).
Proof.
  intros Hrun Hfin. unfold opened.
  pose proof (fun i p x => owner_finished open_orders (fun _ => True) i _ _ _ _ p x Hrun Hfin) as Hopen.
  pose proof (fun i p x => owner_finished order_history (fun _ => True) i _ _ _ _ p x Hrun Hfin) as Hhist.
  pose proof (fun i p x => owner_finished updates_stream (fun _ => True) i _ _ _ _ p x Hrun Hfin) as Hstream.
  pose proof (spared open_orders (fun _ => True) _ _ _ _ Hrun) as Hnone.
  unfold parallel_update in *. destruct (OrderUpdate.status u);
    (split; [|split]; symmetry; apply (inj Some);
     [first [by eapply (Hopen 0%nat); [owns|done|apply set_open_within|done|] | f_equal; symmetry; apply Hnone; [all_spare|done]]
     |first [by eapply (Hhist 1%nat); [owns|done|apply set_history_within|done|]
            |by eapply (Hhist 0%nat); [owns|done|apply set_history_within|done|]]
     |first [by eapply (Hstream 2%nat); [owns|done|apply set_stream_within|done|]
            |by eapply (Hstream 1%nat); [owns|done|apply set_stream_within|done|]]]).
Qed.

(** The counters of a user that has some already. *)
Lemma init_again (user ts : Z) (m : gmap Z Statistics) : is_Some (m !! user) -> partial_alter (first_statistics ts) user m = m.
Proof.
  intros [s Hs]. apply map_eq. intros k. destruct (decide (k = user)) as [->|Hk].
  - by rewrite lookup_partial_alter_eq, Hs.
  - by rewrite lookup_partial_alter_ne.
Qed.

Definition count_of u : op unit :=
  update_order_statistics (OrderUpdate.user_id u) (OrderUpdate.status u) (OrderUpdate.timestamp u).

Definition counted u d (m : gmap Z Statistics) : Prop :=
  match OrderUpdate.status u with
  | OrderStatus.PartiallyFilled => m = order_statistics d
  | _ => alone order_statistics (count_of u) d = Some m
  end.

(** Only an order that expires is counted by one writer and not by the other;
    and only the first order of a user can tell the two requests on the counters
    apart. *)
Definition counts_alike u d : Prop :=
  OrderUpdate.status u <> OrderStatus.Expired /\
  (OrderUpdate.status u = OrderStatus.New -> is_Some (order_statistics d !! as_i64 (OrderUpdate.user_id u))).

Lemma count_alone u d d0 d' :
  order_statistics d0 = order_statistics d -> eval (count_of u) d0 = Some (tt, d') ->
  alone order_statistics (count_of u) d = Some (order_statistics d').
Proof.
  intros Hd He. rewrite (within_alone order_statistics (fun _ => True) _ d d0); [unfold alone; by rewrite He| |done].
  by apply count_within.
Qed.

Lemma sequential_counts u event_id d d' :
  counts_alike u d -> eval (process_order_update u event_id) d = Some (tt, d') -> counted u d (order_statistics d').
Proof.
  intros [Hexp Hnew]. unfold counted, process_order_update. fold (count_of u).
  destruct (OrderUpdate.status u) eqn:Hs; rewrite ?eval_bind;
    unfold upsert_active_order, delete_active_order, insert_order_history, insert_order_update_stream, init_user_statistics;
    repeat (rewrite ?eval_exec, ?eval_bind; cbn [mbind option_bind fst snd]); intros Hrun;
    try (eapply count_alone; [|exact Hrun]; cbn; rewrite ?init_again by auto; done); try done.
  by injection Hrun as <-.
Qed.

Lemma parallel_counts u event_id d fs d' :
  counts_alike u d -> rtc served_step (parallel_update u event_id, d) (fs, d') -> finished fs ->
  counted u d (order_statistics d').
Proof.
  intros [Hexp Hnew] Hrun Hfin. unfold counted. set (user := as_i64 (OrderUpdate.user_id u)) in *.
  set (J := fun m : gmap Z Statistics => OrderUpdate.status u = OrderStatus.New -> is_Some (m !! user)).
  pose proof (fun i p x => owner_finished order_statistics J i _ _ _ _ p x Hrun Hfin) as Hstats.
  pose proof (spared order_statistics (fun _ => True) _ _ _ _ Hrun) as Hnone.
  assert (within order_statistics J (count_of u)) as Hwithin.
  { apply count_within. intros m c _ _. fold user. rewrite lookup_partial_alter_eq. unfold write_counters. by destruct c as [[[? ?] ?] ?]. }
  assert (spares order_statistics J (init_user_statistics (OrderUpdate.user_id u) (OrderUpdate.timestamp u)) \/ OrderUpdate.status u <> OrderStatus.New) as Hinit.
  { destruct (OrderUpdate.status u) eqn:Hs; [left|by right..]. split; [|done]. intros d0 HJ. apply init_again. by apply HJ. }
  unfold parallel_update, count_of in *. destruct (OrderUpdate.status u) eqn:Hs;
    [eapply (Hstats 4%nat)|apply Hnone|eapply (Hstats 3%nat)|eapply (Hstats 3%nat)|eapply (Hstats 2%nat)|done];
    try done; try all_spare; try (intros _; by apply Hnew);
    intros [|[|[|[|[|]]]]] ? ? ?; simplify_eq /=; first [by apply keeps_spares; split | by destruct Hinit].
Qed.

(** C35: the parallel writer agrees with the sequential one.  In whatever order
    the database serves the requests of one update, when all are answered the
    tables are those that the sequential service writes; only the counters
    differ, for an order that expires and for the first order of a user. *)
Theorem parallel_update_agrees u event_id d fs d' d1 :
  rtc served_step (parallel_update u event_id, d) (fs, d') -> Forall (fun p => p = Done tt) fs ->
  perform (process_order_update u event_id) (d, []) = Ok tt (d1, []) ->
  open_orders d' = open_orders d1 /\ order_history d' = order_history d1 /\ updates_stream d' = updates_stream d1 /\
  (OrderUpdate.status u <> OrderStatus.Expired ->
   (OrderUpdate.status u = OrderStatus.New -> is_Some (order_statistics d !! as_i64 (OrderUpdate.user_id u))) -> d' = d1).
Proof.
  intros Hrun Hfin Hseq. apply perform_ok in Hseq as (d2 & [= <-] & Heval).
  destruct (parallel_tables _ _ _ _ _ Hrun Hfin) as (Ho & Hh & Hs). destruct (update_tables _ _ _ _ Heval) as (Ho1 & Hh1 & Hs1).
  split; [by rewrite Ho, Ho1|]. split; [by rewrite Hh, Hh1|]. split; [by rewrite Hs, Hs1|]. intros Hexp Hnew.
  pose proof (sequential_counts u event_id d d1 (conj Hexp Hnew) Heval) as Hc1.
  pose proof (parallel_counts u event_id d fs d' (conj Hexp Hnew) Hrun Hfin) as Hc.
  assert (order_statistics d' = order_statistics d1) as Hst.
  { unfold counted in *. destruct (OrderUpdate.status u); congruence. }
  destruct d', d1; simpl in *; by subst.
Qed.

(** The first order of a user is counted twice by the sequential service. *)
Lemma first_order_counted_twice u event_id d :
  OrderUpdate.status u = OrderStatus.New -> order_statistics d !! as_i64 (OrderUpdate.user_id u) = None ->
  exists d' s, perform (process_order_update u event_id) (d, []) = Ok tt (d', []) /\
    order_statistics d' !! as_i64 (OrderUpdate.user_id u) = Some s /\ total_orders s = 2.
Proof.
  intros Hnew Hnone. unfold process_order_update. rewrite Hnew. simpl.
  assert (partial_alter (first_statistics (as_i64 (OrderUpdate.timestamp u))) (as_i64 (OrderUpdate.user_id u)) (order_statistics d)
            !! as_i64 (OrderUpdate.user_id u) =
          Some (mkStatistics 1 0 0 0 (Some 0) (as_i64 (OrderUpdate.timestamp u)) (as_i64 (OrderUpdate.timestamp u)))) as Hinit.
  { by rewrite lookup_partial_alter_eq, Hnone. }
  rewrite Hinit. simpl. eexists _, _. split; [done|]. simpl. rewrite lookup_partial_alter_eq. done.
Qed.

(** Every update of the settlement service has event number 0: the stream keeps
    one row of them. *)
Lemma engine_updates_share_event outputs d fs d' k :
  rtc join_step (process_engine_order_updates outputs, d) (fs, d') ->
  is_Some (updates_stream d' !! k) -> k = 0 \/ is_Some (updates_stream d !! k).
Proof.
  set (Q := fun e : HistoryDb -> HistoryDb => forall d, is_Some (updates_stream (e d) !! k) -> k = 0 \/ is_Some (updates_stream d !! k)).
  assert (Forall (effects Q) (process_engine_order_updates outputs)) as Hall.
  { apply Forall_concat, Forall_map, Forall_forall. intros o _. unfold process_engine_order_update.
    destruct (data (input o)), (order_update o) as [ou|]; try by apply Forall_nil. unfold parallel_update.
    assert (forall f, effects Q (exec (set_open f))) as H1 by (split; [by right|done]).
    assert (forall f, effects Q (exec (set_history f))) as H2 by (split; [by right|done]).
    assert (forall f, effects Q (exec (set_statistics f))) as H3 by (split; [by right|done]).
    assert (forall u, effects Q (insert_order_update_stream u 0)) as H4.
    { split; [|done]. intros d0. simpl. rewrite lookup_insert_is_Some. intros [<-|[_ ?]]; [by left|by right]. }
    assert (forall user status ts, effects Q (update_order_statistics user status ts)) as H5.
    { intros. apply effects_bind; [split; [by right|done]|]. intros. apply effects_bind; [apply effects_checked|]. intros. apply H3. }
    destruct (OrderUpdate.status _); repeat (apply Forall_cons; split; [first [apply H1|apply H2|apply H4|apply H3|apply H5]|]); by apply Forall_nil. }
  intros Hrun. remember (process_engine_order_updates outputs, d) as c eqn:Hc. remember (fs, d') as c' eqn:Hc'.
  generalize dependent (process_engine_order_updates outputs). revert d. induction Hrun as [c|c c1 c2 Hstep Hrun IH].
  { intros d fs0 Hall ->. injection Hc' as -> ->. by right. }
  intros d fs0 Hall -> Hk. inversion Hstep as [? j effect kk ? Hj|? j effect kk ? w Hj]; subst;
    pose proof (Forall_lookup_1 _ _ _ _ Hall Hj) as [He Hkk].
  - destruct (IH eq_refl (effect d) (<[j := kk (effect d)]> fs0)) as [|Hd]; [by apply Forall_insert|done..|by left|by apply He].
  - destruct (IH eq_refl (if w then effect d else d) (<[j := Done tt]> fs0)) as [|Hd]; [by apply Forall_insert|done..|by left|].
    destruct w; [by apply He|by right].
Qed.
End parallel.

(** ** At a concrete input *)

Module Concrete.
#[local] Existing Instance debug_profile.

Definition update (order user : Z) (status : OrderStatus.t) : OrderUpdate.t :=
  OrderUpdate.mk order (Some "a") user 0 1 1 status 100 10 0 None None 86400000 None.

Definition trade (buyer buy_order seller sell_order qty : Z) : MatchExecData :=
  mkMatchExec 1 buy_order sell_order buyer seller 100 qty 1 2 0 0 3 4 5 0 0 0 0 0 0 0 0.

Definition commands : list LedgerCommand :=
  [LedgerCommand.OrderUpdate (update 6 2 OrderStatus.New);
   LedgerCommand.MatchExecBatch [trade 1 5 2 6 4; trade 3 7 2 6 1];
   LedgerCommand.Deposit 1 2 3 4 5;
   LedgerCommand.MatchExec (trade 1 5 4 8 3)].

Definition start : HistoryService := mkHistoryService (mkHistoryDb ∅ ∅ ∅ ∅, []) 0 0 0.

(** Seven of ten units of order 5 of user 1 are filled. *)
Lemma fills_add_up_witness :
  exists s' v, iter history_command (LedgerCommand.OrderUpdate (update 5 1 OrderStatus.New) :: commands) start = Ok tt s' /\
    perform (get_active_order 1 5) (conn s') = Ok (Some v) (conn s') /\ OrderUpdate.filled_qty v = 7.
Proof.
  destruct (iter history_command (LedgerCommand.OrderUpdate (update 5 1 OrderStatus.New) :: commands) start) as [[] s'|[]|] eqn:Hrun;
    [|vm_compute in Hrun; discriminate].
  pose proof (fills_add_up (update 5 1 OrderStatus.New) commands start s') as Hfills.
  destruct Hfills as (v & Hv & Hq & _); [| | | | | | | |exact Hrun|].
  - by split_and!.
  - done.
  - done.
  - done.
  - by repeat constructor.
  - by repeat constructor.
  - done.
  - done.
  - by exists s', v.
Defined.

Definition filled : OrderUpdate.t := update 5 1 OrderStatus.Filled.

(** The counters are read before the row is deleted and written after it. *)
Lemma parallel_update_agrees_witness :
  exists fs d' d1,
    rtc served_step (parallel_update filled 7, mkHistoryDb ∅ ∅ ∅ ∅) (fs, d') /\
    perform (process_order_update filled 7) (mkHistoryDb ∅ ∅ ∅ ∅, []) = Ok tt (d1, []) /\ d' = d1.
Proof.
  eassert (rtc served_step (parallel_update filled 7, mkHistoryDb ∅ ∅ ∅ ∅) (_, _)) as Hrun.
  { eapply rtc_l; [by apply (served _ 3%nat)|]. eapply rtc_l; [by apply (served _ 0%nat)|].
    eapply rtc_l; [by apply (served _ 2%nat)|]. eapply rtc_l; [by apply (served _ 3%nat)|].
    eapply rtc_l; [by apply (served _ 1%nat)|]. apply rtc_refl. }
  eexists _, _, _. split; [exact Hrun|]. split; [reflexivity|].
  apply (parallel_update_agrees filled 7 _ _ _ _ Hrun); [by repeat constructor|reflexivity|done|done].
Defined.
End Concrete.
