(* ===== verification/Monitoring.v ===== *)
(** * Metrics and health ([ubs_core/metrics.rs], [ubs_core/health.rs])

    Counters that threads share without a lock: [fetch_add] is one step,
    and the extremes are kept by loops of a load and a compare-and-exchange,
    which other threads may run between. *)

From stdpp Require Import gmap strings pretty relations.
From S2P Require Import Prelude.

#[local] Open Scope string_scope.
#[local] Open Scope list_scope.
#[local] Open Scope Z_scope.
#[local] Open Scope rust_scope.

(** ** Counters *)

Record OrderMetrics := mkMetrics {
  orders_received : Z; orders_accepted : Z; rejected_dedup : Z; rejected_balance : Z; rejected_risk : Z;
  rejected_overflow : Z; rejected_account_not_found : Z; rejected_system_busy : Z; rejected_other : Z;
  total_latency_ns : Z; min_latency_ns : Z; max_latency_ns : Z
}.

Definition metrics_new : OrderMetrics := mkMetrics 0 0 0 0 0 0 0 0 0 0 u64_max 0.

(** What happened to an order: [Rejection] carries the text of its reason. *)
Inductive Counter := Received | Accepted | Rejection (reason : string).

(** [fetch_add(1)], which wraps. *)
Definition bump (c : Counter) (m : OrderMetrics) : OrderMetrics :=
  let '(mkMetrics r a d b k o n s x t lo hi) := m in
  match c with
  | Received => mkMetrics (wrapping_add r 1) a d b k o n s x t lo hi
  | Accepted => mkMetrics r (wrapping_add a 1) d b k o n s x t lo hi
  | Rejection reason =>
      if String.eqb reason "DuplicateOrderId" then mkMetrics r a (wrapping_add d 1) b k o n s x t lo hi
      else if String.eqb reason "InsufficientBalance" then mkMetrics r a d (wrapping_add b 1) k o n s x t lo hi
      else if String.eqb reason "RiskCheckFailed" then mkMetrics r a d b (wrapping_add k 1) o n s x t lo hi
      else if String.eqb reason "OrderCostOverflow" then mkMetrics r a d b k (wrapping_add o 1) n s x t lo hi
      else if String.eqb reason "AccountNotFound" then mkMetrics r a d b k o (wrapping_add n 1) s x t lo hi
      else if String.eqb reason "SystemBusy" then mkMetrics r a d b k o n (wrapping_add s 1) x t lo hi
      else mkMetrics r a d b k o n s (wrapping_add x 1) t lo hi
  end.

Definition set_latency (t lo hi : Z) (m : OrderMetrics) : OrderMetrics :=
  mkMetrics (orders_received m) (orders_accepted m) (rejected_dedup m) (rejected_balance m) (rejected_risk m)
    (rejected_overflow m) (rejected_account_not_found m) (rejected_system_busy m) (rejected_other m) t lo hi.

Definition record_received (m : OrderMetrics) : OrderMetrics := bump Received m.

(** [record_latency] of one thread by itself. *)
Definition record_latency (latency_ns : Z) (m : OrderMetrics) : OrderMetrics :=
  set_latency (wrapping_add (total_latency_ns m) latency_ns)
    (if min_latency_ns m <=? latency_ns then min_latency_ns m else latency_ns)
    (if latency_ns <=? max_latency_ns m then max_latency_ns m else latency_ns) m.

Definition record_accepted (latency_ns : Z) (m : OrderMetrics) : OrderMetrics :=
  record_latency latency_ns (bump Accepted m).

Definition record_rejected (reason : string) (latency_ns : Z) (m : OrderMetrics) : OrderMetrics :=
  record_latency latency_ns (bump (Rejection reason) m).

Definition metrics_reset (m : OrderMetrics) : OrderMetrics := metrics_new.

Section reports.
Context {bp : BuildProfile}.

(** The sums are plain additions. *)
Definition total_rejected (m : OrderMetrics) : option Z :=
  s ← op_add (rejected_dedup m) (rejected_balance m);
  s ← op_add s (rejected_risk m);
  s ← op_add s (rejected_overflow m);
  s ← op_add s (rejected_account_not_found m);
  s ← op_add s (rejected_system_busy m);
  op_add s (rejected_other m).

Definition avg_latency_ns (m : OrderMetrics) : option Z :=
  r ← total_rejected m;
  count ← op_add (orders_accepted m) r;
  Some (if count =? 0 then 0 else total_latency_ns m / count).

Record MetricsSnapshot := mkSnapshot {
  snap_received : Z; snap_accepted : Z; snap_rejected : Z; avg_latency_us : Z; min_latency_us : Z; max_latency_us : Z
}.

Definition snapshot (m : OrderMetrics) : option MetricsSnapshot :=
  r ← total_rejected m;
  avg ← avg_latency_ns m;
  Some (mkSnapshot (orders_received m) (orders_accepted m) r (avg / 1000)
    (if min_latency_ns m =? u64_max then 0 else min_latency_ns m / 1000) (max_latency_ns m / 1000)).

Definition quote : string := String (Ascii.ascii_of_nat 34) "".

Definition json_field (name : string) (value : string) : string := quote +:+ name +:+ quote +:+ ":" +:+ value.

Definition snapshot_json (s : MetricsSnapshot) : string :=
  "{" +:+ json_field "orders_received" (pretty (snap_received s)) +:+ "," +:+
  json_field "orders_accepted" (pretty (snap_accepted s)) +:+ "," +:+
  json_field "orders_rejected" (pretty (snap_rejected s)) +:+ "," +:+
  json_field "avg_latency_us" (pretty (avg_latency_us s)) +:+ "," +:+
  json_field "min_latency_us" (pretty (min_latency_us s)) +:+ "," +:+
  json_field "max_latency_us" (pretty (max_latency_us s)) +:+ "}".

(** ** Health

    Durations are in nanoseconds; [now_ms] is the clock of the system and
    [uptime] the time since the start on the monotonic one. *)

Inductive HealthStatus := Healthy | Degraded (why : string) | Unhealthy (why : string).

Definition is_healthy (s : HealthStatus) : bool := match s with Healthy => true | _ => false end.
Definition is_ready (s : HealthStatus) : bool := match s with Unhealthy _ => false | _ => true end.

Record HealthChecker := mkHealth {
  ready : bool; last_heartbeat_ms : Z; heartbeat_timeout : Z; max_pending_queue : Z; pending_queue_size : Z
}.

Definition from_millis (ms : Z) : Z := ms * 1000000.
Definition from_secs (s : Z) : Z := s * 1000000000.

Definition health_new (timeout max_pending : Z) : HealthChecker := mkHealth false 0 timeout max_pending 0.

Definition health_default : HealthChecker := health_new (from_secs 30) 10000.

Definition set_ready (b : bool) (h : HealthChecker) : HealthChecker :=
  mkHealth b (last_heartbeat_ms h) (heartbeat_timeout h) (max_pending_queue h) (pending_queue_size h).

Definition heartbeat (now_ms : Z) (h : HealthChecker) : HealthChecker :=
  mkHealth (ready h) now_ms (heartbeat_timeout h) (max_pending_queue h) (pending_queue_size h).

Definition set_pending_queue_size (size : Z) (h : HealthChecker) : HealthChecker :=
  mkHealth (ready h) (last_heartbeat_ms h) (heartbeat_timeout h) (max_pending_queue h) size.

Definition liveness (now_ms uptime : Z) (h : HealthChecker) : option HealthStatus :=
  if last_heartbeat_ms h =? 0 then
    Some (if uptime <? from_secs 30 then Degraded "Starting up" else Unhealthy "No heartbeat received")
  else
    since ← op_sub now_ms (last_heartbeat_ms h);
    let elapsed := from_millis since in
    Some (if heartbeat_timeout h <? elapsed
          then Unhealthy ("Heartbeat timeout: " +:+ pretty (elapsed / 1000000) +:+ "ms since last heartbeat") else Healthy).

Definition readiness (now_ms uptime : Z) (h : HealthChecker) : option HealthStatus :=
  if negb (ready h) then Some (Unhealthy "Not ready")
  else
    live ← liveness now_ms uptime h;
    if negb (is_healthy live) then Some live
    else
      let pending := pending_queue_size h in
      if max_pending_queue h <? pending then
        Some (Degraded ("High queue depth: " +:+ pretty pending +:+ " (max " +:+ pretty (max_pending_queue h) +:+ ")"))
      else
        eighty ← op_mul (max_pending_queue h) 8;
        if eighty / 10 <? pending then
          Some (Degraded ("Queue near capacity: " +:+ pretty pending +:+ " / " +:+ pretty (max_pending_queue h)))
        else Some Healthy.

Definition status_word (s : HealthStatus) : string :=
  match s with Healthy => "healthy" | Degraded _ => "degraded" | Unhealthy _ => "unhealthy" end.

Definition health_report (now_ms uptime : Z) (h : HealthChecker) : option string :=
  live ← liveness now_ms uptime h;
  readiness ← readiness now_ms uptime h;
  Some ("{" +:+ json_field "liveness" (quote +:+ status_word live +:+ quote) +:+ "," +:+
        json_field "readiness" (quote +:+ status_word readiness +:+ quote) +:+ "," +:+
        json_field "uptime_secs" (pretty (uptime / 1000000000)) +:+ "," +:+
        json_field "pending_queue" (pretty (pending_queue_size h)) +:+ "}").
End reports.

(** ** Threads that record at the same time

    Where a thread is in [record_accepted] or [record_rejected]; after a load it
    holds the value it read.  The operations are [Relaxed]: a load may return any
    value the cell has had, while one that writes works on the newest.
    [compare_exchange_weak] fails when the value has changed, and may fail
    without. *)

Inductive Recorder :=
  | Counting (c : Counter) (latency : Z)
  | Adding (latency : Z)
  | LoadingMin (latency : Z)
  | ExchangingMin (latency current : Z)
  | LoadingMax (latency : Z)
  | ExchangingMax (latency current : Z)
  | Recorded.

(** The counters, and the values the two cells have had that are loaded. *)
Record Shared := mkShared { metrics : OrderMetrics; past_min : list Z; past_max : list Z }.

Definition shared_new (m : OrderMetrics) : Shared := mkShared m [min_latency_ns m] [max_latency_ns m].

Definition set_metrics (f : OrderMetrics -> OrderMetrics) (s : Shared) : Shared :=
  mkShared (f (metrics s)) (past_min s) (past_max s).

Definition store_min (l : Z) (s : Shared) : Shared :=
  let m := metrics s in mkShared (set_latency (total_latency_ns m) l (max_latency_ns m) m) (l :: past_min s) (past_max s).

Definition store_max (l : Z) (s : Shared) : Shared :=
  let m := metrics s in mkShared (set_latency (total_latency_ns m) (min_latency_ns m) l m) (past_min s) (l :: past_max s).

Inductive recorder_step : Recorder * Shared -> Recorder * Shared -> Prop :=
  | step_count c l s : recorder_step (Counting c l, s) (Adding l, set_metrics (bump c) s)
  | step_add l s :
      recorder_step (Adding l, s)
        (LoadingMin l,
         set_metrics (fun m => set_latency (wrapping_add (total_latency_ns m) l) (min_latency_ns m) (max_latency_ns m) m) s)
  | step_load_min l current s :
      current ∈ past_min s ->
      recorder_step (LoadingMin l, s) (if current <=? l then LoadingMax l else ExchangingMin l current, s)
  | step_exchange_min l s :
      recorder_step (ExchangingMin l (min_latency_ns (metrics s)), s) (LoadingMax l, store_min l s)
  | step_exchange_min_fails l current s : recorder_step (ExchangingMin l current, s) (LoadingMin l, s)
  | step_load_max l current s :
      current ∈ past_max s ->
      recorder_step (LoadingMax l, s) (if l <=? current then Recorded else ExchangingMax l current, s)
  | step_exchange_max l s :
      recorder_step (ExchangingMax l (max_latency_ns (metrics s)), s) (Recorded, store_max l s)
  | step_exchange_max_fails l current s : recorder_step (ExchangingMax l current, s) (LoadingMax l, s).

Inductive threads_step : list Recorder * Shared -> list Recorder * Shared -> Prop :=
  | threads_one ts i t t' s s' :
      ts !! i = Some t -> recorder_step (t, s) (t', s') -> threads_step (ts, s) (<[i := t']> ts, s').
