(* ===== verification/MonitoringProofs.v ===== *)
(** * Metrics that threads share, and health

    Whatever the interleaving of the threads that record, the counters end as if
    the orders had been recorded one after the other. *)

From stdpp Require Import gmap strings pretty relations.
From S2P Require Import Prelude Monitoring.

#[local] Open Scope string_scope.
#[local] Open Scope list_scope.
#[local] Open Scope Z_scope.
#[local] Open Scope rust_scope.

(** ** Effects on the counters, and those a thread has left *)

Inductive Effect := Bump (c : Counter) | AddLatency (l : Z) | KeepMin (l : Z) | KeepMax (l : Z).

Definition effect (e : Effect) (m : OrderMetrics) : OrderMetrics :=
  match e with
  | Bump c => bump c m
  | AddLatency l => set_latency (wrapping_add (total_latency_ns m) l) (min_latency_ns m) (max_latency_ns m) m
  | KeepMin l => set_latency (total_latency_ns m) (Z.min (min_latency_ns m) l) (max_latency_ns m) m
  | KeepMax l => set_latency (total_latency_ns m) (min_latency_ns m) (Z.max (max_latency_ns m) l) m
  end.

Definition effects (es : list Effect) (m : OrderMetrics) : OrderMetrics := foldr effect m es.

Definition remaining (t : Recorder) : list Effect :=
  match t with
  | Counting c l => [Bump c; AddLatency l; KeepMin l; KeepMax l]
  | Adding l => [AddLatency l; KeepMin l; KeepMax l]
  | LoadingMin l | ExchangingMin l _ => [KeepMin l; KeepMax l]
  | LoadingMax l | ExchangingMax l _ => [KeepMax l]
  | Recorded => []
  end.

Definition all_remaining (ts : list Recorder) : list Effect := concat (map remaining ts).

Lemma wrapping_add_comm3 t x y : wrapping_add (wrapping_add t x) y = wrapping_add (wrapping_add t y) x.
Proof. unfold wrapping_add. rewrite !Zplus_mod_idemp_l. f_equal. lia. Qed.

Lemma effect_comm e1 e2 m : effect e1 (effect e2 m) = effect e2 (effect e1 m).
Proof.
  destruct m as [r a d b k o n s x t lo hi]. destruct e1 as [[]| | |], e2 as [[]| | |]; unfold effect, set_latency, bump; simpl;
    repeat match goal with |- context [String.eqb ?r ?w] => destruct (String.eqb r w) end; simpl;
    try reflexivity; f_equal; solve [lia | apply wrapping_add_comm3].
Qed.

Lemma effects_perm es1 es2 m : es1 ≡ₚ es2 -> effects es1 m = effects es2 m.
Proof.
  intros Hp. unfold effects. induction Hp as [|e l1 l2 Hp IH|e1 e2 l|l1 l2 l3 Hp1 IH1 Hp2 IH2]; simpl; [done|by rewrite IH|apply effect_comm|congruence].
Qed.

Lemma effects_app es1 es2 m : effects (es1 ++ es2) m = effects es1 (effects es2 m).
Proof. unfold effects. by rewrite foldr_app. Qed.

Lemma record_latency_eq l m : record_latency l m = effects [AddLatency l; KeepMin l; KeepMax l] m.
Proof.
  destruct m as [r a d b k o n s x t lo hi]. unfold record_latency, effects, effect, set_latency. simpl.
  f_equal; [destruct (Z.leb_spec lo l)|destruct (Z.leb_spec l hi)]; lia.
Qed.

(** ** Steps *)

(** The value a thread read is one it wants to replace. *)
Definition recorder_ok (t : Recorder) : Prop :=
  match t with ExchangingMin l current => l < current | ExchangingMax l current => current < l | _ => True end.

(** The newest value is among those a load may return, and none of them is
    beyond it: the minimum only falls, the maximum only rises. *)
Definition shared_ok (s : Shared) : Prop :=
  min_latency_ns (metrics s) ∈ past_min s /\ (forall x, x ∈ past_min s -> min_latency_ns (metrics s) <= x) /\
  max_latency_ns (metrics s) ∈ past_max s /\ (forall x, x ∈ past_max s -> x <= max_latency_ns (metrics s)).

Lemma shared_new_ok m : shared_ok (shared_new m).
Proof. unfold shared_ok, shared_new. simpl. split_and!; [set_solver| |set_solver|]; intros x ->%list_elem_of_singleton; lia. Qed.

Lemma bump_ok c s : shared_ok s -> shared_ok (set_metrics (bump c) s).
Proof.
  destruct s as [m mins maxs]. unfold shared_ok, set_metrics. simpl.
  assert (min_latency_ns (bump c m) = min_latency_ns m /\ max_latency_ns (bump c m) = max_latency_ns m) as [-> ->]; [|done].
  destruct m, c; simpl; [done..|]. repeat destruct (String.eqb _ _); done.
Qed.

Lemma store_min_ok l s : shared_ok s -> l < min_latency_ns (metrics s) -> shared_ok (store_min l s).
Proof.
  intros (? & Hmin & ? & ?) Hl. unfold shared_ok, store_min, set_latency. simpl. split_and!; [set_solver| |done|done].
  intros x [->|Hx]%elem_of_cons; [lia|]. pose proof (Hmin x Hx). lia.
Qed.

Lemma store_max_ok l s : shared_ok s -> max_latency_ns (metrics s) < l -> shared_ok (store_max l s).
Proof.
  intros (? & ? & ? & Hmax) Hl. unfold shared_ok, store_max, set_latency. simpl. split_and!; [done|done|set_solver|].
  intros x [->|Hx]%elem_of_cons; [lia|]. pose proof (Hmax x Hx). lia.
Qed.

(** A step does some of the effects that were left, and those it leaves out
    change nothing. *)
Lemma recorder_step_effects t s t' s' :
  recorder_step (t, s) (t', s') -> recorder_ok t -> shared_ok s ->
  recorder_ok t' /\ shared_ok s' /\ effects (remaining t) (metrics s) = effects (remaining t') (metrics s').
Proof.
  intros Hstep Hok Hs. pose proof Hs as (_ & Hmin & _ & Hmax). inversion Hstep; subst; cbn [recorder_ok] in Hok; cbn [remaining].
  - split; [done|]. split; [by apply bump_ok|]. change (metrics (set_metrics (bump c) s)) with (effects [Bump c] (metrics s)).
    rewrite <- effects_app. by apply effects_perm, (Permutation_app_comm [_]).
  - split; [done|]. split; [done|]. change (metrics (set_metrics _ s)) with (effects [AddLatency l] (metrics s)).
    rewrite <- effects_app. by apply effects_perm, (Permutation_app_comm [_]).
  - destruct (Z.leb_spec current l) as [Hle|Hlt]; (split; [done|]); (split; [done|]); [|done]. pose proof (Hmin current ltac:(done)).
    destruct s' as [[] ? ?]. unfold effects, effect, set_latency. simpl in *. f_equal; lia.
  - split; [done|]. split; [by apply store_min_ok|]. unfold effects, effect, store_min, set_latency. simpl. f_equal; lia.
  - done.
  - destruct (Z.leb_spec l current) as [Hle|Hlt]; (split; [done|]); (split; [done|]); [|done]. pose proof (Hmax current ltac:(done)).
    destruct s' as [[] ? ?]. unfold effects, effect, set_latency. simpl in *. f_equal; lia.
  - split; [done|]. split; [by apply store_max_ok|]. unfold effects, effect, store_max, set_latency. simpl. f_equal; lia.
  - done.
Qed.

Lemma all_remaining_insert ts i t t' :
  ts !! i = Some t -> exists rest, all_remaining ts ≡ₚ rest ++ remaining t /\ all_remaining (<[i := t']> ts) ≡ₚ rest ++ remaining t'.
Proof.
  intros Hi. exists (all_remaining (take i ts) ++ all_remaining (drop (S i) ts)).
  assert ((i < length ts)%nat) as Hlt by (by eapply lookup_lt_Some). unfold all_remaining.
  rewrite <- (take_drop_middle ts i t Hi) at 1. rewrite insert_take_drop by done.
  rewrite !map_app, !concat_app. simpl. split; solve_Permutation.
Qed.

Definition threads_inv (goal : OrderMetrics) (st : list Recorder * Shared) : Prop :=
  Forall recorder_ok st.1 /\ shared_ok st.2 /\ effects (all_remaining st.1) (metrics st.2) = goal.

Lemma threads_step_inv goal st st' : threads_step st st' -> threads_inv goal st -> threads_inv goal st'.
Proof.
  intros Hstep (Hok & Hs & Hgoal). inversion Hstep as [ts i t t' s s' Hi Hr]; subst. simpl in Hok, Hs.
  destruct (recorder_step_effects t s t' s' Hr) as (Hok' & Hs' & Heff); [by eapply Forall_lookup_1 in Hok|done|].
  split; [by apply Forall_insert|]. split; [done|]. simpl. destruct (all_remaining_insert ts i t t' Hi) as (rest & Hp & Hp').
  by rewrite (effects_perm _ _ _ Hp), (effects_perm _ _ _ Hp'), !effects_app, Heff.
Qed.

Lemma threads_inv_rtc goal st st' : rtc threads_step st st' -> threads_inv goal st -> threads_inv goal st'.
Proof. induction 1; [done|]. intros Hinv. eauto using threads_step_inv. Qed.

(** ** Finishing

    A thread that runs alone, and reads what is newest, gets to its end. *)

Lemma max_alone l s : shared_ok s -> exists s', rtc recorder_step (LoadingMax l, s) (Recorded, s') /\ shared_ok s'.
Proof.
  intros Hs. pose proof Hs as (_ & _ & Hin & _). destruct (Z.leb_spec l (max_latency_ns (metrics s))) as [Hle|Hlt].
  - exists s. split; [|done]. eapply rtc_l; [by apply step_load_max|]. by rewrite (proj2 (Z.leb_le _ _) Hle).
  - exists (store_max l s). split; [|by apply store_max_ok]. eapply rtc_l; [by apply step_load_max|].
    rewrite (proj2 (Z.leb_gt _ _) Hlt). eapply rtc_l; [apply step_exchange_max|]. apply rtc_refl.
Qed.

Lemma min_alone l s : shared_ok s -> exists s', rtc recorder_step (LoadingMin l, s) (Recorded, s') /\ shared_ok s'.
Proof.
  intros Hs. pose proof Hs as (Hin & _). destruct (Z.leb_spec (min_latency_ns (metrics s)) l) as [Hle|Hlt].
  - destruct (max_alone l s Hs) as (s' & Hrun & ?). exists s'. split; [|done]. eapply rtc_l; [by apply step_load_min|].
    by rewrite (proj2 (Z.leb_le _ _) Hle).
  - destruct (max_alone l (store_min l s)) as (s' & Hrun & ?); [by apply store_min_ok|]. exists s'. split; [|done].
    eapply rtc_l; [by apply step_load_min|]. rewrite (proj2 (Z.leb_gt _ _) Hlt). by eapply rtc_l; [apply step_exchange_min|].
Qed.

Lemma thread_alone t s : shared_ok s -> exists s', rtc recorder_step (t, s) (Recorded, s') /\ shared_ok s'.
Proof.
  intros Hs.
  assert (forall l s, shared_ok s -> exists s', rtc recorder_step (Adding l, s) (Recorded, s') /\ shared_ok s') as Hadd.
  { intros l s0 Hs0. edestruct (min_alone l) as (s' & Hrun & ?); [|exists s'; split; [eapply rtc_l; [apply step_add|exact Hrun]|done]].
    exact Hs0. }
  destruct t as [c l|l|l|l x|l|l x|]; [|by apply Hadd|by apply min_alone| |by apply max_alone| |by exists s].
  - destruct (Hadd l (set_metrics (bump c) s)) as (s' & Hrun & ?); [by apply bump_ok|]. exists s'. split; [|done].
    by eapply rtc_l; [apply step_count|].
  - destruct (min_alone l s Hs) as (s' & Hrun & ?). exists s'. split; [|done]. by eapply rtc_l; [apply step_exchange_min_fails|].
  - destruct (max_alone l s Hs) as (s' & Hrun & ?). exists s'. split; [|done]. by eapply rtc_l; [apply step_exchange_max_fails|].
Qed.

Lemma lift_steps ts i st st' :
  (i < length ts)%nat -> rtc recorder_step st st' -> rtc threads_step (<[i := st.1]> ts, st.2) (<[i := st'.1]> ts, st'.2).
Proof.
  intros Hi. induction 1 as [|[t m] [t1 m1] st2 Hstep _ IH]; [done|]. eapply rtc_l; [|exact IH]. simpl.
  rewrite <- (list_insert_insert_eq ts i t1 t). apply threads_one with t; [by rewrite list_lookup_insert_eq|done].
Qed.

Lemma threads_can_finish ts s :
  shared_ok s -> exists ts' s', rtc threads_step (ts, s) (ts', s') /\ Forall (eq Recorded) ts'.
Proof.
  assert (forall k ts s, (k <= length ts)%nat -> Forall (eq Recorded) (take (length ts - k) ts) -> shared_ok s ->
            exists ts' s', rtc threads_step (ts, s) (ts', s') /\ Forall (eq Recorded) ts') as Hgo.
  { induction k as [|k IH]; intros ts0 s0 Hk Hdone Hs0.
    - exists ts0, s0. split; [done|]. by rewrite take_ge in Hdone by lia.
    - set (i := (length ts0 - S k)%nat) in *. destruct (lookup_lt_is_Some_2 ts0 i) as [t Ht]; [lia|].
      destruct (thread_alone t s0 Hs0) as (s1 & Halone & Hs1). destruct (IH (<[i := Recorded]> ts0) s1) as (ts' & s' & Hrun & Hall).
      + rewrite length_insert. lia.
      + rewrite length_insert. replace (length ts0 - k)%nat with (S i) by lia.
        rewrite (take_S_r _ i Recorded) by (apply list_lookup_insert_eq; lia). apply Forall_app. split; [|by repeat constructor].
        by rewrite take_insert_ge by lia.
      + exact Hs1.
      + exists ts', s'. split; [|done]. etrans; [|exact Hrun].
        pose proof (lift_steps ts0 i (t, s0) (Recorded, s1) ltac:(lia) Halone) as Hl. simpl in Hl. by rewrite list_insert_id in Hl. }
  intros Hs. apply (Hgo (length ts)); [done| |done]. rewrite Nat.sub_diag. by apply Forall_nil.
Qed.

(** An order's outcome, with the time it took, recorded by one thread. *)
Definition outcome_record (r : Counter * Z) : Recorder := Counting r.1 r.2.

(** [record_accepted] and [record_rejected] *)
Definition record_one (m : OrderMetrics) (r : Counter * Z) : OrderMetrics := record_latency r.2 (bump r.1 m).

Lemma record_one_effects m r : record_one m r = effects (remaining (outcome_record r)) m.
Proof.
  unfold record_one. rewrite record_latency_eq. change (bump r.1 m) with (effects [Bump r.1] m). rewrite <- effects_app.
  by apply effects_perm, (Permutation_app_comm _ [_]).
Qed.

Lemma recorded_in_turn rs m : foldl record_one m rs = effects (all_remaining (map outcome_record rs)) m.
Proof.
  revert m. induction rs as [|r rs IH]; intros m; [done|]. cbn [foldl]. rewrite IH, record_one_effects, <- effects_app.
  apply effects_perm. unfold all_remaining. cbn [map concat]. apply Permutation_app_comm.
Qed.

(** C37: the counters that threads share lose nothing.  Threads that record the
    outcomes [rs] may take their steps in any order, their loads may return any
    value that a cell has had, and a compare-and-exchange may fail for no reason:
    whenever all are done the counters are those of recording the outcomes one
    after the other, in any order; and from every state on the way the threads
    can all be done. *)
Theorem concurrent_records_linearise rs m ts s' :
  rtc threads_step (map outcome_record rs, shared_new m) (ts, s') ->
  (Forall (eq Recorded) ts -> forall turn, turn ≡ₚ rs -> metrics s' = foldl record_one m turn) /\
  exists ts' s'', rtc threads_step (ts, s') (ts', s'') /\ Forall (eq Recorded) ts' /\ metrics s'' = foldl record_one m rs.
Proof.
  intros Hrun. assert (threads_inv (foldl record_one m rs) (map outcome_record rs, shared_new m)) as Hstart.
  { split; [apply Forall_map, Forall_true; done|]. split; [apply shared_new_ok|by rewrite recorded_in_turn]. }
  assert (forall ts1 s1, rtc threads_step (map outcome_record rs, shared_new m) (ts1, s1) -> Forall (eq Recorded) ts1 ->
            metrics s1 = foldl record_one m rs) as Hend.
  { intros ts1 s1 Hr Hdone. destruct (threads_inv_rtc _ _ _ Hr Hstart) as (_ & _ & Heff). simpl in Heff. rewrite <- Heff.
    clear -Hdone. induction Hdone as [|t ts1 <- _ IH]; [done|exact IH]. }
  split.
  - intros Hdone turn Hp. rewrite (Hend _ _ Hrun Hdone), !recorded_in_turn. apply effects_perm. unfold all_remaining.
    rewrite <- !flat_map_concat_map. by rewrite Hp.
  - destruct (threads_can_finish ts s') as (ts' & s'' & Hr & Hdone); [by destruct (threads_inv_rtc _ _ _ Hrun Hstart) as (_ & ? & _)|].
    exists ts', s''. split; [done|]. split; [done|]. apply (Hend ts'); [by etrans|done].
Qed.

(** ** Health *)

Section health.
Context {bp : BuildProfile}.

(** A healthy process is one that is ready, whose last heartbeat is recent, and
    whose queue is at most eight tenths full. *)
Theorem ready_means now_ms uptime h :
  is_u64 (pending_queue_size h) -> 0 <= max_pending_queue h * 8 <= u64_max ->
  last_heartbeat_ms h <= now_ms <= u64_max -> 0 <= last_heartbeat_ms h ->
  readiness now_ms uptime h = Some Healthy <->
  ready h = true /\ last_heartbeat_ms h <> 0 /\ from_millis (now_ms - last_heartbeat_ms h) <= heartbeat_timeout h /\
  pending_queue_size h <= max_pending_queue h * 8 / 10.
Proof.
  intros [Hp _] Hmax Hnow Hlast. unfold readiness, liveness.
  assert (op_sub now_ms (last_heartbeat_ms h) = Some (now_ms - last_heartbeat_ms h)) as -> by (apply u64_op_exact; split; lia).
  assert (op_mul (max_pending_queue h) 8 = Some (max_pending_queue h * 8)) as -> by (apply u64_op_exact; split; lia).
  assert (max_pending_queue h * 8 / 10 <= max_pending_queue h) by (apply Z.div_le_upper_bound; lia).
  destruct (ready h); cbn [negb]; [|naive_solver].
  destruct (Z.eqb_spec (last_heartbeat_ms h) 0) as [H0|H0]; [destruct (uptime <? _); naive_solver|]. cbn [mbind option_bind].
  destruct (Z.ltb_spec (heartbeat_timeout h) (from_millis (now_ms - last_heartbeat_ms h))) as [Ht|Ht]; cbn [is_healthy negb].
  - split; [done|]. intros (_ & _ & Hc & _). lia.
  - destruct (Z.ltb_spec (max_pending_queue h) (pending_queue_size h)); [split; [done|]; intros (_ & _ & _ & Hc); lia|].
    destruct (Z.ltb_spec (max_pending_queue h * 8 / 10) (pending_queue_size h)); [split; [done|]; intros (_ & _ & _ & Hc); lia|].
    split; [|done]. intros _. split_and!; [done|done|lia|lia].
Qed.

(** A clock that goes back after a heartbeat makes the check panic, or say that
    the process is dead. *)
Lemma clock_set_back now_ms uptime h :
  0 <= now_ms < last_heartbeat_ms h -> last_heartbeat_ms h <= 2 ^ 63 -> heartbeat_timeout h < from_millis (2 ^ 63) ->
  if overflow_checks then liveness now_ms uptime h = None
  else exists why, liveness now_ms uptime h = Some (Unhealthy why).
Proof.
  intros Hnow Hlast Ht. unfold liveness. destruct (Z.eqb_spec (last_heartbeat_ms h) 0) as [|_]; [lia|].
  unfold op_sub, u64_op, in_range. destruct (Z.leb_spec 0 (now_ms - last_heartbeat_ms h)); [lia|]. cbn [andb].
  destruct overflow_checks; [done|]. cbn [mbind option_bind]. unfold from_millis in *.
  assert ((now_ms - last_heartbeat_ms h - 0) mod u64_mod + 0 = now_ms - last_heartbeat_ms h + u64_mod) as ->.
  { rewrite <- (Z_mod_plus_full _ 1). rewrite Z.mod_small; unfold u64_mod; lia. }
  destruct (Z.ltb_spec (heartbeat_timeout h) ((now_ms - last_heartbeat_ms h + u64_mod) * 1000000)) as [_|Hle]; [by eexists|].
  unfold u64_mod in Hle. lia.
Qed.
End health.

Module Concrete.

(** Two orders that took 5 and 3: both threads read the minimum, the second
    replaces it, and the first, whose exchange fails, reads once more the value
    of before, fails again, and then the new one. *)
Definition two : list (Counter * Z) := [(Accepted, 5); (Rejection "SystemBusy", 3)].

Lemma replace_min l x s : x = min_latency_ns (metrics s) -> recorder_step (ExchangingMin l x, s) (LoadingMax l, store_min l s).
Proof. intros ->. apply step_exchange_min. Qed.

Lemma replace_max l x s : x = max_latency_ns (metrics s) -> recorder_step (ExchangingMax l x, s) (Recorded, store_max l s).
Proof. intros ->. apply step_exchange_max. Qed.

Ltac thread i rule := eapply rtc_l; [eapply (threads_one _ i); [reflexivity|eapply rule; try reflexivity; try (cbn; set_solver)]|cbn].

Lemma concurrent_records_linearise_witness :
  exists s, rtc threads_step (map outcome_record two, shared_new metrics_new) ([Recorded; Recorded], s) /\
    metrics s = foldl record_one metrics_new [(Rejection "SystemBusy", 3); (Accepted, 5)] /\
    min_latency_ns (metrics s) = 3 /\ max_latency_ns (metrics s) = 5.
Proof.
  eassert (rtc threads_step (map outcome_record two, shared_new metrics_new) ([Recorded; Recorded], _)) as Hrun.
  { thread 0%nat step_count. thread 0%nat step_add. thread 0%nat (step_load_min 5 u64_max).
    thread 1%nat step_count. thread 1%nat step_add. thread 1%nat (step_load_min 3 u64_max). thread 1%nat replace_min.
    thread 0%nat step_exchange_min_fails. thread 0%nat (step_load_min 5 u64_max).
    thread 0%nat step_exchange_min_fails. thread 0%nat (step_load_min 5 3).
    thread 1%nat (step_load_max 3 0). thread 1%nat replace_max. thread 0%nat (step_load_max 5 3). thread 0%nat replace_max.
    apply rtc_refl. }
  eexists. split; [exact Hrun|].
  destruct (concurrent_records_linearise two metrics_new _ _ Hrun) as [Hdone _]. split.
  - apply Hdone; [by repeat constructor|apply Permutation_swap].
  - by vm_compute.
Defined.
End Concrete.
