(* ===== verification/UbsKafka.v ===== *)
(** * The balance authority behind Kafka ([bin/ubscore_service.rs])

    The older process of the balance authority: it reads orders from one topic,
    writes every order to the log, lets the core validate it, and sends what was
    accepted to another topic.  The core has no log of its own here, and its
    events go to the shadow ledger. *)

From stdpp Require Import gmap strings.
From S2P Require Import Prelude Bytes FastUlid UserAccount UbsParts WalRecord UbsWal UbsCore Monitoring.

#[local] Open Scope string_scope.
#[local] Open Scope list_scope.
#[local] Open Scope Z_scope.
#[local] Open Scope rust_scope.

(** [bincode::deserialize] of an order. *)
Class OrderDecoder := bincode_decode : list Z -> option InternalOrder.

(** [format!("{:?}", reason)] *)
Definition reason_debug (r : RejectReason) : string :=
  match r with
  | OrderTooOld => "OrderTooOld"
  | FutureTimestamp => "FutureTimestamp"
  | DuplicateOrderId => "DuplicateOrderId"
  | InvalidSymbol => "InvalidSymbol"
  | OrderCostOverflow => "OrderCostOverflow"
  | InsufficientBalance => "InsufficientBalance"
  | InsufficientFunds => "InsufficientFunds"
  | InsufficientFrozen => "InsufficientFrozen"
  | BalanceOverflow => "BalanceOverflow"
  | AccountNotFound => "AccountNotFound"
  | SystemBusy => "SystemBusy"
  | InternalError => "InternalError"
  end.

(** What becomes of a record that is sent; an error may come although it was
    delivered. *)
Inductive SendAnswer := SendDelivered | SendFailed (delivered : bool).

(** [topic] holds the key and the payload of every record that was delivered,
    [broker] the answers to come; when they run out every record is delivered. *)
Record KafkaService := mkKafka {
  kafka_core : UBSCore; kafka_wal : GroupCommitWal; kafka_metrics : OrderMetrics; kafka_health : HealthChecker;
  wal_entries : Z; topic : list (list Z * list Z); broker : list SendAnswer;
  total_processed : Z; total_accepted : Z; total_refused : Z; pending_wal_flush : Z
}.

Definition set_kafka_core (x : UBSCore) (s : KafkaService) : KafkaService :=
  mkKafka x (kafka_wal s) (kafka_metrics s) (kafka_health s) (wal_entries s) (topic s) (broker s)
    (total_processed s) (total_accepted s) (total_refused s) (pending_wal_flush s).
Definition set_kafka_wal (x : GroupCommitWal) (s : KafkaService) : KafkaService :=
  mkKafka (kafka_core s) x (kafka_metrics s) (kafka_health s) (wal_entries s) (topic s) (broker s)
    (total_processed s) (total_accepted s) (total_refused s) (pending_wal_flush s).
Definition set_kafka_metrics (f : OrderMetrics -> OrderMetrics) (s : KafkaService) : KafkaService :=
  mkKafka (kafka_core s) (kafka_wal s) (f (kafka_metrics s)) (kafka_health s) (wal_entries s) (topic s) (broker s)
    (total_processed s) (total_accepted s) (total_refused s) (pending_wal_flush s).
Definition set_wal_entries (x : Z) (s : KafkaService) : KafkaService :=
  mkKafka (kafka_core s) (kafka_wal s) (kafka_metrics s) (kafka_health s) x (topic s) (broker s)
    (total_processed s) (total_accepted s) (total_refused s) (pending_wal_flush s).
Definition set_topic (t : list (list Z * list Z)) (b : list SendAnswer) (s : KafkaService) : KafkaService :=
  mkKafka (kafka_core s) (kafka_wal s) (kafka_metrics s) (kafka_health s) (wal_entries s) t b
    (total_processed s) (total_accepted s) (total_refused s) (pending_wal_flush s).
Definition set_totals (processed accepted refused pending : Z) (s : KafkaService) : KafkaService :=
  mkKafka (kafka_core s) (kafka_wal s) (kafka_metrics s) (kafka_health s) (wal_entries s) (topic s) (broker s)
    processed accepted refused pending.

(** Symbol 1 is assets 1 and 2. *)
Definition kafka_new (w : GroupCommitWal) : KafkaService :=
  mkKafka (register_symbol 1 1 2 (with_event_listener ubs_new)) w metrics_new health_default 0 [] [] 0 0 0 0.

Definition on_kafka_core {E A} (m : M UBSCore E A) : M KafkaService E A :=
  zoom (fun s => Some (kafka_core s)) set_kafka_core m.

Definition on_kafka_wal {A} (what : string) (m : M GroupCommitWal WalError.t A) : M KafkaService string A :=
  zoom (fun s => Some (kafka_wal s)) set_kafka_wal (map_err (fun _ => what) m).

Section service.
Context {bp : BuildProfile} `{Crc32} {codec : OrderCodec} {decoder : OrderDecoder}.

Definition log_order (order : InternalOrder) : M KafkaService string unit :=
  let* payload := ok_or (bincode_order order) "Serialize error" in
  let entry := mkEntry WalEntryType.OrderLock payload in
  on_kafka_wal "WAL append error" (wal_append entry) ;;;
  modify (fun s => set_wal_entries (wrapping_add (wal_entries s) 1) s).

Definition flush_wal : M KafkaService string unit := on_kafka_wal "WAL flush error" flush.

(** [clock] is the one of the core, [latency_ns] what the timer shows. *)
Definition kafka_validate (order : InternalOrder) (clock latency_ns : Z) : M KafkaService RejectReason unit :=
  modify (set_kafka_metrics record_received) ;;;
  let* result := attempt (on_kafka_core (validate_order order clock)) in
  match result with
  | inr _ => modify (set_kafka_metrics (record_accepted latency_ns))
  | inl reason => modify (set_kafka_metrics (record_rejected (reason_debug reason) latency_ns)) ;;; throw reason
  end.

(** [producer.send] *)
Definition forward (order : InternalOrder) : M KafkaService Empty_set unit :=
  match bincode_order order with
  | None => ret tt
  | Some payload =>
      modify (fun s =>
        let record := (be_bytes 8 (io_order_id order), payload) in
        match broker s with
        | SendFailed false :: rest => set_topic (topic s) rest s
        | answers => set_topic (topic s ++ [record]) (tail answers) s
        end)
  end.

(** One message: nothing for an error of Kafka or a message without payload. *)
Record KafkaMessage := mkKafkaMessage { km_payload : option (list Z); km_clock : Z; km_latency_ns : Z }.

Definition on_message (msg : KafkaMessage) : M KafkaService Empty_set unit :=
  match km_payload msg with
  | None => ret tt
  | Some payload =>
      match bincode_decode payload with
      | None => ret tt
      | Some order =>
          let* s := get in
          let* processed := unwrap (op_add (total_processed s) 1) in
          modify (set_totals processed (total_accepted s) (total_refused s) (pending_wal_flush s)) ;;;
          ignore (log_order order) ;;;
          let* s := get in
          let* pending := unwrap (op_add (pending_wal_flush s) 1) in
          modify (set_totals processed (total_accepted s) (total_refused s) pending) ;;;
          let* result := attempt (kafka_validate order (km_clock msg) (km_latency_ns msg)) in
          let* s := get in
          match result with
          | inr _ =>
              let* accepted := unwrap (op_add (total_accepted s) 1) in
              modify (set_totals processed accepted (total_refused s) pending) ;;;
              ignore flush_wal ;;;
              modify (set_totals processed accepted (total_refused s) 0) ;;;
              forward order
          | inl _ =>
              let* refused := unwrap (op_add (total_refused s) 1) in
              modify (set_totals processed (total_accepted s) refused pending) ;;;
              if 100 <=? pending then
                ignore flush_wal ;;;
                modify (set_totals processed (total_accepted s) refused 0)
              else ret tt
          end
      end
  end.

Definition processing_loop (msgs : list KafkaMessage) : M KafkaService Empty_set unit := iter on_message msgs.

(** ** Commands of the test mode

    [true] when the process exits.  A number that cannot be read is 0. *)

Definition number (max : Z) (args : list string) (i : nat) : Z :=
  default 0 (args !! i ≫= parse_uint max).

Definition u64_arg : list string -> nat -> Z := number u64_max.
Definition u32_arg : list string -> nat -> Z := number 4294967295.

Definition process_test_command (args : list string) : M UBSCore Empty_set bool :=
  let short (n : nat) := Nat.ltb (length args) n in
  match args with
  | "DEPOSIT" :: _ =>
      if short 5%nat then ret false
      else on_deposit (u64_arg args 1) (u32_arg args 2) (u64_arg args 3) (u64_arg args 4) ;;; ret false
  | "WITHDRAW" :: _ => ret false
  | "LOCK" :: _ =>
      if short 5%nat then ret false
      else ignore (lock_funds (u64_arg args 1) (u32_arg args 2) (u64_arg args 3) (u64_arg args 4)) ;;; ret false
  | "UNLOCK" :: _ =>
      if short 5%nat then ret false
      else ignore (unlock_funds (u64_arg args 1) (u32_arg args 2) (u64_arg args 3) (u64_arg args 4)) ;;; ret false
  | "SETTLE" :: _ =>
      if short 10%nat then ret false
      else
        let price := u64_arg args 6 in
        let qty := u64_arg args 7 in
        let* quote_amt := unwrap (op_mul price qty) in
        ignore (settle_trade (u64_arg args 1) (u64_arg args 2) (u64_arg args 3) (u32_arg args 4) (u32_arg args 5)
                  qty quote_amt 0 (u64_arg args 8) (u64_arg args 9) 1000 1000) ;;;
        ret false
  | "EXIT" :: _ => ret true
  | _ => ret false
  end.
End service.
