(* ===== verification/UbsKafkaProofs.v ===== *)
(** * What the Kafka process guarantees

    Whatever the file system and the broker do, the orders that are sent on
    are among those accepted, each once, and each with its cost locked.  The log
    holds what was received. *)

From S2P Require Import Prelude Bytes FastUlid Balance UserAccount Ledger UbsParts WalRecord.
From S2P Require Import UbsWal UbsWalProofs UbsCore UbsCoreProofs UbsCommProofs Monitoring UbsKafka.

#[local] Open Scope string_scope.
#[local] Open Scope list_scope.
#[local] Open Scope Z_scope.
#[local] Open Scope rust_scope.

(** ** Validation and the rest of the core *)

Lemma lock_funds_frame user asset amount oid c :
  match lock_funds user asset amount oid c with
  | Ok _ c' | Err _ c' => asset_map c' = asset_map c /\ dedup_guard c' = dedup_guard c
  | Panic => True
  end.
Proof.
  unfold lock_funds. unfold bind at 1. rewrite with_account_eq. destruct (accounts c !! user) as [acc|]; [|done].
  destruct (borrow _ _ acc) as [x acc'|e acc'|]; cbn [res_map]; [|done..].
  set (c1 := set_accounts _ c).
  destruct (emit_event_eq (E := RejectReason) (FundsLocked oid user asset amount) c1) as (c2 & Hc2 & _ & Hg & _ & _ & _ & Hm & _).
  unfold bind, ret. rewrite Hc2. by rewrite Hg, Hm.
Qed.

(** The identifiers that the guard knows before and after. *)
Definition recorded (id : Z) (c c' : UBSCore) : Prop :=
  asset_map c' = asset_map c /\
  ((length (cache (dedup_guard c)) < CACHE_SIZE)%nat ->
   cache (dedup_guard c') = cache (dedup_guard c) \/ cache (dedup_guard c') = cache (dedup_guard c) ++ [id]).

Lemma validate_recorded_once order clock c :
  match validate_order order clock c with
  | Ok _ c' | Err _ c' => recorded (io_order_id order) c c'
  | Panic => True
  end.
Proof.
  unfold validate_order. unfold bind at 1, get. destruct (_ <? _); [by split; [|left]|].
  unfold bind at 1, on_guard, zoom.
  destruct (check_and_record _ _ (dedup_guard c)) as [[] g|e g|] eqn:Hcheck; [| |done].
  2: { apply check_err_same in Hcheck as ->. destruct c. by split; [|left]. }
  apply guard_accepts in Hcheck as (_ & _ & Hcache).
  assert (recorded (io_order_id order) c (set_guard g c)) as Hrec.
  { split; [done|]. intros Hfree. right. simpl. rewrite Hcache. by destruct (Nat.leb_spec CACHE_SIZE (length (cache (dedup_guard c)))); [lia|]. }
  unfold bind at 1, get. unfold bind at 1, ok_or. destruct (accounts _ !! _); [|done]. cbn [ret].
  destruct (_ =? _); [done|]. destruct (asset_map _ !! _) as [[base quote]|]; [|done].
  unfold bind.
  match goal with |- context [lock_funds ?u ?a ?x ?o ?c] => pose proof (lock_funds_frame u a x o c) as Hl; destruct (lock_funds u a x o c) as [y c2|e c2|] end;
    [| |done]; destruct Hl as [Hm Hg]; unfold ret, recorded; rewrite Hm, Hg; exact Hrec.
Qed.

(** ** Accounts of a run *)

Section kafka.
Context {bp : BuildProfile} `{Crc32Laws} `{Fs2Laws} {codec : OrderCodec} {decoder : OrderDecoder}.
Implicit Types (o : InternalOrder) (s : KafkaService).

Definition record_of_order o : list Z * list Z := (be_bytes 8 (io_order_id o), default [] (bincode_order o)).

Definition kafka_bal s : Z -> Z -> Balance := bal_of (accounts (kafka_core s)).

Definition guarded s : list Z := cache (dedup_guard (kafka_core s)).

(** What an order locks of an asset of a user. *)
Definition locked_by (symbols : gmap Z (Z * Z)) (u a : Z) o : Z :=
  match symbols !! io_symbol_id o with
  | Some assets => if (io_user_id o =? u) && (lock_asset o assets =? a) then calculate_cost o else 0
  | None => 0
  end.

Definition locked (symbols : gmap Z (Z * Z)) (u a : Z) (os : list InternalOrder) : Z :=
  sum_list (map (locked_by symbols u a) os).

(** The orders [os] were received between [s] and [s'], and [acc] of them
    accepted. *)
Record accounted (os : list InternalOrder) s (acc : list InternalOrder) s' : Prop := {
  acc_received : acc `sublist_of` os;
  acc_topic : exists sent, topic s' = topic s ++ sent /\ sent `sublist_of` map record_of_order acc /\
    (broker s = [] -> sent = map record_of_order acc /\ broker s' = []);
  acc_symbols : asset_map (kafka_core s') = asset_map (kafka_core s);
  acc_funds : forall u a, avail (kafka_bal s' u a) = avail (kafka_bal s u a) - locked (asset_map (kafka_core s)) u a acc /\
    frozen (kafka_bal s' u a) = frozen (kafka_bal s u a) + locked (asset_map (kafka_core s)) u a acc;
  acc_counts : total_processed s' = total_processed s + zlen os /\ total_accepted s' = total_accepted s + zlen acc /\
    total_refused s' = total_refused s + (zlen os - zlen acc) /\ 0 <= pending_wal_flush s' <= pending_wal_flush s + zlen os;
  acc_once : (length (guarded s) + length os <= CACHE_SIZE)%nat ->
    NoDup (map io_order_id acc) /\ guarded s ⊆ guarded s' /\ (length (guarded s') <= length (guarded s) + length os)%nat /\
    forall o, o ∈ acc -> io_order_id o ∉ guarded s /\ io_order_id o ∈ guarded s'
}.

Lemma locked_app symbols u a l1 l2 : locked symbols u a (l1 ++ l2) = locked symbols u a l1 + locked symbols u a l2.
Proof. unfold locked. by rewrite map_app, sum_list_app. Qed.

Lemma accounted_nil s : 0 <= pending_wal_flush s -> accounted [] s [] s.
Proof.
  intros Hp. split; [done| |done| | |].
  - exists []. rewrite app_nil_r. done.
  - intros u a. unfold locked. simpl. lia.
  - change (zlen []) with 0. lia.
  - intros _. split; [apply NoDup_nil_2|]. split; [done|]. split; [simpl; lia|]. by intros o ?%elem_of_nil.
Qed.

Lemma accounted_app os1 os2 acc1 acc2 s s1 s2 :
  accounted os1 s acc1 s1 -> accounted os2 s1 acc2 s2 -> accounted (os1 ++ os2) s (acc1 ++ acc2) s2.
Proof.
  intros [R1 (sent1 & T1 & U1 & B1) Y1 F1 C1 O1] [R2 (sent2 & T2 & U2 & B2) Y2 F2 C2 O2]. split.
  - by apply sublist_app.
  - exists (sent1 ++ sent2). rewrite T2, T1, map_app, app_assoc. split; [done|]. split; [by apply sublist_app|].
    intros Hb. destruct (B1 Hb) as [-> Hb1]. by destruct (B2 Hb1) as [-> ->].
  - congruence.
  - intros u a. destruct (F1 u a) as [A1 Z1], (F2 u a) as [A2 Z2]. rewrite Y1 in A2, Z2. rewrite locked_app. lia.
  - rewrite !zlen_app. lia.
  - rewrite length_app. intros Hlen. destruct O1 as (N1 & S1 & L1 & I1); [lia|]. destruct O2 as (N2 & S2 & L2 & I2); [lia|].
    split_and!; [|set_solver|lia|].
    + rewrite map_app. apply NoDup_app. split; [done|]. split; [|done].
      intros id (o1 & -> & Ho1)%list_elem_of_fmap (o2 & Heq & Ho2)%list_elem_of_fmap.
      destruct (I1 _ Ho1), (I2 _ Ho2). congruence.
    + intros o [Ho|Ho]%elem_of_app; [destruct (I1 _ Ho)|destruct (I2 _ Ho)]; set_solver.
Qed.

(** ** One order *)

Record kafka_inv (base : list Z) (log : list WalEntry) s : Prop := {
  kafka_held : held_fits (kafka_core s);
  kafka_log : wal_inv base log (kafka_wal s);
  kafka_capacity : capacity (buffer (kafka_wal s)) = 65536
}.

Definition disk_works s : Prop := script (file (kafka_wal s)) = [].

Lemma log_order_ok base log o s :
  kafka_inv base log s -> order_fits o ->
  exists w n log', ignore (E' := Empty_set) (log_order o) s = Ok tt (set_wal_entries n (set_kafka_wal w s)) /\
    wal_inv base log' w /\ capacity (buffer w) = 65536 /\
    (disk_works s -> log' = log ++ [entry_of o] /\ script (file w) = []).
Proof.
  intros [Hheld Hlog Hcap] Hfits. pose proof (order_entry_fits o Hfits) as He. destruct Hfits as (p & Hp & Hlen).
  assert (entry_of o = mkEntry WalEntryType.OrderLock p) as Heo by (unfold entry_of; by rewrite Hp).
  unfold ignore, log_order, bind, ok_or. rewrite Hp. cbn [ret]. unfold on_kafka_wal, zoom, map_err. rewrite <- Heo.
  pose proof (append_inv _ _ (entry_of o) _ Hlog He) as Ha.
  destruct (wal_append (entry_of o) (kafka_wal s)) as [[] w|err w|];
    [| |rewrite Heo in Ha; simpl in Ha; lia]; (destruct Ha as (Hinv & Hc & Hs); [rewrite Heo; simpl; lia|]).
  - exists w, (wrapping_add (wal_entries s) 1), (log ++ [entry_of o]). rewrite Hc, Hcap. split_and!; try done. intros Hd. auto.
  - destruct Hinv as [Hinv|Hinv]; [exists w, (wal_entries s), log|exists w, (wal_entries s), (log ++ [entry_of o])];
      (split; [by destruct s|]); rewrite Hc, Hcap; by split_and!.
Qed.

Lemma kafka_flush_ok base log s :
  wal_inv base log (kafka_wal s) -> capacity (buffer (kafka_wal s)) = 65536 ->
  exists w, ignore (E' := Empty_set) flush_wal s = Ok tt (set_kafka_wal w s) /\ wal_inv base log w /\
    capacity (buffer w) = 65536 /\ (disk_works s -> script (file w) = [] /\ wal_synced base log w).
Proof.
  intros Hlog Hcap. unfold ignore, flush_wal, on_kafka_wal, zoom, map_err. pose proof (flush_inv _ _ _ Hlog) as Hf.
  destruct (flush (kafka_wal s)) as [[] w|err w|]; [| |done]; exists w.
  - destruct Hf as (Hinv & Hsync & _ & Hc & Hs). rewrite Hc. split_and!; try done. intros Hd. split; [by apply Hs|done].
  - destruct Hf as (Hinv & Hb & Hs). rewrite Hb. by split_and!.
Qed.

Lemma forward_ok o s :
  order_fits o ->
  exists sent b, forward o s = Ok tt (set_topic (topic s ++ sent) b s) /\ sent `sublist_of` [record_of_order o] /\
    (broker s = [] -> sent = [record_of_order o] /\ b = []).
Proof.
  intros (p & Hp & _). unfold forward, modify. rewrite Hp.
  assert (record_of_order o = (be_bytes 8 (io_order_id o), p)) as Hr by (unfold record_of_order; by rewrite Hp). rewrite <- Hr.
  destruct (broker s) as [|[|[]] rest].
  - exists [record_of_order o], []. by split_and!.
  - exists [record_of_order o], rest. by split_and!.
  - exists [record_of_order o], rest. by split_and!.
  - exists [], rest. rewrite app_nil_r. split_and!; [done|apply sublist_nil_l|done].
Qed.

(** What validation does to the core: [acc] is the order if it is accepted. *)
Record core_step o (acc : list InternalOrder) (c c' : UBSCore) : Prop := {
  step_held : held_fits c';
  step_recorded : recorded (io_order_id o) c c';
  step_funds : forall u a,
    avail (bal_of (accounts c') u a) = avail (bal_of (accounts c) u a) - locked (asset_map c) u a acc /\
    frozen (bal_of (accounts c') u a) = frozen (bal_of (accounts c) u a) + locked (asset_map c) u a acc;
  step_once : forall o', o' ∈ acc -> io_order_id o' ∉ cache (dedup_guard c) /\ io_order_id o' ∈ cache (dedup_guard c')
}.

Lemma validate_core_step o clock c :
  held_fits c ->
  match validate_order o clock c with
  | Ok _ c' => core_step o [o] c c'
  | Err _ c' => core_step o [] c c'
  | Panic => False
  end.
Proof.
  intros Hheld. pose proof (validate_order_cases o clock c Hheld) as Hv. pose proof (validate_recorded_once o clock c) as Hr.
  destruct (validate_order o clock c) as [[] c'|e c'|]; [| |done].
  - destruct Hv as (acc & assets & Hu & Hm & Hle & _ & Ha & Hnew & Hin & _).
    assert (forall u a, avail (bal_of (accounts c') u a) = avail (bal_of (accounts c) u a) - locked (asset_map c) u a [o] /\
              frozen (bal_of (accounts c') u a) = frozen (bal_of (accounts c) u a) + locked (asset_map c) u a [o]) as Hfunds.
    { intros u a. unfold locked, locked_by. simpl. rewrite Hm, Ha, bal_of_insert, bal_upd.
      destruct (Z.eqb_spec (io_user_id o) u) as [<-|]; simpl; [|lia].
      assert (forall a', bal_of (accounts c) (io_user_id o) a' = bal acc a') as Hbal by (intros; unfold bal_of, entry_or_new; by rewrite Hu).
      rewrite Hbal. destruct (Z.eqb_spec (lock_asset o assets) a) as [->|]; simpl; lia. }
    split; [|done|done|].
    + intros u a. specialize (Hheld u a). unfold held in *. destruct (Hfunds u a). lia.
    + by intros o' ->%list_elem_of_singleton.
  - destruct Hv as (Hsame & _). split; [|done| |by intros o' ?%elem_of_nil].
    + intros u a. rewrite Hsame. apply Hheld.
    + intros u a. rewrite Hsame. unfold locked. simpl. lia.
Qed.

Lemma kafka_validate_ok o clock latency s :
  held_fits (kafka_core s) ->
  exists c f (ok : bool), core_step o (if ok then [o] else []) (kafka_core s) c /\
    attempt (E' := Empty_set) (kafka_validate o clock latency) s =
      Ok (if ok then inr tt else inl (match validate_order o clock (kafka_core s) with Err e _ => e | _ => SystemBusy end))
        (set_kafka_metrics f (set_kafka_core c s)).
Proof.
  intros Hheld. pose proof (validate_core_step o clock _ Hheld) as Hstep.
  unfold attempt at 1, kafka_validate, bind, modify, on_kafka_core. unfold attempt, zoom. cbn [kafka_core set_kafka_metrics].
  destruct (validate_order o clock (kafka_core s)) as [[] c|e c|]; [| |done].
  - exists c, (fun m => record_accepted latency (record_received m)), true. by split.
  - exists c, (fun m => record_rejected (reason_debug e) latency (record_received m)), false. by split.
Qed.

Lemma accounted_one o (ok : bool) s s' :
  let acc := if ok then [o] else [] in
  core_step o acc (kafka_core s) (kafka_core s') ->
  (exists sent, topic s' = topic s ++ sent /\ sent `sublist_of` map record_of_order acc /\
    (broker s = [] -> sent = map record_of_order acc /\ broker s' = [])) ->
  total_processed s' = total_processed s + 1 -> total_accepted s' = total_accepted s + (if ok then 1 else 0) ->
  total_refused s' = total_refused s + (if ok then 0 else 1) -> 0 <= pending_wal_flush s' <= pending_wal_flush s + 1 ->
  accounted [o] s acc s'.
Proof.
  intros acc [Hheld [Hsym Hrec] Hfunds Honce] Htopic Hc1 Hc2 Hc3 Hc4. split; try done.
  - destruct ok; [done|apply sublist_nil_l].
  - change (zlen [o]) with 1. assert (zlen acc = if ok then 1 else 0) as -> by by destruct ok. destruct ok; lia.
  - intros Hlen. simpl in Hlen. fold (guarded s) (guarded s') in Hrec. destruct Hrec as [Hg|Hg]; [lia|..].
    + split_and!; [destruct ok; [apply NoDup_singleton|apply NoDup_nil_2]|by rewrite Hg|rewrite Hg; simpl; lia|done].
    + split_and!; [destruct ok; [apply NoDup_singleton|apply NoDup_nil_2]|rewrite Hg; set_solver|rewrite Hg, length_app; simpl; lia|done].
Qed.

(** None of the counters is about to overflow. *)
Definition counters_fit (n : Z) s : Prop :=
  is_u64 (total_processed s) /\ is_u64 (total_accepted s) /\ is_u64 (total_refused s) /\ is_u64 (pending_wal_flush s) /\
  total_processed s + n <= u64_max /\ total_accepted s + n <= u64_max /\ total_refused s + n <= u64_max /\
  pending_wal_flush s + n <= u64_max.

Lemma op_add_one x : is_u64 x -> x + 1 <= u64_max -> op_add x 1 = Some (x + 1).
Proof. intros [? ?] ?. apply u64_op_exact. unfold is_u64. lia. Qed.

Lemma on_order base log o payload clock latency s :
  bincode_decode payload = Some o -> order_fits o -> kafka_inv base log s -> counters_fit 1 s ->
  exists s' log' (ok : bool), on_message (mkKafkaMessage (Some payload) clock latency) s = Ok tt s' /\
    kafka_inv base log' s' /\ accounted [o] s (if ok then [o] else []) s' /\
    (ok = true -> pending_wal_flush s' = 0) /\
    (disk_works s -> log' = log ++ [entry_of o] /\ disk_works s' /\ (pending_wal_flush s' = 0 -> wal_synced base log' (kafka_wal s'))).
Proof.
  intros Hdec Hfits Hinv (U1 & U2 & U3 & U4 & B1 & B2 & B3 & B4). unfold on_message. cbn [km_payload km_clock km_latency_ns].
  rewrite Hdec. unfold bind at 1, get. rewrite op_add_one by done. unfold bind at 1, unwrap, ret. unfold bind at 1, modify.
  set (s1 := set_totals _ _ _ _ s). assert (kafka_inv base log s1) as Hinv1 by by destruct Hinv.
  destruct (log_order_ok base log o s1 Hinv1 Hfits) as (w & n & log1 & Hlog & Hwal & Hcap & Hdisk).
  unfold bind at 1. rewrite Hlog. unfold bind at 1. cbn [pending_wal_flush set_wal_entries set_kafka_wal s1 set_totals].
  rewrite op_add_one by done. unfold bind at 1. unfold bind at 1.
  set (s2 := set_totals _ _ _ _ (set_wal_entries n (set_kafka_wal w s1))).
  destruct (kafka_validate_ok o clock latency s2) as (c & f & ok & Hstep & Hval); [exact (kafka_held _ _ _ Hinv)|].
  unfold bind at 1. rewrite Hval. unfold bind at 1. set (s3 := set_kafka_metrics f (set_kafka_core c s2)).
  change (kafka_core s2) with (kafka_core s) in Hstep. pose proof (step_held _ _ _ _ Hstep) as Hheld3.
  assert (wal_inv base log1 (kafka_wal s3)) as Hw3 by exact Hwal.
  destruct ok.
  - change (total_accepted s3) with (total_accepted s). rewrite op_add_one by done. unfold bind at 1. unfold bind at 1.
    set (s4 := set_totals _ _ _ _ s3). destruct (kafka_flush_ok base log1 s4 Hw3 Hcap) as (w' & Hflush & Hwal' & Hcap' & Hdisk').
    unfold bind at 1. rewrite Hflush. unfold bind at 1. set (s5 := set_totals _ _ _ _ (set_kafka_wal w' s4)).
    destruct (forward_ok o s5 Hfits) as (sent & b & Hfwd & Hsub & Hall). rewrite Hfwd.
    exists (set_topic (topic s5 ++ sent) b s5), log1, true. split; [done|]. split; [by split|]. split.
    + apply (accounted_one o true); try done; [by exists sent|simpl; lia|simpl; destruct U4; lia].
    + split; [done|]. intros Hd. destruct (Hdisk Hd) as [-> Hw]. by destruct (Hdisk' Hw).
  - change (total_refused s3) with (total_refused s). rewrite op_add_one by done. unfold bind at 1. unfold bind at 1.
    set (s4 := set_totals _ _ _ _ s3). destruct (_ <=? _).
    + destruct (kafka_flush_ok base log1 s4 Hw3 Hcap) as (w' & Hflush & Hwal' & Hcap' & Hdisk').
      unfold bind at 1. rewrite Hflush. unfold bind.
      eexists _, log1, false. split; [done|]. split; [by split|]. split.
      * apply (accounted_one o false); try done; [|simpl; lia|simpl; destruct U4; lia]. exists []. simpl. by rewrite app_nil_r.
      * split; [done|]. intros Hd. destruct (Hdisk Hd) as [-> Hw]. by destruct (Hdisk' Hw).
    + exists s4, log1, false. split; [done|]. split; [by split|]. split.
      * apply (accounted_one o false); try done; [|simpl; lia|simpl; destruct U4; lia]. exists []. simpl. by rewrite app_nil_r.
      * split; [done|]. intros Hd. destruct (Hdisk Hd) as [-> Hw]. split; [done|]. split; [done|]. simpl. destruct U4. lia.
Qed.

(** ** Runs *)

Definition received (msgs : list KafkaMessage) : list InternalOrder :=
  omap (fun m => km_payload m ≫= bincode_decode) msgs.

Lemma counters_fit_step os n s acc s' :
  accounted os s acc s' -> zlen acc <= zlen os -> 0 <= n -> counters_fit (zlen os + n) s -> counters_fit n s'.
Proof.
  intros Hacc Hle Hn (U1 & U2 & U3 & U4 & B). destruct (acc_counts _ _ _ _ Hacc) as (C1 & C2 & C3 & C4).
  pose proof (zlen_nonneg os). pose proof (zlen_nonneg acc). unfold counters_fit, is_u64 in *. lia.
Qed.

Lemma loop_ok msgs base log s :
  kafka_inv base log s -> Forall order_fits (received msgs) -> counters_fit (zlen (received msgs)) s ->
  exists s' log' acc, processing_loop msgs s = Ok tt s' /\ kafka_inv base log' s' /\ accounted (received msgs) s acc s' /\
    (disk_works s -> (pending_wal_flush s = 0 -> wal_synced base log (kafka_wal s)) ->
     log' = log ++ map entry_of (received msgs) /\ (pending_wal_flush s' = 0 -> wal_synced base log' (kafka_wal s'))).
Proof.
  revert log s. induction msgs as [|[payload clock latency] msgs IH]; intros log s Hinv Hfits Hcount.
  - exists s, log, []. split; [done|]. split; [done|]. split; [apply accounted_nil; by destruct Hcount as (_ & _ & _ & [? _] & _)|].
    intros _ Hsync. by rewrite app_nil_r.
  - unfold received in *. cbn [omap list_omap] in *. cbn [km_payload] in *. unfold processing_loop in *. cbn [iter].
    destruct payload as [bytes|]; [|by apply IH]. simpl in Hfits, Hcount |- *.
    destruct (bincode_decode bytes) as [o|] eqn:Hdec; [|unfold bind, on_message; cbn [km_payload]; rewrite Hdec; by apply IH].
    apply Forall_cons in Hfits as [Ho Hfits]. set (rest := omap _ msgs) in *.
    assert (zlen (o :: rest) = zlen [o] + zlen rest) as Hlen by by rewrite <- zlen_app.
    rewrite Hlen in Hcount. pose proof (zlen_nonneg rest) as Hrest.
    destruct (on_order base log o bytes clock latency s Hdec Ho Hinv) as (s1 & log1 & ok & Hrun & Hinv1 & Hacc1 & _ & Hdisk1).
    { destruct Hcount as (? & ? & ? & ? & B). change (zlen [o]) with 1 in B. unfold counters_fit. split_and!; try done; lia. }
    destruct (IH log1 s1 Hinv1 Hfits) as (s' & log' & acc & Hrest' & Hinv' & Hacc & Hdisk).
    { apply (counters_fit_step [o] _ s _ s1 Hacc1); [by destruct ok|done|done]. }
    exists s', log', ((if ok then [o] else []) ++ acc). unfold bind. rewrite Hrun. split; [done|]. split; [done|].
    split; [exact (accounted_app [o] _ _ _ _ _ _ Hacc1 Hacc)|]. intros Hd _. destruct (Hdisk1 Hd) as (-> & Hd1 & Hsync1).
    destruct (Hdisk Hd1 Hsync1) as [-> Hsync]. by rewrite <- app_assoc in *.
Qed.

(** C36: what leaves the process is funded, and leaves it once.  From any
    consistent state and for any messages, whatever becomes of the log and of
    the records: no message stops the process; the records that are delivered
    are, in order, those of orders it accepted, of all of them while the broker
    answers; the funds that were locked are exactly the costs of the accepted
    orders, so that those of an order that was not delivered stay locked; the
    counters add up; and no identifier is accepted twice while the guard's cache
    lasts. *)
Theorem forwarded_orders_are_funded msgs base log s :
  kafka_inv base log s -> Forall order_fits (received msgs) -> counters_fit (zlen (received msgs)) s ->
  exists s' acc, processing_loop msgs s = Ok tt s' /\ accounted (received msgs) s acc s'.
Proof.
  intros Hinv Hfits Hcount. destruct (loop_ok msgs base log s Hinv Hfits Hcount) as (s' & log' & acc & Hrun & _ & Hacc & _).
  by exists s', acc.
Qed.

(** The log of this process is of what was received.  On a new file of a
    disk that works, whenever no order waits for a flush, as after every accepted
    one, replaying what a power loss would leave gives every order that was
    received, the refused ones among them. *)
Theorem kafka_log_is_of_received msgs c f w f' :
  contents f = [] -> script f = [] -> wal_open default_config f = Ok w f' -> held_fits c ->
  Forall order_fits (received msgs) -> zlen (received msgs) <= u64_max ->
  exists s', processing_loop msgs (set_kafka_core c (kafka_new w)) = Ok tt s' /\
    (received msgs <> [] -> pending_wal_flush s' = 0 ->
     forall chunks, Forall (fun ch => ch <> []) chunks -> concat chunks = durable (file (kafka_wal s')) ->
       exists st r, replay collect (replay_open (map inr chunks), []) = Ok (Some st) (r, map entry_of (received msgs))).
Proof.
  intros Hc Hs Hopen Hheld Hfits Hlen.
  assert (buffer_size default_config = 65536 /\ 4 <= pre_alloc_size default_config) as [Hbs Hpre] by done.
  revert Hopen Hbs Hpre. generalize default_config. intros cfg Hopen Hbs Hpre.
  destruct (open_file cfg f Hs ltac:(lia)) as (f1 & w1 & Hopen1 & Hc0 & Hs0 & Hw0 & Hb0 & Hcap0).
  rewrite Hopen in Hopen1. injection Hopen1 as <- <-. rewrite Hc in Hc0. unfold extend in Hc0. rewrite app_nil_l in Hc0.
  change (length []) with 0%nat in Hc0. rewrite Nat.sub_0_r in Hc0.
  rewrite (fresh_position _ _ Hc0) in Hw0 by (right; lia). pose proof (opened_inv w [] _ Hc0 Hs0 Hw0 Hb0) as Hinv0.
  set (s := set_kafka_core c (kafka_new w)).
  assert (kafka_inv [] [] s) as Hinv by (split; [done|done|simpl; congruence]).
  destruct (loop_ok msgs [] [] s Hinv Hfits) as (s' & log' & acc & Hrun & Hinv' & _ & Hdisk).
  { pose proof (zlen_nonneg (received msgs)). unfold counters_fit, is_u64. simpl. lia. }
  exists s'. split; [done|]. intros Hne Hpend chunks Hch Hcat. destruct (Hdisk Hs0) as [-> Hsync]; [by left|].
  rewrite app_nil_l in Hsync. destruct (Hsync Hpend) as [Hnil|(k & Hd)]; [by destruct (received msgs)|]. simpl in Hd.
  rewrite Hd in Hcat.
  assert (Forall entry_fits (map entry_of (received msgs))) as Hentries.
  { apply Forall_map. eapply Forall_impl; [exact Hfits|]. intros o Ho. by apply order_entry_fits. }
  do 2 eexists. rewrite (replay_log _ k [] chunks Hentries Hch); [|by rewrite app_nil_r|by left]. reflexivity.
Qed.
End kafka.

(** ** Concrete runs *)

Module Concrete.
Import UbsWalProofs.Concrete UbsCoreProofs.Concrete UbsCommProofs.Concrete.
#[local] Existing Instances sum_crc sum_crc_laws plain_fs2 plain_fs2_laws id_codec profile.

(** A payload of one byte [b] is the order of [UbsCoreProofs] with quantity [b]. *)
#[local] Instance byte_decoder : OrderDecoder := fun payload =>
  match payload with [b] => Some (mkInternal (io_order_id demo_order + b) 1 7 UbsBuy 10 b UbsLimit) | _ => None end.

Definition message (payload : option (list Z)) : KafkaMessage := mkKafkaMessage payload 5000 40.

(** An accepted order whose record is lost, its repetition, messages that say
    nothing, and one more accepted order. *)
Definition messages : list KafkaMessage :=
  map message [Some [20]; Some [20]; None; Some [1; 2]; Some [30]].

Definition service (w : GroupCommitWal) : KafkaService :=
  set_topic [] [SendFailed false] (set_kafka_core demo (kafka_new w)).

Lemma messages_fit : Forall order_fits (received messages).
Proof. repeat (apply Forall_cons; split; [eexists; split; [reflexivity|by vm_compute]|]). by apply Forall_nil. Defined.

Lemma new_wal_inv : wal_inv [] [] (demo_wal []).
Proof. split; [|by apply Forall_nil]. exists [], []. split; [done|]. exists [], 0%nat. split_and!; first [done|by left]. Defined.

Lemma service_inv : kafka_inv [] [] (service (demo_wal [])).
Proof. split; [exact (demo_held None)|exact new_wal_inv|reflexivity]. Defined.

Lemma forwarded_orders_are_funded_witness :
  let s := service (demo_wal []) in
  exists s' acc, processing_loop messages s = Ok tt s' /\ accounted (received messages) s acc s' /\
    topic s' = [record_of_order (mkInternal 5242880030 1 7 UbsBuy 10 30 UbsLimit)] /\
    frozen (kafka_bal s' 1 2) = 2000 + 200 + 300.
Proof.
  intros s.
  destruct (forwarded_orders_are_funded messages [] [] s service_inv messages_fit) as (s' & acc & Hrun & Hacc);
    [by vm_compute|].
  exists s', acc. split; [exact Hrun|]. split; [exact Hacc|].
  destruct (processing_loop messages s) as [[] s1|e s1|] eqn:Hr; [|done..]. injection Hrun as ->.
  vm_compute in Hr. injection Hr as <-. split; vm_compute; reflexivity.
Defined.

Lemma kafka_log_is_of_received_witness :
  exists w f', wal_open default_config (mkFile [] [] []) = Ok w f' /\
    exists s', processing_loop messages (set_kafka_core demo (kafka_new w)) = Ok tt s' /\
      (received messages <> [] -> pending_wal_flush s' = 0 ->
       forall chunks, Forall (fun ch => ch <> []) chunks -> concat chunks = durable (file (kafka_wal s')) ->
         exists st r, replay collect (replay_open (map inr chunks), []) = Ok (Some st) (r, map entry_of (received messages))).
Proof.
  destruct (open_file default_config (mkFile [] [] []) eq_refl eq_refl) as (f' & w & Hopen & _).
  exists w, f'. split; [exact Hopen|].
  apply (kafka_log_is_of_received messages demo (mkFile [] [] []) w f' eq_refl eq_refl Hopen (demo_held None) messages_fit).
  by vm_compute.
Defined.
End Concrete.
