(* ===== verification/TransferService.v ===== *)
(** * The transfer worker's endless loop, and the transfer service

    [transfer/worker.rs] around [process_transfer]: the queue is drained, then
    the database is scanned for transfers that nobody works on, then the worker
    sleeps.  [bin/internal_transfer_service.rs] is the HTTP front of the same
    worker. *)

From stdpp Require Import gmap strings pretty.
From S2P Require Import Prelude Transfer TransferProofs TransferRuns Gateway.

#[local] Open Scope string_scope.
#[local] Open Scope list_scope.
#[local] Open Scope Z_scope.
#[local] Open Scope rust_scope.

(** ** The worker over all transfers

    Every transfer with what its two services did; [scans] says for the queries
    to come whether they are answered, and they are when it runs out.  How the
    services answer about a transfer, definitely, is [sv]; [now] is the time of
    the scan. *)

Record Fleet := mkFleet { worlds : gmap Z World; queue : TransferQueue; scans : list bool }.

Definition set_world (id : Z) (w : World) (f : Fleet) : Fleet := mkFleet (<[id := w]> (worlds f)) (queue f) (scans f).
Definition set_queue (q : TransferQueue) (f : Fleet) : Fleet := mkFleet (worlds f) q (scans f).
Definition set_scans (l : list bool) (f : Fleet) : Fleet := mkFleet (worlds f) (queue f) l.

(** The fuel is used up: the worker is still in a loop. *)
Inductive Running := StillRunning.

(** The condition of [FIND_STALE_CQL]. *)
Definition is_stale (cutoff : Z) (r : TransferRecord) : bool :=
  TransferState.needs_processing (t_state r) && (updated_at r <? cutoff).

Section worker.
Context {bp : BuildProfile} (sv : Z -> Services) (now : Z) (cfg : WorkerConfig).

(** [process_transfer] of one identifier, which reports nothing: a transfer that
    is not found ends it. *)
Definition process_on (fuel : nat) (id : Z) : M Fleet Running unit :=
  let* f := get in
  match worlds f !! id with
  | None => ret tt
  | Some w =>
      match run (sv id) id (process_transfer fuel id) w with
      | Some (Some (Some _), w') => modify (set_world id w')
      | Some (Some None, w') => modify (set_world id w') ;;; throw StillRunning
      | Some (None, w') => modify (set_world id w')
      | None => panic
      end
  end.

(** [while let Some(req_id) = self.queue.try_pop()] *)
Fixpoint drain_queue (items fuel : nat) : M Fleet Running unit :=
  match items with
  | O => throw StillRunning
  | S items' =>
      let* f := get in
      match try_pop (queue f) with
      | (None, _) => ret tt
      | (Some id, q) => modify (set_queue q) ;;; process_on fuel id ;;; drain_queue items' fuel
      end
  end.

(** The rows in the order of the map; corrupt rows are skipped. *)
Definition stale_rows (cutoff : Z) (ws : gmap Z World) : list TransferRecord :=
  omap (fun r => parse_row (create_row r))
    (filter (fun r => is_stale cutoff r) (omap (fun x => row x.2) (map_to_list ws))).

Definition find_stale : M Fleet Running (string + list TransferRecord) :=
  let* cutoff := unwrap (i64_op (now - stale_after_ms cfg)) in
  let* f := get in
  match scans f with
  | false :: rest => modify (set_scans rest) ;;; ret (inl "Failed to query stale transfers")
  | answers => modify (set_scans (tail answers)) ;;; ret (inr (stale_rows cutoff (worlds f)))
  end.

(** An alert is only logged, so is an error; the pause is computed. *)
Definition scan_stale_transfers (fuel : nat) : M Fleet Running unit :=
  let* found := find_stale in
  match found with
  | inl _ => ret tt
  | inr stale =>
      iter (fun record =>
        process_on fuel (req_id record) ;;;
        let* _ := unwrap (backoff_ms (retry_count record)) in
        ret tt) stale
  end.

Definition run_one_cycle (items fuel : nat) : M Fleet Running unit :=
  drain_queue items fuel ;;; scan_stale_transfers fuel.

(** The first [cycles] turns of [run]. *)
Fixpoint run_cycles (cycles items fuel : nat) : M Fleet Running unit :=
  match cycles with
  | O => ret tt
  | S cycles' => run_one_cycle items fuel ;;; run_cycles cycles' items fuel
  end.
End worker.

(** ** The service ([bin/internal_transfer_service.rs]) *)

Record TransferReq := mkTransferReq {
  q_from : string; q_to : string; q_user_id : Z; q_asset_id : Z; q_amount : Z
}.

(** [POST /api/v1/transfer]; as in the gateway [new_id] is what the coordinator
    generates, and [None] says that the fuel of [process_now] is used up. *)
Definition handle_transfer (fuel : nat) (cfg : WorkerConfig) (new_id : Z) (payload : TransferReq)
    (queue : TransferQueue) : prog (option (InternalTransferResponse * TransferQueue)) :=
  let refuse e := Ret (Some (refuse_transfer e, queue)) in
  if q_amount payload =? 0 then refuse "Amount must be greater than 0"
  else if String.eqb (q_from payload) (q_to payload) then refuse "Source and target cannot be the same"
  else
    match service_from_str (q_from payload) with
    | None => refuse ("Invalid source: " +:+ q_from payload)
    | Some from =>
        match service_from_str (q_to payload) with
        | None => refuse ("Invalid target: " +:+ q_to payload)
        | Some to =>
            let req := mkRequest from to (q_user_id payload) (q_asset_id payload) (q_amount payload) in
            pmatch (create req new_id)
              (fun req_id =>
                 pbind (process_now fuel cfg req_id) (fun result =>
                 Ret (match result with
                      | None => None
                      | Some TransferState.Committed => Some (mkInternalResponse (pretty req_id) "committed" None None, queue)
                      | Some TransferState.RolledBack =>
                          Some (mkInternalResponse (pretty req_id) "rolled_back" (Some "Transfer cancelled") None, queue)
                      | Some TransferState.Failed =>
                          Some (mkInternalResponse (pretty req_id) "failed" (Some "Transfer failed") None, queue)
                      | Some _ =>
                          Some (mkInternalResponse (pretty req_id) "pending" (Some "Processing in background") None,
                                (try_push req_id queue).2)
                      end)))
              (fun e => refuse e)
        end
    end.

(** The JSON of a transfer, or of an error. *)
Inductive TransferJson :=
  | TransferFields (id state source target : string) (user asset amount created updated : Z) (error : option string)
      (retries : Z)
  | TransferError (e : string).

Definition transfer_json (r : TransferRecord) : TransferJson :=
  TransferFields (pretty (req_id r)) (TransferState.as_ref (t_state r)) (service_as_ref (source r))
    (service_as_ref (target r)) (t_user_id r) (t_asset_id r) (t_amount r) (created_at r) (updated_at r) (t_error r)
    (retry_count r).

(** [GET /api/v1/transfer/:req_id] *)
Definition get_transfer (id : string) : prog TransferJson :=
  match request_id_from_str id with
  | None => Ret (TransferError "Invalid req_id format")
  | Some request_id =>
      Do (DbGet request_id) (fun found =>
        Ret (match found with
             | inr (Some record) => transfer_json record
             | inr None => TransferError "Transfer not found"
             | inl e => TransferError e
             end))
  end.
