(* ===== verification/TransferServiceProofs.v ===== *)
(** * What the transfer worker's loop guarantees

    One turn of the loop is done with everything that is queued and everything
    the scan finds: moved in full, not moved at all, or, when the services leave
    it no way out, stranded.  The front of the service answers as the gateway
    does. *)

From stdpp Require Import gmap strings pretty.
From S2P Require Import Prelude Transfer TransferProofs TransferRuns Gateway TransferService.

#[local] Open Scope string_scope.
#[local] Open Scope list_scope.
#[local] Open Scope Z_scope.
#[local] Open Scope rust_scope.

(** ** Turns of [process_transfer] *)

Lemma process_transfer_more sv id n m w w' :
  run sv id (process_transfer n id) w = Some (Some (Some tt), w') -> (n <= m)%nat ->
  run sv id (process_transfer m id) w = Some (Some (Some tt), w').
Proof.
  revert m w. induction n as [|n IH]; intros m w Hrun Hle; [done|]. destruct m as [|m]; [lia|].
  cbn [process_transfer] in *. rewrite run_pcatch in *.
  destruct (run sv id (step id) w) as [[[s|] w1]|]; [|done|done].
  destruct (TransferState.is_terminal s); [done|]. apply IH; [done|lia].
Qed.

(** The amount has been moved in full, or not at all. *)
Definition settled (w : World) : Prop :=
  exists r, row w = Some r /\
    match t_state r with
    | TransferState.Committed =>
        credited w = Credited (credit_of r) /\ (debited w = Held (debit_of r) \/ debited w = Finalized (debit_of r))
    | TransferState.RolledBack => debited w = Restored (debit_of r) /\ credited w = CreditRefused
    | TransferState.Failed => debited w = Refused /\ credited w = NotCredited
    | _ => False
    end.

Lemma reachable_settled id w ps r :
  reachable id (w, ps) -> row w = Some r -> TransferState.is_terminal (t_state r) = true -> settled w.
Proof.
  intros [(r' & Hr' & _ & Hc) _]%reachable_ok Hr Ht. simpl in *. assert (r' = r) as -> by congruence.
  exists r. split; [done|]. unfold consistent in Hc. destruct (t_state r); try done; tauto.
Qed.

Lemma settled_terminal w : settled w -> exists r, row w = Some r /\ TransferState.is_terminal (t_state r) = true.
Proof. intros (r & Hr & Hs). exists r. split; [done|]. by destruct (t_state r). Qed.

Lemma process_transfer_settled sv id n w :
  settled w -> run sv id (process_transfer (S n) id) w = Some (Some (Some tt), w).
Proof.
  intros (r & Hr & Ht)%settled_terminal. cbn [process_transfer]. rewrite run_pcatch. unfold step. cbn. rewrite Z.eqb_refl, Hr. cbn.
  rewrite Ht. cbn. by rewrite Ht.
Qed.

(** The row keeps its terms and its counter. *)
Definition keeps (w w' : World) : Prop :=
  forall r', row w' = Some r' -> exists r, row w = Some r /\ terms r' = terms r /\ retry_count r' = retry_count r.

Lemma answer_keeps sv id {X} (o : op X) w x w' : answer sv id o w = Some (x, w') -> keeps w w'.
Proof.
  assert (Hsame : forall w1, row w1 = row w -> keeps w w1) by (intros w1 Hr r'; rewrite Hr; by exists r').
  assert (Hcas : forall old new err b w1, cas_answer sv old new err w = (b, w1) -> keeps w w1).
  { intros old new err b w1. unfold cas_answer. destruct (row w) as [r|] eqn:Hr; [case_decide|]; intros [= _ <-];
      [|by apply Hsame..]. intros r' [= <-]. by exists r. }
  destruct o as [r|i|i old new|i old new e|i|s i u a m|s i u a m|s i|s i|]; simpl; try (destruct (i =? id); [|done]);
    try (intros [= _ <-]; by apply Hsame); try done.
  - intros [= Hc]. by eapply Hcas.
  - intros [= Hc]. by eapply Hcas.
  - unfold withdraw_answer. destruct (debited w), (takes_debit sv); intros [= _ <-]; by apply Hsame.
  - unfold deposit_answer. destruct (credited w), (takes_credit sv); intros [= _ <-]; by apply Hsame.
  - unfold commit_answer. destruct (debited w); intros [= _ <-]; by apply Hsame.
  - unfold rollback_answer. destruct (debited w), (gives_back sv); intros [= _ <-]; by apply Hsame.
Qed.

Lemma run_keeps sv id {A} (p : prog A) w o w' : run sv id p w = Some (o, w') -> keeps w w'.
Proof.
  revert w. induction p as [a|e|X op k IH]; intros w; simpl; [intros [= _ <-] r' Hr; by exists r'..|].
  destruct (answer sv id op w) as [[x w1]|] eqn:Ha; [|done]. intros Hrun r' Hr'.
  destruct (IH x w1 Hrun r' Hr') as (r1 & Hr1 & Ht1 & Hc1). destruct (answer_keeps _ _ _ _ _ _ Ha r1 Hr1) as (r & Hr & Ht & Hc).
  exists r. split; [done|]. split; congruence.
Qed.

Lemma well_typed_terms r r' : terms r' = terms r -> retry_count r' = retry_count r -> well_typed r -> well_typed r'.
Proof. intros Ht Hc. injection Ht as Hid _ Hu Ha Hn _. unfold well_typed. by rewrite Hid, Hu, Ha, Hn, Hc. Qed.

(** ** One turn of the worker *)

Section worker.
Context {bp : BuildProfile} (sv : Z -> Services) (now : Z) (cfg : WorkerConfig).

(** A transfer that was left somewhere on its way. *)
Record tracked (id : Z) (w : World) : Prop := {
  tracked_reached : exists ps, reachable id (w, ps);
  tracked_row : forall r, row w = Some r -> well_typed r /\ retry_count r <= 60
}.

Definition fleet_ok (f : Fleet) : Prop := map_Forall tracked (worlds f).

(** What becomes of a transfer the worker takes up: it is settled for good; or
    its services leave it no way out, and it is stranded. *)
Definition handled (id : Z) (w w' : World) : Prop :=
  (settled w -> w' = w) /\ (settled w' \/ ~ can_finish (sv id) w /\ stranded id w').

Lemma handled_trans id w w1 w2 : handled id w w1 -> handled id w1 w2 -> handled id w w2.
Proof.
  intros [Hk1 H1] [Hk2 H2]. split.
  - intros Hs. rewrite (Hk1 Hs) in Hk2. auto.
  - destruct H1 as [Hs1|[Hno _]]; [rewrite (Hk2 Hs1); by left|]. destruct H2 as [Hs2|[_ Hs2]]; [by left|by right].
Qed.

Lemma process_handles fuel id w :
  tracked id w -> (3 <= fuel)%nat ->
  exists w', run (sv id) id (process_transfer fuel id) w = Some (Some (Some tt), w') /\ handled id w w' /\ tracked id w'.
Proof.
  intros [(ps & Hr) Hrow] Hfuel.
  destruct (process_transfer_terminates (sv id) id (w, ps) Hr) as (w' & Hrun3 & Hend). simpl in Hrun3, Hend.
  assert (Hrun : run (sv id) id (process_transfer fuel id) w = Some (Some (Some tt), w'))
    by by apply (process_transfer_more _ _ 3).
  destruct (process_transfer_reachable _ _ _ _ _ _ _ Hr Hrun) as (ps' & Hr').
  exists w'. split; [done|]. split; [split|split].
  - intros Hs. destruct fuel; [lia|]. rewrite (process_transfer_settled _ _ _ _ Hs) in Hrun. by injection Hrun.
  - destruct Hend as [(r & Hrow' & Ht)|Hend]; [left|by right]. by eapply reachable_settled.
  - by exists ps'.
  - intros r' Hr1. destruct (run_keeps _ _ _ _ _ _ Hrun r' Hr1) as (r & Hr0 & Ht & Hc).
    destruct (Hrow r Hr0) as [Hw Hle]. split; [by eapply well_typed_terms|by rewrite Hc].
Qed.

(** Between [f] and [f'] the transfers [ids] were handled, and others that were
    changed too. *)
Record swept (ids : list Z) (f f' : Fleet) : Prop := {
  swept_none : forall id, worlds f !! id = None -> worlds f' !! id = None;
  swept_world : forall id w, worlds f !! id = Some w ->
    exists w', worlds f' !! id = Some w' /\ (handled id w w' \/ w' = w /\ id ∉ ids);
  swept_ok : fleet_ok f'
}.

Lemma swept_refl f : fleet_ok f -> swept [] f f.
Proof. intros Hok. split; [done| |done]. intros id w Hw. exists w. split; [done|]. right. split; [done|apply not_elem_of_nil]. Qed.

Lemma swept_trans ids1 ids2 f f1 f2 : swept ids1 f f1 -> swept ids2 f1 f2 -> swept (ids1 ++ ids2) f f2.
Proof.
  intros [N1 W1 _] [N2 W2 K2]. split; [auto| |done]. intros id w Hw. destruct (W1 id w Hw) as (w1 & Hw1 & H1).
  destruct (W2 id w1 Hw1) as (w2 & Hw2 & H2). exists w2. split; [done|].
  destruct H1 as [H1|[-> Hni1]], H2 as [H2|[-> Hni2]]; [left; by eapply handled_trans|by left..|].
  right. split; [done|]. rewrite elem_of_app. tauto.
Qed.

Lemma process_on_sweeps fuel id f :
  fleet_ok f -> (3 <= fuel)%nat ->
  exists f', process_on sv fuel id f = Ok tt f' /\ swept [id] f f' /\ queue f' = queue f /\ scans f' = scans f.
Proof.
  intros Hok Hfuel. unfold process_on, bind, get. destruct (worlds f !! id) as [w|] eqn:Hw.
  - destruct (process_handles fuel id w (Hok id w Hw) Hfuel) as (w' & Hrun & Hh & Ht).
    rewrite Hrun. exists (set_world id w' f). split; [done|]. split; [|done]. split.
    + intros i Hi. simpl. rewrite lookup_insert_ne; [done|]. intros ->. congruence.
    + intros i wi Hi. simpl. destruct (decide (i = id)) as [->|Hne].
      * rewrite lookup_insert_eq. assert (wi = w) as -> by congruence. exists w'. split; [done|by left].
      * rewrite lookup_insert_ne by done. exists wi. split; [done|]. right. split; [done|]. by rewrite list_elem_of_singleton.
    + by apply map_Forall_insert_2.
  - exists f. split; [done|]. split; [|done]. split; [done| |done]. intros i wi Hi. exists wi. split; [done|].
    right. split; [done|]. rewrite list_elem_of_singleton. congruence.
Qed.

Lemma drain_sweeps items fuel f :
  fleet_ok f -> (3 <= fuel)%nat -> (length (ring (queue f)) < items)%nat ->
  exists f', drain_queue sv items fuel f = Ok tt f' /\ swept (ring (queue f)) f f' /\ ring (queue f') = [] /\ scans f' = scans f.
Proof.
  revert f. induction items as [|items IH]; intros f Hok Hfuel Hlen; [lia|]. cbn [drain_queue]. unfold bind at 1, get, try_pop.
  destruct (ring (queue f)) as [|id rest] eqn:Hring.
  - exists f. split; [done|]. split; [by apply swept_refl|done].
  - unfold bind at 1, modify. set (f0 := set_queue _ f). assert (fleet_ok f0) as Hok0 by done.
    destruct (process_on_sweeps fuel id f0 Hok0 Hfuel) as (f1 & Hrun & Hs1 & Hq1 & Hsc1). unfold bind. rewrite Hrun.
    destruct (IH f1) as (f2 & Hrun2 & Hs2 & Hq2 & Hsc2); [apply Hs1|done|rewrite Hq1; simpl in *; lia|].
    exists f2. split; [done|]. split; [|split; [done|by rewrite Hsc2, Hsc1]]. rewrite Hq1 in Hs2.
    apply (swept_trans [id] rest f f1 f2); [|done]. destruct Hs1 as [N W K]. by split.
Qed.

Lemma iter_sweeps fuel stale f :
  fleet_ok f -> (3 <= fuel)%nat -> Forall (fun r => 0 <= retry_count r <= 60) stale ->
  exists f', iter (fun record => process_on sv fuel (req_id record) ;;;
      let* _ := unwrap (backoff_ms (retry_count record)) in ret tt) stale f = Ok tt f' /\
    swept (map req_id stale) f f' /\ queue f' = queue f /\ scans f' = scans f.
Proof.
  intros Hok Hfuel Hretry. revert f Hok. induction Hretry as [|r stale Hr _ IH]; intros f Hok.
  - exists f. split; [done|]. split; [by apply swept_refl|done].
  - destruct (process_on_sweeps fuel (req_id r) f Hok Hfuel) as (f1 & Hrun & Hs1 & Hq1 & Hsc1).
    destruct (IH f1) as (f2 & Hrun2 & Hs2 & Hq2 & Hsc2); [apply Hs1|]. exists f2. cbn [iter]. unfold bind in Hrun2 |- *.
    rewrite Hrun, backoff_small by done. cbn [unwrap ret]. split; [exact Hrun2|]. split; [|split; congruence].
    by apply (swept_trans [req_id r] _ f f1 f2).
Qed.

Lemma stale_rows_ok cutoff f :
  fleet_ok f -> Forall (fun r => 0 <= retry_count r <= 60) (stale_rows cutoff (worlds f)).
Proof.
  intros Hok. apply Forall_forall. intros r' (r & Hr & Hp)%list_elem_of_omap.
  apply list_elem_of_filter in Hr as [Hst (x & Hx & Hrow)%list_elem_of_omap]. destruct x as [id w].
  apply elem_of_map_to_list in Hx. simpl in Hrow. destruct (Hok id w Hx) as [_ Hwt].
  destruct (Hwt r Hrow) as [Hty Hle]. rewrite transfer_row_roundtrip in Hp by done. injection Hp as <-.
  destruct Hty as (_ & _ & _ & _ & ? & _). lia.
Qed.

Lemma stale_found cutoff f id w r :
  fleet_ok f -> worlds f !! id = Some w -> row w = Some r -> is_stale cutoff r = true ->
  id ∈ map req_id (stale_rows cutoff (worlds f)).
Proof.
  intros Hok Hw Hr Hst. destruct (Hok id w Hw) as [(ps & Hreach) Hwt].
  destruct (reachable_ok id _ Hreach) as [(r0 & Hr0 & <- & _) _]. simpl in Hr0. assert (r0 = r) as -> by congruence.
  apply list_elem_of_fmap. exists r. split; [done|]. apply list_elem_of_omap. exists r.
  split; [|by apply transfer_row_roundtrip, Hwt]. apply list_elem_of_filter. split; [by apply Is_true_true|].
  apply list_elem_of_omap. exists (req_id r, w). split; [|done]. by apply elem_of_map_to_list.
Qed.

(** C38: one turn of the worker's loop catches up.  However the transfers were
    left - by crashes, lost answers or any number of workers - while the
    database answers and the services, which keep their contract, answer
    definitely about each transfer, the turn returns with the queue empty.
    Every transfer that was queued or that had not been touched for the given
    time is settled - its amount moved in full, or not at all - and then no
    turn changes it; or its target refuses the money, or has refused it already,
    while its source does not give it back or is the trading account, which is
    not rolled back, and it is stranded.  The others are settled or stranded in
    the same way, or as they were.  (No
    transfer may show more than 60 retries, where the pause overflows; the
    deployed database refuses the update of that counter, which stays 0.) *)
Theorem worker_cycle_catches_up items fuel f :
  fleet_ok f -> scans f = [] -> (length (ring (queue f)) < items)%nat -> (3 <= fuel)%nat ->
  i64_op (now - stale_after_ms cfg) = Some (now - stale_after_ms cfg) ->
  exists f', run_one_cycle sv now cfg items fuel f = Ok tt f' /\ ring (queue f') = [] /\
    forall id w, worlds f !! id = Some w ->
      exists w', worlds f' !! id = Some w' /\ (settled w -> w' = w) /\
        (settled w' \/ ~ can_finish (sv id) w /\ stranded id w' \/
         w' = w /\ id ∉ ring (queue f) /\ forall r, row w = Some r -> is_stale (now - stale_after_ms cfg) r = false).
Proof.
  intros Hok Hscans Hitems Hfuel Hcut. set (cutoff := now - stale_after_ms cfg) in *.
  destruct (drain_sweeps items fuel f Hok Hfuel Hitems) as (f1 & Hdrain & Hs1 & Hq1 & Hsc1).
  unfold run_one_cycle, bind at 1. rewrite Hdrain. unfold scan_stale_transfers, find_stale. fold cutoff. rewrite Hcut.
  unfold bind, unwrap, ret, get, modify. rewrite Hsc1, Hscans. set (f2 := set_scans _ f1).
  assert (fleet_ok f2) as Hok2 by apply Hs1.
  destruct (iter_sweeps fuel (stale_rows cutoff (worlds f1)) f2 Hok2 Hfuel) as (f3 & Hrun & Hs3 & Hq3 & _).
  { by apply (stale_rows_ok cutoff f2). }
  exists f3. split; [exact Hrun|]. split; [by rewrite Hq3|]. intros id w Hw.
  destruct (swept_world _ _ _ Hs1 id w Hw) as (w1 & Hw1 & Hd1). destruct (swept_world _ _ _ Hs3 id w1 Hw1) as (w3 & Hw3 & Hd3).
  exists w3. split; [done|].
  assert (Hd : handled id w w3 \/ w3 = w /\ id ∉ ring (queue f) /\ id ∉ map req_id (stale_rows cutoff (worlds f1)) /\ w1 = w).
  { destruct Hd1 as [H1|[-> Hni1]], Hd3 as [H3|[-> Hni3]]; [left; by eapply handled_trans|by left|by left|by right]. }
  destruct Hd as [[Hkeep [Hset|Hstr]]|(-> & Hni1 & Hni3 & ->)]; [by auto|by auto|]. split; [done|].
  right. right. split; [done|]. split; [done|]. intros r Hr. apply not_true_iff_false. intros Hst. apply Hni3.
  by apply (stale_found cutoff f2 id w r).
Qed.
End worker.

(** ** The front of the service *)

Lemma service_names s : service_from_str (service_as_ref s) = Some s.
Proof. by destruct s. Qed.

(** With the names of the two services the handler is that of the gateway;
    anything else is refused before a transfer is created. *)
Lemma handle_transfer_as_gateway fuel cfg new_id (q : TransferRequest) queue :
  handle_transfer fuel cfg new_id
    (mkTransferReq (service_as_ref (tr_from q)) (service_as_ref (tr_to q)) (tr_user_id q) (tr_asset_id q) (tr_amount q)) queue =
  handle_internal_transfer fuel cfg new_id q queue.
Proof.
  destruct q as [from to user asset amount]. unfold handle_transfer, handle_internal_transfer.
  cbn [q_from q_to q_amount q_user_id q_asset_id tr_from tr_to tr_amount tr_user_id tr_asset_id]. rewrite !service_names.
  destruct (amount =? 0); [done|]. by destruct from, to.
Qed.

Lemma handle_transfer_unknown fuel cfg new_id (q : TransferReq) queue :
  service_from_str (q_from q) = None \/ service_from_str (q_to q) = None ->
  exists e, handle_transfer fuel cfg new_id q queue = Ret (Some (refuse_transfer e, queue)).
Proof.
  intros Hn. unfold handle_transfer. destruct (q_amount q =? 0); [by eexists|]. destruct (String.eqb _ _); [by eexists|].
  destruct (service_from_str (q_from q)); [|by eexists]. destruct Hn as [|Hn]; [done|]. rewrite Hn. by eexists.
Qed.

(** ** Three transfers *)

Module Concrete.
#[local] Instance profile : BuildProfile := debug_profile.

(** Transfer [id] was created at [t] and has not been touched. *)
Definition fresh (id t : Z) : World :=
  mkWorld (Some (mkTransfer id Funding Trading 1001 1 500 TransferState.Init t t None 0)) Untouched NotCredited.

(** Money from the trading account, which the funding account refuses. *)
Definition refused (id t : Z) : World :=
  mkWorld (Some (mkTransfer id Trading Funding 1001 1 500 TransferState.Init t t None 0)) Untouched NotCredited.

(** The services refuse transfer 6, and to take it back. *)
Definition services (id : Z) : Services :=
  if id =? 6 then mkServices true false false 40000 else mkServices true true true 40000.

Lemma new_tracked id w :
  initial w -> (forall r, row w = Some r -> req_id r = id /\ well_typed r /\ retry_count r <= 60) -> tracked id w.
Proof.
  intros Hi Hr. split; [|intros r Hrow; by destruct (Hr r Hrow)].
  exists [], w. split; [exact Hi|]. split; [intros r Hrow; by destruct (Hr r Hrow)|apply rtc_refl].
Qed.

(** 6 and 7 are stale, 8 is queued, 9 is in the hands of another worker. *)
Definition fleet : Fleet :=
  mkFleet {[6 := refused 6 0; 7 := fresh 7 0; 8 := fresh 8 39990; 9 := fresh 9 39990]} (mkTransferQueue [8] 10000) [].

Lemma fleet_is_ok : fleet_ok fleet.
Proof.
  repeat apply map_Forall_insert_2; [..|apply map_Forall_empty];
    (apply new_tracked; [by split_and!; [..|eexists]|]);
    intros r [= <-]; (split; [reflexivity|]); unfold well_typed; simpl; split_and!; ulia.
Qed.

Lemma worker_cycle_catches_up_witness :
  exists f', run_one_cycle services 40000 default_worker_config 2 3 fleet = Ok tt f' /\ ring (queue f') = [] /\
    (exists w, worlds f' !! 7 = Some w /\ settled w) /\ worlds f' !! 9 = Some (fresh 9 39990) /\
    (exists w, worlds f' !! 6 = Some w /\ stranded 6 w).
Proof.
  destruct (worker_cycle_catches_up services 40000 default_worker_config 2 3 fleet fleet_is_ok eq_refl)
    as (f' & Hrun & Hq & Hw); [simpl; lia|lia|by vm_compute|].
  exists f'. split; [exact Hrun|]. split; [exact Hq|]. split; [|split].
  - destruct (Hw 7 (fresh 7 0)) as (w' & Hw' & _ & Hd); [by vm_compute|]. exists w'. split; [exact Hw'|].
    destruct Hd as [Hd|[[Hno _]|(_ & _ & Hstale)]]; [exact Hd|destruct Hno; left; split; [reflexivity|discriminate]|].
    specialize (Hstale _ eq_refl). vm_compute in Hstale. discriminate Hstale.
  - destruct (run_one_cycle services 40000 default_worker_config 2 3 fleet) as [[] f1|e f1|] eqn:Hr; vm_compute in Hr; try discriminate Hr.
    injection Hr as <-. injection Hrun as <-. by vm_compute.
  - destruct (Hw 6 (refused 6 0)) as (w' & Hw' & _ & Hd); [by vm_compute|]. exists w'. split; [exact Hw'|].
    destruct (run_one_cycle services 40000 default_worker_config 2 3 fleet) as [[] f1|e f1|] eqn:Hr; vm_compute in Hr; try discriminate Hr.
    injection Hr as <-. injection Hrun as <-. vm_compute in Hw'. injection Hw' as <-. eexists. split; [reflexivity|].
    split; [reflexivity|]. split; [left; reflexivity|]. split; reflexivity.
Defined.
End Concrete.
