(* ===== verification/SettlementEvents.v ===== *)
(** * Statements of the settlement database for tools and tests
    ([db/settlement_db.rs])

    The inserts of several trades, the table of ledger events, the legacy table
    of balances, and the queries of [bin/verify_settlement.rs].  No service
    calls the inserts. *)

From stdpp Require Import gmap strings sorting.
From S2P Require Import Prelude EngineOutput Ledger SettlementDb SettlementReads.

#[local] Open Scope string_scope.
#[local] Open Scope list_scope.
#[local] Open Scope Z_scope.
#[local] Open Scope rust_scope.

(** ** Several trades *)

(** A struct that derives [SerializeRow] is bound by name: the driver refuses it,
    before anything is sent, unless its fields are the markers. *)
Definition binds (fields markers : list string) : bool :=
  forallb (fun f => bool_decide (f ∈ markers)) fields && forallb (fun m => bool_decide (m ∈ fields)) markers.

Definition execute_row (context : string) (fields markers : list string) (rows : list (SettlementDb -> SettlementDb))
  : Db unit :=
  if binds fields markers then execute context rows else throw context.

(** [insert_batch] binds the struct, where [insert_trade] binds a tuple. *)
Definition insert_batch (trades : list MatchExecData) (trade_date now : Z) : Db unit :=
  iter (fun t =>
    retry_with_backoff (execute_row "" SETTLED_TRADE_FIELDS INSERT_TRADE_COLUMNS [settled_row trade_date now t])) trades.

(** The row of a trade of an output. *)
Definition insert_output_trade (trade_date output_seq now : Z) (t : TradeOutput) (d : SettlementDb) : SettlementDb :=
  set_settled (<[as_i64 (to_trade_id t) :=
    mkSettled trade_date (as_i64 output_seq) (as_i64 (to_match_seq t)) (as_i64 (to_buy_order_id t))
      (as_i64 (to_sell_order_id t)) (as_i64 (to_buyer_user_id t)) (as_i64 (to_seller_user_id t)) (as_i64 (to_price t))
      (as_i64 (to_quantity t)) (as_i32 (to_base_asset_id t)) (as_i32 (to_quote_asset_id t)) (as_i64 (to_buyer_refund t))
      (as_i64 (to_seller_refund t)) (if 0 <? to_settled_at t then as_i64 (to_settled_at t) else now)]>
    (settled_trades d)) d.

Definition insert_trades_batch (trades : list TradeOutput) (output_seq trade_date now : Z) : Db unit :=
  match trades with
  | [] => ret tt
  | _ => execute "Failed to batch insert trades" (map (insert_output_trade trade_date output_seq now) trades)
  end.

(** The materialised view has the rows of the table; they come by the token of
    the partition, here in the order of the map. *)
Definition get_trades_by_sequence_range (start finish : Z) : Db (list MatchExecData) :=
  let* d := select "Failed to query trades by sequence range" in
  parse_rows parse_trade_row "Failed to parse row into SettledTradeRow"
    (trades_where (fun r => (as_i64 start <=? st_output_sequence r) && (st_output_sequence r <=? as_i64 finish)) d).

Definition health_check : Db bool :=
  select "Health check failed" ;;; ret true.

(** ** Ledger events *)

Record LedgerEvent := mkLedgerEvent {
  le_user_id : Z; le_sequence_id : Z; le_event_type : string; le_amount : Z; le_currency : Z; le_related_id : Z;
  le_created_at : Z
}.

Record LedgerEventRow := mkEventRow {
  er_event_type : string; er_amount : Z; er_currency : Z; er_related_id : Z; er_created_at : Z
}.

(** The two tables beside those of [SettlementDb]; the answers are shared. *)
Record Tables := mkTables {
  main : SettlementDb;
  ledger_events : gmap (Z * Z) LedgerEventRow;
  user_balances : gmap (Z * Z) (Z * Z * Z * Z);
  views : list string
}.

Definition set_main (d : SettlementDb) (t : Tables) : Tables := mkTables d (ledger_events t) (user_balances t) (views t).
Definition set_events (e : gmap (Z * Z) LedgerEventRow) (t : Tables) : Tables := mkTables (main t) e (user_balances t) (views t).

Definition on_main {A} (m : Db A) : M Tables string A := zoom (fun t => Some (main t)) set_main m.

Definition event_row_of (e : LedgerEvent) : LedgerEventRow :=
  mkEventRow (le_event_type e) (as_i64 (le_amount e)) (as_i32 (le_currency e)) (as_i64 (le_related_id e)) (le_created_at e).

Definition write_event (e : LedgerEvent) (t : Tables) : Tables :=
  set_events (<[(as_i64 (le_user_id e), as_i64 (le_sequence_id e)) := event_row_of e]> (ledger_events t)) t.

(** One row: a request that is lost may have written it. *)
Definition execute_event (e : LedgerEvent) : M Tables string unit := fun t =>
  match answers (main t) with
  | Lost mask :: rest =>
      let t := set_main (set_answers rest (main t)) t in
      Err "" (match mask with true :: _ => write_event e t | _ => t end)
  | Answered :: rest => Ok tt (write_event e (set_main (set_answers rest (main t)) t))
  | [] => Ok tt (write_event e t)
  end.

(** [retry_with_backoff] of it. *)
Fixpoint retry_event (remaining : nat) (e : LedgerEvent) : M Tables string unit := fun t =>
  match execute_event e t with
  | Err _ t' => match remaining with O => Err "Operation failed after 3 attempts" t' | S n => retry_event n e t' end
  | r => r
  end.

Definition insert_ledger_event (e : LedgerEvent) : M Tables string unit := retry_event MAX_RETRIES e.

Definition parse_event (x : Z * Z * LedgerEventRow) : LedgerEvent :=
  let '(user, seq, r) := x in
  mkLedgerEvent (as_u64 user) (as_u64 seq) (er_event_type r) (as_u64 (er_amount r)) (as_u32 (er_currency r))
    (as_u64 (er_related_id r)) (er_created_at r).

(** The rows of a partition come in the order of the signed sequence. *)
Definition event_before (x y : Z * Z * LedgerEventRow) : Prop := x.1.2 <= y.1.2.

#[export] Instance event_before_dec : RelDecision event_before.
Proof. intros x y. unfold event_before. apply _. Defined.

Definition get_ledger_events_by_user (user_id : Z) : M Tables string (list LedgerEvent) :=
  on_main (select "Failed to query ledger events by user") ;;;
  let* t := get in
  ret (map parse_event
         (merge_sort event_before (filter (fun x => x.1.1 = as_i64 user_id) (map_to_list (ledger_events t))))).

(** ** The legacy balances *)

Record UserBalance := mkUserBalance {
  ub_user_id : Z; ub_asset_id : Z; ub_avail : Z; ub_frozen : Z; ub_version : Z; ub_updated_at : Z
}.

(** The clustering column is the asset. *)
Definition asset_before (x y : Z * Z * (Z * Z * Z * Z)) : Prop := x.1.2 <= y.1.2.

#[export] Instance asset_before_dec : RelDecision asset_before.
Proof. intros x y. unfold asset_before. apply _. Defined.

Definition get_user_all_balances (user_id : Z) : M Tables string (list UserBalance) :=
  on_main (select "") ;;;
  let* t := get in
  ret (map (fun x =>
         let '(_, asset, (avail, frozen, seq, updated)) := x in
         mkUserBalance user_id (as_u32 asset) (as_u64 avail) (as_u64 frozen) (as_u64 seq) (as_u64 updated))
       (merge_sort asset_before (filter (fun x => x.1.1 = as_i64 user_id) (map_to_list (user_balances t))))).

Inductive MvStatus := MvHealthy | MvMissing.

Definition check_mv_health : M Tables string MvStatus :=
  on_main (select "") ;;;
  let* t := get in
  ret (if bool_decide ("user_balances_by_user" ∈ views t) then MvHealthy else MvMissing).
