(* ===== verification/Reconcile.v ===== *)
(** * Reconciliation ([reconciliation.rs], [bin/reconciliation_service.rs],
    [bin/verify_settlement.rs])

    The backup file of the settlement service is compared with the settled
    trades of the database, record by record. *)

From stdpp Require Import gmap strings.
From S2P Require Import Prelude EngineOutput Ledger SettlementDb SettlementReads SettlementEvents.

#[local] Open Scope string_scope.
#[local] Open Scope list_scope.
#[local] Open Scope Z_scope.
#[local] Open Scope rust_scope.

Record ReconciliationStats := mkStats { total : Z; missing : Z; mismatch : Z }.

Definition stats_default : ReconciliationStats := mkStats 0 0 0.

(** The fields that are compared. *)
Definition agrees (db_trade csv_trade : MatchExecData) : bool :=
  (price db_trade =? price csv_trade) && (quantity db_trade =? quantity csv_trade) &&
  (buyer_user_id db_trade =? buyer_user_id csv_trade).

Section reconcile.
Context {bp : BuildProfile}.

(** One record of the file; [None] is one that does not parse.  An error of the
    query is printed. *)
Definition reconcile_one (stats : ReconciliationStats) (record : option MatchExecData) : Db ReconciliationStats :=
  match record with
  | None => ret stats
  | Some csv_trade =>
      let* n := unwrap (op_add (total stats) 1) in
      let stats := mkStats n (missing stats) (mismatch stats) in
      let* found := attempt (get_trade_by_id (trade_id csv_trade)) in
      match found with
      | inr (Some db_trade) =>
          if agrees db_trade csv_trade then ret stats
          else let* m := unwrap (op_add (mismatch stats) 1) in ret (mkStats n (missing stats) m)
      | inr None => let* m := unwrap (op_add (missing stats) 1) in ret (mkStats n m (mismatch stats))
      | inl _ => ret stats
      end
  end.

Fixpoint reconcile_records (stats : ReconciliationStats) (records : list (option MatchExecData)) : Db ReconciliationStats :=
  match records with
  | [] => ret stats
  | r :: rest => let* stats := reconcile_one stats r in reconcile_records stats rest
  end.

(** [None]: the file cannot be opened.  [csv] splits its content into records,
    which have the fields of [MatchExecData] by position. *)
Definition reconcile_csv (file : option (list (option MatchExecData))) : Db ReconciliationStats :=
  match file with
  | None => throw "No such file or directory"
  | Some records => reconcile_records stats_default records
  end.

Inductive Verdict := SourceMissing | Passed | Inconsistent | ReconcileFailed (e : string).

(** One turn of the loop of the service, every five minutes. *)
Definition scheduled_reconciliation (file : option (list (option MatchExecData))) : Db Verdict :=
  match file with
  | None => ret SourceMissing
  | Some _ =>
      let* result := attempt (reconcile_csv file) in
      ret (match result with
           | inr stats => if (0 <? mismatch stats) || (0 <? missing stats) then Inconsistent else Passed
           | inl e => ReconcileFailed e
           end)
  end.

(** ** The tool *)

Inductive Commands :=
  | GetTrade (id : Z) | GetRange (start finish : Z) | Health | Reconcile (file : option (list (option MatchExecData))).

Inductive Report :=
  | TradeFound (t : MatchExecData) | TradeNotFound | TradesFound (l : list MatchExecData)
  | DatabaseHealth (healthy : bool) | Consistency (stats : ReconciliationStats) (consistent : bool) | ToolError (e : string).

Definition verify_settlement (command : Commands) : Db Report :=
  match command with
  | GetTrade id =>
      let* r := attempt (get_trade_by_id id) in
      ret (match r with inr (Some t) => TradeFound t | inr None => TradeNotFound | inl e => ToolError e end)
  | GetRange start finish =>
      let* r := attempt (get_trades_by_sequence_range start finish) in
      ret (match r with inr l => TradesFound l | inl e => ToolError e end)
  | Health =>
      let* r := attempt health_check in
      ret (match r with inr b => DatabaseHealth b | inl e => ToolError e end)
  | Reconcile file =>
      let* r := attempt (reconcile_csv file) in
      ret (match r with
           | inr stats => Consistency stats ((missing stats =? 0) && (mismatch stats =? 0))
           | inl e => ToolError e
           end)
  end.
End reconcile.
