(* ===== verification/ReconcileProofs.v ===== *)
(** * What a reconciliation tells, and what the tables of the tools keep *)

From stdpp Require Import gmap strings sorting.
From S2P Require Import Prelude Bytes EngineOutput Ledger SettlementDb SettlementReads SettlementEvents Reconcile.

#[local] Open Scope string_scope.
#[local] Open Scope list_scope.
#[local] Open Scope Z_scope.
#[local] Open Scope rust_scope.

(** ** One query *)

Definition is_lost (a : Answer) : bool := match a with Lost _ => true | Answered => false end.

(** Whether the next request is answered. *)
Definition next_lost (d : SettlementDb) : bool := match answers d with a :: _ => is_lost a | [] => false end.

(** A stored trade is never read: its version columns are null. *)
Lemma trade_query id d :
  exists r d', get_trade_by_id id d = r /\ settled_trades d' = settled_trades d /\ answers d' = tail (answers d) /\
    (answers d = [] -> d' = d) /\
    ((next_lost d = false /\ settled_trades d !! as_i64 id = None /\ r = Ok None d') \/
     ((next_lost d = true \/ is_Some (settled_trades d !! as_i64 id)) /\ exists e, r = Err e d')).
Proof.
  unfold get_trade_by_id, select, execute, bind, get, put, throw, next_lost. destruct d as [a1 a2 a3 a4 a5 settled ans]. simpl.
  assert (forall ans', exists r d', match settled !! as_i64 id with
              | None => ret None
              | Some r => let* t := ok_or (parse_trade_row (as_i64 id, r)) "Failed to parse row into SettledTradeRow" in ret (Some t)
              end (mkDb a1 a2 a3 a4 a5 settled ans') = r /\ d' = mkDb a1 a2 a3 a4 a5 settled ans' /\
            (settled !! as_i64 id = None /\ r = Ok None d' \/ is_Some (settled !! as_i64 id) /\ exists e, r = Err e d')) as Hrow.
  { intros ans'. destruct (settled !! as_i64 id) as [r|]; eexists _, _; (split; [reflexivity|]); (split; [reflexivity|]);
      [right; split; by eexists|by left]. }
  destruct ans as [|[|mask] rest]; simpl.
  - destruct (Hrow []) as (r & d' & Hr & -> & Hcase). exists r, (mkDb a1 a2 a3 a4 a5 settled []). split; [exact Hr|]. split; [done|].
    split; [done|]. split; [done|].
    destruct Hcase as [[? ->]|[? ?]]; [by left|right; split; [by right|done]].
  - destruct (Hrow rest) as (r & d' & Hr & -> & Hcase). exists r, (mkDb a1 a2 a3 a4 a5 settled rest). split; [exact Hr|]. split; [done|].
    split; [done|]. split; [done|].
    destruct Hcase as [[? ->]|[? ?]]; [by left|right; split; [by right|done]].
  - replace (masked mask []) with (@nil (SettlementDb -> SettlementDb)) by by destruct mask.
    eexists _, (mkDb a1 a2 a3 a4 a5 settled rest). split; [reflexivity|]. split; [done|]. split; [done|]. split; [done|].
    right. split; [by left|by eexists].
Qed.

(** ** A file of records *)

Lemma zlen_cons {A} (x : A) l : zlen (x :: l) = 1 + zlen l.
Proof. unfold zlen. simpl. lia. Qed.

Section reconcile.
Context {bp : BuildProfile}.

Definition absent (d : SettlementDb) (t : MatchExecData) : bool := bool_decide (settled_trades d !! as_i64 (trade_id t) = None).

Definition parsed (records : list (option MatchExecData)) : list MatchExecData := omap id records.

Lemma count_one x : 0 <= x -> x + 1 <= u64_max -> op_add x 1 = Some (x + 1).
Proof. intros ? ?. apply u64_op_exact. split; lia. Qed.

Definition counts (stats : ReconciliationStats) (n : Z) : Prop :=
  0 <= missing stats <= total stats /\ mismatch stats = 0 /\ total stats + n <= u64_max.

Lemma reconcile_records_ok records stats d :
  counts stats (zlen records) ->
  exists stats' d', reconcile_records stats records d = Ok stats' d' /\ settled_trades d' = settled_trades d /\
    counts stats' 0 /\ total stats' = total stats + zlen (parsed records) /\
    (answers d = [] -> d' = d /\ missing stats' = missing stats + zlen (List.filter (absent d) (parsed records))) /\
    (forall n l, answers d = replicate n (Lost []) ++ l -> (length (parsed records) <= n)%nat -> missing stats' = missing stats).
Proof.
  revert stats d. induction records as [|[t|] records IH]; intros stats d (Hm & Hmm & Ht).
  - exists stats, d. change (zlen []) with 0 in *. split; [done|]. split; [done|]. split; [split_and!; lia|].
    split; [by rewrite Z.add_0_r|]. split; [intros _; split; [done|by rewrite Z.add_0_r]|done].
  - rewrite zlen_cons in Ht. pose proof (zlen_nonneg records). cbn [reconcile_records reconcile_one]. unfold bind at 1 2.
    rewrite count_one by lia. unfold unwrap, ret at 1, bind at 1, attempt.
    destruct (trade_query (trade_id t) d) as (r & d1 & Hq & Hs & Ha & Hsame & Hr). rewrite Hq.
    assert (parsed (Some t :: records) = t :: parsed records) as -> by done. rewrite zlen_cons. cbn [List.filter].
    destruct Hr as [(Hnl & Habs & ->)|[Hwhy [e ->]]].
    + cbn [missing total mismatch]. rewrite count_one by lia. cbn [ret].
      destruct (IH (mkStats (total stats + 1) (missing stats + 1) (mismatch stats)) d1) as (stats' & d' & Hrun & Hs' & Hc & Htot & Hno & Hlost).
      { unfold counts. cbn [total missing mismatch]. lia. }
      exists stats', d'. split; [exact Hrun|]. split; [congruence|]. split; [done|]. cbn [total missing] in *. split; [lia|]. split.
      * intros Hans. specialize (Hsame Hans) as ->. destruct (Hno Hans) as [-> Hmis]. split; [done|]. rewrite Hmis.
        unfold absent at 2. rewrite bool_decide_true by done. rewrite zlen_cons. lia.
      * intros n l Hans Hlen. exfalso. destruct n; [simpl in Hlen; lia|]. unfold next_lost in Hnl. by rewrite Hans in Hnl.
    + cbn [ret].
      destruct (IH (mkStats (total stats + 1) (missing stats) (mismatch stats)) d1) as (stats' & d' & Hrun & Hs' & Hc & Htot & Hno & Hlost).
      { unfold counts. cbn [total missing mismatch]. lia. }
      exists stats', d'. split; [exact Hrun|]. split; [congruence|]. split; [done|]. cbn [total missing] in *. split; [lia|]. split.
      * intros Hans. specialize (Hsame Hans) as ->. destruct (Hno Hans) as [-> Hmis]. split; [done|]. rewrite Hmis.
        destruct Hwhy as [Hnl|[v Hv]]; [unfold next_lost in Hnl; by rewrite Hans in Hnl|].
        unfold absent at 2. by rewrite bool_decide_false by congruence.
      * intros n l Hans Hlen. destruct n as [|n]; [simpl in Hlen; lia|].
        apply (Hlost n l); [by rewrite Ha, Hans|simpl in Hlen; lia].
  - rewrite zlen_cons in Ht. cbn [reconcile_records reconcile_one]. unfold bind at 1, ret at 1. apply (IH stats d). unfold counts. lia.
Qed.

(** C39: a reconciliation compares nothing.  While the database answers it passes
    exactly when there is a row with the identifier of every record that could
    be parsed, whatever the rows hold: reading a row back fails, and a failed
    query counts neither as missing nor as a mismatch.  So it also passes when
    the database answers no query at all. *)
Theorem reconciliation_compares_nothing records d :
  zlen records <= u64_max ->
  (answers d = [] ->
   exists verdict, scheduled_reconciliation (Some records) d = Ok verdict d /\ (verdict = Passed \/ verdict = Inconsistent) /\
     (verdict = Passed <-> forall t, Some t ∈ records -> is_Some (settled_trades d !! as_i64 (trade_id t)))) /\
  (forall n l, answers d = replicate n (Lost []) ++ l -> (length (parsed records) <= n)%nat ->
   exists d', scheduled_reconciliation (Some records) d = Ok Passed d').
Proof.
  intros Hlen. unfold scheduled_reconciliation, reconcile_csv, attempt, bind, ret.
  destruct (reconcile_records_ok records stats_default d) as (stats & d' & -> & _ & (Hm & Hmm & _) & _ & Hno & Hlost).
  { unfold counts. simpl. lia. }
  rewrite Hmm. cbn [orb Z.ltb]. split.
  - intros Hans. destruct (Hno Hans) as [-> Hmis]. simpl in Hmis. eexists. split; [reflexivity|].
    pose proof (zlen_nonneg (List.filter (absent d) (parsed records))).
    destruct (Z.ltb_spec 0 (missing stats)) as [Hlt|Hle]; cbn.
    + split; [by right|]. split; [done|]. intros Hall. exfalso. rewrite Hmis in Hlt.
      destruct (List.filter (absent d) (parsed records)) as [|t rest] eqn:Hf; [done|].
      assert (In t (t :: rest)) as Hin by by left. rewrite <- Hf in Hin. apply filter_In in Hin as [Hin Habs].
      unfold absent in Habs. apply bool_decide_eq_true in Habs. apply list_elem_of_In, list_elem_of_omap in Hin as (o & Ho & Hid).
      unfold id in Hid. subst o. destruct (Hall t Ho). congruence.
    + split; [by left|]. split; [|done]. intros _ t Ht. destruct (settled_trades d !! as_i64 (trade_id t)) eqn:Hs; [by eexists|].
      exfalso. assert (In t (List.filter (absent d) (parsed records))) as Hin.
      { apply filter_In. split; [|unfold absent; by rewrite bool_decide_true]. apply list_elem_of_In, list_elem_of_omap. by exists (Some t). }
      destruct (List.filter (absent d) (parsed records)) as [|? l0]; [done|]. rewrite zlen_cons in Hmis.
      pose proof (zlen_nonneg l0). lia.
  - intros n l Hans Hn. exists d'. rewrite (Hlost n l Hans Hn). done.
Qed.
End reconcile.

(** ** Several trades *)

(** [insert_batch] writes nothing: the row it binds has eight fields more than
    the statement has markers. *)
Lemma insert_batch_refused t trades trade_date now d :
  insert_batch (t :: trades) trade_date now d = Err "Operation failed after 3 attempts" d.
Proof. reflexivity. Qed.

(** ** Ledger events *)

Definition typed_event (e : LedgerEvent) : Prop :=
  is_u64 (le_user_id e) /\ is_u64 (le_sequence_id e) /\ is_u64 (le_amount e) /\ 0 <= le_currency e < 4294967296 /\
  is_u64 (le_related_id e).

Definition event_key (e : LedgerEvent) : Z * Z := (as_i64 (le_user_id e), as_i64 (le_sequence_id e)).

Lemma parse_event_of e : typed_event e -> parse_event (event_key e, event_row_of e) = e.
Proof.
  intros (H1 & H2 & H3 & H4 & H5). unfold parse_event, event_key, event_row_of. simpl. rewrite !as_u64_i64, as_u32_i32 by done.
  by destruct e.
Qed.

Lemma insert_events_run es t :
  answers (main t) = [] ->
  iter insert_ledger_event es t = Ok tt (fold_left (fun t e => write_event e t) es t) /\
  main (fold_left (fun t e => write_event e t) es t) = main t.
Proof.
  revert t. induction es as [|e es IH]; intros t Ha; [done|]. cbn [iter fold_left]. unfold bind, insert_ledger_event.
  assert (retry_event MAX_RETRIES e t = Ok tt (write_event e t)) as -> by (unfold MAX_RETRIES; cbn [retry_event]; unfold execute_event; by rewrite Ha).
  by apply (IH (write_event e t)).
Qed.

(** The rows of [es], written into [m]. *)
Definition event_rows (es : list LedgerEvent) (m : gmap (Z * Z) LedgerEventRow) : gmap (Z * Z) LedgerEventRow :=
  fold_left (fun m e => <[event_key e := event_row_of e]> m) es m.

Lemma written_rows es t : ledger_events (fold_left (fun t e => write_event e t) es t) = event_rows es (ledger_events t).
Proof. revert t. induction es as [|e es IH]; intros t; [done|]. cbn [fold_left event_rows]. by rewrite IH. Qed.

Lemma event_rows_list es m :
  NoDup (map event_key es) -> (forall e, e ∈ es -> m !! event_key e = None) ->
  map_to_list (event_rows es m) ≡ₚ map (fun e => (event_key e, event_row_of e)) es ++ map_to_list m.
Proof.
  revert m. induction es as [|e es IH]; intros m Hnd Hm; [done|]. cbn [map event_rows fold_left app] in *.
  apply NoDup_cons in Hnd as [Hne Hnd]. rewrite IH; [|done|].
  - rewrite map_to_list_insert by (apply Hm; left). apply Permutation_sym, Permutation_middle.
  - intros e' He'. rewrite lookup_insert_ne; [apply Hm; by right|]. intros Heq. apply Hne. rewrite Heq. by apply list_elem_of_fmap_2.
Qed.

Definition keyed (e : LedgerEvent) : Z * Z * LedgerEventRow := (event_key e, event_row_of e).

Lemma keyed_of_user user es :
  is_u64 user -> Forall typed_event es ->
  filter (fun x => x.1.1 = as_i64 user) (map keyed es) = map keyed (List.filter (fun e => le_user_id e =? user) es).
Proof.
  intros Hu. induction 1 as [|e es He _ IH]; [done|]. cbn [map List.filter]. rewrite filter_cons, IH.
  destruct (Z.eqb_spec (le_user_id e) user) as [Heq|Hne]; [rewrite decide_True by (simpl; congruence); done|].
  rewrite decide_False; [done|]. simpl. intros Heq. apply Hne. rewrite <- (as_u64_i64 (le_user_id e)), Heq by apply He. by apply as_u64_i64.
Qed.

Lemma sorted_map {A B} (f : A -> B) (R : B -> B -> Prop) l : StronglySorted R (map f l) -> StronglySorted (fun a b => R (f a) (f b)) l.
Proof.
  induction l as [|x l IH]; intros Hs; [constructor|]. inversion Hs as [|? ? Hs' Hx]; subst. constructor; [by apply IH|].
  rewrite Forall_fmap in Hx. exact Hx.
Qed.

#[export] Instance event_before_total : Total event_before.
Proof. intros x y. unfold event_before. lia. Qed.

#[export] Instance event_before_trans : Transitive event_before.
Proof. intros x y z. unfold event_before. lia. Qed.

(** What is inserted under distinct keys is what is read: the events of the
    user, each as it was, in the order of the signed sequence. *)
Theorem ledger_events_roundtrip es t user :
  answers (main t) = [] -> ledger_events t = ∅ -> is_u64 user -> Forall typed_event es -> NoDup (map event_key es) ->
  exists t' L, iter insert_ledger_event es t = Ok tt t' /\ get_ledger_events_by_user user t' = Ok L t' /\
    L ≡ₚ List.filter (fun e => le_user_id e =? user) es /\
    StronglySorted (fun a b => as_i64 (le_sequence_id a) <= as_i64 (le_sequence_id b)) L.
Proof.
  intros Ha He Hu Hty Hnd. destruct (insert_events_run es t Ha) as [Hrun Hmain].
  pose proof (written_rows es t) as Hrows. set (t' := fold_left _ es t) in *.
  assert (answers (main t') = []) as Ha' by congruence.
  set (l := merge_sort event_before (filter (fun x => x.1.1 = as_i64 user) (map_to_list (ledger_events t')))).
  assert (l ≡ₚ map keyed (List.filter (fun e => le_user_id e =? user) es)) as Hl.
  { unfold l. rewrite (merge_sort_Permutation event_before), Hrows, He, event_rows_list, map_to_list_empty, app_nil_r by done.
    by rewrite <- keyed_of_user. }
  apply Permutation_map_inv in Hl as (L & HlL & Hperm). exists t', L. split; [exact Hrun|]. split; [|split].
  - unfold get_ledger_events_by_user, on_main, select, execute, zoom, bind, get, put, ret. rewrite Ha'. cbn [fold_left].
    assert (set_main (main t') t' = t') as -> by by destruct t'. fold l. rewrite HlL. f_equal.
    assert (Forall typed_event L) as HtyL.
    { apply Forall_forall. intros e Hin. rewrite <- Hperm, list_elem_of_In in Hin. apply filter_In in Hin as [Hin _].
      apply list_elem_of_In in Hin. by eapply Forall_forall. }
    rewrite map_map. rewrite <- (map_id L) at 2. apply map_ext_in. intros e Hin. apply parse_event_of.
    eapply Forall_forall; [exact HtyL|by apply list_elem_of_In].
  - by symmetry.
  - apply (sorted_map keyed event_before). rewrite <- HlL. apply (StronglySorted_merge_sort event_before).
Qed.

Module Concrete.
#[local] Instance profile : BuildProfile := debug_profile.

Definition record (id : Z) : MatchExecData :=
  mkMatchExec id 1 2 7 8 100 5 1 2 0 0 1 1 0 0 0 0 0 0 0 0 0.

(** A row that has nothing in common with the record but its identifier. *)
Definition other_row : SettledTrade := mkSettled 0 9 9 9 9 9 9 999 999 1 2 0 0 0.

Definition database (l : list Answer) : SettlementDb := mkDb ∅ ∅ ∅ ∅ ∅ {[as_i64 77 := other_row]} l.

Lemma reconciliation_compares_nothing_witness :
  scheduled_reconciliation (Some [Some (record 77); None]) (database []) = Ok Passed (database []) /\
  exists d', scheduled_reconciliation (Some [Some (record 77); Some (record 78)]) (database [Lost []; Lost []]) = Ok Passed d'.
Proof.
  split.
  - destruct (reconciliation_compares_nothing [Some (record 77); None] (database [])) as [Hans _]; [by vm_compute|].
    destruct (Hans eq_refl) as (verdict & Hrun & _ & Hpass). rewrite Hrun. f_equal. apply Hpass.
    intros t Ht. rewrite list_elem_of_In in Ht. destruct Ht as [[= <-]|[Ht|[]]]; [|discriminate Ht].
    exists other_row. by vm_compute.
  - destruct (reconciliation_compares_nothing [Some (record 77); Some (record 78)] (database [Lost []; Lost []])) as [_ Hlost];
      [by vm_compute|].
    apply (Hlost 2%nat []); [reflexivity|simpl; lia].
Defined.
End Concrete.
