(* ===== verification/KafkaInput.v ===== *)
(** * How batches are received from a queue

    [receive_batch_kafka] of [bin/settlement_service.rs] and the poll of
    [bin/matching_engine_server.rs]: one message is waited for, and what is
    there already is taken with it. *)

From stdpp Require Import gmap strings.
From S2P Require Import Prelude EngineOutput EngineServer.

#[local] Open Scope string_scope.
#[local] Open Scope list_scope.
#[local] Open Scope Z_scope.

(** What [recv] gives: a message, an error, or nothing for as long as it is
    waited for. *)
Inductive Recv (P : Type) := Message (m : P) | RecvError | Silence.
Arguments Message {P} m.
Arguments RecvError {P}.
Arguments Silence {P}.

(** ** The settlement service *)

(** [bincode::deserialize] of an output. *)
Class OutputDecoder := decode_output : list Z -> option EngineOutput.

Definition MAX_BATCH_SIZE : nat := Z.to_nat 2000.
Definition BATCH_TIMEOUT_MS : Z := 100.

(** The clock before each call of [recv], and what it gives: a message may be
    without a payload. *)
Definition Events : Type := list (Z * Recv (option (list Z))).

Section settlement.
Context `{OutputDecoder}.

(** A payload that cannot be read is logged. *)
Definition push_message (payload : option (list Z)) (batch : list EngineOutput) : list EngineOutput :=
  match payload ≫= decode_output with Some output => batch ++ [output] | None => batch end.

(** [while batch.len() < max_size && Instant::now() < batch_deadline] *)
Fixpoint drain_batch (max_size : nat) (deadline : Z) (batch : list EngineOutput) (events : Events) : list EngineOutput * Events :=
  match events with
  | [] => (batch, [])
  | (now, r) :: rest =>
      if Nat.ltb (length batch) max_size && (now <? deadline) then
        match r with
        | Message payload => drain_batch max_size deadline (push_message payload batch) rest
        | RecvError | Silence => (batch, rest)
        end
      else (batch, events)
  end.

(** The first call waits: a silence before it is not seen. *)
Fixpoint receive_batch_kafka (max_size : nat) (start : Z) (events : Events) : list EngineOutput * Events :=
  match events with
  | [] => ([], [])
  | (_, Silence) :: rest => receive_batch_kafka max_size start rest
  | (_, RecvError) :: rest => ([], rest)
  | (_, Message payload) :: rest => drain_batch max_size (start + BATCH_TIMEOUT_MS) (push_message payload []) rest
  end.

(** The batches of the loop, while there are events: an empty batch is
    skipped. *)
Fixpoint receive_all (fuel : nat) (events : Events) : list (list EngineOutput) :=
  match fuel, events with
  | S fuel', (now, _) :: _ =>
      let '(batch, rest) := receive_batch_kafka MAX_BATCH_SIZE now events in
      match batch with [] => receive_all fuel' rest | _ => batch :: receive_all fuel' rest end
  | _, _ => []
  end.
End settlement.

(** ** The matching engine *)

Section engine.
Context {P : Type}.

(** [for _ in 0..n]: an error is printed and counts as a round. *)
Fixpoint drain_poll (n : nat) (batch : list P) (events : list (Recv P)) : list P * list (Recv P) :=
  match n, events with
  | S n', Message m :: rest => drain_poll n' (batch ++ [m]) rest
  | S n', RecvError :: rest => drain_poll n' batch rest
  | S _, Silence :: rest => (batch, rest)
  | _, _ => (batch, events)
  end.

Fixpoint poll_batch (events : list (Recv P)) : list P * list (Recv P) :=
  match events with
  | [] => ([], [])
  | Silence :: rest => poll_batch rest
  | Message m :: rest => drain_poll (batch_poll_count - 1) [m] rest
  | RecvError :: rest => drain_poll (batch_poll_count - 1) [] rest
  end.

Fixpoint poll_all (fuel : nat) (events : list (Recv P)) : list (list P) :=
  match fuel, events with
  | S fuel', _ :: _ =>
      let '(batch, rest) := poll_batch events in
      match batch with [] => poll_all fuel' rest | _ => batch :: poll_all fuel' rest end
  | _, _ => []
  end.
End engine.
