(* ===== verification/KafkaInputProofs.v ===== *)
(** * Batching loses nothing

    Whatever the queue gives and however the clock runs, the batches are the
    messages, in order. *)

From stdpp Require Import gmap strings.
From S2P Require Import Prelude EngineOutput EngineServer KafkaInput.

#[local] Open Scope string_scope.
#[local] Open Scope list_scope.
#[local] Open Scope Z_scope.

Section settlement.
Context `{OutputDecoder}.

(** The output in an event, if there is one. *)
Definition output_in (x : Z * Recv (option (list Z))) : option EngineOutput :=
  match x.2 with Message payload => payload ≫= decode_output | _ => None end.

Lemma push_message_eq payload batch :
  push_message payload batch = batch ++ omap output_in [(0, Message payload)] /\
  (length (push_message payload batch) <= S (length batch))%nat.
Proof.
  unfold push_message. cbn. unfold output_in. cbn. destruct (payload ≫= decode_output); simpl; [|by rewrite app_nil_r; split; [|lia]].
  rewrite length_app. simpl. split; [done|lia].
Qed.

Lemma omap_cons {A B} (f : A -> option B) x l : omap f (x :: l) = omap f [x] ++ omap f l.
Proof. cbn. by destruct (f x). Qed.

Lemma drain_batch_spec max_size deadline batch events b rest :
  drain_batch max_size deadline batch events = (b, rest) ->
  exists used, events = used ++ rest /\ b = batch ++ omap output_in used /\
    ((length batch <= max_size)%nat -> (length b <= max_size)%nat).
Proof.
  revert batch. induction events as [|[now r] events IH]; intros batch; cbn [drain_batch].
  - intros [= <- <-]. exists []. simpl. by rewrite app_nil_r.
  - destruct (Nat.ltb_spec (length batch) max_size) as [Hlt|]; destruct (now <? deadline); cbn [andb];
      try (intros [= <- <-]; exists []; simpl; by rewrite app_nil_r).
    destruct r as [payload| |].
    + intros (used & -> & -> & Hlen)%IH. exists ((now, Message payload) :: used). split; [done|].
      destruct (push_message_eq payload batch) as [Heq Hle]. split; [|intros _; apply Hlen; lia].
      by rewrite Heq, <- app_assoc, (omap_cons _ (now, _)).
    + intros [= <- <-]. exists [(now, RecvError)]. simpl. by rewrite app_nil_r.
    + intros [= <- <-]. exists [(now, Silence)]. simpl. by rewrite app_nil_r.
Qed.

Lemma receive_batch_spec max_size start events b rest :
  (1 <= max_size)%nat -> receive_batch_kafka max_size start events = (b, rest) ->
  exists used, events = used ++ rest /\ b = omap output_in used /\ (length b <= max_size)%nat /\ (events <> [] -> used <> []).
Proof.
  intros Hmax. induction events as [|[now r] events IH]; cbn [receive_batch_kafka].
  - intros [= <- <-]. exists []. simpl. split_and!; (done || lia).
  - destruct r as [payload| |].
    + intros (used & -> & -> & Hlen)%drain_batch_spec. exists ((now, Message payload) :: used). split; [done|].
      destruct (push_message_eq payload []) as [Heq Hle]. split; [|split; [|done]].
      * by rewrite Heq, (omap_cons _ (now, _)).
      * apply Hlen. simpl in Hle. lia.
    + intros [= <- <-]. exists [(now, RecvError)]. simpl. split_and!; (done || lia).
    + intros (used & -> & -> & Hlen & _)%IH. exists ((now, Silence) :: used). split_and!; done.
Qed.

Lemma settlement_batches fuel events :
  (length events <= fuel)%nat ->
  concat (receive_all fuel events) = omap output_in events /\
  Forall (fun batch => batch <> [] /\ (length batch <= MAX_BATCH_SIZE)%nat) (receive_all fuel events).
Proof.
  revert events. induction fuel as [|fuel IH]; intros [|[now r] events] Hlen; [done|simpl in Hlen; lia|done|].
  assert (1 <= MAX_BATCH_SIZE)%nat as Hmax by (unfold MAX_BATCH_SIZE; lia). cbn [receive_all].
  destruct (receive_batch_kafka MAX_BATCH_SIZE now ((now, r) :: events)) as [b rest] eqn:Hr.
  destruct (receive_batch_spec _ _ _ _ _ Hmax Hr) as (used & Hev & -> & Hb & Hused). assert (used <> []) as Hne by by apply Hused.
  rewrite Hev, omap_app. rewrite Hev in Hlen. destruct (IH rest) as [Hcat Hall].
  { rewrite length_app in Hlen. destruct used; [done|]. simpl in Hlen. lia. }
  destruct (omap output_in used) as [|o l] eqn:Ho; [by split|]. cbn [concat]. rewrite Hcat. split; [done|]. by constructor.
Qed.
End settlement.

(** ** The matching engine *)

Section engine.
Context {P : Type}.

Definition message_in (x : Recv P) : option P := match x with Message m => Some m | _ => None end.

Lemma drain_poll_spec n batch events b rest :
  drain_poll n batch events = (b, rest) ->
  exists used, events = used ++ rest /\ b = batch ++ omap message_in used /\ (length b <= length batch + n)%nat.
Proof.
  revert batch events. induction n as [|n IH]; intros batch events; [intros [= <- <-]; exists []; rewrite app_nil_r; split_and!; (done || lia)|].
  destruct events as [|[m| |] events]; cbn [drain_poll].
  - intros [= <- <-]. exists []. simpl. rewrite app_nil_r. split_and!; (done || lia).
  - intros (used & -> & -> & Hlen)%IH. exists (Message m :: used). rewrite !length_app in *. simpl in Hlen |- *. rewrite <- app_assoc. split_and!; (done || lia).
  - intros (used & -> & -> & Hlen)%IH. exists (RecvError :: used). split_and!; (done || lia).
  - intros [= <- <-]. exists [Silence]. simpl. rewrite app_nil_r. split_and!; (done || lia).
Qed.

Lemma poll_batch_spec events b rest :
  poll_batch events = (b, rest) ->
  exists used, events = used ++ rest /\ b = omap message_in used /\ (length b <= batch_poll_count)%nat /\ (events <> [] -> used <> []).
Proof.
  assert (1 <= batch_poll_count)%nat as Hmax by (unfold batch_poll_count; lia).
  induction events as [|[m| |] events IH]; cbn [poll_batch].
  - intros [= <- <-]. exists []. simpl. split_and!; (done || lia).
  - intros (used & -> & -> & Hlen)%drain_poll_spec. exists (Message m :: used). cbn [length app] in Hlen; cbn [omap list_omap message_in app length]. split_and!; (done || lia).
  - intros (used & -> & -> & Hlen)%drain_poll_spec. exists (RecvError :: used). cbn [length app] in Hlen; cbn [omap list_omap message_in app length]. split_and!; (done || lia).
  - intros (used & -> & -> & Hlen & _)%IH. exists (Silence :: used). split_and!; done.
Qed.

Lemma engine_polls fuel (events : list (Recv P)) :
  (length events <= fuel)%nat ->
  concat (poll_all fuel events) = omap message_in events /\
  Forall (fun batch => batch <> [] /\ (length batch <= batch_poll_count)%nat) (poll_all fuel events).
Proof.
  revert events. induction fuel as [|fuel IH]; intros [|r events] Hlen; [done|simpl in Hlen; lia|done|]. cbn [poll_all].
  destruct (poll_batch (r :: events)) as [b rest] eqn:Hr.
  destruct (poll_batch_spec _ _ _ Hr) as (used & Hev & -> & Hb & Hused). assert (used <> []) as Hne by by apply Hused.
  rewrite Hev, omap_app. rewrite Hev in Hlen. destruct (IH rest) as [Hcat Hall].
  { rewrite length_app in Hlen. destruct used; [done|]. simpl in Hlen. lia. }
  destruct (omap message_in used) as [|o l] eqn:Ho; [by split|]. cbn [concat]. rewrite Hcat. split; [done|]. by constructor.
Qed.
End engine.

(** C40: receiving in batches neither loses nor reorders.  Whatever the queue
    gives, errors and silences between the messages included, and however the
    clock runs, the batches of the settlement service are the outputs that can
    be read, in order, and those of the matching engine are the messages; none
    is empty or larger than its limit; and every turn of the two loops makes
    progress, so that as many turns as there are events serve them all. *)
Theorem batches_are_the_stream `{OutputDecoder} {P} (events : Events) (polled : list (Recv P)) :
  (concat (receive_all (length events) events) = omap output_in events /\
   Forall (fun batch => batch <> [] /\ (length batch <= MAX_BATCH_SIZE)%nat) (receive_all (length events) events)) /\
  (concat (poll_all (length polled) polled) = omap message_in polled /\
   Forall (fun batch => batch <> [] /\ (length batch <= batch_poll_count)%nat) (poll_all (length polled) polled)).
Proof. split; [by apply settlement_batches|by apply engine_polls]. Qed.
