(* ===== verification/AeronConnect.v ===== *)
(** * Connecting over Aeron ([ubs_core/comm/])

    The addresses ([aeron_config.rs], [aeron_channel.rs], [aeron_server.rs]), the
    calls of the Aeron library that connect a channel, a server, a sender, the
    embedded driver ([driver.rs]) and the process of the balance authority, and
    the message of a fill ([fill_receiver.rs]). *)

From stdpp Require Import gmap strings pretty.
From S2P Require Import Prelude Bytes UbsParts UbsComm AeronChannel.

#[local] Open Scope string_scope.
#[local] Open Scope list_scope.
#[local] Open Scope Z_scope.
#[local] Open Scope rust_scope.

(** ** Addresses *)

Definition IPC_CHANNEL : string := "aeron:ipc".
Definition AERON_DIR : string := "/tmp/aeron-trading".

Definition ORDERS_IN : Z := 1001.
Definition ORDERS_OUT : Z := 1002.
Definition FILLS_IN : Z := 1003.
Definition RESPONSES_OUT : Z := 1004.

Record AeronConfig := mkAeronConfig {
  orders_channel : string; responses_channel : string; orders_in_stream : Z; orders_out_stream : Z;
  fills_in_stream : Z; responses_out_stream : Z; busy_spin : bool
}.

Definition aeron_config_default : AeronConfig :=
  mkAeronConfig IPC_CHANNEL IPC_CHANNEL ORDERS_IN ORDERS_OUT FILLS_IN RESPONSES_OUT true.

Definition aeron_config_udp (orders_host responses_host : string) : AeronConfig :=
  mkAeronConfig ("aeron:udp?endpoint=" +:+ orders_host) ("aeron:udp?endpoint=" +:+ responses_host)
    ORDERS_IN ORDERS_OUT FILLS_IN RESPONSES_OUT true.

(** [AeronChannelConfig] and [AeronServerConfig]. *)
Record Addresses := mkAddresses { send_channel : string; send_stream : Z; recv_channel : string; recv_stream : Z }.

Definition channel_config_default : Addresses := mkAddresses "aeron:ipc" 1001 "aeron:ipc" 1002.
Definition server_config_default : Addresses := mkAddresses "aeron:ipc" 1002 "aeron:ipc" 1001.
Definition channel_config_ipc (send recv : Z) : Addresses := mkAddresses "aeron:ipc" send "aeron:ipc" recv.
Definition server_config_ipc (recv send : Z) : Addresses := mkAddresses "aeron:ipc" send "aeron:ipc" recv.

(** [UbsGatewayClient::new] *)
Definition gateway_client_config (c : AeronConfig) : Addresses :=
  mkAddresses (orders_channel c) (orders_in_stream c) (responses_channel c) (responses_out_stream c).

(** ** The library

    [made] is what was called, [faults] the answers to come: an error with its
    text, or success, as when they run out. *)

Inductive AeronCall :=
  | DriverContextNew | DeleteDirOnStart | LaunchEmbedded
  | ContextNew | SetDir (dir : string) | ClientNew | ClientStart
  | AddPublication (channel : string) (stream : Z)
  | AddSubscription (channel : string) (stream : Z).

Record Library := mkLibrary { made : list AeronCall; faults : list (option string) }.

(** A side of a connection. *)
Record Endpoint := mkEndpoint {
  lib : Library; publication : option (string * Z); subscription : option (string * Z)
}.

Definition endpoint_new (l : Library) : Endpoint := mkEndpoint l None None.

(** One call; [failure] is the text in front of the error. *)
Definition call (c : AeronCall) (failure : string) : M Endpoint SendError.t unit := fun e =>
  let l := lib e in
  let e' := mkEndpoint (mkLibrary (made l ++ [c]) (tail (faults l))) (publication e) (subscription e) in
  match faults l with
  | Some text :: _ => Err (SendError.AeronError (failure +:+ text)) e'
  | _ => Ok tt e'
  end.

(** [CString::new]: a text with a null byte is refused. *)
Definition c_string (s : string) (failure : string) : M Endpoint SendError.t unit :=
  if bool_decide (Ascii.zero ∈ String.list_ascii_of_string s) then throw (SendError.AeronError failure) else ret tt.

Definition start_client (dir : option string) (context client : string) : M Endpoint SendError.t unit :=
  call ContextNew context ;;;
  match dir with
  | Some d => c_string d "Invalid dir" ;;; call (SetDir d) "Set dir failed: "
  | None => ret tt
  end ;;;
  call ClientNew client ;;;
  call ClientStart "Start failed: ".

Definition set_both (p s : string * Z) : M Endpoint SendError.t unit :=
  modify (fun e => mkEndpoint (lib e) (Some p) (Some s)).

(** [AeronChannel::connect]; the subscription belongs to the thread that is
    started. *)
Definition channel_connect (config : Addresses) : M Endpoint SendError.t unit :=
  start_client (Some AERON_DIR) "Context failed: " "Aeron failed: " ;;;
  c_string (send_channel config) "Invalid channel" ;;;
  call (AddPublication (send_channel config) (send_stream config)) "Publication failed: " ;;;
  c_string (recv_channel config) "Invalid channel" ;;;
  call (AddSubscription (recv_channel config) (recv_stream config)) "Subscription failed: " ;;;
  set_both (send_channel config, send_stream config) (recv_channel config, recv_stream config).

(** [AeronServer::connect] *)
Definition server_connect (config : Addresses) : M Endpoint SendError.t unit :=
  start_client (Some AERON_DIR) "Context failed: " "Aeron failed: " ;;;
  c_string (recv_channel config) "Invalid channel" ;;;
  call (AddSubscription (recv_channel config) (recv_stream config)) "Subscription failed: " ;;;
  c_string (send_channel config) "Invalid channel" ;;;
  call (AddPublication (send_channel config) (send_stream config)) "Publication failed: " ;;;
  set_both (send_channel config, send_stream config) (recv_channel config, recv_stream config).

(** [OrderSender::connect]: the directory is left as it is by default. *)
Definition sender_connect (c : AeronConfig) : M Endpoint SendError.t unit :=
  start_client None "Context creation failed: " "Aeron connection failed: " ;;;
  c_string (orders_channel c) "Invalid channel string" ;;;
  call (AddPublication (orders_channel c) (orders_in_stream c)) "Add publication failed: " ;;;
  modify (fun e => mkEndpoint (lib e) (Some (orders_channel c, orders_in_stream c)) (subscription e)).

(** [run_aeron_service]: an error is a panic. *)
Definition service_connect (c : AeronConfig) : M Endpoint SendError.t unit :=
  expect (
    call ContextNew "" ;;;
    call (SetDir AERON_DIR) "" ;;;
    call ClientNew "" ;;;
    call ClientStart "" ;;;
    c_string (orders_channel c) "" ;;;
    call (AddSubscription (orders_channel c) (orders_in_stream c)) "" ;;;
    c_string (responses_channel c) "" ;;;
    call (AddPublication (responses_channel c) (responses_out_stream c)) "" ;;;
    set_both (responses_channel c, responses_out_stream c) (orders_channel c, orders_in_stream c)).

(** [EmbeddedDriver::launch_at]; its errors are texts. *)
Definition launch_at (dir : string) : M Endpoint SendError.t unit :=
  call DriverContextNew "Driver context error: " ;;;
  c_string dir "Invalid directory path" ;;;
  call (SetDir dir) "Failed to set dir: " ;;;
  call DeleteDirOnStart "Failed to set delete_on_start: " ;;;
  modify (fun e => mkEndpoint (mkLibrary (made (lib e) ++ [LaunchEmbedded]) (faults (lib e))) (publication e) (subscription e)).

Definition launch : M Endpoint SendError.t unit := launch_at AERON_DIR.

(** ** Sending without a response

    [position] is what [offer] answers. *)

Definition channel_send (e : Endpoint) (position : Z) : SendError.t + Z :=
  match publication e with
  | None => inl (SendError.AeronError "Not connected")
  | Some _ => send_outcome position
  end.

Section messages.
Context `{Padding}.

(** [OrderSender::send]: what is offered, and what is returned. *)
Definition order_send (e : Endpoint) (order : InternalOrder) (position : Z) : option (list Z) * (SendError.t + Z) :=
  match publication e with
  | None => (None, inl SendError.NotConnected)
  | Some _ => (Some (order_to_bytes (from_order order)), send_outcome position)
  end.

(** [AeronServer::send_response] *)
Definition server_send_response (e : Endpoint) (correlation_id : Z) (response : list Z) (position : Z)
  : option (list Z) * (SendError.t + unit) :=
  match publication e with
  | None => (None, inl (SendError.AeronError "Not connected"))
  | Some _ => (Some (frame correlation_id response), if position <=? 0 then inl (SendError.Unknown position) else inr tt)
  end.

Definition send_error_display (e : SendError.t) : string :=
  match e with
  | SendError.NotConnected => "Not connected to subscriber"
  | SendError.BackPressured => "System busy - buffer full"
  | SendError.AdminAction => "Admin action in progress"
  | SendError.Closed => "Publication closed"
  | SendError.MaxPositionExceeded => "Max position exceeded"
  | SendError.MaxRetriesExceeded => "Max retries exceeded"
  | SendError.AeronError text => "Aeron error: " +:+ text
  | SendError.Unknown code => "Unknown error code: " +:+ pretty code
  end.

(** ** Fills *)

Record FillMessage := mkFill {
  fill_trade_id : Z; fill_order_id : Z; fill_user_id : Z; fill_symbol_id : Z; fill_side : Z; fill_is_maker : Z;
  fill_price : Z; fill_qty : Z; fill_quote_qty : Z; fill_fee : Z; fill_timestamp_ns : Z
}.

Definition fill_to_bytes (m : FillMessage) : list Z :=
  le_bytes 8 (fill_trade_id m) ++ le_bytes 8 (fill_order_id m) ++ le_bytes 8 (fill_user_id m) ++
  le_bytes 4 (fill_symbol_id m) ++ le_bytes 1 (fill_side m) ++ le_bytes 1 (fill_is_maker m) ++ padding 2 ++
  le_bytes 8 (fill_price m) ++ le_bytes 8 (fill_qty m) ++ le_bytes 8 (fill_quote_qty m) ++ le_bytes 8 (fill_fee m) ++
  le_bytes 8 (fill_timestamp_ns m).

(** Unlike the other messages, a fill must have its exact length. *)
Definition fill_from_bytes (bytes : list Z) : option FillMessage :=
  if zlen bytes =? 72 then
    Some (mkFill (field_at 0 8 bytes) (field_at 8 8 bytes) (field_at 16 8 bytes) (field_at 24 4 bytes)
            (field_at 28 1 bytes) (field_at 29 1 bytes) (field_at 32 8 bytes) (field_at 40 8 bytes)
            (field_at 48 8 bytes) (field_at 56 8 bytes) (field_at 64 8 bytes))
  else None.
End messages.
