(* ===== verification/AeronConnectProofs.v ===== *)
(** * Connections

    What a connection leaves, whatever the library answers; who meets whom; and
    the round trip of a fill. *)

From stdpp Require Import gmap strings pretty.
From S2P Require Import Prelude Bytes UbsParts UbsComm UbsCommProofs AeronChannel AeronConnect.

#[local] Open Scope string_scope.
#[local] Open Scope list_scope.
#[local] Open Scope Z_scope.
#[local] Open Scope rust_scope.

(** ** Calls of the library *)

Definition Side : Type := option (string * Z).

(** [m] makes [calls], in order; when all succeed the publication and the
    subscription become [fp] and [fs] of what they were, and otherwise they stay
    as they are. *)
Definition runs (calls : list AeronCall) (fp fs : Side -> Side) (m : M Endpoint SendError.t unit) : Prop :=
  forall e, match m e with
  | Ok _ e' => publication e' = fp (publication e) /\ subscription e' = fs (subscription e) /\
      made (lib e') = made (lib e) ++ calls
  | Err _ e' => publication e' = publication e /\ subscription e' = subscription e /\ faults (lib e) <> [] /\
      exists k, made (lib e') = made (lib e) ++ take k calls
  | Panic => False
  end /\ (faults (lib e) = [] -> exists e', m e = Ok tt e' /\ faults (lib e') = []).

Lemma call_runs c failure : runs [c] id id (call c failure).
Proof.
  intros e. unfold call. destruct (faults (lib e)) as [|[text|] rest]; simpl; split; try (intros; simplify_eq); eauto.
  by split_and!; [..|exists 1%nat].
Qed.

(** Addresses and directories are texts without null bytes. *)
Definition plain (s : string) : Prop := Ascii.zero ∉ String.list_ascii_of_string s.

Lemma c_string_runs s failure : plain s -> runs [] id id (c_string s failure).
Proof.
  intros Hs e. unfold c_string. rewrite bool_decide_false by done. simpl. rewrite app_nil_r. split; [done|]. intros Hf. by exists e.
Qed.

Lemma runs_seq cs1 cs2 fp fs (m1 m2 : M Endpoint SendError.t unit) :
  runs cs1 id id m1 -> runs cs2 fp fs m2 -> runs (cs1 ++ cs2) fp fs (m1 ;;; m2).
Proof.
  intros H1 H2 e. unfold bind. destruct (H1 e) as [C1 N1]. destruct (m1 e) as [[] e1|err e1|] eqn:Hm1; [| |done].
  - destruct C1 as (P1 & S1 & M1). destruct (H2 e1) as [C2 N2]. split.
    + destruct (m2 e1) as [[] e2|err e2|]; [| |done].
      * destruct C2 as (P2 & S2 & M2). rewrite P2, S2, M2, P1, S1, M1, app_assoc. done.
      * destruct C2 as (P2 & S2 & F2 & k & M2). rewrite P2, S2, M2, P1, S1, M1, <- app_assoc. split; [done|]. split; [done|].
        split; [intros Hf; destruct (N1 Hf) as (e' & [= <-] & Hf'); done|]. exists (length cs1 + k)%nat. f_equal.
        rewrite take_app. f_equal; [by rewrite take_ge by lia|]. f_equal. lia.
    + intros Hf. destruct (N1 Hf) as (e' & [= <-] & Hf'). apply (N2 Hf').
  - destruct C1 as (P1 & S1 & F1 & k & M1). split; [|done]. split; [done|]. split; [done|]. split; [done|].
    exists (Nat.min k (length cs1)). rewrite M1. f_equal. rewrite take_app.
    replace (Nat.min k (length cs1) - length cs1)%nat with 0%nat by lia. rewrite take_0, app_nil_r.
    destruct (Nat.le_gt_cases k (length cs1)); [by rewrite Nat.min_l by lia|]. by rewrite Nat.min_r, !take_ge by lia.
Qed.

Lemma set_both_runs p s : runs [] (fun _ => Some p) (fun _ => Some s) (set_both p s).
Proof. intros e. simpl. rewrite app_nil_r. split; [done|]. intros Hf. by eexists. Qed.

Definition client_calls (dir : option string) : list AeronCall :=
  [ContextNew] ++ (match dir with Some d => [SetDir d] | None => [] end ++ ([ClientNew] ++ [ClientStart])).

Lemma start_client_runs dir context client : (forall d, dir = Some d -> plain d) -> runs (client_calls dir) id id (start_client dir context client).
Proof.
  intros Hd. apply runs_seq; [apply call_runs|]. apply runs_seq; [|apply runs_seq; apply call_runs].
  destruct dir; [apply (runs_seq []); [by apply c_string_runs, Hd|apply call_runs]|]. intros e. simpl. rewrite app_nil_r.
  split; [done|]. intros Hf. by exists e.
Qed.

Lemma AERON_DIR_plain : plain AERON_DIR.
Proof. apply (bool_decide_unpack _). vm_compute. exact I. Qed.

(** ** Who connects to what *)

Definition plain_config (c : Addresses) : Prop := plain (send_channel c) /\ plain (recv_channel c).

Definition channel_calls (c : Addresses) : list AeronCall :=
  client_calls (Some AERON_DIR) ++
  [AddPublication (send_channel c) (send_stream c); AddSubscription (recv_channel c) (recv_stream c)].

Definition server_calls (c : Addresses) : list AeronCall :=
  client_calls (Some AERON_DIR) ++
  [AddSubscription (recv_channel c) (recv_stream c); AddPublication (send_channel c) (send_stream c)].

Definition to_some (x : string * Z) : Side -> Side := fun _ => Some x.

(** A connection is made as a whole: when a call of the library fails, the
    channel and the server are as unconnected as before. *)
Theorem connect_all_or_nothing c :
  plain_config c ->
  runs (channel_calls c) (to_some (send_channel c, send_stream c)) (to_some (recv_channel c, recv_stream c)) (channel_connect c) /\
  runs (server_calls c) (to_some (send_channel c, send_stream c)) (to_some (recv_channel c, recv_stream c)) (server_connect c).
Proof.
  intros [Hs Hr].
  assert (forall a b, runs (client_calls (Some AERON_DIR)) id id (start_client (Some AERON_DIR) a b)) as Hstart.
  { intros a b. apply start_client_runs. intros d [= <-]. apply AERON_DIR_plain. }
  split; (apply runs_seq; [by apply Hstart|]).
  all: apply (runs_seq []); [by apply c_string_runs|]; apply (runs_seq [_]); [apply call_runs|].
  all: apply (runs_seq []); [by apply c_string_runs|]; apply (runs_seq [_]); [apply call_runs|apply set_both_runs].
Qed.

(** Client and service meet: under one configuration each publishes where the
    other subscribes, through the driver of one directory. *)
Theorem gateway_meets_service c l1 l2 e1 e2 :
  plain (orders_channel c) -> plain (responses_channel c) ->
  channel_connect (gateway_client_config c) (endpoint_new l1) = Ok tt e1 ->
  service_connect c (endpoint_new l2) = Ok tt e2 ->
  publication e1 = Some (orders_channel c, orders_in_stream c) /\ subscription e2 = publication e1 /\
  subscription e1 = Some (responses_channel c, responses_out_stream c) /\ publication e2 = subscription e1 /\
  SetDir AERON_DIR ∈ made (lib e1) /\ SetDir AERON_DIR ∈ made (lib e2).
Proof.
  intros Ho Hr H1 H2.
  destruct (connect_all_or_nothing (gateway_client_config c)) as [Hc _]; [by split|].
  destruct (Hc (endpoint_new l1)) as [C1 _]. rewrite H1 in C1. destruct C1 as (P1 & S1 & M1).
  assert (runs (client_calls (Some AERON_DIR) ++ [AddSubscription (orders_channel c) (orders_in_stream c);
                  AddPublication (responses_channel c) (responses_out_stream c)])
            (to_some (responses_channel c, responses_out_stream c)) (to_some (orders_channel c, orders_in_stream c))
            (call ContextNew "" ;;; call (SetDir AERON_DIR) "" ;;; call ClientNew "" ;;; call ClientStart "" ;;;
             c_string (orders_channel c) "" ;;; call (AddSubscription (orders_channel c) (orders_in_stream c)) "" ;;;
             c_string (responses_channel c) "" ;;; call (AddPublication (responses_channel c) (responses_out_stream c)) "" ;;;
             set_both (responses_channel c, responses_out_stream c) (orders_channel c, orders_in_stream c))) as Hs.
  { do 4 (apply (runs_seq [_]); [apply call_runs|]).
    apply (runs_seq []); [by apply c_string_runs|]; apply (runs_seq [_]); [apply call_runs|].
    apply (runs_seq []); [by apply c_string_runs|]; apply (runs_seq [_]); [apply call_runs|apply set_both_runs]. }
  destruct (Hs (endpoint_new l2)) as [C2 _]. apply expect_inv_ok in H2. rewrite H2 in C2. destruct C2 as (P2 & S2 & M2).
  rewrite P1, P2, S1, S2, M1, M2. split_and!; try done; apply elem_of_app; right; right; left.
Qed.

(** The defaults of [AeronServer] do not meet the client: it listens for
    responses on another stream. *)
Lemma default_server_misses_client :
  recv_stream (gateway_client_config aeron_config_default) <> send_stream server_config_default.
Proof. done. Qed.

(** [OrderSender] does not go to the directory of the driver. *)
Lemma sender_leaves_directory c e e' d :
  plain (orders_channel c) -> sender_connect c e = Ok tt e' -> SetDir d ∈ made (lib e') -> SetDir d ∈ made (lib e).
Proof.
  intros Ho Hrun.
  assert (runs (client_calls None ++ [AddPublication (orders_channel c) (orders_in_stream c)])
            (to_some (orders_channel c, orders_in_stream c)) id (sender_connect c)) as Hs.
  { apply runs_seq; [by apply start_client_runs|]. apply (runs_seq []); [by apply c_string_runs|].
    apply (runs_seq [_]); [apply call_runs|]. intros e0. simpl. rewrite app_nil_r. split; [done|]. intros Hf. by eexists. }
  destruct (Hs e) as [C _]. rewrite Hrun in C. destruct C as (_ & _ & ->). intros [Hin|Hin]%elem_of_app; [done|].
  apply list_elem_of_In in Hin. simpl in Hin. naive_solver.
Qed.

(** ** Fills *)

Definition typed_fill (m : FillMessage) : Prop :=
  is_u64 (fill_trade_id m) /\ is_u64 (fill_order_id m) /\ is_u64 (fill_user_id m) /\ 0 <= fill_symbol_id m < 4294967296 /\
  0 <= fill_side m < 256 /\ 0 <= fill_is_maker m < 256 /\ is_u64 (fill_price m) /\ is_u64 (fill_qty m) /\
  is_u64 (fill_quote_qty m) /\ is_u64 (fill_fee m) /\ is_u64 (fill_timestamp_ns m).

Lemma fill_roundtrip `{PaddingLaws} m : typed_fill m -> fill_from_bytes (fill_to_bytes m) = Some m.
Proof.
  intros (H1 & H2 & H3 & H4 & H5 & H6 & H7 & H8 & H9 & H10 & H11). unfold fill_from_bytes.
  assert (zlen (fill_to_bytes m) = 72) as ->.
  { unfold fill_to_bytes, zlen. by rewrite !length_app, !le_bytes_length, padding_length. }
  cbn [Z.eqb Pos.eqb]. destruct m as [t o u s sd mk pr q qq fe ts]. unfold fill_to_bytes.
  cbn [fill_trade_id fill_order_id fill_user_id fill_symbol_id fill_side fill_is_maker fill_price fill_qty
       fill_quote_qty fill_fee fill_timestamp_ns] in *.
  f_equal; f_equal; walk_field; auto with u64.
Qed.
