(* ===== verification/ServerStart.v ===== *)
(** * The start of the matching engine's process
    ([bin/matching_engine_server.rs], [main])

    The directory of the snapshots is emptied, the engine is made without a log
    of orders, and the symbols are registered, in the order of a hash map. *)

From stdpp Require Import gmap strings pretty.
From S2P Require Import Prelude OrderBook Ledger MatchingEngine SymbolManager EngineServer EngineServerProofs.

#[local] Open Scope string_scope.
#[local] Open Scope list_scope.
#[local] Open Scope Z_scope.
#[local] Open Scope rust_scope.

(** The assets of a symbol, which are written out in [main]. *)
Definition assets_of (symbol : string) : Z * Z :=
  if String.eqb symbol "BTC_USDT" then (1, 2) else if String.eqb symbol "ETH_USDT" then (3, 2) else (100, 2).

Section start.
Context {bp : BuildProfile} `{OrderLog W}.

(** [for (&symbol_id, symbol) in &symbol_manager.id_to_symbol]; the result is
    unwrapped. *)
Definition register_symbols (order : list (Z * string)) : M (MatchingEngine W) string unit :=
  expect (iter (fun x => let '(base, quote) := assets_of x.2 in register_symbol x.1 base quote) order).

(** [removed]: whether [remove_dir_all], whose result is ignored, removed the
    [snapshot] of an earlier run. *)
Definition start_engine (removed : bool) (snapshot : option EngineSnapshot) (order : list (Z * string))
  : res (MatchingEngine W) string unit :=
  register_symbols order (engine_new (if removed then None else snapshot) None).

(** The matcher that the threads start with. *)
Definition start_matcher (removed : bool) (snapshot : option EngineSnapshot) (order : list (Z * string))
  : option Matcher :=
  match start_engine removed snapshot order with
  | Ok _ e => Some (mkMatcher e tracker_new)
  | _ => None
  end.

(** ** What it starts with *)

(** Registering a symbol that has no book. *)
Lemma register_free i base quote (e : MatchingEngine W) :
  mjoin (engine_books e !! Z.to_nat i) = None ->
  exists e', register_symbol i base quote e = Ok tt e' /\
    (forall j, mjoin (engine_books e' !! j) = if decide (j = Z.to_nat i) then Some (book_new i) else mjoin (engine_books e !! j)) /\
    asset_map e' = <[i := (base, quote)]> (asset_map e) /\ order_wal e' = order_wal e /\
    output_seq (core e') = output_seq (core e) /\ last_output_hash (core e') = last_output_hash (core e) /\
    trade_id_gen (core e') = trade_id_gen (core e).
Proof.
  intros Hfree. unfold register_symbol, bind, get, ret, modify.
  assert (forall books, (Z.to_nat i < length books)%nat ->
    (forall j, mjoin (books !! j) = mjoin (engine_books e !! j)) ->
    forall j, mjoin (<[Z.to_nat i := Some (book_new i)]> books !! j) =
      if decide (j = Z.to_nat i) then Some (book_new i) else mjoin (engine_books e !! j)) as Hins.
  { intros books Hlt Hsame j. case_decide as Hj; [subst j; by rewrite list_lookup_insert_eq|].
    by rewrite list_lookup_insert_ne by congruence. }
  destruct (Nat.leb_spec (length (engine_books e)) (Z.to_nat i)) as [Hle|Hlt].
  - eexists. split; [done|]. split; [|done]. apply Hins.
    + unfold resize_books. rewrite length_app, length_replicate. lia.
    + intros j. unfold resize_books. destruct (decide (j < length (engine_books e))%nat) as [Hj|Hj].
      * by rewrite lookup_app_l.
      * rewrite lookup_app_r by lia. rewrite (lookup_ge_None_2 (engine_books e)) by lia. simpl.
        destruct (replicate _ _ !! _) as [x|] eqn:Hx; [|done]. by apply lookup_replicate in Hx as [-> _].
  - destruct (engine_books e !! Z.to_nat i) as [[b|]|] eqn:Hb; [done| |by apply lookup_ge_None in Hb; lia].
    eexists. split; [done|]. split; [|done]. by apply Hins.
Qed.

Lemma register_taken i base quote (e : MatchingEngine W) b :
  engine_books e !! Z.to_nat i = Some (Some b) ->
  register_symbol i base quote e = Err ("Symbol ID " +:+ pretty i +:+ " is already in use") e.
Proof.
  intros Hb. unfold register_symbol, bind, get. destruct (Nat.leb_spec (length (engine_books e)) (Z.to_nat i)) as [Hle|Hlt].
  - apply lookup_lt_Some in Hb. lia.
  - by rewrite Hb.
Qed.

Definition free (e : MatchingEngine W) (x : Z * string) : Prop := mjoin (engine_books e !! Z.to_nat x.1) = None.

(** Any number of symbols, none registered before, in any order. *)
Lemma register_all_free order (e : MatchingEngine W) :
  NoDup (map (fun x => Z.to_nat x.1) order) -> Forall (free e) order ->
  exists e', register_symbols order e = Ok tt e' /\
    (forall j, mjoin (engine_books e' !! j) =
       match List.find (fun x => Nat.eqb (Z.to_nat x.1) j) order with
       | Some x => Some (book_new x.1)
       | None => mjoin (engine_books e !! j)
       end) /\
    (forall id, asset_map e' !! id =
       match List.find (fun x => Z.eqb x.1 id) order with Some x => Some (assets_of x.2) | None => asset_map e !! id end) /\
    order_wal e' = order_wal e /\ output_seq (core e') = output_seq (core e) /\
    last_output_hash (core e') = last_output_hash (core e).
Proof.
  unfold register_symbols, expect. revert e. induction order as [|[i name] order IH]; intros e Hnd Hfree.
  { exists e. by split_and!. }
  cbn [map fst] in Hnd. apply NoDup_cons in Hnd as [Hi Hnd]. apply Forall_cons in Hfree as [Hf Hfree].
  cbn [iter fst snd]. unfold bind. destruct (assets_of name) as [base quote] eqn:Ha.
  destruct (register_free i base quote e Hf) as (e1 & -> & Hb1 & Hm1 & Hw1 & Hs1 & Hl1 & _).
  assert (forall x, x ∈ order -> Z.to_nat x.1 <> Z.to_nat i) as Hother.
  { intros x Hx Heq. apply Hi. rewrite <- Heq. by apply (list_elem_of_fmap_2 (fun x => Z.to_nat x.1)). }
  destruct (IH e1 Hnd) as (e2 & Hr & Hb2 & Hm2 & Hw2 & Hs2 & Hl2).
  { rewrite Forall_forall in Hfree |- *. intros x Hx. unfold free. rewrite Hb1, decide_False by by apply Hother. by apply Hfree. }
  exists e2. split; [by destruct (iter _ order e1); simplify_eq|]. split; [|split; [|split_and!; congruence]].
  - intros j. rewrite Hb2. cbn [List.find fst]. destruct (Nat.eqb_spec (Z.to_nat i) j) as [<-|Hne].
    + destruct (List.find _ order) as [x|] eqn:Hfind; [|by rewrite Hb1, decide_True].
      apply List.find_some in Hfind as [Hin Heq%Nat.eqb_eq]. by destruct (Hother x (proj2 (list_elem_of_In _ _) Hin)).
    + rewrite Hb1, decide_False by congruence. done.
  - intros id. rewrite Hm2. cbn [List.find fst snd]. destruct (Z.eqb_spec i id) as [<-|Hne].
    + rewrite Hm1, lookup_insert_eq. destruct (List.find _ order) as [x|] eqn:Hfind; [|by rewrite <- ?Ha].
      apply List.find_some in Hfind as [Hin Heq%Z.eqb_eq].
      destruct (Hother x (proj2 (list_elem_of_In _ _) Hin)). by rewrite Heq.
    + by rewrite Hm1, lookup_insert_ne by done.
Qed.

(** The symbols of the process, in whatever order the hash map gives them. *)
Definition listed (order : list (Z * string)) : Prop := order ≡ₚ map_to_list (id_to_symbol load_from_db).

Lemma listed_cases order : listed order -> order = [(0, "BTC_USDT"); (1, "ETH_USDT")] \/ order = [(1, "ETH_USDT"); (0, "BTC_USDT")].
Proof.
  intros Hl. apply Permutation_length_2_inv. symmetry. etrans; [exact Hl|]. vm_compute. apply perm_swap.
Qed.

(** The process starts on a clean ground: when no snapshot has survived, the
    engine has one empty book per symbol and no other, knows the assets of both,
    has no log, and numbers its outputs from 1; this does not depend on the order
    of the hash map. *)
Theorem server_starts_clean removed snapshot order :
  (removed = true \/ snapshot = None) -> listed order ->
  exists m, start_matcher removed snapshot order = Some m /\
    steady_at {[0 := (1, 2); 1 := (3, 2)]} (0, 0) (engine m) /\ msg_dedup m = tracker_new /\
    engine_books (engine m) = [Some (book_new 0); Some (book_new 1)].
Proof.
  intros Hclean Hl. unfold start_matcher, start_engine.
  assert ((if removed then None else snapshot) = None) as -> by by destruct Hclean as [->| ->]; [|destruct removed].
  destruct (listed_cases order Hl) as [-> | ->]; eexists; (split; [reflexivity|]); (split; [|done]); (split; [|done]); (split; [done|]).
  - by vm_compute.
  - by vm_compute.
Qed.

(** A symbol that has a book stops the registration of the whole list. *)
Lemma register_all_taken order (e : MatchingEngine W) x b :
  x ∈ order -> engine_books e !! Z.to_nat x.1 = Some (Some b) -> register_symbols order e = Panic.
Proof.
  unfold register_symbols, expect. revert e. induction order as [|[i name] order IH]; intros e Hx Hb; [by apply not_elem_of_nil in Hx|].
  cbn [iter fst snd]. unfold bind. destruct (assets_of name) as [base quote].
  destruct (mjoin (engine_books e !! Z.to_nat i)) as [b'|] eqn:Hfree.
  - destruct (engine_books e !! Z.to_nat i) as [[?|]|] eqn:Hi; [|done..]. by rewrite (register_taken i base quote e _ Hi).
  - destruct (register_free i base quote e Hfree) as (e1 & -> & Hb1 & _).
    apply elem_of_cons in Hx as [->|Hx]; [by rewrite (Hb : engine_books e !! Z.to_nat i = _) in Hfree|]. apply IH; [done|].
    specialize (Hb1 (Z.to_nat x.1)). rewrite decide_False, Hb in Hb1 by (intros Heq; by rewrite <- Heq, Hb in Hfree).
    by destruct (engine_books e1 !! Z.to_nat x.1) as [[?|]|]; simplify_eq/=.
Qed.

(** When the directory could not be removed and the snapshot in it has a book of
    either symbol, the process panics, in any order of the hash map. *)
Theorem surviving_snapshot_stops_server s order b i name :
  listed order -> id_to_symbol load_from_db !! i = Some name -> snap_order_books s !! Z.to_nat i = Some (Some b) ->
  start_matcher false (Some s) order = None.
Proof.
  intros Hl Hi Hb. unfold start_matcher, start_engine.
  rewrite (register_all_taken order _ (i, name) b); [done| |done]. unfold listed in Hl. rewrite Hl. by apply elem_of_map_to_list.
Qed.
End start.
